(* ===== verification/_CoqProject ===== *)
-Q . S2P
Prelude.v
Encoding.v
Secret.v
GoTime.v
Pending.v
Limits.v
Stats.v
GoStrings.v
GoNet.v
GoDuration.v
LimitsParse.v
HostPort.v
SecretSet.v
Proxy.v
API.v
APIServer.v
DC.v
ServeConn.v
GoIO.v
TLS.v
FakeTLS.v
HelloBound.v
Obfuscation.v
Frame.v
MiddleStream.v
MiddleProxy.v
MiddleShared.v
Call.v
Conns.v
Doppel.v
Scout.v
Ganger.v
Adapters.v
Relay.v
Tunnel.v
Admission.v
Session.v
Events.v
Metrics.v
Metering.v
Server.v
CircuitBreaker.v
Network.v
ConfigTypes.v
Config.v
Blocklist.v
UsageFile.v
Loops.v
Listener.v
Logger.v
RunProxy.v
HTTPClient.v
DCProbe.v
GetIP.v
BuildInfo.v
Cli.v
DoctorReport.v
