(* ===== verification/Prelude.v ===== *)
(** * mtg-multi: a verification library

    mtg-multi is an MTProto proxy for Telegram that serves many named secrets.
    A client connects, hides an authenticated hello inside a TLS client hello
    ("FakeTLS"), speaks the obfuscated2 protocol inside TLS records, and is
    relayed to a Telegram data centre, either directly or, when an advertising
    tag is configured, through a Telegram middle proxy.  A management API adds,
    removes and limits secrets while connections are being served.

    ** The parts and their files

    The program's parts call each other in the order of a connection's life; a
    file models the part it names, with one definition per operation under the
    name of the source where Rocq allows it.

    - Foundations.  This file: tactics, bytes, machine integers ([uwrap],
      [swrap]), fixed-width encodings, slices with [copy], the error type
      [goerr] and the result type [res] with its monad.  [Encoding]: hex and
      base64url.  [GoTime]: instants and durations of package time.
      [GoStrings]: the functions of strings, strconv and bufio that are used.
      [GoNet], [HostPort]: addresses, networks, host:port pairs and URLs.
      [GoDuration]: 64-bit floating point, time.ParseDuration and its printing.
      [GoIO]: a readable stream with io.ReadFull and io.CopyN.
    - [Secret] (mtglib/secret.go): a secret, its two textual forms and parsing.
    - [Limits], [LimitsParse] (mtglib/secret_limits.go): quota, reset period,
      expiry and the on/off switch of a secret, and the parsing of their texts.
    - [Pending] (mtglib/pending_handshakes.go): the limiter of unauthenticated
      connections per address; release closures are numbered tickets.
    - [Stats] (mtglib/proxy_stats.go, counting_conn.go): per-secret counters at
      64 bits, quota periods, fair connection caps, persistence in a file
      replaced by rename.
    - [SecretSet] (secretSet of mtglib/proxy.go): the immutable snapshot of the
      configured secrets and its copy-on-write round trip.
    - [Proxy] (mtglib/proxy.go, proxy_api.go): reload, replacement, put and
      delete of secrets, the advertising tag, and the streams each closes.
    - [API] (mtglib/proxy_api.go): every HTTP route with parsing, status codes
      and effects.  [APIServer] (startAPIServer): the HTTP server that
      serves them, from its listener to the end of the context.
    - [DC] (mtglib/internal/dc, doTelegramCall of mtglib/proxy.go): address
      tables, IP preference, the hourly update and the choice of a server.
    - [ServeConn] (ServeConn, doFakeTLSHandshake, doDomainFrontingForHost of
      mtglib/proxy.go, stream_context.go): the life of a connection between its
      blocking calls, and the interleaving of any number of connections with
      the management API, the throttle loop and the quota roll-over.
    - [TLS] (mtglib/internal/tls): records and the record connection.
    - [FakeTLS] (mtglib/internal/tls/fake): reassembly, parsing and
      authentication of the client hello; the server hello.  [HelloBound]: how
      much is read of the hello of an unknown client.
    - [Obfuscation] (mtglib/obfuscation): the 64-byte handshake of both sides
      and the connection over two key streams.
    - [Frame] (mtglib/internal/middleproxy/frame.go): RPC frames over any
      [ReadWriter], AES-CBC over a socket, CRC-32.
    - [MiddleStream] (stream.go, tags.go): the adapter between the client's
      packet stream and RPC messages.
    - [MiddleProxy] (cipher.go, handshake.go, manager.go): key schedule, RPC
      handshake, configuration, address order and dialling.  [MiddleShared]: the
      same manager used by many streams, the warm-up and the refresh at once.
      [Call] (doTelegramCall, doMiddleProxyCall, wrapTraffic and the end of a
      stream): [DC] and [MiddleProxy] put together.
    - [Conns] (mtglib/conns.go): the rewinding, idle-timeout, traffic and
      proxy-protocol wrappers, and a connection with half-closes.  [Adapters]
      (essentials/conns.go, internal/proxyprotocol, mtglib/internal/relay/pools.go):
      the adapters between connection types and the shared buffers.  [Relay]
      (mtglib/internal/relay/relay.go): the relay call by call, that is the two
      copying loops with partial and failing reads and writes, their deferred
      half-closes, the function that runs when the context ends, and the main
      goroutine.  [Tunnel] composes the layers of a stream into the whole path
      between a client and a data centre or a middle proxy.
    - [Admission] (doFakeTLSHandshake and doDomainFrontingForHost, over the bytes
      of a client) composes [FakeTLS], [SecretSet], [Proxy] and [Conns];
      [Session] composes it with [Tunnel], from the first byte of a client on.
    - [Doppel] (mtglib/internal/doppel): the shaping connection, its sending
      goroutine with the condition variable it sleeps on, record sizes and the
      calibration of the server hello's noise.
      [Scout] (scout.go, scout_conn.go, scout_conn_collected.go): the connection
      that notes the records of a web server, and what is measured from them.
      [Ganger] (stats.go, ganger.go): the fit of the delays in 64-bit floating
      point and the goroutine that owns the measurements.
    - [Events] (mtglib/events.go, events/): the events of a connection, their
      routing by stream to goroutines that each own observers, and shutdown.
      [Metrics] (stats/): the Prometheus and the statsd observer with all their
      handlers.  [Metering] composes [ServeConn], [Events] and [Metrics].
    - [Server] (accept.go, proxy_opts.go, init.go, NewProxy, Serve and Shutdown
      of mtglib/proxy.go, internal/acceptretry, internal/logthrottle): options
      and construction, the accept loop, start and stop with the counter of the
      wait group.
    - [CircuitBreaker] (network/circuit_breaker.go): states, counters, timers
      and the calls in flight.  [Network] (the rest of network/ and network/v2/):
      dialers, SOCKS5, load balancing, the DNS cache and the idle connections of
      its HTTP client, joined networks, over an environment of sockets.  [HTTPClient]: the HTTP clients that the layers of
      a network make, and the native dialer.
    - [ConfigTypes] (internal/config/type_*.go): the option types.  [Config]
      (config.go, parse.go, env.go, internal/utils/read_config.go): decoding,
      environment, validation, getters.
    - [Blocklist] (ipblocklist/, antireplay/): lists of networks, their files and
      their parallel update under a mutex; the parameters of the anti-replay
      filter.
    - [UsageFile] ([FlushUsage] again, as system calls on files with names): what
      a crash or a second flush does to the usage file.
    - [Loops]: the five goroutines that repeat an operation on a ticker.  Each is
      a small program of its own (calls, [select] with its cases, [return]), with
      one semantics for the statements; operations may block.
    - [Listener] (internal/utils/net_listener.go): the listener that sets socket
      options and the one that merges several.  [Logger] (logger/, internal/cli):
      bound parameters, levels and names of loggers.
    - [RunProxy] (internal/cli/run_proxy.go): from a configuration to a running
      proxy, and its exit status.  [DCProbe] (mtglib/dcprobe): the probe of a
      data centre.  [GetIP] (internal/cli/get_ip.go): the parallel search for the
      public address.  [BuildInfo] (buildinfo.go): the version string and the
      checksum of the dependencies.  [Cli] (the other commands of internal/cli):
      doctor, access, simple-run, generate-secret.  [DoctorReport]: what the doctor
      prints.

    ** State and effects

    A struct is a [Record]; a method is a function from the state to the state
    and a result.  Errors are values of [res] or [option goerr] and keep the
    source's wrapping.  Operations that run under a mutex are one step.
    Goroutines are interleaved: [ServeConn] cuts a connection at its blocking
    calls and takes their outcomes as inputs; [Pending], [ServeConn], [Events],
    [Server], [CircuitBreaker], [Listener], [Ganger], [UsageFile], [Loops],
    [Relay], [Doppel], [Blocklist], [MiddleShared], [APIServer], [GetIP] and
    [RunProxy] define reachability by a step relation, and the invariants are
    proved by induction on it.  Where a claim depends on it the means of
    synchronisation are state: the mutex of [Blocklist], the condition variable
    of [Doppel], the wait group of [Server].  [Ganger] keeps slices in a heap,
    because two goroutines share an array.  Counters, ports, lengths and sequence numbers
    wrap at their width.
    An index out of range is [None], excluded by the theorems.

    ** Interfaces and parameters

    [Frame.ReadWriter] states what a frame needs of io.ReadWriter, with the law
    that reading over a transport is reading its plain stream; a socket and a
    CBC connection implement it.  [Obfuscation.Crypto], [Frame.BlockCipher],
    [MiddleProxy.Digests] and the HMAC of [FakeTLS] stand for the cryptographic
    primitives of which only lengths and invertibility are assumed, as classes
    of laws; each theorem that uses one has an example with a concrete
    instance.  [Events.Observer] is what the event stream needs of an observer;
    [Network.NetEnv] is the system below the dialers (sockets, proxies, name
    servers, random choices), [Blocklist.Ranger] the prefix trie with
    [RangerLaws], [ConfigTypes.ConfigEnv] the parsers of URLs and sizes and the
    file system, [ConfigTypes.Lawful] what the text of an option promises.
    [Ganger.Math] is the logarithm and the power of package math.
    Other third-party code (TOML and JSON decoding, metric clients), the
    network, the clock and the random source are arguments.

    ** What the theorems show

    - Configuration: every mutation of the secrets refines the update of an
      abstract table or leaves everything unchanged, closes exactly the streams
      it must (those of disabled or expired secrets too, whatever the mutation),
      the API is total and atomic, and snapshots and limits survive
      their round trips.
    - Serving: in every interleaving the connection counters equal the number of
      counted streams, a pending slot is held from the arrival of a stream until
      its server hello is sent or it is fronted, events are bracketed, identities are consistent, and nothing is
      left when all streams are done; [reload_race] exhibits the one stream a
      reload misses.
    - Accounting: caps are max-min fair, traffic is counted once, quotas roll
      over monthly, and a crash at any system call leaves the usage file as the
      last flush wrote it, unless two flushes overlap ([shutdown_flush_race]).
    - Protocol: records, obfuscated2 and both directions of the middle-proxy
      channel carry the bytes they are given, in any pieces; a client hello is
      accepted exactly with a secret's HMAC, a fresh time and a served host; the
      RPC handshake and the frame reader accept exactly what a conforming peer
      sends.
    - Sessions: only a client that knows a key of the configuration is greeted,
      with everything that the configuration has for that name
      ([admission_sound]); such a client is greeted and what it sends behind its
      hello is what the data centre or the middle proxy decodes, and back
      ([session_end_to_end]);
      whoever is sent to the fronting host cannot tell two proxies with the same
      hosts apart by where its bytes go ([prober_blind]).  The hello of an unknown
      client is read up to a bound ([hello_bounded]); what follows it is relayed
      to the fronting host without one.
    - Calls: a call leaves one connection, the stream's, or none, whichever of
      middle proxy and data centre answers; a stream dials only with a secret and
      addresses that were published, whatever runs at the same time.
    - Transport: a connection that is not ours is replayed to the fronting host
      from its first byte, the shaper keeps the stream, cuts it into records
      a client can read, misses no wake-up and ends when it is stopped, the relay
      delivers prefixes in order and ends with both connections closed;
      [relay_half_close] shows what the half-closes of the relay cut off.
    - Calibration: the samples, the noise parameters and the fitted delays are
      those of the last measurements in every interleaving, scouting hides
      nothing from the client above it; [zero_pause_degenerates] and
      [shutdown_panics] show a fit that fails and a race at the end.
    - Background work: every periodic loop runs its operation at most once per
      period, whole and never overlapping, and returns after the context ends; an
      update of a list cannot deadlock and ends within a bound.
    - Observation: every event of a stream reaches one goroutine's observers in
      order unless its context is over; both exporters refine one abstract table
      of streams, and in every interleaving their gauges count the connections;
      [closed_stream_leaks] shows the case in which a count stays.
    - Server: the loop admits, refuses or skips each connection as documented,
      pauses between bounds after temporary errors, and Shutdown waits for the
      streams it has counted; a proxy starts exactly from valid options.
    - Network: no dialer of the first package leaks a socket beyond the two that
      the resolver's HTTP client may keep, the load balancer tries every proxy
      once in a rotated order, the circuit breaker opens exactly at its threshold
      and leaves the open state; [breaker_stuck] and [v2_dial_leaks] are its exceptions.  HTTP
      clients dial through the configured proxies and never around them
      ([http_clients]); the resolver's client needs no resolver.
    - Configuration files: options print to texts they parse from, are within
      bounds, validation is characterised, the environment wins; a running proxy
      serves exactly the secrets, tags and limits of its configuration; a list
      contains exactly what its files say; the exit status reports a failure of
      the accept loop and nothing else; the doctor examines the address the
      proxy uses; [runProxy] starts exactly when every part can be built, the
      API server is gone five seconds after its context ends, the search for the
      public address returns what a service found or why none did; the report of
      the doctor has a complaint exactly when its exit status is 1.

    ** Fuel

    Loops that are not structural take fuel: reading loops the number of bytes
    that are left (every round consumes some), the fragment loops of [FakeTLS]
    thirteen rounds (the eleventh fragment is the last), decimal printing twenty
    digits, the loop of the load balancer one round more than there are proxies
    (its index is back at the start by then).  The theorems that a result is produced hold with this fuel.

    ** Not modelled

    The logarithm and power of the fit, which are parameters; the HTTP protocol,
    below the handlers and above the dial functions (of [http.Transport] only the
    idle pool of the resolver, of [http.ServeMux] no redirects); the text of log lines and of
    errors; the JSON that [access] prints; the command-line parser; the profiling server; the
    benchmarks and test helpers; socket options of systems other than Linux; the
    third-party filters, tries and PROXY protocol parser.  Where
    [ServeConn] calls a part that is modelled in a file of its own (the client
    hello, the call to Telegram, the relay), the outcome is an input there: its
    theorems hold for every outcome, and [Admission.handshake_refines] and
    [Call.call_refines] show that what the parts compute are such outcomes. *)

From stdpp Require Export base gmap sets list strings fin_maps sorting.
From coqutil Require Export Byte Word.LittleEndianList.
From Stdlib Require Export ZArith Lia.

#[export] Set Default Goal Selector "1".
Global Open Scope Z_scope.

Arguments Z.max : simpl never.
Arguments Z.min : simpl never.
Arguments Z.add : simpl never.
Arguments Z.sub : simpl never.
Arguments Z.mul : simpl never.
Arguments Z.pow : simpl never.
Arguments Z.quot : simpl never.
Arguments Z.of_nat : simpl never.

(** ** Automation shared by the whole library *)

(** Lemmas that close the routine side conditions: lengths of encodings,
    machine-integer ranges, lookups after an update. *)
Create HintDb golib discriminated.

Create Rewrite HintDb golib.

(** [go_cases] splits on every [match] and [if] of the goal and simplifies the
    equations this leaves. *)
Ltac go_cases := repeat (case_match; simplify_eq/=; try done).

(** [zbool] turns the boolean comparisons of the context into propositions. *)
Ltac zbool :=
  repeat match goal with
  | H : (_ && _)%bool = true |- _ => apply andb_true_iff in H; destruct H
  | H : (_ && _)%bool = false |- _ => apply andb_false_iff in H
  | H : (_ || _)%bool = false |- _ => apply orb_false_iff in H; destruct H
  | H : (_ || _)%bool = true |- _ => apply orb_true_iff in H
  | H : negb _ = true |- _ => apply negb_true_iff in H
  | H : negb _ = false |- _ => apply negb_false_iff in H
  | H : (_ <? _) = true |- _ => apply Z.ltb_lt in H
  | H : (_ <? _) = false |- _ => apply Z.ltb_ge in H
  | H : (_ <=? _) = true |- _ => apply Z.leb_le in H
  | H : (_ <=? _) = false |- _ => apply Z.leb_gt in H
  | H : (_ =? _) = true |- _ => apply Z.eqb_eq in H
  | H : (_ =? _) = false |- _ => apply Z.eqb_neq in H
  | H : (_ <? _)%nat = true |- _ => apply Nat.ltb_lt in H
  | H : (_ <? _)%nat = false |- _ => apply Nat.ltb_ge in H
  | H : (_ <=? _)%nat = true |- _ => apply Nat.leb_le in H
  | H : (_ <=? _)%nat = false |- _ => apply Nat.leb_gt in H
  | H : (_ =? _)%nat = true |- _ => apply Nat.eqb_eq in H
  | H : (_ =? _)%nat = false |- _ => apply Nat.eqb_neq in H
  | H : bool_decide _ = true |- _ => apply bool_decide_eq_true in H
  | H : bool_decide _ = false |- _ => apply bool_decide_eq_false in H
  end.

(** ** Bytes *)

#[export] Instance byte_eq_dec : EqDecision byte := Byte.byte_eq_dec.

#[export] Instance byte_inhabited : Inhabited byte := populate Byte.x00.

(** Go converts between [string] and [[]byte] without changing the bytes. *)
Definition bytes_of_string : string -> list byte := String.list_byte_of_string.

Definition string_of_bytes : list byte -> string := String.string_of_list_byte.

Lemma bytes_of_string_of_bytes l : bytes_of_string (string_of_bytes l) = l.
Proof. apply String.list_byte_of_string_of_list_byte. Qed.

Lemma string_of_bytes_of_string s : string_of_bytes (bytes_of_string s) = s.
Proof. apply String.string_of_list_byte_of_string. Qed.

#[export] Hint Rewrite bytes_of_string_of_bytes string_of_bytes_of_string : golib.

Lemma string_of_bytes_empty l : string_of_bytes l = "" <-> l = [].
Proof.
  split; [intros H | by intros ->].
  rewrite <- (bytes_of_string_of_bytes l), H. done.
Qed.

Lemma bytes_of_string_nil s : bytes_of_string s = [] <-> s = "".
Proof.
  split; [intros H | by intros ->].
  rewrite <- (string_of_bytes_of_string s), H. done.
Qed.

Lemma byte_unsigned_of_Z_small z : 0 <= z < 256 -> byte.unsigned (byte.of_Z z) = z.
Proof. intros. rewrite byte.unsigned_of_Z. apply Z.mod_small. lia. Qed.

(** Exclusive or, byte by byte. *)
Definition xor_byte (x y : byte) : byte := byte.of_Z (Z.lxor (byte.unsigned x) (byte.unsigned y)).

Definition xor_bytes (a b : list byte) : list byte := zip_with xor_byte a b.

Lemma lxor_range n a b : 0 <= n -> 0 <= a < 2 ^ n -> 0 <= b < 2 ^ n -> 0 <= Z.lxor a b < 2 ^ n.
Proof.
  intros Hn Ha Hb. assert (0 <= Z.lxor a b) by (apply Z.lxor_nonneg; lia). split; [done|].
  destruct (decide (Z.lxor a b = 0)) as [->|]; [by apply Z.pow_pos_nonneg|].
  apply Z.log2_lt_pow2; [lia|]. eapply Z.le_lt_trans; [apply Z.log2_lxor; lia|].
  destruct (decide (n = 0)) as [->|]; [assert (a = 0) as -> by lia; assert (b = 0) as -> by lia; done|].
  apply Z.max_lub_lt; (destruct (decide (0 < n)); [|lia]).
  - destruct (decide (a = 0)) as [->|]; [simpl; lia|apply Z.log2_lt_pow2; lia].
  - destruct (decide (b = 0)) as [->|]; [simpl; lia|apply Z.log2_lt_pow2; lia].
Qed.

Lemma byte_lxor_range x y : 0 <= Z.lxor (byte.unsigned x) (byte.unsigned y) < 256.
Proof.
  apply (lxor_range 8); [lia|apply byte.unsigned_range..].
Qed.

Lemma unsigned_xor_byte x y : byte.unsigned (xor_byte x y) = Z.lxor (byte.unsigned x) (byte.unsigned y).
Proof. apply byte_unsigned_of_Z_small, byte_lxor_range. Qed.

Lemma xor_byte_cancel x y : xor_byte x (xor_byte x y) = y.
Proof.
  apply byte.unsigned_inj. rewrite !unsigned_xor_byte, <-Z.lxor_assoc, Z.lxor_nilpotent. apply Z.lxor_0_l.
Qed.

Lemma xor_byte_comm x y : xor_byte x y = xor_byte y x.
Proof. unfold xor_byte. by rewrite Z.lxor_comm. Qed.

Lemma xor_byte_zero x y : xor_byte x y = Byte.x00 -> x = y.
Proof.
  intros H. apply (f_equal byte.unsigned) in H. rewrite unsigned_xor_byte in H.
  apply byte.unsigned_inj. by apply Z.lxor_eq.
Qed.

Lemma xor_bytes_cancel a b : length a = length b -> xor_bytes a (xor_bytes a b) = b.
Proof.
  intros H. apply Forall2_same_length in H. unfold xor_bytes. induction H as [|x y a b _ _ IH]; [done|]. simpl.
  by rewrite xor_byte_cancel, IH.
Qed.

Lemma xor_bytes_invol a k : length a = length k -> xor_bytes (xor_bytes a k) k = a.
Proof.
  intros Hl. unfold xor_bytes. apply Forall2_same_length in Hl. induction Hl as [|x y a k _ _ IH]; [done|]. simpl.
  rewrite IH. f_equal. rewrite (xor_byte_comm (xor_byte x y)), (xor_byte_comm x y). apply xor_byte_cancel.
Qed.

Lemma length_xor_bytes a b : length (xor_bytes a b) = (length a `min` length b)%nat.
Proof. apply length_zip_with. Qed.

(** ** Machine integers *)

(** The value of [z] converted to a [w]-bit unsigned, and signed, integer. *)
Definition uwrap (w z : Z) : Z := z mod 2 ^ w.

Definition swrap (w z : Z) : Z := (z + 2 ^ (w - 1)) mod 2 ^ w - 2 ^ (w - 1).

Definition int64 : Z -> Z := swrap 64.

Definition max_int64 : Z := 2 ^ 63 - 1.

Definition min_int64 : Z := - 2 ^ 63.

Lemma uwrap_range w z : 0 <= w -> 0 <= uwrap w z < 2 ^ w.
Proof. intros. apply Z.mod_pos_bound, Z.pow_pos_nonneg; lia. Qed.

Lemma uwrap_small w z : 0 <= z < 2 ^ w -> uwrap w z = z.
Proof. apply Z.mod_small. Qed.

Lemma swrap_range w z : 0 < w -> - 2 ^ (w - 1) <= swrap w z < 2 ^ (w - 1).
Proof.
  intros Hw. unfold swrap.
  assert (2 ^ w = 2 * 2 ^ (w - 1)) as ->.
  { rewrite <- Z.pow_succ_r by lia. f_equal; lia. }
  pose proof (Z.pow_pos_nonneg 2 (w - 1)).
  pose proof (Z.mod_pos_bound (z + 2 ^ (w - 1)) (2 * 2 ^ (w - 1))). lia.
Qed.

Lemma swrap_small w z : 0 < w -> - 2 ^ (w - 1) <= z < 2 ^ (w - 1) -> swrap w z = z.
Proof.
  intros Hw Hz. unfold swrap.
  rewrite Z.mod_small; [lia|].
  assert (2 ^ w = 2 * 2 ^ (w - 1)) as ->; [|lia].
  rewrite <- Z.pow_succ_r by lia. f_equal; lia.
Qed.

Lemma swrap_uwrap w z : 0 < w -> - 2 ^ (w - 1) <= z < 2 ^ (w - 1) -> swrap w (uwrap w z) = z.
Proof.
  intros Hw Hz. rewrite <-(swrap_small w z) at 2 by done. unfold swrap, uwrap.
  by rewrite Zplus_mod_idemp_l.
Qed.

Lemma uwrap_swrap w z : 0 < w -> 0 <= z < 2 ^ w -> uwrap w (swrap w z) = z.
Proof.
  intros Hw Hz. unfold swrap, uwrap. rewrite Zminus_mod_idemp_l.
  rewrite Z.add_simpl_r. by apply Z.mod_small.
Qed.

Lemma int64_small z : min_int64 <= z <= max_int64 -> int64 z = z.
Proof. intros. apply swrap_small; [lia|]. unfold min_int64, max_int64 in *. lia. Qed.

(** ** Fixed-width encodings: encoding/binary *)

(** [le_split n] and [le_combine] are PutUint/Uint in little-endian order; the
    big-endian forms reverse the byte order. *)
Definition be_split (n : nat) (z : Z) : list byte := reverse (le_split n z).

Definition be_combine (l : list byte) : Z := le_combine (reverse l).

Lemma length_be_split n z : length (be_split n z) = n.
Proof. unfold be_split. by rewrite length_reverse, length_le_split. Qed.

Lemma be_combine_split n z : 0 <= z < 2 ^ (Z.of_nat n * 8) -> be_combine (be_split n z) = z.
Proof.
  intros. unfold be_combine, be_split.
  rewrite reverse_involutive, le_combine_split. by apply Z.mod_small.
Qed.

Lemma be_split_combine l : be_split (length l) (be_combine l) = l.
Proof.
  unfold be_combine, be_split.
  rewrite <- (length_reverse l), split_le_combine. apply reverse_involutive.
Qed.

Lemma be_combine_bound l : 0 <= be_combine l < 2 ^ (8 * Z.of_nat (length l)).
Proof. unfold be_combine. rewrite <- length_reverse. apply le_combine_bound. Qed.

Lemma le_combine_split_small n z :
  0 <= z < 2 ^ (Z.of_nat n * 8) -> le_combine (le_split n z) = z.
Proof. intros. rewrite le_combine_split. by apply Z.mod_small. Qed.

#[export] Hint Rewrite length_be_split length_le_split @length_reverse : golib.

Arguments be_split : simpl never.
Arguments be_combine : simpl never.

(** ** Slices *)

(** [l[lo:hi]] of a slice that is long enough. *)
Definition slice {A} (lo hi : nat) (l : list A) : list A := take (hi - lo) (drop lo l).

Lemma length_slice {A} lo hi (l : list A) :
  (hi <= length l)%nat -> length (slice lo hi l) = (hi - lo)%nat.
Proof. intros. unfold slice. rewrite length_take, length_drop. lia. Qed.

Lemma slice_app_r {A} lo hi (l k : list A) :
  (length l <= lo)%nat ->
  slice lo hi (l ++ k) = slice (lo - length l) (hi - length l) k.
Proof. intros. unfold slice. rewrite drop_app_ge by done. f_equal. lia. Qed.

Lemma slice_0_all {A} (l : list A) n : n = length l -> slice 0 n l = l.
Proof. intros ->. unfold slice. rewrite drop_0. apply take_ge. lia. Qed.

Lemma drop_slice {A} lo hi (l : list A) :
  (lo <= hi)%nat -> slice lo hi l ++ drop hi l = drop lo l.
Proof.
  intros. unfold slice. rewrite <- (take_drop (hi - lo) (drop lo l)) at 2.
  rewrite drop_drop. do 2 f_equal. lia.
Qed.

(** [copy(dst[off:], src)]: overwrites from [off], keeping the length of
    [dst]. *)
Definition copy_at {A} (off : nat) (src dst : list A) : list A :=
  take off dst ++ take (length dst - off) src ++ drop (off + length src) dst.

Lemma length_copy_at {A} off (src dst : list A) : length (copy_at off src dst) = length dst.
Proof.
  unfold copy_at. rewrite !length_app, !length_take, length_drop. lia.
Qed.

Lemma slice_mid {A} lo hi (a b c : list A) :
  lo = length a -> hi = (lo + length b)%nat -> slice lo hi (a ++ b ++ c) = b.
Proof.
  intros -> ->. unfold slice. rewrite drop_app_length. apply take_app_length'. lia.
Qed.

Lemma copy_at_mid {A} off (a b b' c : list A) :
  off = length a -> length b = length b' -> copy_at off b' (a ++ b ++ c) = a ++ b' ++ c.
Proof.
  intros -> Hb. unfold copy_at. rewrite take_app_length. f_equal. f_equal.
  - apply take_ge. rewrite !length_app. lia.
  - rewrite <-Hb, app_assoc. apply drop_app_length'. by rewrite length_app.
Qed.

(** ** Errors *)

(** A Go error: a sentinel or a message, possibly wrapping another error as
    [fmt.Errorf("...: %w", err)] does. *)
Inductive goerr : Type :=
  | EOF
  | ErrUnexpectedEOF
  | Errorf (msg : string)
  | Wrap (msg : string) (e : goerr).

#[export] Instance goerr_eq_dec : EqDecision goerr.
Proof. solve_decision. Defined.

(** [errors.Is(e, target)]. *)
Fixpoint errors_is (e target : goerr) : bool :=
  bool_decide (e = target) ||
  match e with Wrap _ e' => errors_is e' target | _ => false end.

Lemma errors_is_wrap m e target : errors_is e target = true -> errors_is (Wrap m e) target = true.
Proof. simpl. intros ->. apply orb_true_r. Qed.

Lemma errors_is_refl e : errors_is e e = true.
Proof. unfold errors_is. destruct e; by rewrite bool_decide_eq_true_2. Qed.

(** A function that returns [(A, error)]: a value, or an error. *)
Inductive res (A : Type) : Type :=
  | Ok (a : A)
  | Fail (e : goerr).
Arguments Ok {A} a.
Arguments Fail {A} e.

#[export] Instance res_ret : MRet res := fun _ => Ok.

#[export] Instance res_bind : MBind res :=
  fun _ _ f r => match r with Ok a => f a | Fail e => Fail e end.

#[export] Instance res_eq_dec `{EqDecision A} : EqDecision (res A).
Proof. solve_decision. Defined.

(** [if err != nil { return fmt.Errorf(m, err) }]. *)
Definition wrap_err {A} (m : string) (r : res A) : res A :=
  match r with Ok a => Ok a | Fail e => Fail (Wrap m e) end.

Definition is_ok {A} (r : res A) : bool :=
  match r with Ok _ => true | Fail _ => false end.

Lemma bind_ok {A B} (r : res A) (f : A -> res B) b :
  (r ≫= f) = Ok b <-> exists a, r = Ok a /\ f a = Ok b.
Proof. destruct r; simpl; naive_solver. Qed.

Lemma wrap_err_ok {A} m (r : res A) a : wrap_err m r = Ok a <-> r = Ok a.
Proof. destruct r; simpl; naive_solver. Qed.

(** [res_inv H] splits a successful monadic computation [H] into its steps. *)
Ltac res_inv H :=
  repeat first
    [ apply bind_ok in H; let a := fresh "a" in let Ha := fresh "Ha" in
      destruct H as (a & Ha & H); try apply wrap_err_ok in Ha
    | apply wrap_err_ok in H ].
