(* ===== verification/Encoding.v ===== *)
(** * Text encodings: [encoding/hex] and [encoding/base64]

    The two textual forms of a secret (mtglib/secret.go) are produced and read
    by Go's [hex] and [base64.RawURLEncoding].  Both codecs are written out
    here on byte lists, with the leniency of the decoders: hex accepts both
    cases, base64 skips CR and LF and ignores the unused trailing bits. *)

From S2P Require Import Prelude.

(** ** [encoding/hex] *)

Definition hex_char (n : Z) : byte :=
  byte.of_Z (if n <? 10 then 48 + n else 87 + n).

Definition hex_value (b : byte) : option Z :=
  let c := byte.unsigned b in
  if (48 <=? c) && (c <=? 57) then Some (c - 48)
  else if (97 <=? c) && (c <=? 102) then Some (c - 87)
  else if (65 <=? c) && (c <=? 70) then Some (c - 55)
  else None.

(** [hex.EncodeToString]. *)
Fixpoint hex_encode (l : list byte) : list byte :=
  match l with
  | [] => []
  | b :: l => hex_char (byte.unsigned b / 16) :: hex_char (byte.unsigned b mod 16) :: hex_encode l
  end.

Definition hex_invalid : goerr := Errorf "encoding/hex: invalid byte".

Definition hex_odd : goerr := Errorf "encoding/hex: odd length hex string".

(** [hex.DecodeString]; a trailing single character is reported as invalid
    first, as an odd length otherwise. *)
Fixpoint hex_decode (l : list byte) : res (list byte) :=
  match l with
  | [] => Ok []
  | [a] => match hex_value a with None => Fail hex_invalid | Some _ => Fail hex_odd end
  | a :: b :: l =>
      match hex_value a, hex_value b with
      | Some x, Some y => rest ← hex_decode l; Ok (byte.of_Z (16 * x + y) :: rest)
      | _, _ => Fail hex_invalid
      end
  end.

(** ** [base64.RawURLEncoding] *)

Definition b64_alphabet : list byte :=
  bytes_of_string "ABCDEFGHIJKLMNOPQRSTUVWXYZabcdefghijklmnopqrstuvwxyz0123456789-_".

Definition b64_char (n : Z) : byte := nth (Z.to_nat n) b64_alphabet Byte.x00.

Definition b64_value (b : byte) : option Z :=
  let c := byte.unsigned b in
  if (65 <=? c) && (c <=? 90) then Some (c - 65)
  else if (97 <=? c) && (c <=? 122) then Some (c - 71)
  else if (48 <=? c) && (c <=? 57) then Some (c + 4)
  else if c =? 45 then Some 62
  else if c =? 95 then Some 63
  else None.

(** [EncodeToString]: no padding, so a tail of one byte gives two characters
    and a tail of two bytes three. *)
Fixpoint b64_encode (l : list byte) : list byte :=
  match l with
  | [] => []
  | [a] =>
      let v := byte.unsigned a * 65536 in
      [b64_char (v / 262144); b64_char (v / 4096 mod 64)]
  | [a; b] =>
      let v := byte.unsigned a * 65536 + byte.unsigned b * 256 in
      [b64_char (v / 262144); b64_char (v / 4096 mod 64); b64_char (v / 64 mod 64)]
  | a :: b :: c :: l =>
      let v := byte.unsigned a * 65536 + byte.unsigned b * 256 + byte.unsigned c in
      b64_char (v / 262144) :: b64_char (v / 4096 mod 64) ::
      b64_char (v / 64 mod 64) :: b64_char (v mod 64) :: b64_encode l
  end.

Definition b64_corrupt : goerr := Errorf "illegal base64 data at input byte".

(** The sextets of the input, in order; any other character is an error. *)
Fixpoint b64_sextets (l : list byte) : res (list Z) :=
  match l with
  | [] => Ok []
  | b :: l =>
      match b64_value b with
      | None => Fail b64_corrupt
      | Some v => rest ← b64_sextets l; Ok (v :: rest)
      end
  end.

Fixpoint b64_group (l : list Z) : res (list byte) :=
  match l with
  | [] => Ok []
  | [_] => Fail b64_corrupt
  | [i; j] => Ok [byte.of_Z ((i * 64 + j) / 16)]
  | [i; j; k] =>
      let v := (i * 4096 + j * 64 + k) / 4 in
      Ok [byte.of_Z (v / 256); byte.of_Z v]
  | i :: j :: k :: m :: l =>
      let v := i * 262144 + j * 4096 + k * 64 + m in
      rest ← b64_group l;
      Ok (byte.of_Z (v / 65536) :: byte.of_Z (v / 256) :: byte.of_Z v :: rest)
  end.

Definition is_newline (b : byte) : bool :=
  (byte.unsigned b =? 10) || (byte.unsigned b =? 13).

(** [DecodeString], which skips line breaks. *)
Definition b64_decode (l : list byte) : res (list byte) :=
  b64_sextets (List.filter (fun b => negb (is_newline b)) l) ≫= b64_group.

(** ** Proofs *)

Lemma hex_value_char n : 0 <= n < 16 -> hex_value (hex_char n) = Some n.
Proof.
  intros. unfold hex_value, hex_char.
  destruct (n <? 10) eqn:E; zbool; rewrite byte_unsigned_of_Z_small by lia;
    repeat (case_match; zbool); f_equal; lia.
Qed.

Lemma byte_of_nibbles b : byte.of_Z (16 * (byte.unsigned b / 16) + byte.unsigned b mod 16) = b.
Proof. rewrite <- Z.div_mod by lia. apply byte.of_Z_unsigned. Qed.

(** Decoding an encoding gives the bytes back. *)
Lemma hex_decode_encode l : hex_decode (hex_encode l) = Ok l.
Proof.
  induction l as [|b l IH]; [done|].
  pose proof (byte.unsigned_range b). simpl.
  rewrite !hex_value_char, IH by
    (split; [apply Z.div_pos || apply Z.mod_pos_bound | apply Z.div_lt_upper_bound || apply Z.mod_pos_bound]; lia).
  simpl. by rewrite byte_of_nibbles.
Qed.

Lemma length_hex_encode l : length (hex_encode l) = (2 * length l)%nat.
Proof. induction l; simpl; lia. Qed.

Lemma hex_decode_length l k : hex_decode l = Ok k -> length l = (2 * length k)%nat.
Proof.
  revert k. induction l as [l IH] using (induction_ltof1 _ (@length _)).
  intros k H. destruct l as [|a [|b l]]; simpl in H; [by inv H | by case_match |].
  destruct (hex_value a), (hex_value b); try done.
  apply bind_ok in H as (r & Hr & H). inv H.
  apply IH in Hr; [|unfold ltof; simpl; lia]. simpl. lia.
Qed.

Lemma hex_encode_inj l k : hex_encode l = hex_encode k -> l = k.
Proof.
  intros H. assert (Ok l = Ok k) as E; [|by inv E].
  by rewrite <- !hex_decode_encode, H.
Qed.

Lemma b64_value_char n : 0 <= n < 64 -> b64_value (b64_char n) = Some n.
Proof.
  intros Hn.
  assert (forallb (fun i => bool_decide (b64_value (b64_char (Z.of_nat i)) = Some (Z.of_nat i)))
            (seq 0 64) = true) as H by (vm_compute; reflexivity).
  rewrite forallb_forall in H. specialize (H (Z.to_nat n)).
  rewrite Z2Nat.id in H by lia. rewrite bool_decide_eq_true in H.
  apply H, in_seq. lia.
Qed.

Lemma b64_value_not_newline b v : b64_value b = Some v -> is_newline b = false.
Proof.
  unfold b64_value, is_newline. intros H. apply orb_false_iff.
  repeat (case_match; zbool); simplify_eq; split; apply Z.eqb_neq; lia.
Qed.

Ltac sextet :=
  rewrite ?(b64_value_char (_ mod 64)) by (apply Z.mod_pos_bound; lia);
  rewrite ?(b64_value_char (_ / 262144)) by
    (split; [apply Z.div_pos | apply Z.div_lt_upper_bound]; lia).

Ltac byte_eq :=
  match goal with
  | |- byte.of_Z ?z = ?b =>
      apply byte.unsigned_inj; rewrite byte.unsigned_of_Z; unfold byte.wrap;
      Z.div_mod_to_equations; lia
  end.

Ltac bytes_in_range :=
  repeat match goal with
  | b : byte |- _ =>
      lazymatch goal with
      | _ : 0 <= byte.unsigned b < _ |- _ => fail
      | _ => pose proof (byte.unsigned_range b)
      end
  end.

Lemma b64_sextets_group l : b64_sextets (b64_encode l) ≫= b64_group = Ok l.
Proof.
  induction l as [l IH] using (induction_ltof1 _ (@length _)).
  destruct l as [|a [|b [|c l]]]; [done | | |]; bytes_in_range; cbn [b64_encode b64_sextets];
    sextet; simpl.
  - repeat f_equal. byte_eq.
  - repeat f_equal; byte_eq.
  - specialize (IH l). apply bind_ok in IH as (s & -> & Hs); [|unfold ltof; simpl; lia].
    simpl. rewrite Hs. simpl. repeat f_equal; byte_eq.
Qed.

Lemma b64_sextets_no_newline l s :
  b64_sextets l = Ok s -> List.filter (fun b => negb (is_newline b)) l = l.
Proof.
  revert s. induction l as [|b l IH]; intros s H; [done|]. simpl in *.
  destruct (b64_value b) eqn:E; [|done].
  rewrite (b64_value_not_newline _ _ E). simpl.
  apply bind_ok in H as (r & Hr & _). f_equal. eauto.
Qed.

(** Decoding an encoding gives the bytes back. *)
Lemma b64_decode_encode l : b64_decode (b64_encode l) = Ok l.
Proof.
  pose proof (b64_sextets_group l) as H. unfold b64_decode.
  pose proof H as (s & Hs & _)%bind_ok.
  by rewrite (b64_sextets_no_newline _ _ Hs).
Qed.
