(* ===== verification/Secret.v ===== *)
(** * Secrets: mtglib/secret.go

    A secret is a 16-byte key and a fronting host name.  [Set] reads either
    textual form (hex first, base64 otherwise) into the receiver; a failure
    after the key has been copied leaves the receiver modified, as the Go
    method does, so the operation is a state transformer. *)

From S2P Require Import Prelude Encoding.

Definition SecretKeyLength : nat := 16.

Definition secretFakeTLSFirstByte : byte := Byte.xee.

(** [Key] is a [[16]byte] array: [Secret_wf] states its length. *)
Record Secret := mkSecret {
  Key : list byte;
  Host : string
}.

#[export] Instance Secret_eq_dec : EqDecision Secret.
Proof. solve_decision. Defined.

Definition secretEmptyKey : list byte := replicate SecretKeyLength Byte.x00.

(** [Secret{}]. *)
Definition zeroSecret : Secret := mkSecret secretEmptyKey "".

Definition Secret_wf (s : Secret) : Prop := length (Key s) = SecretKeyLength.

Definition Valid (s : Secret) : bool :=
  negb (bool_decide (Key s = secretEmptyKey)) && negb (bool_decide (Host s = "")).

Definition makeBytes (s : Secret) : list byte :=
  secretFakeTLSFirstByte :: Key s ++ bytes_of_string (Host s).

Definition Base64 (s : Secret) : string := string_of_bytes (b64_encode (makeBytes s)).

Definition Hex (s : Secret) : string := string_of_bytes (hex_encode (makeBytes s)).

Definition Secret_String (s : Secret) : string := Base64 s.

(** [MarshalText]: [None] is the [nil] byte slice of an invalid secret. *)
Definition MarshalText (s : Secret) : option (list byte) :=
  if Valid s then Some (bytes_of_string (Secret_String s)) else None.

Definition ErrSecretEmpty : goerr := Errorf "secret is empty".

(** The body of [Set] after decoding: the receiver afterwards and the error. *)
Definition Secret_load (s : Secret) (decoded : list byte) : Secret * option goerr :=
  match decoded with
  | [] | [_] => (s, Some (Errorf "secret is truncated"))
  | b :: decoded =>
      if negb (bool_decide (b = secretFakeTLSFirstByte)) then
        (s, Some (Errorf "incorrect first byte of secret"))
      else if (length decoded <? SecretKeyLength)%nat then
        (s, Some (Errorf "secret has incorrect length"))
      else
        let s' := mkSecret (take SecretKeyLength decoded)
                           (string_of_bytes (drop SecretKeyLength decoded)) in
        if bool_decide (Host s' = "") then (s', Some (Errorf "hostname cannot be empty"))
        else (s', None)
  end.

(** Hex first, base64 when that fails. *)
Definition decode_text (text : string) : res (list byte) :=
  match hex_decode (bytes_of_string text) with
  | Ok d => Ok d
  | Fail _ => b64_decode (bytes_of_string text)
  end.

Definition Secret_Set (s : Secret) (text : string) : Secret * option goerr :=
  if bool_decide (text = "") then (s, Some ErrSecretEmpty) else
  match decode_text text with
  | Fail e => (s, Some (Wrap "incorrect secret format" e))
  | Ok d => Secret_load s d
  end.

Definition UnmarshalText (s : Secret) (data : list byte) : Secret * option goerr :=
  Secret_Set s (string_of_bytes data).

Definition ParseSecret (secret : string) : Secret * option goerr :=
  UnmarshalText zeroSecret (bytes_of_string secret).

(** [GenerateSecret]: [rnd] are the bytes [crypto/rand.Read] fills the key
    with. *)
Definition GenerateSecret (rnd : list byte) (hostname : string) : Secret :=
  mkSecret (copy_at 0 rnd secretEmptyKey) hostname.

(** ** Proofs *)

Lemma Secret_load_makeBytes s0 s :
  Secret_wf s -> Host s <> "" -> Secret_load s0 (makeBytes s) = (s, None).
Proof.
  intros Hwf Hh. unfold Secret_wf in Hwf. unfold Secret_load, makeBytes.
  destruct (Key s ++ bytes_of_string (Host s)) as [|c l] eqn:E.
  { apply (f_equal length) in E. rewrite length_app, Hwf in E. done. }
  rewrite <- E. clear E c l. rewrite bool_decide_eq_true_2 by done. simpl negb. cbv iota.
  rewrite (proj2 (Nat.ltb_ge _ _)) by (rewrite length_app; lia).
  rewrite take_app_length', drop_app_length', string_of_bytes_of_string by done.
  simpl Host. rewrite bool_decide_eq_false_2 by done. by destruct s.
Qed.

(** The base64 form of a secret is never a hex string: its second character
    encodes the low bits of 0xee, which gives a letter after [f]. *)
Lemma base64_not_hex s : is_ok (hex_decode (b64_encode (makeBytes s))) = false.
Proof.
  unfold makeBytes.
  assert (forall n, 32 <= n < 48 -> hex_value (b64_char n) = None) as Hno.
  { intros n Hn.
    assert (forallb (fun i => bool_decide (hex_value (b64_char (Z.of_nat i)) = None)) (seq 32 16) = true)
      as H by (vm_compute; reflexivity).
    rewrite forallb_forall in H. specialize (H (Z.to_nat n)).
    rewrite Z2Nat.id, bool_decide_eq_true in H by lia. apply H, in_seq. lia. }
  change (byte.unsigned secretFakeTLSFirstByte) with 238.
  destruct (Key s ++ bytes_of_string (Host s)) as [|b [|c l]]; [done| |];
    bytes_in_range; cbn [b64_encode hex_decode];
    change (byte.unsigned secretFakeTLSFirstByte) with 238;
    rewrite (Hno (_ / 4096 mod 64)) by (Z.div_mod_to_equations; lia);
    by destruct (hex_value _).
Qed.

Lemma Secret_Set_bytes s0 s l :
  Secret_wf s -> Host s <> "" -> l <> [] ->
  hex_decode l = Ok (makeBytes s) \/
  is_ok (hex_decode l) = false /\ b64_decode l = Ok (makeBytes s) ->
  Secret_Set s0 (string_of_bytes l) = (s, None).
Proof.
  intros Hwf Hh Hl Hd. unfold Secret_Set.
  rewrite bool_decide_eq_false_2 by (by rewrite string_of_bytes_empty).
  unfold decode_text. rewrite bytes_of_string_of_bytes.
  destruct Hd as [-> | [Hno ->]]; [|destruct (hex_decode l); [done|]];
    by apply Secret_load_makeBytes.
Qed.

Lemma makeBytes_hex_nonempty s : hex_encode (makeBytes s) <> [].
Proof. done. Qed.

Lemma makeBytes_b64_nonempty s : b64_encode (makeBytes s) <> [].
Proof.
  unfold makeBytes. by destruct (Key s ++ bytes_of_string (Host s)) as [|b [|c l]].
Qed.

Lemma Valid_spec s : Valid s = true <-> Key s <> secretEmptyKey /\ Host s <> "".
Proof.
  unfold Valid. rewrite andb_true_iff, !negb_true_iff, !bool_decide_eq_false. done.
Qed.

(** C14: reading either textual form of a secret with a 16-byte key and a
    non-empty host gives the secret back, whatever the receiver held: [Set] of
    the hex or of the base64 form leaves nothing of the old key or host, and so
    do [ParseSecret], [UnmarshalText] of the printed form, and [UnmarshalText] of
    what [MarshalText] wrote, which is empty only for the zero key. *)
Theorem ParseSecret_roundtrip (s : Secret) :
  Secret_wf s -> Host s <> "" ->
  ParseSecret (Hex s) = (s, None) /\ ParseSecret (Base64 s) = (s, None) /\
  (forall s0, Secret_Set s0 (Hex s) = (s, None) /\ Secret_Set s0 (Base64 s) = (s, None) /\
     UnmarshalText s0 (bytes_of_string (Secret_String s)) = (s, None)) /\
  match MarshalText s with
  | Some text => forall s0, UnmarshalText s0 text = (s, None)
  | None => Key s = replicate 16 Byte.x00
  end.
Proof.
  intros Hwf Hh.
  assert (forall s0, Secret_Set s0 (Hex s) = (s, None) /\ Secret_Set s0 (Base64 s) = (s, None)) as Hset.
  { intros s0. split.
    - apply Secret_Set_bytes; [done..|]. left. apply hex_decode_encode.
    - apply Secret_Set_bytes; [done..|apply makeBytes_b64_nonempty|].
      right. split; [apply base64_not_hex | apply b64_decode_encode]. }
  unfold MarshalText, ParseSecret, UnmarshalText, Secret_String. rewrite !string_of_bytes_of_string.
  split_and!; [apply Hset..| |].
  - intros s0. destruct (Hset s0) as [H1 H2]. by split_and!.
  - unfold Valid. case_bool_decide as Hk; simpl; [done|]. rewrite bool_decide_eq_false_2 by done. simpl.
    intros s0. rewrite string_of_bytes_of_string. apply Hset.
Qed.

Lemma ParseSecret_roundtrip_witness :
  let s := mkSecret (replicate 16 Byte.x36) "storage.googleapis.com" in
  let old := mkSecret (replicate 16 Byte.x01) "old.example.com" in
  ParseSecret (Hex s) = (s, None) /\ Secret_Set old (Base64 s) = (s, None).
Proof.
  intros s old. destruct (ParseSecret_roundtrip s eq_refl ltac:(discriminate)) as (H1 & _ & H2 & _).
  split; [exact H1|apply (H2 old)].
Defined.

Lemma Secret_load_ok s0 d s :
  Secret_load s0 d = (s, None) -> Secret_wf s /\ Host s <> "" /\ d = makeBytes s.
Proof.
  unfold Secret_load, Secret_wf, makeBytes. intros H.
  destruct d as [|b [|c d]]; [done..|].
  repeat (case_match; simplify_eq/=; zbool).
  unfold SecretKeyLength in *.
  split_and!; [rewrite length_firstn; lia | done |].
  rewrite bytes_of_string_of_bytes. do 2 f_equal. by rewrite take_drop.
Qed.

(** Parsing accepts exactly the non-empty texts whose hex (or else base64)
    decoding is the serialised form of a secret with a 16-byte key and a
    non-empty host; every other text is an error. *)
Theorem ParseSecret_exact (text : string) (s : Secret) :
  ParseSecret text = (s, None) <->
  text <> "" /\ Secret_wf s /\ Host s <> "" /\ decode_text text = Ok (makeBytes s).
Proof.
  unfold ParseSecret, UnmarshalText, Secret_Set. rewrite string_of_bytes_of_string. split.
  - intros H. case_bool_decide; [done|].
    destruct (decode_text text) as [d|]; [|done].
    apply Secret_load_ok in H as (? & ? & ->). done.
  - intros (Ht & Hwf & Hh & ->). rewrite bool_decide_eq_false_2 by done.
    by apply Secret_load_makeBytes.
Qed.
