(* ===== verification/GoTime.v ===== *)
(** * Instants and durations: the parts of package [time] the program uses

    A [time.Time] is a count of nanoseconds since 1 January of year 1 UTC, so
    the zero value is [0]; a [time.Duration] is an [int64] count of
    nanoseconds.  Calendar fields are read in the process's local zone, whose
    offset is an argument. *)

From S2P Require Import Prelude.

Definition Nanosecond : Z := 1.
Definition Microsecond : Z := 1000.
Definition Millisecond : Z := 1000000.
Definition Second : Z := 1000000000.
Definition Minute : Z := 60 * Second.
Definition Hour : Z := 60 * Minute.

(** [time.Time{}] and [IsZero]. *)
Definition zeroTime : Z := 0.

Definition IsZeroTime (t : Z) : bool := t =? 0.

(** [t.Before(u)]. *)
Definition Before (t u : Z) : bool := t <? u.

(** [t.Sub(u)], which saturates at the ends of the duration type. *)
Definition Sub (t u : Z) : Z := Z.max min_int64 (Z.min max_int64 (t - u)).

(** [d.Abs()]: the most negative duration has no opposite and gives the
    largest one. *)
Definition DurationAbs (d : Z) : Z :=
  if 0 <=? d then d else if d =? min_int64 then max_int64 else - d.

(** Nanoseconds between year 1 and the Unix epoch. *)
Definition unixEpoch : Z := 62135596800 * Second.

Definition UnixNano (t : Z) : Z := int64 (t - unixEpoch).

(** [time.Unix(sec, nsec)]. *)
Definition Unix (sec nsec : Z) : Z := unixEpoch + sec * Second + nsec.

(** Days since 0000-03-01 of the proleptic Gregorian calendar to (year,
    month): eras of 400 years, then the year and the month inside the era. *)
Definition civil_from_days (z : Z) : Z * Z :=
  let era := z / 146097 in
  let doe := z mod 146097 in
  let yoe := (doe - doe / 1460 + doe / 36524 - doe / 146096) / 365 in
  let doy := doe - (365 * yoe + yoe / 4 - yoe / 100) in
  let mp := (5 * doy + 2) / 153 in
  let m := if mp <? 10 then mp + 3 else mp - 9 in
  let y := yoe + era * 400 in
  (if m <=? 2 then y + 1 else y, m).

(** [(t.Year(), t.Month())] in a zone [offset] seconds east of UTC; 306 days
    lie between 0000-03-01 and 0001-01-01. *)
Definition YearMonth (offset t : Z) : Z * Z :=
  civil_from_days ((t + offset * Second) / (86400 * Second) + 306).

(** ** Proofs *)

Lemma UnixNano_Unix n : min_int64 <= n <= max_int64 -> UnixNano (Unix 0 n) = n.
Proof. intros. unfold UnixNano, Unix. rewrite int64_small; lia. Qed.

Lemma Sub_exact t u : min_int64 <= t - u <= max_int64 -> Sub t u = t - u.
Proof. unfold Sub. lia. Qed.

Lemma Sub_range t u : min_int64 <= Sub t u <= max_int64.
Proof. unfold Sub, min_int64, max_int64. lia. Qed.

Lemma DurationAbs_range d : min_int64 <= d <= max_int64 -> 0 <= DurationAbs d <= max_int64.
Proof. unfold DurationAbs, min_int64, max_int64. repeat case_match; zbool; lia. Qed.

Lemma DurationAbs_exact d : min_int64 < d <= max_int64 -> DurationAbs d = Z.abs d.
Proof. unfold DurationAbs, min_int64, max_int64. repeat case_match; zbool; lia. Qed.

Example YearMonth_epoch : YearMonth 0 (Unix 0 0) = (1970, 1).
Proof. reflexivity. Qed.

Example YearMonth_leap : YearMonth 0 (Unix 1709251199 0) = (2024, 2).
Proof. reflexivity. Qed.

Example YearMonth_leap_next : YearMonth 0 (Unix 1709251200 0) = (2024, 3).
Proof. reflexivity. Qed.

Example YearMonth_zone : YearMonth 10800 (Unix 1709251199 0) = (2024, 3).
Proof. reflexivity. Qed.

Example YearMonth_year_end : YearMonth 0 (Unix 1735689599 0) = (2024, 12).
Proof. reflexivity. Qed.
