(* ===== verification/Pending.v ===== *)
(** * Pending-handshake limiter: mtglib/pending_handshakes.go

    The limiter counts, per client address, the connections that have not
    proven a secret yet.  [acquire] hands out a release closure guarded by a
    [sync.Once]; here the closures are the numbered tickets of the state, each
    with its address and its "already released" flag, so that any order of
    acquisitions and (repeated) releases is a sequence of steps. *)

From S2P Require Import Prelude.

(** ** Addresses: [net.IP] and [netip.Addr] *)

#[export] Instance byte_countable : Countable byte :=
  inj_countable' Byte.to_N (fun n => default Byte.x00 (Byte.of_N n))
    (fun b => f_equal (default Byte.x00) (Byte.of_to_N b)).

(** The ten zero bytes and two 0xff bytes in front of an IPv4-mapped address. *)
Definition v4InV6Prefix : list byte := replicate 10 Byte.x00 ++ [Byte.xff; Byte.xff].

(** [netip.AddrFromSlice(ip)] followed by [Unmap]: a 4-byte or a 16-byte
    address, a mapped one reduced to its IPv4 form; [None] is [!ok]. *)
Definition addrOf (ip : list byte) : option (list byte) :=
  if (length ip =? 4)%nat then Some ip
  else if (length ip =? 16)%nat then
    if bool_decide (take 12 ip = v4InV6Prefix) then Some (drop 12 ip) else Some ip
  else None.

(** ** State *)

Record ticket := mkTicket { t_addr : list byte; t_released : bool }.

(** [pending] is the map of the Go structure; [tickets] are the release
    closures handed out so far, oldest first. *)
Record pendingHandshakes := mkPending {
  pending : gmap (list byte) Z;
  tickets : list ticket
}.

Definition newPendingHandshakes : pendingHandshakes := mkPending ∅ [].

(** A missing key of a [map[netip.Addr]uint32] reads as zero. *)
Definition count (p : pendingHandshakes) (a : list byte) : Z := default 0 (pending p !! a).

Inductive action := NoAction | PendingHandshakeRejected | PendingHandshakeObserved.

#[export] Instance action_eq_dec : EqDecision action.
Proof. solve_decision. Defined.

(** The state afterwards, the ticket (the release closure; [None] is [nil]),
    the metric action and whether the connection may proceed. *)
Record acquired := mkAcquired {
  a_state : pendingHandshakes;
  a_release : option nat;
  a_action : action;
  a_admitted : bool
}.

Definition acquire (p : pendingHandshakes) (ip : list byte) (limit : Z) (dryRun : bool) : acquired :=
  if limit =? 0 then mkAcquired p None NoAction true else
  match addrOf ip with
  | None => mkAcquired p None NoAction true
  | Some addr =>
      let overLimit := limit <=? count p addr in
      if overLimit && negb dryRun then mkAcquired p None PendingHandshakeRejected false
      else
        mkAcquired
          (mkPending (<[addr := uwrap 32 (count p addr + 1)]> (pending p))
                     (tickets p ++ [mkTicket addr false]))
          (Some (length (tickets p)))
          (if overLimit then PendingHandshakeObserved else NoAction) true
  end.

(** The body of the [once.Do] of a release closure. *)
Definition releaseAddr (m : gmap (list byte) Z) (addr : list byte) : gmap (list byte) Z :=
  if default 0 (m !! addr) <=? 1 then delete addr m
  else <[addr := default 0 (m !! addr) - 1]> m.

(** Calling release closure [i]: the second call does nothing. *)
Definition release (p : pendingHandshakes) (i : nat) : pendingHandshakes :=
  match tickets p !! i with
  | Some (mkTicket addr false) =>
      mkPending (releaseAddr (pending p) addr) (<[i := mkTicket addr true]> (tickets p))
  | _ => p
  end.

Definition pendingFor (p : pendingHandshakes) (ip : list byte) : Z :=
  match addrOf ip with None => 0 | Some a => count p a end.

Definition trackedIPs (p : pendingHandshakes) : Z := Z.of_nat (size (pending p)).

(** ** Runs *)

(** Any interleaving of connections of a proxy whose limit and mode are
    fixed. *)
Inductive pstep (limit : Z) (dryRun : bool) : pendingHandshakes -> pendingHandshakes -> Prop :=
  | step_acquire p ip : pstep limit dryRun p (a_state (acquire p ip limit dryRun))
  | step_release p i : pstep limit dryRun p (release p i).

Definition reachable (limit : Z) (dryRun : bool) (p : pendingHandshakes) : Prop :=
  rtc (pstep limit dryRun) newPendingHandshakes p.

(** The unreleased tickets of an address. *)
Definition is_open (a : list byte) (t : ticket) : bool :=
  bool_decide (t_addr t = a) && negb (t_released t).

Definition open_count (ts : list ticket) (a : list byte) : nat :=
  length (List.filter (is_open a) ts).

Definition outstanding (p : pendingHandshakes) (a : list byte) : nat := open_count (tickets p) a.

(** Below 2^32 connections the 32-bit counters are exact. *)
Definition pending_inv (p : pendingHandshakes) : Prop :=
  Z.of_nat (length (tickets p)) < 2 ^ 32 ->
  forall a, match pending p !! a with
            | None => outstanding p a = 0%nat
            | Some n => n = Z.of_nat (outstanding p a) /\ 0 < n
            end.

(** ** Proofs *)

Lemma filter_insert_length {A} (f : A -> bool) (l : list A) i x y :
  l !! i = Some x ->
  (length (List.filter f (<[i:=y]> l)) + Nat.b2n (f x) = length (List.filter f l) + Nat.b2n (f y))%nat.
Proof.
  revert i. induction l as [|z l IH]; intros [|i] H; simplify_eq/=; [by destruct (f _), (f _); simpl; lia|].
  specialize (IH _ H). destruct (f z); simpl; lia.
Qed.

Lemma open_count_snoc ts a a' :
  open_count (ts ++ [mkTicket a' false]) a =
  (open_count ts a + Nat.b2n (bool_decide (a' = a)))%nat.
Proof.
  unfold open_count. rewrite List.filter_app, length_app. f_equal.
  simpl. unfold is_open. simpl. rewrite andb_true_r. by case_bool_decide.
Qed.

Lemma open_count_release ts i a a' :
  ts !! i = Some (mkTicket a' false) ->
  (open_count (<[i := mkTicket a' true]> ts) a + Nat.b2n (bool_decide (a' = a)) = open_count ts a)%nat.
Proof.
  intros Hi. unfold open_count.
  pose proof (filter_insert_length (is_open a) _ _ _ (mkTicket a' true) Hi) as H.
  unfold is_open in H at 2 4. simpl in H. rewrite andb_true_r, andb_false_r in H. simpl in H. lia.
Qed.

Lemma open_count_all_released ts a :
  (forall j t, ts !! j = Some t -> t_released t = true) -> open_count ts a = 0%nat.
Proof.
  intros H. unfold open_count. induction ts as [|t ts IH]; [done|]. simpl.
  unfold is_open at 1. rewrite (H 0%nat t), andb_false_r by done.
  apply IH. intros j. apply (H (S j)).
Qed.

Lemma outstanding_le p a : (outstanding p a <= length (tickets p))%nat.
Proof. apply List.filter_length_le. Qed.

Lemma pending_inv_count p a :
  pending_inv p -> Z.of_nat (length (tickets p)) < 2 ^ 32 ->
  count p a = Z.of_nat (outstanding p a).
Proof.
  intros Hinv Hlt. specialize (Hinv Hlt a). unfold count.
  destruct (pending p !! a); simpl; lia.
Qed.

Lemma pending_inv_acquire p ip limit dryRun :
  pending_inv p -> pending_inv (a_state (acquire p ip limit dryRun)).
Proof.
  intros Hinv. unfold acquire.
  destruct (limit =? 0); [done|]. destruct (addrOf ip) as [a'|]; [|done].
  destruct (_ && _); [done|]. simpl. intros Hlt a. simpl in Hlt.
  rewrite length_app in Hlt. simpl in Hlt.
  assert (Hlt' : Z.of_nat (length (tickets p)) < 2 ^ 32) by lia.
  rewrite (pending_inv_count p a' Hinv Hlt').
  pose proof (outstanding_le p a'). rewrite uwrap_small by lia.
  unfold outstanding in *. simpl. rewrite open_count_snoc,  lookup_insert. case_decide as Ha.
  - subst. rewrite bool_decide_eq_true_2 by done. simpl. lia.
  - rewrite bool_decide_eq_false_2 by done. rewrite Nat.add_0_r. by apply Hinv.
Qed.

Lemma pending_inv_release p i : pending_inv p -> pending_inv (release p i).
Proof.
  intros Hinv. unfold release.
  destruct (tickets p !! i) as [[a' []]|] eqn:Hi; [done| |done].
  intros Hlt a. simpl in Hlt. rewrite length_insert in Hlt.
  pose proof (open_count_release _ _ a a' Hi) as Ho.
  pose proof (Hinv Hlt a') as Ha'. unfold releaseAddr, outstanding in *. simpl.
  destruct (decide (a' = a)) as [<-|Hne].
  - rewrite bool_decide_eq_true_2 in Ho by done. simpl in Ho.
    destruct (pending p !! a') as [n|] eqn:E; simpl; [|lia].
    destruct (n <=? 1) eqn:En; zbool; [rewrite lookup_delete_eq | rewrite lookup_insert_eq]; lia.
  - rewrite bool_decide_eq_false_2 in Ho by done. rewrite Nat.add_0_r in Ho. rewrite Ho.
    destruct (_ <=? 1); [rewrite lookup_delete_ne | rewrite lookup_insert_ne]; auto.
    all: by apply Hinv.
Qed.

Lemma pending_inv_reachable limit dryRun p : reachable limit dryRun p -> pending_inv p.
Proof.
  unfold reachable. intros H. remember newPendingHandshakes as p0 eqn:E.
  assert (pending_inv p0) as H0 by (subst; intros _ a; simpl; by rewrite lookup_empty).
  clear E. induction H as [|p p' p'' [] _ IH]; eauto using pending_inv_acquire, pending_inv_release.
Qed.

(** C11: in every reachable state with fewer than 2^32 connections so far, the
    counter of an address is the number of its connections that still hold an
    unreleased slot, and an address is tracked exactly while it has one. *)
Theorem pending_exact limit dryRun (p : pendingHandshakes) :
  reachable limit dryRun p -> Z.of_nat (length (tickets p)) < 2 ^ 32 ->
  forall a, count p a = Z.of_nat (outstanding p a) /\
            (is_Some (pending p !! a) <-> outstanding p a <> 0%nat).
Proof.
  intros Hr Hlt a. pose proof (pending_inv_reachable _ _ _ Hr) as Hinv.
  split; [by apply pending_inv_count|]. specialize (Hinv Hlt a).
  destruct (pending p !! a); split; intros; [lia | done | by destruct H | done].
Qed.

(** Two connections from one client, one of which completes its handshake. *)
Definition demo_ip : list byte := [Byte.x0a; Byte.x00; Byte.x00; Byte.x01].

Definition demo_run : pendingHandshakes :=
  release (a_state (acquire (a_state (acquire newPendingHandshakes demo_ip 2 false)) demo_ip 2 false)) 0.

Lemma demo_run_reachable : reachable 2 false demo_run.
Proof.
  eapply rtc_l; [apply (step_acquire _ _ _ demo_ip)|].
  eapply rtc_l; [apply (step_acquire _ _ _ demo_ip)|].
  eapply rtc_l; [apply (step_release _ _ _ 0)|]. apply rtc_refl.
Qed.

Lemma pending_exact_witness :
  count demo_run demo_ip = Z.of_nat (outstanding demo_run demo_ip) /\
  (is_Some (pending demo_run !! demo_ip) <-> outstanding demo_run demo_ip <> 0%nat).
Proof. apply (pending_exact 2 false demo_run demo_run_reachable). reflexivity. Defined.

Lemma acquire_bound p ip limit a :
  0 <= limit < 2 ^ 32 -> pending_inv p -> Z.of_nat (length (tickets p)) + 1 < 2 ^ 32 ->
  count p a <= limit -> count (a_state (acquire p ip limit false)) a <= limit.
Proof.
  intros Hl Hinv Hlt Ha. unfold acquire.
  destruct (limit =? 0); [done|]. destruct (addrOf ip) as [a'|]; [|done].
  simpl. destruct (limit <=? count p a') eqn:E; [done|]. zbool. simpl.
  unfold count at 1. simpl. rewrite lookup_insert. case_decide; [|done]. simpl. subst.
  rewrite uwrap_small; [lia|]. rewrite pending_inv_count in * by (done || lia). lia.
Qed.

Lemma release_count p i a : count (release p i) a <= count p a \/ count (release p i) a = 0.
Proof.
  unfold release. destruct (tickets p !! i) as [[a' []]|]; [by left| |by left].
  unfold count, releaseAddr. simpl.
  destruct (_ <=? 1) eqn:E.
  - rewrite lookup_delete. case_decide; [by right|by left].
  - zbool. rewrite lookup_insert. case_decide; [subst; left; simpl; lia | by left].
Qed.

Lemma tickets_grow limit dryRun p p' :
  pstep limit dryRun p p' -> (length (tickets p) <= length (tickets p'))%nat.
Proof.
  intros []; [unfold acquire | unfold release]; repeat case_match; simpl;
    rewrite ?length_app, ?length_insert; lia.
Qed.

(** When the limit is enforced, no reachable state (before 2^32
    connections) has an address with more open handshakes than the limit. *)
Theorem pending_limit_enforced limit (p : pendingHandshakes) :
  reachable limit false p -> 0 < limit < 2 ^ 32 ->
  Z.of_nat (length (tickets p)) < 2 ^ 32 ->
  forall a, Z.of_nat (outstanding p a) <= limit.
Proof.
  intros Hr Hl Hlt a.
  rewrite <- (pending_inv_count p a) by (eauto using pending_inv_reachable).
  revert p Hr Hlt. unfold reachable.
  apply (rtc_ind_r (fun p => Z.of_nat (length (tickets p)) < 2 ^ 32 -> count p a <= limit)).
  { intros _. unfold count. simpl. rewrite lookup_empty. simpl. lia. }
  intros p1 p2 Hr Hs IH Hlt.
  pose proof (tickets_grow _ _ _ _ Hs).
  pose proof (pending_inv_reachable _ _ _ Hr) as Hinv.
  destruct Hs as [p1 ip | p1 i].
  - destruct (decide (Z.of_nat (length (tickets p1)) + 1 < 2 ^ 32)).
    + apply acquire_bound; [lia|done|lia|apply IH; lia].
    + unfold acquire in *. destruct (limit =? 0); [apply IH; lia|].
      destruct (addrOf ip); [|apply IH; lia].
      destruct (_ && _); [apply IH; lia|].
      simpl in *. rewrite length_app in *. simpl in *. lia.
  - destruct (release_count p1 i a) as [Hle | ->]; [|lia].
    etransitivity; [done|]. apply IH. lia.
Qed.

Lemma pending_limit_enforced_witness : Z.of_nat (outstanding demo_run demo_ip) <= 2.
Proof. apply (pending_limit_enforced 2 demo_run demo_run_reachable); [lia | reflexivity]. Defined.

(** [acquire] rejects a connection exactly when a limit is set, the address
    can be parsed, it already has [limit] open handshakes and the limiter is
    not in dry-run mode; a rejected connection changes nothing and takes no
    slot, and a dry run admits and reports the same connections instead. *)
Theorem acquire_decision limit dryRun (p : pendingHandshakes) ip :
  let r := acquire p ip limit dryRun in
  let over := limit <> 0 /\ exists a, addrOf ip = Some a /\ limit <= count p a in
  (a_admitted r = false <-> over /\ dryRun = false) /\
  (a_admitted r = false -> a_state r = p /\ a_release r = None /\ a_action r = PendingHandshakeRejected) /\
  (a_action r = PendingHandshakeObserved <-> over /\ dryRun = true).
Proof.
  simpl. unfold acquire.
  destruct (limit =? 0) eqn:E0; [zbool; subst; naive_solver|]. zbool.
  destruct (addrOf ip) as [a|]; [|naive_solver].
  destruct (limit <=? count p a) eqn:E, dryRun; zbool; simpl; (split_and!; [split|..|split]);
    intros; try done; repeat match goal with
    | H : _ /\ _ |- _ => destruct H
    | H : exists _, _ |- _ => destruct H
    end; simplify_eq; try lia; eauto 6.
Qed.

(** A release closure acts once: calling it again, at any later point,
    changes nothing; and once every closure has been called the limiter tracks
    no address. *)
Theorem release_once limit dryRun (p : pendingHandshakes) i :
  release (release p i) i = release p i /\
  (reachable limit dryRun p -> Z.of_nat (length (tickets p)) < 2 ^ 32 ->
   (forall j t, tickets p !! j = Some t -> t_released t = true) -> pending p = ∅).
Proof.
  split.
  - unfold release at 2 3. destruct (tickets p !! i) as [[a []]|] eqn:E; unfold release; simpl.
    + by rewrite E.
    + by rewrite list_lookup_insert_eq by (by eapply lookup_lt_Some).
    + by rewrite E.
  - intros Hr Hlt Hall. apply map_eq. intros a. rewrite lookup_empty.
    pose proof (pending_inv_reachable _ _ _ Hr Hlt a) as H.
    assert (outstanding p a = 0%nat) as Ho.
    { by apply open_count_all_released. }
    destruct (pending p !! a); [lia|done].
Qed.

(** The demonstration run with its second handshake completed as well. *)
Definition demo_done : pendingHandshakes := release demo_run 1.

Lemma demo_done_reachable : reachable 2 false demo_done.
Proof. eapply rtc_r; [apply demo_run_reachable | apply step_release]. Qed.

Lemma release_once_witness : pending demo_done = ∅.
Proof.
  apply (proj2 (release_once 2 false demo_done 1) demo_done_reachable); [reflexivity|].
  intros [|[|j]] t H; vm_compute in H; by inversion H.
Defined.
