(* ===== verification/Limits.v ===== *)
(** * Per-secret limits: mtglib/secret_limits.go

    The governance limits of a secret (data quota with an optional monthly
    reset, expiry, on/off switch), the reasons for a refusal and the parsing of
    their textual forms. *)

From S2P Require Import Prelude GoTime.

Inductive QuotaReset := QuotaResetNone | QuotaResetMonthly.

#[export] Instance QuotaReset_eq_dec : EqDecision QuotaReset.
Proof. solve_decision. Defined.

Definition QuotaReset_String (q : QuotaReset) : string :=
  match q with QuotaResetMonthly => "monthly" | QuotaResetNone => "none" end.

Record SecretLimits := mkLimits {
  QuotaBytes : Z;
  Reset : QuotaReset;
  ExpiresAt : Z;
  Disabled : bool
}.

#[export] Instance SecretLimits_eq_dec : EqDecision SecretLimits.
Proof. solve_decision. Defined.

Definition noLimits : SecretLimits := mkLimits 0 QuotaResetNone zeroTime false.

Definition Limits_IsZero (l : SecretLimits) : bool :=
  (QuotaBytes l =? 0) && bool_decide (Reset l = QuotaResetNone) &&
  IsZeroTime (ExpiresAt l) && negb (Disabled l).

Inductive DenyReason := DenyNone | DenyDisabled | DenyExpired | DenyQuota.

#[export] Instance DenyReason_eq_dec : EqDecision DenyReason.
Proof. solve_decision. Defined.

Definition DenyReason_String (d : DenyReason) : string :=
  match d with
  | DenyDisabled => "disabled"
  | DenyExpired => "expired"
  | DenyQuota => "quota_exceeded"
  | DenyNone => "allowed"
  end.

(** ** Proofs *)

Lemma Limits_IsZero_spec l : Limits_IsZero l = true <-> l = noLimits.
Proof.
  unfold Limits_IsZero, IsZeroTime, noLimits, zeroTime. destruct l as [q r e []]; simpl;
    rewrite !andb_true_iff, !Z.eqb_eq, bool_decide_eq_true; split; naive_solver.
Qed.

Lemma QuotaReset_String_inj q r : QuotaReset_String q = QuotaReset_String r -> q = r.
Proof. by destruct q, r. Qed.
