(* ===== verification/Stats.v ===== *)
(** * Per-secret statistics and throttling: mtglib/proxy_stats.go

    [ProxyStats] keeps one block of 64-bit atomic counters per secret name.
    Entries are created on first use and never removed or replaced, so the
    pointer a [countingConn] caches is identified with its name.  Atomic
    additions wrap at 64 bits.  The process's local time zone, read by the
    monthly roll-over, is a variable of the section. *)

From S2P Require Import Prelude GoTime Limits.

(** ** State *)

Record secretStats := mkStats {
  connections : Z;
  bytesIn : Z;
  bytesOut : Z;
  lastSeen : Z;
  quotaUsed : Z;
  periodStart : Z
}.

#[export] Instance secretStats_eq_dec : EqDecision secretStats.
Proof. solve_decision. Defined.

Definition zeroStats : secretStats := mkStats 0 0 0 zeroTime 0 0.

Definition set_connections v st := mkStats v (bytesIn st) (bytesOut st) (lastSeen st) (quotaUsed st) (periodStart st).
Definition set_bytesIn v st := mkStats (connections st) v (bytesOut st) (lastSeen st) (quotaUsed st) (periodStart st).
Definition set_bytesOut v st := mkStats (connections st) (bytesIn st) v (lastSeen st) (quotaUsed st) (periodStart st).
Definition set_lastSeen v st := mkStats (connections st) (bytesIn st) (bytesOut st) v (quotaUsed st) (periodStart st).
Definition set_quotaUsed v st := mkStats (connections st) (bytesIn st) (bytesOut st) (lastSeen st) v (periodStart st).
Definition set_periodStart v st := mkStats (connections st) (bytesIn st) (bytesOut st) (lastSeen st) (quotaUsed st) v.

(** [throttleCaps] is [∅] both for a nil map and for an empty one. *)
Record ProxyStats := mkProxyStats {
  users : gmap string secretStats;
  startedAt : Z;
  throttleCaps : gmap string Z;
  throttleLimit : Z;
  throttleInterval : Z;
  throttleActive : bool
}.

Definition set_users u s :=
  mkProxyStats u (startedAt s) (throttleCaps s) (throttleLimit s) (throttleInterval s) (throttleActive s).

Definition NewProxyStats (now : Z) : ProxyStats := mkProxyStats ∅ now ∅ 0 0 false.

(** ** Counters *)

(** [getOrCreate]: the map afterwards, and the block of counters. *)
Definition getOrCreate (s : ProxyStats) (name : string) : ProxyStats * secretStats :=
  match users s !! name with
  | Some st => (s, st)
  | None => (set_users (<[name := zeroStats]> (users s)) s, zeroStats)
  end.

(** An update of the counters of [name] through the pointer that
    [getOrCreate] returns. *)
Definition update (s : ProxyStats) (name : string) (f : secretStats -> secretStats) : ProxyStats :=
  let '(s', st) := getOrCreate s name in set_users (<[name := f st]> (users s')) s'.

Definition PreRegister (s : ProxyStats) (name : string) : ProxyStats := fst (getOrCreate s name).

Definition OnConnect (s : ProxyStats) (name : string) : ProxyStats :=
  update s name (fun st => set_connections (int64 (connections st + 1)) st).

Definition OnDisconnect (s : ProxyStats) (name : string) : ProxyStats :=
  update s name (fun st => set_connections (int64 (connections st - 1)) st).

Definition AddBytesIn (s : ProxyStats) (name : string) (n : Z) : ProxyStats :=
  update s name (fun st => set_bytesIn (int64 (bytesIn st + n)) st).

Definition AddBytesOut (s : ProxyStats) (name : string) (n : Z) : ProxyStats :=
  update s name (fun st => set_bytesOut (int64 (bytesOut st + n)) st).

Definition UpdateLastSeen (now : Z) (s : ProxyStats) (name : string) : ProxyStats :=
  update s name (set_lastSeen now).

(** [countingConn.Read] and [Write] (mtglib/counting_conn.go) on the counters:
    [n] bytes moved, nothing counted when [n] is not positive. *)
Definition countRead (s : ProxyStats) (name : string) (n : Z) : ProxyStats :=
  if 0 <? n then
    update s name (fun st =>
      set_quotaUsed (int64 (quotaUsed st + n)) (set_bytesIn (int64 (bytesIn st + n)) st))
  else s.

Definition countWrite (s : ProxyStats) (name : string) (n : Z) : ProxyStats :=
  if 0 <? n then
    update s name (fun st =>
      set_quotaUsed (int64 (quotaUsed st + n)) (set_bytesOut (int64 (bytesOut st + n)) st))
  else s.

(** ** Quotas *)

Section Quota.
Context (localOffset : Z -> Z).

(** [t.Year()], [t.Month()] of an instant in the local zone. *)
Definition localYearMonth (t : Z) : Z * Z := YearMonth (localOffset t) t.

Definition rolloverIfNeeded (reset : QuotaReset) (now : Z) (st : secretStats) : secretStats :=
  match reset with
  | QuotaResetNone => st
  | QuotaResetMonthly =>
      let startNano := periodStart st in
      if startNano =? 0 then set_periodStart (UnixNano now) st
      else
        if bool_decide (localYearMonth now = localYearMonth (Unix 0 startNano)) then st
        else set_quotaUsed 0 (set_periodStart (UnixNano now) st)
  end.

(** [QuotaUsed] and [rollover]. *)
Definition QuotaUsed (now : Z) (s : ProxyStats) (name : string) (reset : QuotaReset) : ProxyStats * Z :=
  let s' := update s name (rolloverIfNeeded reset now) in
  (s', quotaUsed (default zeroStats (users s' !! name))).

Definition rollover (s : ProxyStats) (name : string) (reset : QuotaReset) (now : Z) : ProxyStats :=
  update s name (rolloverIfNeeded reset now).

End Quota.

Definition quotaUsedValue (s : ProxyStats) (name : string) : Z :=
  match users s !! name with None => 0 | Some st => quotaUsed st end.

Definition ResetQuota (now : Z) (s : ProxyStats) (name : string) : ProxyStats :=
  update s name (fun st => set_periodStart (UnixNano now) (set_quotaUsed 0 st)).

(** ** Throttling *)

Definition SetThrottle (s : ProxyStats) (limit interval : Z) : ProxyStats :=
  mkProxyStats (users s) (startedAt s) ∅ limit interval (throttleActive s).

(** [CanConnect] registers the name on the path that reads its counter. *)
Definition CanConnect (s : ProxyStats) (name : string) : ProxyStats * bool :=
  if throttleLimit s =? 0 then (s, true) else
  match throttleCaps s !! name with
  | None => (s, true)
  | Some cap => let '(s', st) := getOrCreate s name in (s', connections st <? cap)
  end.

(** The values of a Go map summed in some order; additions of [int64] wrap, so
    the sum is the wrapped exact sum whatever the order. *)
Definition sum_map (m : gmap string Z) : Z := map_fold (fun _ c acc => c + acc) 0 m.

(** One pass of the [for len(remaining) > 0] loop: users within the fair share
    leave [remaining] and the budget; when none does, the rest are capped. *)
Fixpoint fairLoop (fuel : nat) (remaining : gmap string Z) (budget : Z) : option (gmap string Z) :=
  match fuel with
  | O => None
  | S fuel =>
      if (size remaining =? 0)%nat then Some ∅ else
      let fairShare := Z.quot budget (Z.of_nat (size remaining)) in
      let satisfied := filter (fun kv => kv.2 <= fairShare) remaining in
      if (size satisfied =? 0)%nat then Some ((fun _ => fairShare) <$> remaining)
      else fairLoop fuel (filter (fun kv => ~ kv.2 <= fairShare) remaining)
                    (int64 (budget - sum_map satisfied))
  end.

(** [computeFairCaps]; [∅] is the nil map.  The loop runs at most once per user
    and once more. *)
Definition computeFairCaps (userConns : gmap string Z) (limit : Z) : option (gmap string Z) :=
  if int64 (sum_map userConns) <=? limit then Some ∅
  else fairLoop (S (size userConns)) userConns limit.

Definition recomputeCaps (s : ProxyStats) : option ProxyStats :=
  caps ← computeFairCaps (connections <$> users s) (throttleLimit s);
  Some (mkProxyStats (users s) (startedAt s) caps (throttleLimit s) (throttleInterval s)
                     (negb (size caps =? 0)%nat)).

(** ** Persistence of quota usage *)

Record usageRecord := mkUsage { ur_QuotaUsed : Z; ur_PeriodStart : Z }.

(** The files of the process: path to content. *)
Abbreviation filesystem := (gmap string (list byte)).

Section Persist.
(** [encoding/json] on the usage records. *)
Context (marshal : gmap string usageRecord -> list byte)
        (unmarshal : list byte -> res (gmap string usageRecord)).

(** [LoadUsage]: a missing file is not an error; [read_err] is the failure of
    [os.ReadFile] for a reason other than absence. *)
Definition LoadUsage (read_err : option goerr) (fs : filesystem) (path : string) (s : ProxyStats)
  : ProxyStats * option goerr :=
  match read_err with
  | Some e => (s, Some (Wrap "cannot read usage state" e))
  | None =>
      match fs !! path with
      | None => (s, None)
      | Some data =>
          match unmarshal data with
          | Fail e => (s, Some (Wrap "cannot parse usage state" e))
          | Ok records =>
              (foldr (fun kv s => update s kv.1 (fun st =>
                        set_periodStart (ur_PeriodStart kv.2) (set_quotaUsed (ur_QuotaUsed kv.2) st)))
                     s (map_to_list records), None)
          end
      end
  end.

Definition usageRecords (s : ProxyStats) : gmap string usageRecord :=
  (fun st => mkUsage (quotaUsed st) (periodStart st)) <$> users s.

Definition tmpPath (path : string) : string := path +:+ ".tmp".

(** The system calls of [FlushUsage]: the temporary file holds ever longer
    prefixes of the data, and only the complete one is renamed. *)
Inductive flushStep (s : ProxyStats) (path : string) : filesystem -> filesystem -> Prop :=
  | flush_write fs n :
      flushStep s path fs (<[tmpPath path := take n (marshal (usageRecords s))]> fs)
  | flush_rename fs :
      fs !! tmpPath path = Some (marshal (usageRecords s)) ->
      flushStep s path fs
        (<[path := marshal (usageRecords s)]> (delete (tmpPath path) fs)).

(** [FlushUsage] itself; [werr] is the failure of [os.WriteFile] after [n]
    bytes, [rerr] that of [os.Rename]. *)
Definition FlushUsage (werr : option (nat * goerr)) (rerr : option goerr)
    (s : ProxyStats) (fs : filesystem) (path : string) : filesystem * option goerr :=
  let data := marshal (usageRecords s) in
  let tmp := tmpPath path in
  match werr with
  | Some (n, e) => (<[tmp := take n data]> fs, Some (Wrap "cannot write usage state" e))
  | None =>
      let fs := <[tmp := data]> fs in
      match rerr with
      | Some e => (fs, Some (Wrap "cannot replace usage state" e))
      | None => (<[path := data]> (delete tmp fs), None)
      end
  end.

End Persist.

(** ** The stats response *)

Record UserStatsJSON := mkUserStats {
  us_Connections : Z;
  us_BytesIn : Z;
  us_BytesOut : Z;
  us_LastSeen : option Z;
  us_QuotaUsed : Z;
  us_Quota : Z;
  us_QuotaRemaining : option Z;
  us_QuotaReset : string;
  us_ExpiresAt : option Z;
  us_Disabled : bool
}.

Record ThrottleJSON := mkThrottle {
  th_Active : bool;
  th_Limit : Z;
  th_Caps : gmap string Z
}.

Record StatsResponse := mkResponse {
  sr_StartedAt : Z;
  sr_UptimeSeconds : Z;
  sr_TotalConnections : Z;
  sr_Throttle : option ThrottleJSON;
  sr_Users : gmap string UserStatsJSON
}.

Definition userStats (st : secretStats) : UserStatsJSON :=
  mkUserStats (connections st) (bytesIn st) (bytesOut st)
    (if IsZeroTime (lastSeen st) then None else Some (lastSeen st))
    (quotaUsed st) 0 None "" None false.

(** [int64(time.Since(startedAt).Seconds())] truncates whole seconds. *)
Definition buildResponse (now : Z) (s : ProxyStats) : StatsResponse :=
  mkResponse (startedAt s) (Z.quot (Sub now (startedAt s)) Second)
    (int64 (sum_map (connections <$> users s)))
    (if 0 <? throttleLimit s
     then Some (mkThrottle (throttleActive s) (throttleLimit s) (throttleCaps s)) else None)
    (userStats <$> users s).

(** ** Proofs: sums over maps *)

(** [wsum f m]: the sum of [f] over the values of [m]. *)
Definition wsum (f : Z -> Z) (m : gmap string Z) : Z := map_fold (fun _ c acc => f c + acc) 0 m.

Lemma wsum_empty f : wsum f ∅ = 0.
Proof. apply map_fold_empty. Qed.

Lemma wsum_insert f m k c : m !! k = None -> wsum f (<[k := c]> m) = f c + wsum f m.
Proof. intros. apply (map_fold_insert_L (fun _ c acc => f c + acc) 0); [intros; lia | done]. Qed.

Lemma wsum_split f (P : string * Z -> Prop) `{!forall x, Decision (P x)} m :
  wsum f m = wsum f (filter P m) + wsum f (filter (fun x => ~ P x) m).
Proof.
  induction m as [|k c m Hk IH] using map_ind; [by rewrite !map_filter_empty, !wsum_empty|].
  rewrite wsum_insert, IH, !map_filter_insert by done.
  destruct (decide (P (k, c))); repeat case_decide; try done;
    rewrite wsum_insert by (by apply map_lookup_filter_None_2; left);
    rewrite delete_id by done; lia.
Qed.

Lemma wsum_ext f g m : (forall k c, m !! k = Some c -> f c = g c) -> wsum f m = wsum g m.
Proof.
  induction m as [|k c m Hk IH] using map_ind; intros H; [by rewrite !wsum_empty|].
  rewrite !wsum_insert by done. rewrite (H k c), IH; [done| |apply lookup_insert_eq].
  intros k' c' Hk'. apply (H k'). by rewrite lookup_insert_ne by congruence.
Qed.

Lemma wsum_le f g m : (forall k c, m !! k = Some c -> f c <= g c) -> wsum f m <= wsum g m.
Proof.
  induction m as [|k c m Hk IH] using map_ind; intros H; [by rewrite !wsum_empty|].
  rewrite !wsum_insert by done.
  assert (f c <= g c) by (apply (H k), lookup_insert_eq).
  assert (wsum f m <= wsum g m); [|lia].
  apply IH. intros k' c' Hk'. apply (H k'). by rewrite lookup_insert_ne by congruence.
Qed.

Lemma wsum_const n m : wsum (fun _ => n) m = n * Z.of_nat (size m).
Proof.
  induction m as [|k c m Hk IH] using map_ind; [by rewrite wsum_empty, map_size_empty, Z.mul_0_r|].
  rewrite wsum_insert, IH, map_size_insert_None by done. lia.
Qed.

Lemma sum_map_wsum m : sum_map m = wsum (fun c => c) m.
Proof. done. Qed.

Lemma size_split (P : string * Z -> Prop) `{!forall x, Decision (P x)} (m : gmap string Z) :
  size m = (size (filter P m) + size (filter (fun x => ~ P x) m))%nat.
Proof.
  rewrite <- (map_filter_union_complement P m) at 1.
  apply map_size_disj_union, map_disjoint_filter_complement.
Qed.

(** The users above a share, each with that share. *)
Definition capped (share : Z) (m : gmap string Z) : gmap string Z :=
  (fun _ => share) <$> filter (fun kv => ~ kv.2 <= share) m.

Lemma capped_above s share m :
  s <= share -> capped share (filter (fun kv => ~ kv.2 <= s) m) = capped share m.
Proof.
  intros. unfold capped. f_equal. apply map_eq. intros k.
  apply option_eq. intros c. rewrite !map_lookup_filter_Some. simpl. intuition lia.
Qed.

(** A share is the fair one when the users' demands, cut down to it, fit the
    budget, and would not with one connection more each. *)
Definition is_fair_share (m : gmap string Z) (budget share : Z) : Prop :=
  0 <= share /\ wsum (fun c => Z.min c share) m <= budget < wsum (fun c => Z.min c (share + 1)) m.

Lemma size_nonempty (m : gmap string Z) : size m <> 0%nat <-> m <> ∅.
Proof. by rewrite map_size_empty_iff. Qed.

Lemma wsum_bounds lo hi m :
  (forall k c, m !! k = Some c -> lo <= c <= hi) ->
  lo * Z.of_nat (size m) <= sum_map m <= hi * Z.of_nat (size m).
Proof.
  intros H. rewrite <- !wsum_const, sum_map_wsum.
  split; apply wsum_le; intros k c Hk; apply (H k c Hk).
Qed.

(** When every demand exceeds the equal share, the equal share is fair. *)
Lemma fair_share_base m budget :
  let s := budget / Z.of_nat (size m) in
  0 <= budget -> m <> ∅ -> (forall k c, m !! k = Some c -> s < c) -> is_fair_share m budget s.
Proof.
  intros s Hb Hm Habove. apply size_nonempty in Hm.
  assert (0 <= s) by (apply Z.div_pos; lia).
  split; [done|].
  rewrite (wsum_ext _ (fun _ => s)), (wsum_ext (fun c => Z.min c (s + 1)) (fun _ => s + 1)).
  - rewrite !wsum_const. subst s.
    pose proof (Z.mod_pos_bound budget (Z.of_nat (size m))).
    pose proof (Z.div_mod budget (Z.of_nat (size m))). lia.
  - intros k c Hk. specialize (Habove k c Hk). lia.
  - intros k c Hk. specialize (Habove k c Hk). lia.
Qed.

(** Demands of at most [s] can be served first: a share above [s] that is fair
    for the others and the rest of the budget is fair for all. *)
Lemma fair_share_step m budget s share :
  s <= share ->
  is_fair_share (filter (fun kv => ~ kv.2 <= s) m)
                (budget - sum_map (filter (fun kv => kv.2 <= s) m)) share ->
  is_fair_share m budget share.
Proof.
  intros Hs (Hpos & Hlo & Hhi). split; [done|].
  set (P := fun kv : string * Z => kv.2 <= s) in *.
  assert (Hsat : forall t, share <= t -> wsum (fun c => Z.min c t) (filter P m) = sum_map (filter P m)).
  { intros t Ht. apply wsum_ext. intros k c Hk.
    apply map_lookup_filter_Some in Hk as [_ Hk]. unfold P in Hk. simpl in Hk. lia. }
  rewrite (wsum_split (fun c => Z.min c share) P m), (wsum_split (fun c => Z.min c (share + 1)) P m).
  rewrite !Hsat by lia. subst P. simpl in *. lia.
Qed.

(** Serving the demands within the equal share leaves a budget that is not
    negative, is still exceeded, and has no smaller equal share. *)
Lemma satisfied_budget m budget :
  let s := budget / Z.of_nat (size m) in
  let sat := filter (fun kv => kv.2 <= s) m in
  let rest := filter (fun kv => ~ kv.2 <= s) m in
  0 <= budget -> m <> ∅ -> (forall k c, m !! k = Some c -> 0 <= c) -> budget < sum_map m ->
  0 <= budget - sum_map sat <= budget /\ budget - sum_map sat < sum_map rest /\
  s <= (budget - sum_map sat) / Z.of_nat (size rest).
Proof.
  intros s sat rest Hb Hm Hpos Hsum. apply size_nonempty in Hm.
  assert (0 <= s) by (apply Z.div_pos; lia).
  assert (s * Z.of_nat (size m) <= budget) by (subst s; rewrite Z.mul_comm; apply Z.mul_div_le; lia).
  assert (Hsat : 0 * Z.of_nat (size sat) <= sum_map sat <= s * Z.of_nat (size sat)).
  { apply wsum_bounds. intros k c Hk. apply map_lookup_filter_Some in Hk as [Hk ?]. eauto. }
  assert (Hsplit : sum_map m = sum_map sat + sum_map rest)
    by apply (wsum_split (fun c => c) (fun kv => kv.2 <= s)).
  assert (Hsize : size m = (size sat + size rest)%nat) by apply size_split.
  clearbody rest sat s.
  assert (s * Z.of_nat (size m) = s * Z.of_nat (size sat) + s * Z.of_nat (size rest))
    by (rewrite Hsize; lia).
  assert (sum_map sat <= budget) by nia.
  assert (size rest <> 0%nat).
  { intros Hz. apply map_size_empty_inv in Hz. rewrite Hz in Hsplit.
    change (sum_map ∅) with 0 in Hsplit. lia. }
  split_and!; [lia|lia|lia|]. apply Z.div_le_lower_bound; nia.
Qed.

Lemma fairLoop_spec fuel m budget :
  (size m < fuel)%nat -> 0 <= budget <= max_int64 ->
  (forall k c, m !! k = Some c -> 0 <= c) -> budget < sum_map m ->
  exists share, budget / Z.of_nat (size m) <= share /\ is_fair_share m budget share /\
                fairLoop fuel m budget = Some (capped share m).
Proof.
  revert m budget. induction fuel as [|fuel IH]; intros m budget Hfuel Hb Hpos Hsum; [lia|].
  simpl. destruct (size m =? 0)%nat eqn:E0; zbool.
  { apply map_size_empty_inv in E0 as ->. change (sum_map ∅) with 0 in Hsum. lia. }
  assert (Hm : m <> ∅) by (by apply size_nonempty).
  rewrite Z.quot_div_nonneg by lia. set (s := budget / Z.of_nat (size m)).
  destruct (satisfied_budget m budget) as (Hb' & Hsum' & Hs'); [lia|done..|].
  fold s in Hb', Hsum', Hs'.
  destruct (size (filter _ m) =? 0)%nat eqn:E; zbool.
  - assert (Habove : forall k c, m !! k = Some c -> s < c).
    { intros k c Hk. apply Z.nle_gt. intros Hle. apply map_size_empty_inv in E.
      eapply (lookup_empty_Some k c). rewrite <- E. by apply map_lookup_filter_Some. }
    exists s. split_and!; [done|apply fair_share_base; [lia|done..]|].
    f_equal. unfold capped. f_equal. symmetry. apply map_filter_id.
    intros k c Hk. specialize (Habove k c Hk). simpl. lia.
  - rewrite int64_small by (unfold min_int64 in *; lia).
    pose proof (size_split (fun kv => kv.2 <= s) m).
    destruct (IH (filter (fun kv => ~ kv.2 <= s) m) (budget - sum_map (filter (fun kv => kv.2 <= s) m)))
      as (share & Hlow & Hfair & ->); [lia..| |done|].
    { intros k c Hk. apply map_lookup_filter_Some in Hk as [Hk _]. eauto. }
    assert (s <= share) by lia. exists share.
    split_and!; [done|by apply (fair_share_step _ _ s)|by rewrite capped_above].
Qed.

Lemma computeFairCaps_total (m : gmap string Z) (limit : Z) :
  (forall k c, m !! k = Some c -> 0 <= c) -> sum_map m <= max_int64 -> 0 <= limit ->
  if sum_map m <=? limit then computeFairCaps m limit = Some ∅
  else exists share, is_fair_share m limit share /\ computeFairCaps m limit = Some (capped share m).
Proof.
  intros Hpos Hmax Hlim. unfold computeFairCaps.
  assert (0 <= sum_map m).
  { rewrite sum_map_wsum, <- (Z.mul_0_l (Z.of_nat (size m))), <- wsum_const. apply wsum_le. apply Hpos. }
  rewrite int64_small by (unfold min_int64; lia).
  destruct (sum_map m <=? limit) eqn:E; [done|]. zbool.
  destruct (fairLoop_spec (S (size m)) m limit) as (share & _ & Hfair & ->); [lia..|done|lia|].
  eauto.
Qed.

(** C12: the throttle is max-min fair.  When the open connections (not negative,
    their sum within 64 bits) exceed the limit, [computeFairCaps] returns, for
    one share, exactly the users above it capped at it, and the share is the
    largest one for which the users' demands cut down to it fit the limit;
    otherwise nobody is capped. *)
Theorem computeFairCaps_fair (m : gmap string Z) (limit : Z) :
  (forall k c, m !! k = Some c -> 0 <= c) -> sum_map m <= max_int64 -> 0 <= limit ->
  if sum_map m <=? limit then computeFairCaps m limit = Some ∅
  else exists share, is_fair_share m limit share /\ computeFairCaps m limit = Some (capped share m).
Proof. apply computeFairCaps_total. Qed.

Definition demo_conns : gmap string Z := {["a" := 1; "b" := 7; "c" := 9]}.

Lemma computeFairCaps_fair_witness :
  exists share, is_fair_share demo_conns 9 share /\
                computeFairCaps demo_conns 9 = Some (capped share demo_conns).
Proof.
  apply (computeFairCaps_fair demo_conns 9); [|vm_compute; discriminate|lia].
  apply (bool_decide_unpack (map_Forall (fun _ c => 0 <= c) demo_conns)). vm_compute. exact I.
Defined.

(** ** Proofs: counters *)

Lemma users_update s name f k :
  users (update s name f) !! k =
  if decide (name = k) then Some (f (default zeroStats (users s !! name))) else users s !! k.
Proof.
  unfold update, getOrCreate. destruct (users s !! name) eqn:E; simpl; rewrite lookup_insert;
    case_decide; subst; simpl; rewrite ?E; auto. by rewrite lookup_insert_ne.
Qed.

Lemma users_update_eq s name f :
  users (update s name f) !! name = Some (f (default zeroStats (users s !! name))).
Proof. rewrite users_update. by rewrite decide_True. Qed.

Lemma users_update_ne s name f k : name <> k -> users (update s name f) !! k = users s !! k.
Proof. intros. rewrite users_update. by rewrite decide_False. Qed.

(** The counters of a name, zero before its first use. *)
Definition stats_of (s : ProxyStats) (name : string) : secretStats :=
  default zeroStats (users s !! name).

Lemma stats_of_update s name f k :
  stats_of (update s name f) k = if decide (name = k) then f (stats_of s name) else stats_of s k.
Proof. unfold stats_of. rewrite users_update. by case_decide. Qed.

Lemma PreRegister_stats s name k : stats_of (PreRegister s name) k = stats_of s k.
Proof.
  unfold stats_of, PreRegister, getOrCreate. destruct (users s !! name) eqn:E; [done|]. simpl.
  rewrite lookup_insert. case_decide; subst; by rewrite ?E.
Qed.

#[export] Hint Rewrite stats_of_update PreRegister_stats : golib.

Lemma capped_lookup share m name :
  capped share m !! name =
  match m !! name with
  | Some c => if decide (c <= share) then None else Some share
  | None => None
  end.
Proof.
  unfold capped. rewrite lookup_fmap, map_lookup_filter.
  destruct (m !! name) as [c|]; simpl; [|done]. unfold guard. repeat case_decide; done.
Qed.

Lemma capped_nonempty share m budget :
  is_fair_share m budget share -> budget < sum_map m -> capped share m <> ∅.
Proof.
  intros (_ & Hlo & _) Hsum Hz.
  assert (wsum (fun c => Z.min c share) m = sum_map m); [|lia].
  apply wsum_ext. intros k c Hk. destruct (decide (c <= share)); [lia|].
  exfalso. apply (lookup_empty_Some (A:=Z) (M:=gmap string) k share). rewrite <- Hz, capped_lookup, Hk.
  by rewrite decide_False.
Qed.

Lemma CanConnect_capped s share name :
  throttleLimit s <> 0 -> 0 <= share -> throttleCaps s = capped share (connections <$> users s) ->
  snd (CanConnect s name) = false <-> share < connections (stats_of s name).
Proof.
  intros Hl Hs Hcaps. unfold CanConnect. rewrite (proj2 (Z.eqb_neq _ _)) by done.
  rewrite Hcaps, capped_lookup, lookup_fmap. unfold getOrCreate, stats_of.
  destruct (users s !! name) as [st|]; simpl; [|by split; [|lia]].
  case_decide; simpl; [split; [done|lia]|].
  rewrite Z.ltb_ge. lia.
Qed.

(** After a recomputation of the caps the throttle is active exactly when
    the open connections exceed the limit, and it then refuses new connections
    to exactly the users whose connections exceed the fair share. *)
Theorem recomputeCaps_throttles (s : ProxyStats) :
  let conns := connections <$> users s in
  (forall k c, conns !! k = Some c -> 0 <= c) -> sum_map conns <= max_int64 -> 0 < throttleLimit s ->
  exists s', recomputeCaps s = Some s' /\ users s' = users s /\
    (throttleActive s' = true <-> throttleLimit s < sum_map conns) /\
    (sum_map conns <= throttleLimit s -> forall name, snd (CanConnect s' name) = true) /\
    (throttleLimit s < sum_map conns -> exists share,
       is_fair_share conns (throttleLimit s) share /\
       forall name, snd (CanConnect s' name) = false <-> share < connections (stats_of s name)).
Proof.
  intros conns Hpos Hmax Hlim.
  pose proof (computeFairCaps_total conns (throttleLimit s) Hpos Hmax ltac:(lia)) as Hfair.
  unfold recomputeCaps. fold conns.
  destruct (sum_map conns <=? throttleLimit s) eqn:E; zbool.
  - rewrite Hfair. simpl. eexists. split_and!; [done..| | |lia].
    + simpl. split; [by rewrite map_size_empty | lia].
    + intros _ name. unfold CanConnect. simpl. rewrite lookup_empty. by case_match.
  - destruct Hfair as (share & Hshare & ->). simpl. eexists. split_and!; [done..| |lia|].
    + split; [done|]. intros _. simpl. rewrite negb_true_iff, Nat.eqb_neq.
      apply size_nonempty. by eapply capped_nonempty.
    + intros _. exists share. split; [done|]. intros name.
      pose proof (proj1 Hshare).
      refine (CanConnect_capped (mkProxyStats (users s) _ _ _ _ _) share name _ _ _); simpl; [lia|done..].
Qed.

(** Three users with 1, 7 and 9 connections under a limit of 9. *)
Definition demo_stats : ProxyStats :=
  mkProxyStats ((fun c => set_connections c zeroStats) <$> demo_conns) 0 ∅ 9 (5 * Second) false.

Lemma demo_stats_conns : connections <$> users demo_stats = demo_conns.
Proof. vm_compute. reflexivity. Qed.

Lemma recomputeCaps_throttles_witness :
  exists s', recomputeCaps demo_stats = Some s' /\ users s' = users demo_stats /\
    (throttleActive s' = true <-> 9 < 17) /\
    (17 <= 9 -> forall name, snd (CanConnect s' name) = true) /\
    (9 < 17 -> exists share, is_fair_share demo_conns 9 share /\
       forall name, snd (CanConnect s' name) = false <-> share < connections (stats_of demo_stats name)).
Proof.
  apply (recomputeCaps_throttles demo_stats); [|vm_compute; discriminate|reflexivity].
  apply (bool_decide_unpack (map_Forall (fun _ c => 0 <= c) (connections <$> users demo_stats))).
  vm_compute. exact I.
Defined.

(** ** Proofs: quotas *)

Section QuotaProofs.
Context (localOffset : Z -> Z).

Lemma rollover_same_month now st :
  periodStart st <> 0 ->
  localYearMonth localOffset now = localYearMonth localOffset (Unix 0 (periodStart st)) ->
  rolloverIfNeeded localOffset QuotaResetMonthly now st = st.
Proof.
  intros H0 Hm. unfold rolloverIfNeeded. rewrite (proj2 (Z.eqb_neq _ _)) by done.
  by rewrite bool_decide_eq_true_2.
Qed.

(** Rolling over twice at the same instant is rolling over once. *)
Lemma rollover_idem reset now st :
  min_int64 <= now - unixEpoch <= max_int64 ->
  rolloverIfNeeded localOffset reset now (rolloverIfNeeded localOffset reset now st) =
  rolloverIfNeeded localOffset reset now st.
Proof.
  intros Hr. assert (Hu : Unix 0 (UnixNano now) = now)
    by (unfold Unix, UnixNano; rewrite int64_small; lia).
  destruct reset; [done|]. unfold rolloverIfNeeded at 2 3.
  destruct (periodStart st =? 0) eqn:E0; [|case_bool_decide as Hm].
  - unfold rolloverIfNeeded. simpl. rewrite Hu, bool_decide_eq_true_2 by done. by case_match.
  - zbool. by apply rollover_same_month.
  - unfold rolloverIfNeeded. simpl. rewrite Hu, bool_decide_eq_true_2 by done. by case_match.
Qed.

End QuotaProofs.

(** The monthly roll-over.  Without a monthly policy the counters of a
    secret never change; with it, reading the quota anchors a period that has
    not started, keeps the counter inside the month of the period, and in a
    later (or earlier) month clears it and starts a new period; nothing else
    changes, and no other secret is touched. *)
Theorem QuotaUsed_rollover (localOffset : Z -> Z) now (s : ProxyStats) name reset :
  let st := stats_of s name in
  let '(s', used) := QuotaUsed localOffset now s name reset in
  let sameMonth := localYearMonth localOffset now = localYearMonth localOffset (Unix 0 (periodStart st)) in
  (forall k, k <> name -> users s' !! k = users s !! k) /\
  used = quotaUsed (stats_of s' name) /\
  match reset with
  | QuotaResetNone => stats_of s' name = st
  | QuotaResetMonthly =>
      (periodStart st = 0 -> stats_of s' name = set_periodStart (UnixNano now) st) /\
      (periodStart st <> 0 -> sameMonth -> stats_of s' name = st) /\
      (periodStart st <> 0 -> ~ sameMonth ->
       stats_of s' name = set_periodStart (UnixNano now) (set_quotaUsed 0 st) /\ used = 0)
  end.
Proof.
  simpl. split_and!; [intros; by apply users_update_ne | done |].
  fold (stats_of (update s name (rolloverIfNeeded localOffset reset now)) name).
  rewrite stats_of_update, decide_True by done. unfold rolloverIfNeeded.
  destruct reset; [done|]. set (st := stats_of s name).
  split_and!; intros; repeat (case_match; zbool); try done; try lia.
Qed.

(** The bytes a sequence of relayed chunks adds: reads are [inl], writes
    [inr]; only positive counts are counted. *)
Definition relayed (s : ProxyStats) (name : string) (ops : list (Z + Z)) : ProxyStats :=
  foldl (fun s op => match op with inl n => countRead s name n | inr n => countWrite s name n end) s ops.

Definition chunk_in (op : Z + Z) : Z := match op with inl n => Z.max 0 n | inr _ => 0 end.

Definition chunk_out (op : Z + Z) : Z := match op with inr n => Z.max 0 n | inl _ => 0 end.

Lemma int64_add_l a b : int64 (int64 a + b) = int64 (a + b).
Proof.
  unfold int64, swrap. f_equal.
  replace ((a + 2 ^ (64 - 1)) mod 2 ^ 64 - 2 ^ (64 - 1) + b + 2 ^ (64 - 1))
    with ((a + 2 ^ (64 - 1)) mod 2 ^ 64 + b) by lia.
  rewrite Z.add_mod_idemp_l by lia. f_equal. lia.
Qed.

Definition chunks (f : Z + Z -> Z) (ops : list (Z + Z)) : Z := foldr (fun op acc => f op + acc) 0 ops.

(** Relayed traffic is accounted exactly once: after any sequence of reads
    and writes of a secret's connections its 64-bit counters have grown by the
    bytes read, the bytes written, and the quota by their sum. *)
Theorem relayed_counters ops s name :
  let s' := relayed s name ops in
  let din := chunks chunk_in ops in
  let dout := chunks chunk_out ops in
  int64 (bytesIn (stats_of s' name)) = int64 (bytesIn (stats_of s name) + din) /\
  int64 (bytesOut (stats_of s' name)) = int64 (bytesOut (stats_of s name) + dout) /\
  int64 (quotaUsed (stats_of s' name)) = int64 (quotaUsed (stats_of s name) + din + dout).
Proof.
  revert s. induction ops as [|op ops IH]; intros s; simpl; [split_and!; f_equal; lia|].
  destruct op as [n|n]; simpl;
    match goal with |- context [relayed ?s0 name ops] => specialize (IH s0) end; simpl in IH;
    destruct IH as (-> & -> & ->); unfold countRead, countWrite;
    destruct (0 <? n) eqn:E; zbool;
    rewrite ?stats_of_update, ?decide_True by done; simpl;
    split_and!; rewrite <- ?Z.add_assoc, ?int64_add_l; f_equal; lia.
Qed.

(** ** Proofs: persistence *)

Lemma loadRecords_lookup (l : list (string * usageRecord)) s name :
  NoDup l.*1 ->
  stats_of (foldr (fun kv s => update s kv.1 (fun st =>
              set_periodStart (ur_PeriodStart kv.2) (set_quotaUsed (ur_QuotaUsed kv.2) st))) s l) name =
  match (list_to_map l : gmap string usageRecord) !! name with
  | None => stats_of s name
  | Some r => set_periodStart (ur_PeriodStart r) (set_quotaUsed (ur_QuotaUsed r) (stats_of s name))
  end.
Proof.
  induction l as [|[k r] l IH]; intros Hnd; [done|]. apply NoDup_cons in Hnd as [Hk Hnd]. simpl.
  rewrite stats_of_update, lookup_insert. case_decide as Hkn; [subst k|by apply IH].
  rewrite IH by done. by rewrite (not_elem_of_list_to_map_1 (M:=gmap string) l name).
Qed.

Lemma tmpPath_ne path : tmpPath path <> path.
Proof. unfold tmpPath. induction path as [|c path IH]; [done|]. simpl. intros [= H]. by apply IH. Qed.

Section PersistProofs.
Context (marshal : gmap string usageRecord -> list byte)
        (unmarshal : list byte -> res (gmap string usageRecord)).

(** [FlushUsage] runs through the steps of [flushStep], errors included. *)
Lemma FlushUsage_steps werr rerr (s : ProxyStats) (fs : filesystem) path :
  rtc (flushStep marshal s path) fs (FlushUsage marshal werr rerr s fs path).1.
Proof.
  pose proof (flush_write marshal s path fs) as Hw. unfold FlushUsage.
  destruct werr as [[n e]|]; [by eapply rtc_l; [apply (Hw n)|apply rtc_refl]|].
  specialize (Hw (length (marshal (usageRecords s)))). rewrite firstn_all in Hw.
  eapply rtc_l; [exact Hw|]. destruct rerr; [apply rtc_refl|].
  eapply rtc_l; [apply flush_rename; apply lookup_insert_eq|apply rtc_refl].
Qed.

Lemma flushStep_atomic (s : ProxyStats) path (fs fs' : filesystem) :
  rtc (flushStep marshal s path) fs fs' ->
  fs' !! path = fs !! path \/ fs' !! path = Some (marshal (usageRecords s)).
Proof.
  induction 1 as [|fs1 fs2 fs3 Hs _ IH]; [by left|].
  pose proof (tmpPath_ne path).
  destruct IH as [->|]; [|by right].
  destruct Hs; [left; by rewrite lookup_insert_ne | right; by rewrite lookup_insert_eq].
Qed.

(** A usage flush is atomic: [FlushUsage], with or without an error of its
    system calls, runs through the steps of [flushStep], and if the process dies
    after any of them, a partial write included, the usage file holds its old
    content or the complete new one. *)
Theorem flush_crash_safe werr rerr (s : ProxyStats) path (fs fs' : filesystem) :
  rtc (flushStep marshal s path) fs fs' ->
  rtc (flushStep marshal s path) fs (FlushUsage marshal werr rerr s fs path).1 /\
  (fs' !! path = fs !! path \/ fs' !! path = Some (marshal (usageRecords s))).
Proof. intros H. split; [apply FlushUsage_steps | by apply flushStep_atomic]. Qed.

(** Flushed usage is restored: after a successful flush, loading the file
    into a fresh set of statistics gives every secret the quota usage and the
    period it had, when the JSON codec round-trips on these records. *)
Theorem flush_load_roundtrip (s : ProxyStats) (fs : filesystem) path now :
  unmarshal (marshal (usageRecords s)) = Ok (usageRecords s) ->
  let '(fs', err) := FlushUsage marshal None None s fs path in
  let '(s', err') := LoadUsage unmarshal None fs' path (NewProxyStats now) in
  err = None /\ err' = None /\
  forall name, quotaUsed (stats_of s' name) = quotaUsed (stats_of s name) /\
               periodStart (stats_of s' name) = periodStart (stats_of s name).
Proof.
  intros Hjson. simpl. unfold LoadUsage. rewrite lookup_insert_eq, Hjson. split_and!; [done..|].
  intros name. rewrite loadRecords_lookup by apply NoDup_fst_map_to_list.
  rewrite list_to_map_to_list. unfold usageRecords, stats_of. rewrite lookup_fmap.
  by destruct (users s !! name).
Qed.

End PersistProofs.

(** *** Witnesses of the persistence theorems *)

(** A codec for one record under one key: the quota usage as eight bytes. *)
Definition demo_marshal (m : gmap string usageRecord) : list byte :=
  match m !! "bob" with
  | Some r => be_split 8 (ur_QuotaUsed r)
  | None => []
  end.

Definition demo_unmarshal (bs : list byte) : res (gmap string usageRecord) :=
  Ok {[ "bob" := {| ur_QuotaUsed := be_combine bs; ur_PeriodStart := 0 |} ]}.

Definition demo_usage : ProxyStats :=
  update (NewProxyStats 0) "bob" (set_quotaUsed 70000).

Lemma flush_crash_safe_witness :
  let fs := {[ "u.json" := [Byte.x00] ]} : filesystem in
  let fs' := <[tmpPath "u.json" := demo_marshal (usageRecords demo_usage)]> fs in
  rtc (flushStep demo_marshal demo_usage "u.json") fs
    (FlushUsage demo_marshal None (Some EOF) demo_usage fs "u.json").1 /\
  (fs' !! "u.json" = fs !! "u.json" \/
   fs' !! "u.json" = Some (demo_marshal (usageRecords demo_usage))).
Proof.
  intros fs fs'. apply (flush_crash_safe demo_marshal None (Some EOF) demo_usage "u.json" fs fs').
  eapply rtc_l; [apply (flush_write demo_marshal demo_usage "u.json" _ 8) | apply rtc_refl].
Defined.

Lemma flush_load_roundtrip_witness :
  let '(fs', err) := FlushUsage demo_marshal None None demo_usage ∅ "u.json" in
  let '(s', err') := LoadUsage demo_unmarshal None fs' "u.json" (NewProxyStats 5) in
  err = None /\ err' = None /\
  forall name, quotaUsed (stats_of s' name) = quotaUsed (stats_of demo_usage name) /\
               periodStart (stats_of s' name) = periodStart (stats_of demo_usage name).
Proof. apply flush_load_roundtrip. vm_compute. reflexivity. Defined.
