(* ===== verification/GoStrings.v ===== *)
(** * The parts of packages [strings] and [strconv] the program uses

    A Go string is its bytes, one [ascii] per byte.  Case mapping is given for
    ASCII letters and leaves other bytes alone: no comparison of the program
    with an ASCII word depends on another case mapping. *)

From S2P Require Import Prelude.
From Stdlib Require Import Ascii String.
Open Scope char_scope.
Open Scope string_scope.
Open Scope list_scope.
Open Scope Z_scope.

Definition chr (n : Z) : ascii := ascii_of_N (Z.to_N n).
Definition ord (c : ascii) : Z := Z.of_N (N_of_ascii c).

(** ** strings.TrimSpace *)

(** The white space of package [unicode], as UTF-8 byte sequences. *)
Definition spaces : list string :=
  (fun l => string_of_list_ascii (chr <$> l)) <$>
  [[9]; [10]; [11]; [12]; [13]; [32]; [194; 133]; [194; 160]; [225; 154; 128];
   [226; 128; 128]; [226; 128; 129]; [226; 128; 130]; [226; 128; 131]; [226; 128; 132]; [226; 128; 133];
   [226; 128; 134]; [226; 128; 135]; [226; 128; 136]; [226; 128; 137]; [226; 128; 138]; [226; 128; 168];
   [226; 128; 169]; [226; 128; 175]; [226; 129; 159]; [227; 128; 128]].

(** [strings.CutPrefix]. *)
Fixpoint cut_prefix (p s : string) : option string :=
  match p, s with
  | EmptyString, _ => Some s
  | String a p, String b s => if bool_decide (a = b) then cut_prefix p s else None
  | _, _ => None
  end.

Definition cut_space (sp : list string) (s : string) : option string :=
  foldr (fun p r => match cut_prefix p s with Some s' => Some s' | None => r end) None sp.

(** Every round removes a byte at least: the length is enough fuel. *)
Fixpoint trim_left (sp : list string) (fuel : nat) (s : string) : string :=
  match fuel with
  | O => s
  | S fuel => match cut_space sp s with Some s' => trim_left sp fuel s' | None => s end
  end.

Definition rev_string (s : string) : string := string_of_list_ascii (rev (list_ascii_of_string s)).

Definition TrimSpace (s : string) : string :=
  let s := trim_left spaces (String.length s) s in
  rev_string (trim_left (rev_string <$> spaces) (String.length s) (rev_string s)).

(** ** strings.ToLower, strings.ToUpper *)

Definition map_string (f : ascii -> ascii) (s : string) : string :=
  string_of_list_ascii (f <$> list_ascii_of_string s).

Definition lower (c : ascii) : ascii := if (65 <=? ord c) && (ord c <=? 90) then chr (ord c + 32) else c.
Definition upper (c : ascii) : ascii := if (97 <=? ord c) && (ord c <=? 122) then chr (ord c - 32) else c.

Definition ToLower : string -> string := map_string lower.
Definition ToUpper : string -> string := map_string upper.

(** ** strconv.ParseInt(s, 10, 64) and decimal printing *)

Definition digit (c : ascii) : option Z :=
  if (48 <=? ord c) && (ord c <=? 57) then Some (ord c - 48) else None.

Fixpoint digits (acc : Z) (s : string) : option Z :=
  match s with
  | EmptyString => Some acc
  | String c s => d ← digit c; digits (10 * acc + d) s
  end.

(** [None] is a syntax error (no digit, another character) or a value out of
    the range of [int64]. *)
Definition ParseInt (s : string) : option Z :=
  let '(neg, s') := match s with
                    | String "-" s' => (true, s')
                    | String "+" s' => (false, s')
                    | _ => (false, s)
                    end in
  if bool_decide (s' = "") then None else
  n ← digits 0 s';
  let n := if neg : bool then - n else n in
  if (min_int64 <=? n) && (n <=? max_int64) then Some n else None.

(** [strconv.Itoa] and [%d] of a non-negative number: [fuel] bounds the count of
    digits. *)
Fixpoint itoa_loop (fuel : nat) (n : Z) (acc : string) : string :=
  match fuel with
  | O => acc
  | S fuel =>
      let acc := String (chr (48 + n mod 10)) acc in
      if n <? 10 then acc else itoa_loop fuel (n / 10) acc
  end.

Definition Itoa (n : Z) : string :=
  if n <? 0 then String "-" (itoa_loop 20 (- n) "") else itoa_loop 20 n "".

(** ** Searching and splitting *)

Definition HasPrefix (s p : string) : bool := match cut_prefix p s with Some _ => true | None => false end.

(** [strings.Contains]. *)
Fixpoint Contains (s sub : string) : bool :=
  HasPrefix s sub || match s with EmptyString => false | String _ s => Contains s sub end.

(** [strings.IndexByte] and [strings.LastIndexByte]; [None] is -1. *)
Fixpoint IndexByte (s : string) (c : ascii) : option nat :=
  match s with
  | EmptyString => None
  | String a s => if bool_decide (a = c) then Some O else S <$> IndexByte s c
  end.

Definition LastIndexByte (s : string) (c : ascii) : option nat :=
  (fun i => String.length s - 1 - i)%nat <$> IndexByte (rev_string s) c.

(** [s[n:]] *)
Fixpoint str_drop (n : nat) (s : string) : string :=
  match n, s with S n, String _ s => str_drop n s | _, _ => s end.

(** [s[:n]] *)
Fixpoint str_take (n : nat) (s : string) : string :=
  match n, s with S n, String c s => String c (str_take n s) | _, _ => "" end.

(** [strings.TrimRight] with a cutset of one character. *)
Fixpoint TrimRight (s : string) (c : ascii) : string :=
  match s with
  | EmptyString => ""
  | String a s => let t := TrimRight s c in if bool_decide (t = "") && bool_decide (a = c) then "" else String a t
  end.

(** [strings.Fields]: [cur] is the current field, reversed; every round removes
    a byte. *)
Fixpoint fields_loop (fuel : nat) (cur s : string) : list string :=
  let flush := if bool_decide (cur = "") then [] else [rev_string cur] in
  match fuel with
  | O => flush
  | S fuel =>
      match cut_space spaces s with
      | Some s' => flush ++ fields_loop fuel "" s'
      | None => match s with EmptyString => flush | String c s' => fields_loop fuel (String c cur) s' end
      end
  end.

Definition Fields (s : string) : list string := fields_loop (S (String.length s)) "" s.

(** A line without one final carriage return. *)
Definition dropCR (s : string) : string :=
  match rev_string s with String "013" r => rev_string r | _ => s end.

(** A [bufio.Scanner] over lines: the lines before the first one of 64 KiB or
    more, and whether there was such a line. *)
Fixpoint lines_loop (cur s : string) : list string :=
  match s with
  | EmptyString => if bool_decide (cur = "") then [] else [rev_string cur]
  | String c s => if bool_decide (c = "010"%char) then rev_string cur :: lines_loop "" s else lines_loop (String c cur) s
  end.

Definition MaxScanTokenSize : Z := 65536.

Fixpoint scan_lines (lines : list string) : list string * bool :=
  match lines with
  | [] => ([], false)
  | l :: lines =>
      if MaxScanTokenSize <=? Z.of_nat (String.length l) then ([], true)
      else let '(ls, err) := scan_lines lines in (dropCR l :: ls, err)
  end.

(** [net.SplitHostPort]: host and port, or the kind of error. *)
Definition SplitHostPort (hostport : string) : res (string * string) :=
  match LastIndexByte hostport ":" with
  | None => Fail (Errorf "missing port in address")
  | Some i =>
      let tail j k host :=
        if bool_decide (IndexByte (str_drop j hostport) "[" <> None) then Fail (Errorf "unexpected '[' in address")
        else if bool_decide (IndexByte (str_drop k hostport) "]" <> None) then Fail (Errorf "unexpected ']' in address")
        else Ok (host, str_drop (i + 1) hostport) in
      if HasPrefix hostport "[" then
        match IndexByte hostport "]" with
        | None => Fail (Errorf "missing ']' in address")
        | Some e =>
            if (e + 1 =? String.length hostport)%nat then Fail (Errorf "missing port in address")
            else if (e + 1 =? i)%nat then tail 1%nat (e + 1)%nat (str_take (e - 1) (str_drop 1 hostport))
            else if HasPrefix (str_drop (e + 1) hostport) ":" then Fail (Errorf "too many colons in address")
            else Fail (Errorf "missing port in address")
        end
      else if bool_decide (IndexByte (str_take i hostport) ":" <> None) then Fail (Errorf "too many colons in address")
      else tail 0%nat 0%nat (str_take i hostport)
  end.

Example SplitHostPort_ex :
  (SplitHostPort "1.2.3.4:80", SplitHostPort "[::1]:443", SplitHostPort "::1:443", SplitHostPort "host", SplitHostPort "[::1]") =
  (Ok ("1.2.3.4", "80"), Ok ("::1", "443"), Fail (Errorf "too many colons in address"),
   Fail (Errorf "missing port in address"), Fail (Errorf "missing port in address")).
Proof. reflexivity. Qed.

Example Fields_ex : Fields "  proxy_for 2	1.2.3.4:80;  " = ["proxy_for"; "2"; "1.2.3.4:80;"].
Proof. reflexivity. Qed.

(** ** Proofs *)

Lemma digit_chr d : 0 <= d < 10 -> digit (chr (48 + d)) = Some d.
Proof.
  intros H. assert (d = 0 \/ d = 1 \/ d = 2 \/ d = 3 \/ d = 4 \/ d = 5 \/ d = 6 \/ d = 7 \/ d = 8 \/ d = 9) as Hd by lia.
  by repeat destruct Hd as [->|Hd]; subst.
Qed.

Lemma digits_itoa fuel n acc v :
  0 <= n < 10 ^ Z.of_nat fuel -> (0 < fuel)%nat ->
  exists v', digits v (itoa_loop fuel n acc) = digits v' acc /\
             exists k, 0 <= k /\ v' = v * 10 ^ k + n /\ itoa_loop fuel n acc <> "".
Proof.
  revert n acc. induction fuel as [|fuel IH]; intros n acc Hn Hf; [lia|]. simpl.
  destruct (n <? 10) eqn:Hlt; zbool.
  - exists (10 * v + n). rewrite Z.mod_small by lia. simpl. rewrite digit_chr by lia.
    split; [done|]. exists 1. split_and!; [lia|lia|done].
  - rewrite Nat2Z.inj_succ, Z.pow_succ_r in Hn by lia.
    pose proof (Z.div_mod n 10 ltac:(lia)) as Hdm. pose proof (Z.mod_pos_bound n 10 ltac:(lia)) as Hm.
    assert (0 < Z.of_nat fuel). { destruct fuel; [|lia]. change (10 ^ Z.of_nat 0) with 1 in Hn. lia. }
    edestruct (IH (n / 10) (String (chr (48 + n mod 10)) acc)) as (v' & Hv & k & Hk & -> & Hne); [lia..|].
    exists (10 * (v * 10 ^ k + n / 10) + n mod 10). rewrite Hv. simpl. rewrite digit_chr by lia. split; [done|].
    exists (k + 1). rewrite Z.pow_add_r, Z.pow_1_r by lia. split_and!; [lia|lia|done].
Qed.

(** Printing then parsing an [int64] gives it back, for the non-negative ones
    the program prints. *)
Lemma ParseInt_Itoa n : 0 <= n <= max_int64 -> ParseInt (Itoa n) = Some n.
Proof.
  intros Hn. unfold Itoa. destruct (n <? 0) eqn:E; zbool; [lia|].
  assert (0 <= n < 10 ^ Z.of_nat 20) as Hb by (unfold max_int64 in Hn; lia).
  destruct (digits_itoa 20 n "" 0 Hb ltac:(lia)) as (v' & Hd & k & Hk & -> & Hne).
  unfold ParseInt. remember (itoa_loop 20 n "") as s eqn:Hs.
  assert (digits 0 s = Some n) as Hs' by (rewrite Hd; simpl; f_equal; lia).
  destruct s as [|c s]; [done|]. simpl in Hs'. destruct (digit c) as [d|] eqn:Hc; [|done].
  assert (c <> "-"%char /\ c <> "+"%char) as [H1 H2] by (split; intros ->; vm_compute in Hc; done).
  assert (forall A (x y z : A), match c with "-"%char => x | "+"%char => y | _ => z end = z) as Hm.
  { intros A x y z. destruct c as [[] [] [] [] [] [] [] []]; try done; exfalso; by (apply H1 || apply H2). }
  replace (match c with "-"%char => (true, s) | "+"%char => (false, s) | _ => (false, String c s) end)
    with (false, String c s) by (symmetry; apply Hm).
  rewrite bool_decide_false by done. simpl digits. rewrite Hc. simpl mbind. simpl in Hs'. rewrite Hs'. simpl.
  unfold min_int64. rewrite (proj2 (Z.leb_le n max_int64)) by lia.
  by rewrite (proj2 (Z.leb_le _ n)) by (unfold max_int64 in *; lia).
Qed.

(** ** strconv.ParseUint, strconv.ParseBool and more of package strings *)

(** [strconv.ParseUint(s, 10, bits)]: no sign, [None] for a syntax error or a
    value that does not fit. *)
Definition ParseUint (s : string) (bits : Z) : option Z :=
  if bool_decide (s = "") then None else
  n ← digits 0 s;
  if n <? 2 ^ bits then Some n else None.

(** [strconv.ParseInt(s, 10, bits)]. *)
Definition ParseIntN (s : string) (bits : Z) : option Z :=
  n ← ParseInt s;
  if (- 2 ^ (bits - 1) <=? n) && (n <? 2 ^ (bits - 1)) then Some n else None.

Definition ParseBool (s : string) : option bool :=
  if bool_decide (s ∈ ["1"; "t"; "T"; "true"; "TRUE"; "True"]) then Some true
  else if bool_decide (s ∈ ["0"; "f"; "F"; "false"; "FALSE"; "False"]) then Some false
  else None.

Definition FormatBool (b : bool) : string := if b then "true" else "false".

(** [strings.ContainsAny] for an ASCII set. *)
Definition ContainsAny (s chars : string) : bool :=
  existsb (fun c => bool_decide (c ∈ list_ascii_of_string chars)) (list_ascii_of_string s).

(** [strings.Split] with a separator of one byte; [cur] is the current part,
    reversed. *)
Fixpoint split_loop (sep : ascii) (cur s : string) : list string :=
  match s with
  | EmptyString => [rev_string cur]
  | String c s => if bool_decide (c = sep) then rev_string cur :: split_loop sep "" s else split_loop sep (String c cur) s
  end.

Definition Split (s : string) (sep : ascii) : list string := split_loop sep "" s.

Fixpoint TrimLeft (s : string) (c : ascii) : string :=
  match s with String a s' => if bool_decide (a = c) then TrimLeft s' c else s | EmptyString => "" end.

(** [strings.Trim] with a cutset of one character. *)
Definition Trim (s : string) (c : ascii) : string := TrimRight (TrimLeft s c) c.

(** A [strings.NewReplacer] that removes single bytes. *)
Definition strip (chars s : string) : string :=
  string_of_list_ascii (filter (fun c => c ∉ list_ascii_of_string chars) (list_ascii_of_string s)).

Lemma digits_Itoa n : 0 <= n < 10 ^ 20 -> digits 0 (Itoa n) = Some n /\ Itoa n <> "".
Proof.
  intros Hn. unfold Itoa. destruct (n <? 0) eqn:E; zbool; [lia|].
  destruct (digits_itoa 20 n "" 0 ltac:(lia) ltac:(lia)) as (v' & Hd & k & Hk & -> & Hne).
  by rewrite Hd.
Qed.

Lemma ParseUint_Itoa n bits : 0 <= n < 2 ^ bits -> n < 10 ^ 20 -> ParseUint (Itoa n) bits = Some n.
Proof.
  intros Hn Hb. destruct (digits_Itoa n) as [Hd Hne]; [lia|]. unfold ParseUint.
  rewrite bool_decide_false, Hd by done. simpl. by rewrite (proj2 (Z.ltb_lt _ _)) by lia.
Qed.

Lemma digit_range c d : digit c = Some d -> 0 <= d < 10.
Proof. unfold digit. case_match eqn:E; intros [= <-]; zbool; lia. Qed.

Lemma digits_nonneg acc s n : 0 <= acc -> digits acc s = Some n -> 0 <= n.
Proof.
  revert acc. induction s as [|c s IH]; intros acc Ha H; simplify_eq/=; [done|].
  destruct (digit c) as [d|] eqn:Hc; simplify_eq/=. apply digit_range in Hc. apply IH in H; lia.
Qed.

Lemma ParseUint_range s bits n : ParseUint s bits = Some n -> 0 <= n < 2 ^ bits.
Proof.
  unfold ParseUint. case_match; [done|]. destruct (digits 0 s) as [m|] eqn:Hd; simpl; [|done].
  case_match eqn:E; intros [= <-]. apply digits_nonneg in Hd; zbool; lia.
Qed.
