(* ===== verification/GoNet.v ===== *)
(** * Addresses of package net

    [net.IP] is a list of 4 or 16 bytes, [[]] being nil; parsing and printing
    follow net/netip, which package net uses.  [ParseIP] returns the 16-byte
    form of every address, [ParseCIDR] a network with the 4-byte form of IPv4
    addresses. *)

From S2P Require Import Prelude GoStrings Encoding.
From Stdlib Require Import Ascii.

(** ** [net.IP] *)

(** A [net.TCPAddr]; an IP is 4 or 16 bytes, or nil. *)
Record tcpAddr := mkTCP { IP : list byte; Port : Z }.

Definition v4InV6Prefix : list byte := replicate 10 Byte.x00 ++ [Byte.xff; Byte.xff].

(** [net.IP.To4] and [To16]; [[]] is nil. *)
Definition To4 (ip : list byte) : list byte :=
  if (length ip =? 4)%nat then ip
  else if (length ip =? 16)%nat && bool_decide (take 12 ip = v4InV6Prefix) then drop 12 ip
  else [].

Definition To16 (ip : list byte) : list byte :=
  if (length ip =? 4)%nat then v4InV6Prefix ++ ip else if (length ip =? 16)%nat then ip else [].

(** ** Parsing: [netip.ParseAddr] *)

(** The loop of [parseIPv4Fields]: [first] at the start of the text, [dot] when
    the last character was a dot. *)
Fixpoint v4_fields (s : string) (first dot : bool) (val digLen : Z) (fields : list byte) : option (list byte) :=
  match s with
  | EmptyString => if (length fields <? 3)%nat then None else Some (fields ++ [byte.of_Z val])
  | String c s' =>
      match digit c with
      | Some d =>
          if (digLen =? 1) && (val =? 0) then None else
          let val := val * 10 + d in
          if 255 <? val then None else v4_fields s' false false val (digLen + 1) fields
      | None =>
          if bool_decide (c = "."%char) then
            if first || bool_decide (s' = "") || dot then None
            else if (length fields =? 3)%nat then None
            else v4_fields s' false true 0 0 (fields ++ [byte.of_Z val])
          else None
      end
  end.

Definition parseIPv4 (s : string) : option (list byte) := v4_fields s true false 0 0 [].

Definition hex_digit (c : ascii) : option Z :=
  let n := ord c in
  if (48 <=? n) && (n <=? 57) then Some (n - 48)
  else if (97 <=? n) && (n <=? 102) then Some (n - 87)
  else if (65 <=? n) && (n <=? 70) then Some (n - 55)
  else None.

(** The digits of one group: how many, their value, what follows; [None] after
    more than four. *)
Fixpoint hex_group (off : nat) (acc : Z) (s : string) : option (nat * Z * string) :=
  match s with
  | EmptyString => Some (off, acc, s)
  | String c s' =>
      match hex_digit c with
      | Some d => if (3 <? off)%nat then None else hex_group (S off) (acc * 16 + d) s'
      | None => Some (off, acc, s)
      end
  end.

(** The loop of [parseIPv6]: the bytes so far, where the ellipsis was.  A round
    consumes a character, [fuel] is the length of the text. *)
Fixpoint v6_loop (fuel : nat) (s : string) (ip : list byte) (ellipsis : option nat)
    : option (string * list byte * option nat) :=
  match fuel with
  | O => None
  | S fuel =>
      if (16 <=? length ip)%nat then Some (s, ip, ellipsis) else
      '(off, acc, rest) ← hex_group 0 0 s;
      if (off =? 0)%nat then None else
      if HasPrefix rest "." then
        if bool_decide (ellipsis = None) && negb (length ip =? 12)%nat then None
        else if (16 <? length ip + 4)%nat then None
        else v4 ← parseIPv4 s; Some ("", ip ++ v4, ellipsis)
      else
        let ip := ip ++ be_split 2 acc in
        match rest with
        | "" => Some ("", ip, ellipsis)
        | String c rest =>
            if negb (bool_decide (c = ":"%char)) then None else
            match rest with
            | "" => None
            | String ":" rest' =>
                if bool_decide (is_Some ellipsis) then None
                else if bool_decide (rest' = "") then Some ("", ip, Some (length ip))
                else v6_loop fuel rest' ip (Some (length ip))
            | _ => v6_loop fuel rest ip ellipsis
            end
        end
  end.

(** [parseIPv6] of an address without a zone. *)
Definition parseIPv6 (s : string) : option (list byte) :=
  let finish s := fun (ellipsis : option nat) =>
    '(rest, ip, ellipsis) ← v6_loop (S (String.length s)) s [] ellipsis;
    if negb (bool_decide (rest = "")) then None
    else if (length ip <? 16)%nat then
      match ellipsis with
      | None => None
      | Some e => Some (take e ip ++ replicate (16 - length ip) Byte.x00 ++ drop e ip)
      end
    else match ellipsis with Some _ => None | None => Some ip end in
  if HasPrefix s "::" then
    if bool_decide (str_drop 2 s = "") then Some (replicate 16 Byte.x00) else finish (str_drop 2 s) (Some 0%nat)
  else finish s None.

(** Which of the two parsers is used, by the first dot, colon or percent sign;
    an address with a zone is refused by the callers. *)
Fixpoint addr_kind (s : string) : option ascii :=
  match s with
  | EmptyString => None
  | String c s' => if bool_decide (c ∈ ["."; ":"; "%"]%char) then Some c else addr_kind s'
  end.

(** [netip.ParseAddr]: 4 bytes for IPv4, 16 for IPv6. *)
Definition ParseAddr (s : string) : option (list byte) :=
  match addr_kind s with
  | Some "."%char => parseIPv4 s
  | Some ":"%char => if bool_decide (IndexByte s "%" <> None) then None else parseIPv6 s
  | _ => None
  end.

Definition ParseIP (s : string) : option (list byte) := To16 <$> ParseAddr s.

(** ** Printing: [net.IP.String] *)

Fixpoint hex_loop (fuel : nat) (n : Z) (acc : string) : string :=
  match fuel with
  | O => acc
  | S fuel =>
      let acc := String (ascii_of_byte (hex_char (n mod 16))) acc in
      if n <? 16 then acc else hex_loop fuel (n / 16) acc
  end.

Definition v4_string (ip : list byte) : string := String.concat "." ((fun b => Itoa (byte.unsigned b)) <$> ip).

Fixpoint groups (ip : list byte) : list Z :=
  match ip with
  | a :: b :: ip => be_combine [a; b] :: groups ip
  | _ => []
  end.

Fixpoint zeros (l : list Z) : nat := match l with 0 :: l => S (zeros l) | _ => O end.

(** The first longest run of at least two zero groups: start and end. *)
Fixpoint longest_zeros (i : nat) (l : list Z) (best : option (nat * nat)) : option (nat * nat) :=
  match l with
  | [] => best
  | _ :: l' =>
      let n := zeros l in
      let len := from_option (fun '(a, b) => (b - a)%nat) 0%nat best in
      longest_zeros (S i) l' (if (2 <=? n)%nat && (len <? n)%nat then Some (i, (i + n)%nat) else best)
  end.

Fixpoint v6_print (i : nat) (l : list Z) (zero : option (nat * nat)) (skip : nat) : string :=
  match l with
  | [] => ""
  | g :: l' =>
      match skip with
      | S skip => v6_print (S i) l' zero skip
      | O =>
          match zero with
          | Some (a, b) =>
              if (i =? a)%nat then ("::" ++ v6_print (S i) l' zero (b - a - 1))%string
              else ((if (0 <? i)%nat && negb (i =? b)%nat then ":" else "") ++ hex_loop 4 g "" ++ v6_print (S i) l' zero 0)%string
          | None => ((if (0 <? i)%nat then ":" else "") ++ hex_loop 4 g "" ++ v6_print (S i) l' zero 0)%string
          end
      end
  end.

Definition IP_String (ip : list byte) : string :=
  if bool_decide (ip = []) then "<nil>"
  else if negb ((length ip =? 4)%nat || (length ip =? 16)%nat) then ("?" ++ string_of_bytes (hex_encode ip))%string
  else if bool_decide (To4 ip = []) then v6_print 0 (groups ip) (longest_zeros 0 (groups ip) None) 0
  else v4_string (To4 ip).

(** ** Networks *)

Record IPNet := mkIPNet { net_IP : list byte; net_Mask : list byte }.

#[export] Instance IPNet_eq_dec : EqDecision IPNet.
Proof. solve_decision. Defined.

(** [net.CIDRMask] of a valid prefix length. *)
Definition CIDRMask (ones bits : Z) : list byte := be_split (Z.to_nat (bits / 8)) (2 ^ bits - 2 ^ (bits - ones)).

Definition and_byte (x y : byte) : byte := byte.of_Z (Z.land (byte.unsigned x) (byte.unsigned y)).

(** [IP.Mask] for a mask of the length of the address's family. *)
Definition Mask (ip mask : list byte) : list byte :=
  let ip := if (length mask =? 4)%nat && (length ip =? 16)%nat && bool_decide (take 12 ip = v4InV6Prefix)
            then drop 12 ip else ip in
  if (length ip =? length mask)%nat then zip_with and_byte ip mask else [].

(** [dtoi] on a whole text. *)
Definition dtoi (s : string) : option Z :=
  if bool_decide (s = "") then None else n ← digits 0 s; if n <? 0xFFFFFF then Some n else None.

Definition ParseCIDR (s : string) : option IPNet :=
  i ← IndexByte s "/";
  addr ← ParseAddr (str_take i s);
  n ← dtoi (str_drop (S i) s);
  let bits := if (length addr =? 4)%nat then 32 else 128 in
  if bits <? n then None else
  let m := CIDRMask n bits in
  Some (mkIPNet (Mask (To16 addr) m) m).

(** [networkNumberAndMask]. *)
Definition numberAndMask (n : IPNet) : option (list byte * list byte) :=
  let ip := if bool_decide (To4 (net_IP n) = []) then net_IP n else To4 (net_IP n) in
  if negb ((length ip =? 4)%nat || (length ip =? 16)%nat) then None else
  if (length (net_Mask n) =? 4)%nat then if (length ip =? 4)%nat then Some (ip, net_Mask n) else None
  else if (length (net_Mask n) =? 16)%nat then
    Some (ip, if (length ip =? 4)%nat then drop 12 (net_Mask n) else net_Mask n)
  else None.

Definition IPNet_Contains (n : IPNet) (ip : list byte) : bool :=
  match numberAndMask n with
  | None => false
  | Some (nn, m) =>
      let ip := if bool_decide (To4 ip = []) then ip else To4 ip in
      (length ip =? length nn)%nat &&
      bool_decide (zip_with and_byte nn m = zip_with and_byte ip m)
  end.

(** ** URLs

    [url.URL] as the program looks at it: scheme, user information (name and
    password, each as bytes), host with port, path; [url_text] is the rest of
    what was parsed, for printing.  [url.Parse] and [URL.String] are parameters
    where they are used. *)
Record URL := mkURL {
  url_Scheme : string;
  url_User : option (list byte * option (list byte));
  url_Host : string;
  url_Path : string;
  url_text : string
}.

#[export] Instance URL_eq_dec : EqDecision URL.
Proof. solve_decision. Defined.

(** [validOptionalPort]: empty, or a colon and digits. *)
Definition validOptionalPort (s : string) : bool :=
  match s with
  | EmptyString => true
  | String c s => bool_decide (c = ":"%char) && forallb (fun c => bool_decide (digit c <> None)) (String.list_ascii_of_string s)
  end.

(** [splitHostPort] of package url. *)
Definition url_splitHostPort (hostPort : string) : string * string :=
  let '(host, port) :=
    match LastIndexByte hostPort ":" with
    | Some colon => if validOptionalPort (str_drop colon hostPort)
                    then (str_take colon hostPort, str_drop (colon + 1) hostPort) else (hostPort, "")
    | None => (hostPort, "")
    end in
  let n := String.length host in
  (if HasPrefix host "[" && bool_decide (str_drop (n - 1) host = "]") then str_take (n - 2) (str_drop 1 host) else host, port).

Definition Hostname (u : URL) : string := fst (url_splitHostPort (url_Host u)).
Definition url_Port (u : URL) : string := snd (url_splitHostPort (url_Host u)).

Example url_host_ex :
  ((fun h => url_splitHostPort h) <$> ["a.b:80"; "[::1]:53"; "[::1]"; "1.1.1.1"; "a:b"; "a:"]) =
  [("a.b", "80"); ("::1", "53"); ("::1", ""); ("1.1.1.1", ""); ("a:b", ""); ("a", "")].
Proof. reflexivity. Qed.

(** [net.JoinHostPort]. *)
Definition JoinHostPort (host port : string) : string :=
  if bool_decide (IndexByte host ":" <> None)
  then ("[" ++ host ++ "]:" ++ port)%string
  else (host ++ ":" ++ port)%string.

Example ParseIP_ex :
  (option_map IP_String <$> [ParseIP "1.2.3.4"; ParseIP "2001:db8::1"; ParseIP "::ffff:1.2.3.4"; ParseIP "::"; ParseIP "1::";
     ParseIP "2001:0:0:1::8"; ParseIP "1.2.3"; ParseIP "01.2.3.4"; ParseIP "1:2:3:4:5:6:7:8:9"; ParseIP "::1%eth0"; ParseIP "1:2:3:4:5:6:7::"]) =
  [Some "1.2.3.4"; Some "2001:db8::1"; Some "1.2.3.4"; Some "::"; Some "1::"; Some "2001:0:0:1::8"; None; None; None; None; Some "1:2:3:4:5:6:7:0"].
Proof. vm_compute. reflexivity. Qed.

Definition covers (net ip : string) : option bool :=
  n ← ParseCIDR net; a ← ParseIP ip; Some (IPNet_Contains n a).

Example ParseCIDR_ex :
  covers "10.0.0.0/8" "10.200.3.4" = Some true /\ covers "10.0.0.0/8" "11.200.3.4" = Some false /\
  covers "2001:db8::/33" "2001:db8:8000::1" = Some false /\ covers "2001:db8::/32" "2001:db8:8000::1" = Some true /\
  ParseCIDR "10.0.0.0/33" = None /\ ParseCIDR "10.0.0.0" = None.
Proof. split_and!; vm_compute; reflexivity. Qed.

(** ** Proofs *)

(** Reading the printed value of an octet. *)
Lemma v4_fields_octet b first dot fields s :
  v4_fields (Itoa (byte.unsigned b) ++ s) first dot 0 0 fields =
  v4_fields s false false (byte.unsigned b) (Z.of_nat (String.length (Itoa (byte.unsigned b)))) fields.
Proof. by destruct b. Qed.

Lemma v4_fields_dot s val len fields :
  s <> "" -> (length fields < 3)%nat ->
  v4_fields ("." ++ s) false false val len fields = v4_fields s false true 0 0 (fields ++ [byte.of_Z val]).
Proof.
  intros Hs Hf. simpl. rewrite (bool_decide_false (s = "")) by done. simpl.
  by rewrite (proj2 (Nat.eqb_neq _ _)) by lia.
Qed.

Lemma Itoa_app_nonempty b s : (Itoa (byte.unsigned b) ++ s)%string <> "".
Proof. by destruct b. Qed.

Lemma append_empty_r (s : string) : (s ++ "")%string = s.
Proof. induction s as [|c s IH]; [done|]. exact (f_equal (String c) IH). Qed.

(** An address printed as dotted octets is read back. *)
Lemma parseIPv4_String a b c d : parseIPv4 (v4_string [a; b; c; d]) = Some [a; b; c; d].
Proof.
  unfold parseIPv4, v4_string. cbn [fmap list_fmap String.concat].
  rewrite <- (append_empty_r (Itoa (byte.unsigned d))).
  do 3 (rewrite v4_fields_octet, v4_fields_dot by (simpl; apply Itoa_app_nonempty || lia)).
  rewrite v4_fields_octet. cbn [v4_fields length app Nat.ltb Nat.leb]. by rewrite !byte.of_Z_unsigned.
Qed.

Lemma addr_kind_v4 b s : addr_kind (Itoa (byte.unsigned b) ++ "." ++ s) = Some "."%char.
Proof. by destruct b. Qed.

Lemma ParseAddr_v4 a b c d : ParseAddr (v4_string [a; b; c; d]) = Some [a; b; c; d].
Proof.
  unfold ParseAddr. rewrite <- (parseIPv4_String a b c d). unfold v4_string at 1.
  cbn [fmap list_fmap String.concat]. by rewrite addr_kind_v4.
Qed.

(** Printing and parsing an IPv4 address, in either of its two forms. *)
Lemma ParseIP_String ip : length (To4 ip) = 4%nat -> ParseIP (IP_String ip) = Some (To16 ip).
Proof.
  intros H4. assert (IP_String ip = v4_string (To4 ip)) as ->.
  { unfold IP_String. rewrite !bool_decide_false by (intros Hn; rewrite Hn in H4; done).
    unfold To4 in H4. destruct (length ip =? 4)%nat eqn:E4, (length ip =? 16)%nat eqn:E16; done. }
  assert (To16 ip = To16 (To4 ip)) as ->.
  { unfold To4 in *. destruct (length ip =? 4)%nat eqn:E4; [done|].
    destruct (length ip =? 16)%nat eqn:E16; [simpl in *|done]. case_bool_decide as Hp; [|done].
    unfold To16. rewrite E4, E16, H4. simpl. rewrite <- (take_drop 12 ip) at 1. by rewrite Hp. }
  destruct (To4 ip) as [|a [|b [|c [|d [|]]]]]; try done.
  unfold ParseIP. by rewrite ParseAddr_v4.
Qed.

(** An address parsed is in its 16-byte form. *)
Lemma To16_length ip : length (To16 ip) = 16%nat \/ To16 ip = [].
Proof.
  unfold To16. destruct (length ip =? 4)%nat eqn:E; [left|].
  - rewrite length_app, (proj1 (Nat.eqb_eq _ _) E). done.
  - destruct (length ip =? 16)%nat eqn:E'; [left|by right]. by apply Nat.eqb_eq.
Qed.

Lemma v4_fields_length s first dot val digLen fields l :
  v4_fields s first dot val digLen fields = Some l -> (length fields <= 3)%nat -> length l = 4%nat.
Proof.
  revert first dot val digLen fields. induction s as [|c s IH]; intros first dot val digLen fields H Hf; simpl in H.
  - destruct (length fields <? 3)%nat eqn:E; [done|]. zbool. injection H as <-. rewrite length_app. simpl. lia.
  - destruct (digit c) as [d|]; [repeat (case_match; [done|]); by eapply IH|].
    case_bool_decide; [|done]. destruct (first || _ || dot); [done|]. destruct (length fields =? 3)%nat eqn:E; [done|]. zbool.
    eapply IH; [done|]. rewrite length_app. simpl. lia.
Qed.

Lemma v6_loop_length fuel s ip e s' ip' e' :
  v6_loop fuel s ip e = Some (s', ip', e') -> Nat.even (length ip) = true -> (length ip <= 16)%nat -> (length ip' <= 16)%nat.
Proof.
  revert s ip e. induction fuel as [|fuel IH]; intros s ip e H Hev Hle; cbn [v6_loop] in H; [done|].
  destruct (16 <=? length ip)%nat eqn:E16; [by injection H as <- <- <-|]. zbool.
  assert (length ip <= 14)%nat as H14.
  { apply Nat.even_spec in Hev as [k Hk]. lia. }
  destruct (hex_group 0 0 s) as [[[off acc] rest]|]; simplify_eq/=. destruct (off =? 0)%nat; [done|].
  destruct (HasPrefix rest "."); [|assert (Nat.even (length (ip ++ be_split 2 acc)) = true /\ (length (ip ++ be_split 2 acc) <= 16)%nat) as [Hev' Hle']].
  - destruct (_ && _); [done|]. destruct (16 <? _)%nat eqn:E; [done|]. zbool. destruct (parseIPv4 s) as [v|] eqn:Hv; simplify_eq/=.
    unfold parseIPv4 in Hv. apply v4_fields_length in Hv; [|simpl; lia]. rewrite length_app. lia.
  - rewrite length_app, length_be_split, Nat.even_add, Hev. split; [done|lia].
  - repeat (case_match; simplify_eq/=; try done); by eapply IH.
Qed.

Lemma parseIPv6_length s l : parseIPv6 s = Some l -> length l = 16%nat.
Proof.
  assert (forall s e l, ('(rest, ip, ellipsis) ← v6_loop (S (String.length s)) s [] e;
    if negb (bool_decide (rest = "")) then None
    else if (length ip <? 16)%nat then
      match ellipsis with
      | None => None
      | Some e => Some (take e ip ++ replicate (16 - length ip) Byte.x00 ++ drop e ip)
      end
    else match ellipsis with Some _ => None | None => Some ip end) = Some l -> length l = 16%nat) as Hfin.
  { clear. intros s e l. destruct (v6_loop _ s [] e) as [[[rest ip] e']|] eqn:H; [|done]. cbn [mbind option_bind].
    apply v6_loop_length in H; [|done|simpl; lia]. case_bool_decide; [|done]. cbn [negb].
    destruct (length ip <? 16)%nat eqn:E; zbool; destruct e' as [e'|]; try done; intros [= <-]; [|lia].
    rewrite !length_app, length_replicate, length_take, length_drop. lia. }
  unfold parseIPv6. cbv zeta. destruct (HasPrefix s "::"); [|apply Hfin].
  case_bool_decide; [|apply Hfin]. by intros [= <-].
Qed.

(** A parsed address has the length of its family. *)
Lemma ParseAddr_length s l : ParseAddr s = Some l -> length l = 4%nat \/ length l = 16%nat.
Proof.
  unfold ParseAddr. intros H. repeat (case_match; try done);
    [left; unfold parseIPv4 in *; eapply v4_fields_length; [done|simpl; lia]|right; by eapply parseIPv6_length].
Qed.

Lemma ParseIP_length s l : ParseIP s = Some l -> length l = 16%nat.
Proof.
  unfold ParseIP. destruct (ParseAddr s) as [a|] eqn:H; [|done]. simpl. intros [= <-]. apply ParseAddr_length in H.
  unfold To16. destruct H as [H|H]; rewrite H; simpl; [by rewrite H|done].
Qed.
