(* ===== verification/GoDuration.v ===== *)
(** * [time.ParseDuration] and [Duration.String]

    Package [time]'s grammar of durations, a sign and a sequence of decimal
    numbers with units, with its overflow checks, and the printing of durations.  The fraction of a
    number is scaled with 64-bit floating point, as the package does; floats are
    those of the Standard Library's [SpecFloat]. *)

From S2P Require Import Prelude GoTime GoStrings.
From Stdlib Require Import Ascii String.
From Stdlib Require Import SpecFloat.
Open Scope string_scope.
Open Scope list_scope.
Open Scope Z_scope.

(** ** Floating point *)

Definition float64 : Type := spec_float.

(** [float64(n)] of an integer, rounded to nearest even. *)
Definition float_of (n : Z) : float64 := binary_normalize 53 1024 n 0 false.

Definition fmul : float64 -> float64 -> float64 := SFmul 53 1024.
Definition fdiv : float64 -> float64 -> float64 := SFdiv 53 1024.

(** [uint64(f)] of a non-negative float: truncation. *)
Definition float_trunc (f : float64) : Z :=
  match f with
  | S754_finite false m e => if 0 <=? e then Z.pos m * 2 ^ e else Z.pos m / 2 ^ (- e)
  | _ => 0
  end.

(** ** Parsing *)

(** [leadingInt]: the digits at the head as a number, which must not pass 2^63,
    and the rest. *)
Fixpoint leadingInt (x : Z) (s : string) : option (Z * string) :=
  match s with
  | EmptyString => Some (x, s)
  | String c s' =>
      match digit c with
      | None => Some (x, s)
      | Some d =>
          if 2 ^ 63 / 10 <? x then None
          else let x := x * 10 + d in if 2 ^ 63 <? x then None else leadingInt x s'
      end
  end.

(** [leadingFraction]: the digits after the point, their scale, and the rest;
    digits that do not fit are skipped. *)
Fixpoint leadingFraction (x : Z) (scale : float64) (overflow : bool) (s : string) : Z * float64 * string :=
  match s with
  | EmptyString => (x, scale, s)
  | String c s' =>
      match digit c with
      | None => (x, scale, s)
      | Some d =>
          if overflow then leadingFraction x scale true s'
          else if (2 ^ 63 - 1) / 10 <? x then leadingFraction x scale true s'
          else let y := x * 10 + d in
               if 2 ^ 63 <? y then leadingFraction x scale true s'
               else leadingFraction y (fmul scale (float_of 10)) false s'
      end
  end.

Definition microSign : string := string_of_list_ascii [chr 194; chr 181].
Definition microGreek : string := string_of_list_ascii [chr 206; chr 188].

Definition unitMap (u : string) : option Z :=
  if bool_decide (u = "ns") then Some Nanosecond
  else if bool_decide (u = "us") then Some Microsecond
  else if bool_decide (u = (microSign ++ "s")%string) then Some Microsecond
  else if bool_decide (u = (microGreek ++ "s")%string) then Some Microsecond
  else if bool_decide (u = "ms") then Some Millisecond
  else if bool_decide (u = "s") then Some Second
  else if bool_decide (u = "m") then Some Minute
  else if bool_decide (u = "h") then Some Hour
  else None.

Definition numeric (c : ascii) : bool := bool_decide (c = "."%char) || bool_decide (digit c <> None).

(** The unit: the bytes up to the next digit or point. *)
Fixpoint span_unit (s : string) : string * string :=
  match s with
  | EmptyString => ("", "")
  | String c s' => if numeric c then ("", s) else let '(u, r) := span_unit s' in (String c u, r)
  end.

(** One number with its unit: its value in nanoseconds and the rest. *)
Definition parse_term (s : string) : option (Z * string) :=
  if negb (match s with String c _ => numeric c | EmptyString => false end) then None else
  '(v, s1) ← leadingInt 0 s;
  let pre := negb (String.length s1 =? String.length s)%nat in
  let '(f, scale, s2, post) :=
    match s1 with
    | String "." t => let '(f, scale, r) := leadingFraction 0 (float_of 1) false t in
                      (f, scale, r, negb (String.length r =? String.length t)%nat)
    | _ => (0, float_of 1, s1, false)
    end in
  if negb pre && negb post then None else
  let '(u, r) := span_unit s2 in
  if bool_decide (u = "") then None else
  unit ← unitMap u;
  if 2 ^ 63 / unit <? v then None else
  let v := v * unit in
  let v := if 0 <? f then v + float_trunc (fmul (float_of f) (fdiv (float_of unit) scale)) else v in
  if (0 <? f) && (2 ^ 63 <? v) then None else Some (v, r).

(** Every round removes a byte at least: the length is enough fuel. *)
Fixpoint parse_terms (fuel : nat) (d : Z) (s : string) : option Z :=
  if bool_decide (s = "") then Some d else
  match fuel with
  | O => None
  | S fuel =>
      '(v, r) ← parse_term s;
      let d := uwrap 64 (d + v) in
      if 2 ^ 63 <? d then None else parse_terms fuel d r
  end.

Definition ParseDuration (s : string) : option Z :=
  let '(neg, s) := match s with
                   | String "-" s' => (true, s')
                   | String "+" s' => (false, s')
                   | _ => (false, s)
                   end in
  if bool_decide (s = "0") then Some 0 else
  if bool_decide (s = "") then None else
  d ← parse_terms (String.length s) 0 s;
  if neg : bool then Some (int64 (- d)) else if 2 ^ 63 - 1 <? d then None else Some d.

(** ** Printing *)

(** [n] digits of [v], the most significant first. *)
Fixpoint padded (n : nat) (v : Z) : string :=
  match n with O => "" | S n => (padded n (v / 10) ++ String (chr (48 + v mod 10)) "")%string end.

(** [fmtFrac]: the fraction [v / 10^prec] without trailing zeros, nothing for
    zero. *)
Definition fmtFrac (prec : nat) (v : Z) : string :=
  let s := TrimRight (padded prec (v mod 10 ^ Z.of_nat prec)) "0" in
  if bool_decide (s = "") then "" else String "." s.

Definition Duration_String (d : Z) : string :=
  let u := Z.abs d in
  let body :=
    if u =? 0 then "0s"
    else if u <? Microsecond then (Itoa u ++ "ns")%string
    else if u <? Millisecond then (Itoa (u / Microsecond) ++ fmtFrac 3 u ++ microSign ++ "s")%string
    else if u <? Second then (Itoa (u / Millisecond) ++ fmtFrac 6 u ++ "ms")%string
    else
      let sec := u / Second in
      let mins := sec / 60 in
      let tail := (Itoa (sec mod 60) ++ fmtFrac 9 u ++ "s")%string in
      if mins =? 0 then tail
      else let tail := (Itoa (mins mod 60) ++ "m" ++ tail)%string in
           let hours := mins / 60 in
           if hours =? 0 then tail else (Itoa hours ++ "h" ++ tail)%string in
  if d <? 0 then String "-" body else body.

Example ParseDuration_ex :
  (ParseDuration <$> ["10s"; "1h30m"; "1.5h"; "-2ms"; "0"; ""; "3"; "1.s"; ".s"; "1d"; "9223372036854775807ns"; "9223372036854775808ns"; "0.3s"; "+.5m"]) =
  [Some (10 * Second); Some (90 * Minute); Some (90 * Minute); Some (- 2 * Millisecond); Some 0; None; None; Some Second; None; None;
   Some max_int64; None; Some (300 * Millisecond); Some (30 * Second)].
Proof. vm_compute. reflexivity. Qed.

Example Duration_String_ex :
  (Duration_String <$> [0; 1; 1100; 2200000; 3300000000; 4 * Minute + 5 * Second; 5 * Hour + 6 * Minute + 7001 * Millisecond; - Second]) =
  ["0s"; "1ns"; ("1.1" ++ microSign ++ "s")%string; "2.2ms"; "3.3s"; "4m5s"; "5h6m7.001s"; "-1s"].
Proof. vm_compute. reflexivity. Qed.

(** ** Proofs *)

Lemma padded_zero n : padded n 0 = string_of_list_ascii (replicate n "0"%char).
Proof.
  induction n as [|n IH]; [done|]. simpl padded. rewrite Z.div_0_l, IH by lia. change (chr (48 + 0 mod 10)) with "0"%char.
  clear IH. induction n as [|n IH]; [done|].
  change (String "0" (string_of_list_ascii (replicate n "0"%char) ++ "0") = String "0" (string_of_list_ascii (replicate (S n) "0"%char))).
  by rewrite IH.
Qed.

Lemma TrimRight_zeros n : TrimRight (string_of_list_ascii (replicate n "0"%char)) "0" = "".
Proof. induction n as [|n IH]; [done|]. simpl. by rewrite IH. Qed.

Lemma fmtFrac_zero prec v : v mod 10 ^ Z.of_nat prec = 0 -> fmtFrac prec v = "".
Proof. intros H. unfold fmtFrac. by rewrite H, padded_zero, TrimRight_zeros. Qed.

(** The number printed by [Itoa] is read back by [leadingInt], whatever follows
    it if it is not a digit. *)
Lemma leadingInt_itoa fuel n acc v :
  0 <= n < 10 ^ Z.of_nat fuel -> (0 < fuel)%nat ->
  exists k, 0 <= k /\
    (0 <= v -> v * 10 ^ k + n <= 2 ^ 63 -> leadingInt v (itoa_loop fuel n acc) = leadingInt (v * 10 ^ k + n) acc).
Proof.
  revert n acc. induction fuel as [|fuel IH]; intros n acc Hn Hf; [lia|]. simpl.
  assert (forall x d s, 0 <= d < 10 -> 0 <= x -> x * 10 + d <= 2 ^ 63 ->
    leadingInt x (String (chr (48 + d)) s) = leadingInt (x * 10 + d) s) as Hstep.
  { intros x d s Hd Hx Hb. simpl. rewrite digit_chr by done.
    rewrite !(proj2 (Z.ltb_ge _ _)) by (try apply Z.div_le_lower_bound; try apply Z.div_le_upper_bound; lia). done. }
  destruct (n <? 10) eqn:Hlt; zbool.
  - exists 1. split; [lia|]. intros Hv Hb. rewrite Z.mod_small by lia. rewrite Z.pow_1_r in *. by rewrite Hstep by lia.
  - rewrite Nat2Z.inj_succ, Z.pow_succ_r in Hn by lia.
    pose proof (Z.div_mod n 10 ltac:(lia)) as Hdm. pose proof (Z.mod_pos_bound n 10 ltac:(lia)) as Hm.
    assert (0 < Z.of_nat fuel). { destruct fuel; [|lia]. change (10 ^ Z.of_nat 0) with 1 in Hn. lia. }
    destruct (IH (n / 10) (String (chr (48 + n mod 10)) acc)) as (k & Hk & Hrd); [lia..|].
    exists (k + 1). split; [lia|]. rewrite Z.pow_add_r, Z.pow_1_r by lia. intros Hv Hb.
    rewrite Hrd, Hstep by nia. f_equal. nia.
Qed.

Lemma itoa_loop_app fuel n acc s : (itoa_loop fuel n acc ++ s)%string = itoa_loop fuel n (acc ++ s)%string.
Proof. revert n acc. induction fuel as [|fuel IH]; intros n acc; simpl; [done|]. case_match; [done|]. by rewrite IH. Qed.

Lemma leadingInt_Itoa n s :
  0 <= n <= 2 ^ 63 -> leadingInt 0 (Itoa n ++ s) = leadingInt n s.
Proof.
  intros Hn. unfold Itoa. rewrite (proj2 (Z.ltb_ge _ _)) by lia. rewrite itoa_loop_app.
  destruct (leadingInt_itoa 20 n ("" ++ s) 0) as (k & Hk & H); [lia..|]. rewrite H by nia. f_equal; lia.
Qed.

Lemma leadingInt_nodigit n c s : digit c = None -> leadingInt n (String c s) = Some (n, String c s).
Proof. intros H. simpl. by rewrite H. Qed.

Lemma Itoa_head n : 0 <= n < 10 ^ 20 -> exists c s, Itoa n = String c s /\ is_Some (digit c).
Proof.
  intros Hn. destruct (digits_Itoa n Hn) as [Hd Hne]. destruct (Itoa n) as [|c s]; [done|].
  exists c, s. split; [done|]. simpl in Hd. destruct (digit c); [by eexists|done].
Qed.

Lemma duration_length_app s t : String.length (s ++ t)%string = (String.length s + String.length t)%nat.
Proof. induction s as [|c s IH]; [done|]. change (S (String.length (s ++ t)) = S (String.length s) + String.length t)%nat. by rewrite IH. Qed.

(** A term without a fraction: digits and a unit. *)
Lemma parse_term_unit n u c u' s unit :
  0 <= n -> n * unit <= 2 ^ 63 -> u = String c u' -> digit c = None -> c <> "."%char ->
  span_unit (u ++ s) = (u, s) -> unitMap u = Some unit -> 0 < unit ->
  parse_term (Itoa n ++ u ++ s)%string = Some (n * unit, s).
Proof.
  intros Hn Hb -> Hc Hdot Hspan Hu Hpos.
  assert (n <= 2 ^ 63) by nia.
  destruct (Itoa_head n) as (c0 & s0 & HI & [d0 Hd0]); [lia|].
  unfold parse_term.
  replace (match (Itoa n ++ String c u' ++ s)%string with String c1 _ => numeric c1 | "" => false end) with true
    by (rewrite HI; simpl; unfold numeric; rewrite Hd0; rewrite orb_comm; symmetry; apply orb_true_intro; left; by apply bool_decide_true).
  change (negb true) with false. cbv iota.
  rewrite leadingInt_Itoa by lia. change (String c u' ++ s)%string with (String c (u' ++ s)) in *.
  rewrite leadingInt_nodigit by done. unfold mbind, option_bind. cbv beta iota zeta.
  assert ((String.length (String c (u' ++ s)) =? String.length (Itoa n ++ String c (u' ++ s)))%nat = false) as ->.
  { apply Nat.eqb_neq. rewrite duration_length_app, HI. simpl. lia. }
  assert (forall A (x : string -> A) (y : A), match c with "."%char => x (u' ++ s)%string | _ => y end = y) as Hm.
  { intros A x y. destruct c as [[] [] [] [] [] [] [] []]; try done; by exfalso; apply Hdot. }
  rewrite (Hm _ (fun t => let '(f, scale, r) := leadingFraction 0 (float_of 1) false t in
                          (f, scale, r, negb (String.length r =? String.length t)%nat))).
  cbn [negb andb]. cbv beta iota. rewrite Hspan. rewrite bool_decide_false by done.
  rewrite Hu.
  rewrite (proj2 (Z.ltb_ge _ _)) by (apply Z.div_le_lower_bound; lia). reflexivity.
Qed.

Lemma parse_terms_mono n m d s x : (n <= m)%nat -> parse_terms n d s = Some x -> parse_terms m d s = Some x.
Proof.
  revert m d s. induction n as [|n IH]; intros m d s Hm; [destruct m; simpl; by case_match|].
  destruct m as [|m]; [lia|]. simpl. case_match; [done|]. destruct (parse_term s) as [[v r]|]; simpl; [|done].
  case_match; [done|]. apply IH. lia.
Qed.

Lemma parse_terms_unit fuel d n u s unit :
  parse_term (Itoa n ++ u ++ s)%string = Some (n * unit, s) ->
  0 <= d -> 0 <= n < 10 ^ 20 -> 0 < unit -> d + n * unit <= 2 ^ 63 ->
  parse_terms (S fuel) d (Itoa n ++ u ++ s) = parse_terms fuel (d + n * unit) s.
Proof.
  intros Ht Hd Hn Hu Hb. destruct (Itoa_head n Hn) as (c & s0 & HI & _).
  simpl. rewrite bool_decide_false by (by rewrite HI). rewrite Ht. simpl.
  rewrite uwrap_small by nia. by rewrite (proj2 (Z.ltb_ge _ _)) by lia.
Qed.

Lemma parse_terms_empty fuel d : parse_terms fuel d "" = Some d.
Proof. by destruct fuel. Qed.

(** The sign and the two special cases do not concern a string that begins with
    a digit and does not end in one. *)
Lemma ParseDuration_digit c s d :
  is_Some (digit c) -> s <> "" -> parse_terms (String.length (String c s)) 0 (String c s) = Some d ->
  d <= max_int64 -> ParseDuration (String c s) = Some d.
Proof.
  intros [d0 Hc] Hs Hp Hb. unfold ParseDuration.
  assert (c <> "-"%char /\ c <> "+"%char) as [H1 H2] by (split; intros ->; vm_compute in Hc; done).
  assert (forall A (x y z : A), match c with "-"%char => x | "+"%char => y | _ => z end = z) as Hm.
  { intros A x y z. destruct c as [[] [] [] [] [] [] [] []]; try done; exfalso; by (apply H1 || apply H2). }
  replace (match c with "-"%char => (true, s) | "+"%char => (false, s) | _ => (false, String c s) end)
    with (false, String c s) by (symmetry; apply Hm).
  rewrite !bool_decide_false by (intros ?; simplify_eq). rewrite Hp. unfold mbind, option_bind.
  by rewrite (proj2 (Z.ltb_ge _ _)) by (unfold max_int64 in Hb; lia).
Qed.

Lemma seconds_term n s : 0 <= n -> n * Second <= 2 ^ 63 -> s = "" -> parse_term (Itoa n ++ "s" ++ s) = Some (n * Second, s).
Proof. intros Hn Hb ->. eapply parse_term_unit; [done|exact Hb|reflexivity|reflexivity|discriminate|reflexivity|reflexivity|reflexivity]. Qed.

Lemma unit_term n (c c1 : ascii) s u :
  0 <= n -> n * u <= 2 ^ 63 -> is_Some (digit c1) -> c = "m"%char /\ u = Minute \/ c = "h"%char /\ u = Hour ->
  parse_term (Itoa n ++ String c "" ++ String c1 s) = Some (n * u, String c1 s).
Proof.
  intros Hn Hb [d Hd] [[-> ->]|[-> ->]].
  all: eapply parse_term_unit; [done|exact Hb|reflexivity|reflexivity|discriminate| |reflexivity|reflexivity].
  all: simpl; unfold numeric; by rewrite Hd, (bool_decide_true (Some d <> None)), orb_true_r by done.
Qed.

(** Printing a whole number of seconds and parsing it gives it back. *)
Lemma ParseDuration_String k :
  0 <= k * Second <= max_int64 -> ParseDuration (Duration_String (k * Second)) = Some (k * Second).
Proof.
  intros Hk. assert (0 <= k <= 9223372036) as Hk' by (unfold Second, max_int64 in Hk; lia).
  unfold Duration_String. rewrite Z.abs_eq, (proj2 (Z.ltb_ge (k * Second) 0)) by lia.
  destruct (Z.eq_dec k 0) as [->|Hne]; [done|].
  rewrite (proj2 (Z.eqb_neq _ _)) by (unfold Second; lia).
  rewrite !(proj2 (Z.ltb_ge _ _)) by (unfold Second, Microsecond, Millisecond; lia).
  rewrite fmtFrac_zero by (unfold Second; change (10 ^ Z.of_nat 9) with 1000000000; apply Z.mod_mul; lia).
  rewrite Z.div_mul by (unfold Second; lia).
  pose proof (Z.div_mod k 60 ltac:(lia)) as Hm1. pose proof (Z.mod_pos_bound k 60 ltac:(lia)) as Hr1.
  remember (k / 60) as mins. remember (k mod 60) as secs.
  pose proof (Z.div_mod mins 60 ltac:(lia)) as Hm2. pose proof (Z.mod_pos_bound mins 60 ltac:(lia)) as Hr2.
  remember (mins / 60) as hrs. remember (mins mod 60) as mi. clear Heqmins Heqsecs Heqhrs Heqmi.
  change ("" ++ "s")%string with ("s" ++ "")%string.
  destruct (Itoa_head secs) as (c1 & s1 & Hs1 & Hc1); [lia|]. destruct (Itoa_head mi) as (c2 & s2 & Hs2 & Hc2); [lia|].
  destruct (Itoa_head hrs) as (c3 & s3 & Hs3 & Hc3); [lia|].
  assert (forall d, 0 <= d -> d + secs * Second <= 2 ^ 63 -> parse_terms 1 d (Itoa secs ++ "s" ++ "") = Some (d + secs * Second)) as T1.
  { intros d Hd Hb. rewrite (parse_terms_unit 0 d secs "s" "" Second); [apply parse_terms_empty| |lia..|done|lia].
    apply seconds_term; [lia|unfold Second in *; lia|done]. }
  assert (forall d, 0 <= d -> d + mi * Minute + secs * Second <= 2 ^ 63 ->
    parse_terms 2 d (Itoa mi ++ "m" ++ Itoa secs ++ "s" ++ "") = Some (d + mi * Minute + secs * Second)) as T2.
  { intros d Hd Hb. rewrite (parse_terms_unit 1 d mi "m" _ Minute);
      [apply T1; unfold Minute, Second in *; lia| |lia..|done|unfold Minute, Second in *; lia].
    rewrite Hs1. apply unit_term; [lia|unfold Minute, Second in *; lia|done|by left]. }
  repeat case_match; zbool; subst.
  - specialize (T1 0 ltac:(lia) ltac:(unfold Second in *; lia)). rewrite Hs1 in T1 |- *.
    apply ParseDuration_digit; [done|by destruct s1| |lia].
    apply (parse_terms_mono 1); [simpl; lia|]. refine (eq_trans T1 _). f_equal. unfold Second. lia.
  - specialize (T2 0 ltac:(lia) ltac:(unfold Minute, Second in *; lia)). rewrite Hs2 in T2 |- *.
    apply ParseDuration_digit; [done|by destruct s2| |lia].
    apply (parse_terms_mono 2); [simpl; rewrite !duration_length_app; simpl; lia|].
    refine (eq_trans T2 _). f_equal. unfold Minute, Second. lia.
  - assert (parse_terms 3 0 (Itoa hrs ++ "h" ++ Itoa mi ++ "m" ++ Itoa secs ++ "s" ++ "") =
            Some (0 + hrs * Hour + mi * Minute + secs * Second)) as T3.
    { rewrite (parse_terms_unit 2 0 hrs "h" _ Hour);
        [|rewrite Hs2; apply unit_term; [lia|unfold Hour, Minute, Second in *; lia|done|by right]|lia..|done|unfold Hour, Minute, Second in *; lia].
      apply T2; unfold Hour, Minute, Second in *; lia. }
    rewrite Hs3 in T3 |- *. apply ParseDuration_digit; [done|by destruct s3| |lia].
    apply (parse_terms_mono 3); [simpl; rewrite !duration_length_app; simpl; lia|].
    refine (eq_trans T3 _). f_equal. unfold Hour, Minute, Second. lia.
Qed.
