(* ===== verification/LimitsParse.v ===== *)
(** * Parsing of per-secret limits: mtglib/secret_limits.go

    [ParseQuotaBytes], [ParseQuotaReset] and [ParseExpiry], with the
    [time.Parse] layouts they use.  The unit parser of
    github.com/alecthomas/units is a variable of the section. *)

From S2P Require Import Prelude GoTime Limits GoStrings.
From Stdlib Require Import Ascii String.
Open Scope char_scope.
Open Scope string_scope.
Open Scope list_scope.
Open Scope Z_scope.

(** ** time.Parse *)

(** [getnum(s, fixed)]: two digits, or one when not [fixed]. *)
Definition getnum (s : string) (fixed : bool) : option (Z * string) :=
  match s with
  | String a s1 =>
      x ← digit a;
      match s1 with
      | String b s2 =>
          match digit b with
          | Some y => Some (10 * x + y, s2)
          | None => if fixed then None else Some (x, s1)
          end
      | EmptyString => if fixed then None else Some (x, s1)
      end
  | EmptyString => None
  end.

(** A four-digit year. *)
Definition getyear (s : string) : option (Z * string) :=
  '(hi, s) ← getnum s true; '(lo, s) ← getnum s true; Some (100 * hi + lo, s).

Definition skip (c : ascii) (s : string) : option string :=
  match s with String d s => if bool_decide (c = d) then Some s else None | EmptyString => None end.

Definition check {A} (b : bool) (a : A) : option A := if b then Some a else None.

Definition isLeap (y : Z) : bool := (y mod 4 =? 0) && (negb (y mod 100 =? 0) || (y mod 400 =? 0)).

Definition daysIn (m y : Z) : Z :=
  if m =? 2 then (if isLeap y then 29 else 28)
  else if (m =? 4) || (m =? 6) || (m =? 9) || (m =? 11) then 30 else 31.

(** Days from 0000-03-01 to a date of the proleptic Gregorian calendar. *)
Definition days_from_civil (y m d : Z) : Z :=
  let y := if m <=? 2 then y - 1 else y in
  let era := y / 400 in
  let yoe := y mod 400 in
  let doy := (153 * (if 2 <? m then m - 3 else m + 9) + 2) / 5 + d - 1 in
  era * 146097 + yoe * 365 + yoe / 4 - yoe / 100 + doy.

(** [time.Date] in UTC, as nanoseconds since 1 January of year 1. *)
Definition DateUTC (y m d hh mm ss ns : Z) : Z :=
  ((((days_from_civil y m d - 306) * 24 + hh) * 60 + mm) * 60 + ss) * Second + ns.

(** "2006-01-02" at the front of a value: the day is checked at the end. *)
Definition parseDate (s : string) : option (Z * Z * Z * string) :=
  '(y, s) ← getyear s;
  s ← skip "-" s;
  '(m, s) ← getnum s true;
  s ← check ((1 <=? m) && (m <=? 12)) s;
  s ← skip "-" s;
  '(d, s) ← getnum s true;
  Some (y, m, d, s).

Definition validDay (y m d : Z) : bool := (1 <=? d) && (d <=? daysIn m y).

(** The digits of a fraction, nine at most used: the nanoseconds and the rest. *)
Fixpoint parseFrac (scale acc : Z) (s : string) : Z * string :=
  match s with
  | String c s' =>
      match digit c with
      | Some d => parseFrac (scale / 10) (acc + d * scale) s'
      | None => (acc, s)
      end
  | EmptyString => (acc, s)
  end.

(** A fractional second is accepted after the seconds although the layout has
    none: a period or a comma followed by a digit. *)
Definition optFrac (s : string) : Z * string :=
  match s with
  | String c (String d _ as s') =>
      if bool_decide (c = "."%char \/ c = ","%char) && bool_decide (is_Some (digit d))
      then parseFrac 100000000 0 s' else (0, s)
  | _ => (0, s)
  end.

(** "Z07:00": the offset in seconds. *)
Definition parseZone (s : string) : option (Z * string) :=
  match s with
  | String "Z" s => Some (0, s)
  | String sign s =>
      '(hr, s) ← getnum s true;
      s ← skip ":" s;
      '(mm, s) ← getnum s true;
      s ← check ((hr <=? 24) && (mm <=? 60)) s;
      let off := (hr * 60 + mm) * 60 in
      if bool_decide (sign = "+"%char) then Some (off, s)
      else if bool_decide (sign = "-"%char) then Some (- off, s) else None
  | EmptyString => None
  end.

(** [time.Parse(time.DateOnly, s)]. *)
Definition parseDateOnly (s : string) : option Z :=
  '(y, m, d, s) ← parseDate s;
  check (bool_decide (s = "") && validDay y m d) (DateUTC y m d 0 0 0 0).

(** [time.Parse(time.RFC3339, s)]; an hour may have one digit. *)
Definition parseRFC3339 (s : string) : option Z :=
  '(y, m, d, s) ← parseDate s;
  s ← skip "T" s;
  '(hh, s) ← getnum s false;
  s ← check (hh <? 24) s;
  s ← skip ":" s;
  '(mm, s) ← getnum s true;
  s ← check (mm <? 60) s;
  s ← skip ":" s;
  '(ss, s) ← getnum s true;
  s ← check (ss <? 60) s;
  let '(ns, s) := optFrac s in
  '(off, s) ← parseZone s;
  check (bool_decide (s = "") && validDay y m d) (DateUTC y m d hh mm ss ns - off * Second).

(** ** The parsers *)

(** [quotaBytesCleaner]: spaces and tabs go, "IB" becomes "iB". *)
Fixpoint quotaBytesCleaner (s : string) : string :=
  match s with
  | EmptyString => EmptyString
  | String "I" (String "B" s') => String "i" (String "B" (quotaBytesCleaner s'))
  | String c s' =>
      if bool_decide (c = " "%char \/ c = "009"%char) then quotaBytesCleaner s'
      else String c (quotaBytesCleaner s')
  end.

Section Units.
Context (ParseBase2Bytes : string -> res Z).

Definition ParseQuotaBytes (s : string) : res Z :=
  let s := TrimSpace s in
  if bool_decide (s = "") then Ok 0 else
  match ParseInt s with
  | Some n => if n <? 0 then Fail (Errorf "quota must be positive") else Ok n
  | None =>
      match ParseBase2Bytes (quotaBytesCleaner (ToUpper s)) with
      | Fail e => Fail (Wrap "incorrect quota value" e)
      | Ok parsed => if parsed <? 0 then Fail (Errorf "quota must be positive") else Ok parsed
      end
  end.
End Units.

Definition ParseQuotaReset (s : string) : res QuotaReset :=
  let w := ToLower (TrimSpace s) in
  if bool_decide (w = "" \/ w = "none") then Ok QuotaResetNone
  else if bool_decide (w = "monthly") then Ok QuotaResetMonthly
  else Fail (Errorf "unknown quota reset").

Definition ParseExpiry (s : string) : res Z :=
  let s := TrimSpace s in
  if bool_decide (s = "") then Ok zeroTime else
  match parseRFC3339 s with
  | Some t => Ok t
  | None =>
      match parseDateOnly s with
      | Some t => Ok t
      | None => Fail (Errorf "invalid expiry")
      end
  end.

(** ** Printing, for the round trips *)

Definition two (n : Z) : string := String (chr (48 + n / 10)) (String (chr (48 + n mod 10)) "").

Definition date_string (y m d : Z) : string :=
  two (y / 100) +:+ two (y mod 100) +:+ "-" +:+ two m +:+ "-" +:+ two d.

Definition rfc3339_string (y m d hh mm ss : Z) : string :=
  date_string y m d +:+ "T" +:+ two hh +:+ ":" +:+ two mm +:+ ":" +:+ two ss +:+ "Z".

(** ** Proofs *)

(** A printable ASCII byte: it starts and ends no white space. *)
Definition plain (c : ascii) : bool := (33 <=? ord c) && (ord c <=? 126).

Lemma cut_space_plain c s : plain c = true -> cut_space spaces (String c s) = None.
Proof. intros H. by destruct c as [[] [] [] [] [] [] [] []]; vm_compute in H |- *. Qed.

Lemma cut_rev_space_plain c s : plain c = true -> cut_space (rev_string <$> spaces) (String c s) = None.
Proof. intros H. by destruct c as [[] [] [] [] [] [] [] []]; vm_compute in H |- *. Qed.

Lemma trim_left_none sp fuel s : cut_space sp s = None -> trim_left sp fuel s = s.
Proof. destruct fuel; simpl; [done|]. by intros ->. Qed.

Lemma rev_string_snoc s c : rev_string (s +:+ String c "") = String c (rev_string s).
Proof.
  unfold rev_string. assert (forall s t, list_ascii_of_string (s +:+ t) = list_ascii_of_string s ++ list_ascii_of_string t) as H.
  { induction s0 as [|a s0 IH]; intros t; [done|]. exact (f_equal (cons a) (IH t)). }
  rewrite H. simpl. by rewrite rev_app_distr.
Qed.

Lemma rev_string_involutive s : rev_string (rev_string s) = s.
Proof.
  unfold rev_string. by rewrite list_ascii_of_string_of_list_ascii, rev_involutive, string_of_list_ascii_of_string.
Qed.

(** Text that begins and ends with printable bytes is not changed. *)
Lemma TrimSpace_plain a s b :
  plain a = true -> plain b = true -> TrimSpace (String a (s +:+ String b "")) = String a (s +:+ String b "").
Proof.
  intros Ha Hb. unfold TrimSpace. rewrite (trim_left_none spaces) by by apply cut_space_plain.
  change (String a (s +:+ String b "")) with (String a s +:+ String b "").
  rewrite rev_string_snoc, trim_left_none by by apply cut_rev_space_plain.
  by rewrite <-rev_string_snoc, rev_string_involutive.
Qed.

Lemma plain_digit d : 0 <= d < 10 -> plain (chr (48 + d)) = true.
Proof.
  intros H. assert (d = 0 \/ d = 1 \/ d = 2 \/ d = 3 \/ d = 4 \/ d = 5 \/ d = 6 \/ d = 7 \/ d = 8 \/ d = 9) as Hd by lia.
  by repeat destruct Hd as [->|Hd]; subst.
Qed.

(** Arithmetic with constant divisors. *)
Ltac divlia := Z.to_euclidean_division_equations; lia.

Lemma tens n : 0 <= n < 100 -> 0 <= n / 10 < 10 /\ 0 <= n mod 10 < 10 /\ 10 * (n / 10) + n mod 10 = n.
Proof. divlia. Qed.

Lemma getnum_two n s fixed : 0 <= n < 100 -> getnum (two n +:+ s) fixed = Some (n, s).
Proof.
  intros H%tens. destruct H as (H1 & H2 & H3). simpl. rewrite digit_chr by lia. simpl.
  rewrite digit_chr by lia. simpl. by rewrite H3.
Qed.

Lemma append_assoc (s t u : string) : (s +:+ t) +:+ u = s +:+ (t +:+ u).
Proof. induction s as [|c s IH]; [done|]. exact (f_equal (String c) IH). Qed.

Lemma getyear_string y s : 0 <= y < 10000 -> getyear (two (y / 100) +:+ (two (y mod 100) +:+ s)) = Some (y, s).
Proof.
  intros H. unfold getyear. rewrite getnum_two by divlia. cbn [mbind option_bind].
  rewrite getnum_two by divlia. cbn [mbind option_bind]. do 2 f_equal. divlia.
Qed.

Lemma skip_char c s : skip c (String c "" +:+ s) = Some s.
Proof. change (String c "" +:+ s) with (String c s). simpl. by rewrite bool_decide_true. Qed.

Lemma parseDate_string y m d s :
  0 <= y < 10000 -> 1 <= m <= 12 -> 0 <= d < 100 ->
  parseDate (date_string y m d +:+ s) = Some (y, m, d, s).
Proof.
  intros Hy Hm Hd. unfold parseDate, date_string. rewrite !append_assoc, getyear_string by done.
  cbn [mbind option_bind]. rewrite skip_char. cbn [mbind option_bind].
  rewrite getnum_two by lia. cbn [mbind option_bind].
  rewrite (proj2 (Z.leb_le 1 m)), (proj2 (Z.leb_le m 12)) by lia. cbn [andb check mbind option_bind].
  rewrite skip_char. cbn [mbind option_bind]. by rewrite getnum_two by lia.
Qed.

Lemma append_nil_r (s : string) : s +:+ "" = s.
Proof. induction s as [|c s IH]; [done|]. exact (f_equal (String c) IH). Qed.

Lemma parseDateOnly_string y m d :
  0 <= y < 10000 -> 1 <= m <= 12 -> 0 <= d < 100 ->
  parseDateOnly (date_string y m d) = check (validDay y m d) (DateUTC y m d 0 0 0 0) /\
  parseRFC3339 (date_string y m d) = None.
Proof.
  intros. pose proof (parseDate_string y m d "") as Hp. rewrite append_nil_r in Hp.
  unfold parseDateOnly, parseRFC3339. by rewrite Hp by done.
Qed.

Lemma parseRFC3339_string y m d hh mm ss :
  0 <= y < 10000 -> 1 <= m <= 12 -> 0 <= d < 100 -> 0 <= hh < 24 -> 0 <= mm < 60 -> 0 <= ss < 60 ->
  parseRFC3339 (rfc3339_string y m d hh mm ss) = check (validDay y m d) (DateUTC y m d hh mm ss 0).
Proof.
  intros. unfold parseRFC3339, rfc3339_string. rewrite parseDate_string by done.
  cbn [mbind option_bind]. rewrite skip_char. cbn [mbind option_bind].
  rewrite getnum_two by lia. cbn [mbind option_bind].
  rewrite (proj2 (Z.ltb_lt hh 24)) by lia. cbn [check mbind option_bind].
  rewrite skip_char. cbn [mbind option_bind]. rewrite getnum_two by lia. cbn [mbind option_bind].
  rewrite (proj2 (Z.ltb_lt mm 60)) by lia. cbn [check mbind option_bind].
  rewrite skip_char. cbn [mbind option_bind]. rewrite getnum_two by lia. cbn [mbind option_bind].
  rewrite (proj2 (Z.ltb_lt ss 60)) by lia. cbn -[Z.mul Z.sub DateUTC validDay].
  unfold check. destruct (validDay y m d); [|done]. f_equal. lia.
Qed.

Lemma TrimSpace_date y m d :
  0 <= y < 10000 -> 1 <= m <= 12 -> 0 <= d < 100 -> TrimSpace (date_string y m d) = date_string y m d.
Proof.
  intros. apply (TrimSpace_plain (chr (48 + y / 100 / 10))
    (String (chr (48 + (y / 100) mod 10)) (two (y mod 100) +:+ "-" +:+ two m +:+ "-" +:+ String (chr (48 + d / 10)) ""))
    (chr (48 + d mod 10))); apply plain_digit; divlia.
Qed.

Lemma TrimSpace_rfc3339 y m d hh mm ss :
  0 <= y < 10000 -> 1 <= m <= 12 -> TrimSpace (rfc3339_string y m d hh mm ss) = rfc3339_string y m d hh mm ss.
Proof.
  intros. apply (TrimSpace_plain (chr (48 + y / 100 / 10))
    (String (chr (48 + (y / 100) mod 10)) (two (y mod 100) +:+ "-" +:+ two m +:+ "-" +:+ two d +:+ "T" +:+
       two hh +:+ ":" +:+ two mm +:+ ":" +:+ two ss)) "Z"); [apply plain_digit; divlia|done].
Qed.

Lemma ParseExpiry_rfc3339 y m d hh mm ss :
  0 <= y < 10000 -> 1 <= m <= 12 -> 0 <= d < 100 -> 0 <= hh < 24 -> 0 <= mm < 60 -> 0 <= ss < 60 ->
  validDay y m d = true ->
  ParseExpiry (rfc3339_string y m d hh mm ss) = Ok (DateUTC y m d hh mm ss 0).
Proof.
  intros ? ? ? ? ? ? Hv. unfold ParseExpiry. rewrite TrimSpace_rfc3339, bool_decide_false by done.
  rewrite parseRFC3339_string by done. by rewrite Hv.
Qed.

(** An expiry in either documented spelling is read as the instant it
    names: the UTC midnight of a plain date, the UTC second of an RFC 3339
    timestamp; a day that its month does not have is an error. *)
Theorem ParseExpiry_dates y m d hh mm ss :
  0 <= y < 10000 -> 1 <= m <= 12 -> 0 <= d < 100 -> 0 <= hh < 24 -> 0 <= mm < 60 -> 0 <= ss < 60 ->
  (validDay y m d = true ->
     ParseExpiry (date_string y m d) = Ok (DateUTC y m d 0 0 0 0) /\
     ParseExpiry (rfc3339_string y m d hh mm ss) = Ok (DateUTC y m d hh mm ss 0)) /\
  (validDay y m d = false -> is_ok (ParseExpiry (date_string y m d)) = false).
Proof.
  intros Hy Hm Hd Hh Hmm Hs. unfold ParseExpiry. rewrite TrimSpace_date, TrimSpace_rfc3339 by done.
  rewrite !bool_decide_false by done. destruct (parseDateOnly_string y m d Hy Hm Hd) as [-> ->].
  rewrite parseRFC3339_string by done. unfold check. by split; intros ->.
Qed.

Lemma ParseExpiry_dates_witness :
  (validDay 2024 2 29 = true ->
     ParseExpiry "2024-02-29" = Ok (DateUTC 2024 2 29 0 0 0 0) /\
     ParseExpiry "2024-02-29T23:59:58Z" = Ok (DateUTC 2024 2 29 23 59 58 0)) /\
  (validDay 2024 2 29 = false -> is_ok (ParseExpiry "2024-02-29") = false).
Proof. apply (ParseExpiry_dates 2024 2 29 23 59 58); lia. Defined.

Lemma ParseQuotaReset_String q : ParseQuotaReset (QuotaReset_String q) = Ok q.
Proof. by destruct q. Qed.

Lemma ParseQuotaBytes_nonneg units s n : ParseQuotaBytes units s = Ok n -> 0 <= n.
Proof.
  unfold ParseQuotaBytes. case_bool_decide; [intros [= <-]; lia|].
  destruct (ParseInt _); [|destruct (units _)]; simpl; try done;
    match goal with |- context [?x <? 0] => destruct (x <? 0) eqn:E end; zbool; [done|intros [= <-]; lia|done|intros [= <-]; lia].
Qed.

Lemma TrimSpace_all_plain s : forallb plain (list_ascii_of_string s) = true -> TrimSpace s = s.
Proof.
  intros H. unfold TrimSpace. destruct s as [|a s]; [done|].
  rewrite (trim_left_none spaces) by (apply cut_space_plain; simpl in H; by apply andb_true_iff in H as [? _]).
  destruct (rev_string (String a s)) as [|b t] eqn:Hr.
  { apply (f_equal rev_string) in Hr. by rewrite rev_string_involutive in Hr. }
  rewrite trim_left_none; [by rewrite <-Hr, rev_string_involutive|]. apply cut_rev_space_plain.
  rewrite forallb_forall in H. apply H.
  assert (rev (list_ascii_of_string (String a s)) = b :: list_ascii_of_string t) as Hl.
  { unfold rev_string in Hr. apply (f_equal list_ascii_of_string) in Hr.
    by rewrite list_ascii_of_string_of_list_ascii in Hr. }
  apply in_rev. rewrite Hl. by left.
Qed.

Lemma itoa_loop_plain fuel n acc :
  0 <= n -> forallb plain (list_ascii_of_string acc) = true ->
  forallb plain (list_ascii_of_string (itoa_loop fuel n acc)) = true.
Proof.
  revert n acc. induction fuel as [|fuel IH]; intros n acc Hn Hacc; [done|]. simpl.
  assert (forallb plain (list_ascii_of_string (String (chr (48 + n mod 10)) acc)) = true) as Hc.
  { simpl. rewrite Hacc, plain_digit by divlia. done. }
  destruct (n <? 10); [done|]. apply IH; [divlia|done].
Qed.

Lemma ParseQuotaBytes_Itoa units n : 0 <= n <= max_int64 -> ParseQuotaBytes units (Itoa n) = Ok n.
Proof.
  intros Hn. unfold ParseQuotaBytes. rewrite TrimSpace_all_plain.
  - rewrite ParseInt_Itoa by done. rewrite bool_decide_false.
    + by rewrite (proj2 (Z.ltb_ge n 0)) by lia.
    + intros He. pose proof (ParseInt_Itoa n Hn) as Hp. by rewrite He in Hp.
  - unfold Itoa. rewrite (proj2 (Z.ltb_ge n 0)) by lia. by apply itoa_loop_plain; [lia|].
Qed.
