(* ===== verification/HostPort.v ===== *)
(** * Splitting and joining addresses

    Lemmas on byte searches in strings, and the round trip of
    [net.SplitHostPort] and [net.JoinHostPort]. *)

From S2P Require Import Prelude GoStrings GoNet LimitsParse.
From Stdlib Require Import Ascii String.
Open Scope string_scope.
Open Scope list_scope.
Open Scope Z_scope.
(** The bytes of a string that is put together. *)
Lemma ascii_app s t : list_ascii_of_string (s ++ t) = list_ascii_of_string s ++ list_ascii_of_string t.
Proof. induction s as [|c s IH]; [done|]. change (c :: list_ascii_of_string (s ++ t) = c :: (list_ascii_of_string s ++ list_ascii_of_string t)). by rewrite IH. Qed.

Lemma string_of_app l k : string_of_list_ascii (l ++ k) = (string_of_list_ascii l ++ string_of_list_ascii k)%string.
Proof. induction l as [|c l IH]; [done|]. change (String c (string_of_list_ascii (l ++ k)) = String c (string_of_list_ascii l ++ string_of_list_ascii k)). by rewrite IH. Qed.

Lemma rev_string_app s t : rev_string (s ++ t) = (rev_string t ++ rev_string s)%string.
Proof. unfold rev_string. by rewrite ascii_app, rev_app_distr, string_of_app. Qed.

Lemma string_len_app s t : String.length (s ++ t) = (String.length s + String.length t)%nat.
Proof. induction s as [|c s IH]; [done|]. change (S (String.length (s ++ t)) = S (String.length s) + String.length t)%nat. by rewrite IH. Qed.

Lemma IndexByte_app s t c :
  IndexByte (s ++ t) c = match IndexByte s c with Some i => Some i | None => (fun i => String.length s + i)%nat <$> IndexByte t c end.
Proof.
  induction s as [|a s IH]; [change ("" ++ t)%string with t; simpl; by destruct (IndexByte t c)|].
  change (String a s ++ t)%string with (String a (s ++ t)). simpl. case_bool_decide; [done|]. rewrite IH.
  destruct (IndexByte s c); [done|]. by destruct (IndexByte t c).
Qed.

Lemma IndexByte_split s c i : IndexByte s c = Some i ->
  exists a b, s = (a ++ String c b)%string /\ String.length a = i /\ IndexByte a c = None.
Proof.
  revert i. induction s as [|x s IH]; intros i; simpl; [done|]. case_bool_decide as Hx.
  - intros [= <-]. subst. by exists "", s.
  - destruct (IndexByte s c) as [j|] eqn:Hj; simpl; [|done]. intros [= <-].
    destruct (IH j eq_refl) as (a & b & -> & Hl & Hn). exists (String x a), b. split_and!; [done|simpl; by rewrite Hl|].
    simpl. rewrite bool_decide_false by done. by rewrite Hn.
Qed.

Lemma IndexByte_in s c : IndexByte s c = None <-> c ∉ list_ascii_of_string s.
Proof.
  induction s as [|a s IH]; simpl; [split; [intros _; apply not_elem_of_nil|done]|].
  rewrite not_elem_of_cons, <-IH. case_bool_decide; [subst; split; [done|naive_solver]|].
  destruct (IndexByte s c); simpl; naive_solver.
Qed.

Lemma IndexByte_rev s c : IndexByte (rev_string s) c = None <-> IndexByte s c = None.
Proof.
  rewrite !IndexByte_in. unfold rev_string. rewrite list_ascii_of_string_of_list_ascii.
  by rewrite !list_elem_of_In, <-in_rev.
Qed.

Lemma rev_length s : String.length (rev_string s) = String.length s.
Proof. induction s as [|c s IH]; [done|]. change (String c s) with (String c "" ++ s)%string. rewrite rev_string_app, !string_len_app, IH. simpl. lia. Qed.

Lemma LastIndexByte_app s t c : IndexByte t c = None -> LastIndexByte (s ++ String c t) c = Some (String.length s).
Proof.
  intros Ht. unfold LastIndexByte. change (s ++ String c t)%string with (s ++ (String c "" ++ t))%string.
  rewrite !rev_string_app, !IndexByte_app, (proj2 (IndexByte_rev t c) Ht). simpl. rewrite bool_decide_true by done. simpl.
  rewrite rev_length, !string_len_app. simpl. f_equal. lia.
Qed.

Lemma LastIndexByte_split s c i :
  LastIndexByte s c = Some i -> exists a b, s = (a ++ String c b)%string /\ String.length a = i /\ IndexByte b c = None.
Proof.
  unfold LastIndexByte. destruct (IndexByte (rev_string s) c) as [j|] eqn:Hj; simpl; [|done]. intros [= <-].
  destruct (IndexByte_split _ _ _ Hj) as (a & b & Hs & <- & Hn). exists (rev_string b), (rev_string a).
  assert (s = rev_string (a ++ String c b)) as -> by (by rewrite <-Hs, rev_string_involutive).
  change (a ++ String c b)%string with (a ++ (String c "" ++ b))%string. rewrite !rev_string_app. split_and!.
  - by rewrite append_assoc.
  - rewrite !string_len_app, !rev_length. simpl. lia.
  - by rewrite IndexByte_rev.
Qed.

Lemma str_take_app s t : str_take (String.length s) (s ++ t) = s.
Proof. induction s as [|c s IH]; [by destruct t|]. change (String c (str_take (String.length s) (s ++ t)) = String c s). by rewrite IH. Qed.

Lemma str_drop_app s t : str_drop (String.length s) (s ++ t) = t.
Proof. induction s as [|c s IH]; [by destruct t|]. exact IH. Qed.

Lemma str_drop_app_S s c t : str_drop (String.length s + 1) (s ++ String c t) = t.
Proof. induction s as [|a s IH]; [by destruct t|]. exact IH. Qed.

(** What [SplitHostPort] returns can be joined and split again. *)
Definition splittable (h p : string) : Prop :=
  IndexByte p ":" = None /\ IndexByte h "[" = None /\ IndexByte h "]" = None /\ IndexByte p "[" = None /\ IndexByte p "]" = None.

Lemma IndexByte_app_None s t c : IndexByte (s ++ t) c = None <-> IndexByte s c = None /\ IndexByte t c = None.
Proof. rewrite IndexByte_app. destruct (IndexByte s c), (IndexByte t c); simpl; naive_solver. Qed.

Lemma IndexByte_cons_None a s c : IndexByte (String a s) c = None <-> a <> c /\ IndexByte s c = None.
Proof. simpl. case_bool_decide; [naive_solver|]. destruct (IndexByte s c); simpl; naive_solver. Qed.

Lemma str_take_app_S s c t : str_take (String.length s + 1) (s ++ String c t) = (s ++ String c "")%string.
Proof. induction s as [|a s IH]; [by destruct t|]. change (String a (str_take (String.length s + 1) (s ++ String c t)) = String a (s ++ String c "")). by rewrite IH. Qed.

(** A bracketed host: everything up to the closing bracket. *)
Lemma bracket_split a b e :
  IndexByte (String "[" a ++ String ":" b) "]" = Some e -> (e + 1)%nat = String.length (String "[" a) ->
  exists u, a = (u ++ "]")%string /\ IndexByte u "]" = None /\ e = S (String.length u).
Proof.
  intros He Hei. destruct (IndexByte_split _ _ _ He) as (u & v & Huv & Hlen & Hu).
  destruct u as [|x u]; [by simplify_eq/=|].
  change (String "[" (a ++ String ":" b) = String x (u ++ String "]" v)) in Huv. injection Huv as <- Huv.
  apply IndexByte_cons_None in Hu as [_ Hu]. simpl in Hei, Hlen.
  exists u. split_and!; [|done|done].
  rewrite <-(str_take_app a (String ":" b)), Huv.
  replace (String.length a) with (String.length u + 1)%nat by lia. apply str_take_app_S.
Qed.

Lemma SplitHostPort_splittable s h p : SplitHostPort s = Ok (h, p) -> splittable h p.
Proof.
  unfold SplitHostPort. destruct (LastIndexByte s ":") as [i|] eqn:Hi; [|done].
  apply LastIndexByte_split in Hi as (a & b & -> & <- & Hb).
  destruct (HasPrefix (a ++ String ":" b) "[") eqn:Hp.
  - destruct (IndexByte (a ++ String ":" b) "]") as [e|] eqn:He; [|done].
    case_match; [done|]. case_match eqn:Hei; [|by case_match]. apply Nat.eqb_eq in Hei.
    case_bool_decide as H1; [done|]. case_bool_decide as H2; [done|]. intros [= <- <-].
    rewrite str_drop_app_S in *.
    destruct a as [|x a]; [done|]. unfold HasPrefix in Hp. simpl in Hp. case_bool_decide as Hx; [subst x|done].
    destruct (bracket_split a b e He Hei) as (u & -> & Hu & ->).
    rewrite Hei, str_drop_app in H2. apply IndexByte_cons_None in H2 as [_ H2].
    change (str_drop 1 (String "[" (u ++ "]") ++ String ":" b)) with ((u ++ "]") ++ String ":" b)%string in *.
    rewrite append_assoc in *. replace (S (String.length u) - 1)%nat with (String.length u) by lia. 
    assert (forall x, str_take (String.length u) (match (String "[" (u ++ "]") ++ String ":" b)%string with "" => x | String _ s => s end) = u) as Htk.
    { intros x. change (str_take (String.length u) ((u ++ "]") ++ String ":" b) = u). by rewrite append_assoc, str_take_app. }
    rewrite Htk. clear Htk.
    apply IndexByte_app_None in H1 as [H1 H3]. change ("]" ++ String ":" b)%string with (String "]" (String ":" b)) in H3.
    apply IndexByte_cons_None in H3 as [_ [_ H3]%IndexByte_cons_None]. done.
  - rewrite str_take_app, str_drop_app_S. case_bool_decide as H0; [done|].
    case_bool_decide as H1; [done|]. case_bool_decide as H2; [done|]. intros [= <- <-].
    unfold str_drop in H1, H2.
    destruct (a ++ String ":" b)%string eqn:Hs; [by destruct a|]. rewrite <-Hs in *.
    apply IndexByte_app_None in H1 as [? [_ ?]%IndexByte_cons_None], H2 as [? [_ ?]%IndexByte_cons_None]. done.
Qed.

Lemma SplitHostPort_Join h p : splittable h p -> SplitHostPort (JoinHostPort h p) = Ok (h, p).
Proof.
  intros (Hp & H1 & H2 & H3 & H4). unfold JoinHostPort. case_bool_decide as Hc.
  - assert (("[" ++ h ++ "]:" ++ p) = (String "[" (h ++ "]") ++ String ":" p))%string as ->.
    { change ("[" ++ h ++ "]:" ++ p)%string with (String "[" (h ++ String "]" (String ":" p))).
      change (String "[" (h ++ "]") ++ String ":" p)%string with (String "[" ((h ++ "]") ++ String ":" p)). by rewrite append_assoc. }
    assert (IndexByte (String "[" (h ++ "]") ++ String ":" p) "]" = Some (S (String.length h))) as He.
    { change (String "[" (h ++ "]") ++ String ":" p)%string with (String "[" ((h ++ "]") ++ String ":" p)).
      simpl. rewrite append_assoc, IndexByte_app, H2. simpl. by rewrite Nat.add_0_r. }
    unfold SplitHostPort. rewrite LastIndexByte_app by done. change (HasPrefix _ "[") with true. cbv iota. rewrite He.
    replace (String.length (String "[" (h ++ "]"))) with (S (String.length h) + 1)%nat by (simpl; rewrite string_len_app; simpl; lia).
    rewrite (proj2 (Nat.eqb_neq _ _)) by (rewrite string_len_app; simpl; rewrite string_len_app; simpl; lia).
    rewrite Nat.eqb_refl.
    replace (S (String.length h) + 1)%nat with (String.length (String "[" (h ++ "]"))) by (simpl; rewrite string_len_app; simpl; lia).
    rewrite str_drop_app_S, str_drop_app.
    change (str_drop 1 (String "[" (h ++ "]") ++ String ":" p)) with ((h ++ "]") ++ String ":" p)%string. rewrite append_assoc.
    rewrite !bool_decide_false; [|intros Hn; apply Hn; simpl; by rewrite H4|intros Hn; apply Hn; rewrite IndexByte_app, H1; simpl; by rewrite H3].
    replace (S (String.length h) - 1)%nat with (String.length h) by lia. by rewrite str_take_app.
  - unfold SplitHostPort. change (h ++ ":" ++ p)%string with (h ++ String ":" p)%string. rewrite LastIndexByte_app by done.
    assert (HasPrefix (h ++ String ":" p) "[" = false) as ->.
    { destruct h as [|x h]; [done|]. apply IndexByte_cons_None in H1 as [H1 _]. unfold HasPrefix. simpl. by rewrite bool_decide_false. }
    rewrite str_take_app, str_drop_app_S. unfold str_drop.
    rewrite !bool_decide_false; [done|..]; intros Hn; apply Hn; clear Hn; [| |done].
    all: destruct (h ++ String ":" p)%string eqn:Hs; [by destruct h|]; rewrite <-Hs; apply IndexByte_app_None; split; [done|]; by apply IndexByte_cons_None.
Qed.
