(* ===== verification/SecretSet.v ===== *)
(** * The secret snapshot: [secretSet] of mtglib/proxy.go

    A [secretSet] is the immutable, name-sorted view of the configured secrets:
    parallel slices indexed by position.  [buildSecretSet] makes one from the
    configuration's maps, [toConfig] turns it back into maps for the management
    API.  Slices are lists, and an index expression is a lookup whose [None] is
    the panic of the source; the theorems show it never happens on a set that
    [buildSecretSet] made. *)

From S2P Require Import Prelude Secret GoTime Limits.

(** ** sort.Strings *)

Definition str_le (s t : string) : Prop := String.leb s t = true.

#[export] Instance str_le_dec : RelDecision str_le.
Proof. intros s t. unfold str_le. apply _. Defined.

Definition sort_Strings (l : list string) : list string := merge_sort str_le l.

(** ** The data *)

(** A tag is a [[16]byte]; an optional one is the source's nil-able pointer. *)
Definition AdTagLength : nat := 16.

Record secretSet := mkSet {
  secrets : list Secret;
  names : list string;
  hostnames : list string;
  adTags : list (option (list byte));
  globalAdTag : option (list byte);
  limits : list SecretLimits
}.

Record SecretConfig := mkConfig {
  Secrets : gmap string Secret;
  SecretAdTags : gmap string (list byte);
  GlobalAdTag : option (list byte);
  Limits : gmap string SecretLimits
}.

Definition effectiveAdTag (s : secretSet) (i : nat) : option (list byte) :=
  match adTags s !! i with
  | Some (Some t) => Some t
  | _ => globalAdTag s
  end.

(** One pass of the loop of [toConfig] over position [i]; [None] is an index
    out of range on [secrets] or [adTags] ([limits] is guarded). *)
Definition toConfigEntry (s : secretSet) (i : nat) (name : string) (c : SecretConfig) : option SecretConfig :=
  sec ← secrets s !! i;
  tag ← adTags s !! i;
  Some {| Secrets := <[name := sec]> (Secrets c);
          SecretAdTags := match tag with
                          | Some t => <[name := t]> (SecretAdTags c)
                          | None => SecretAdTags c
                          end;
          GlobalAdTag := GlobalAdTag c;
          Limits := match limits s !! i with
                    | Some l => if Limits_IsZero l then Limits c else <[name := l]> (Limits c)
                    | None => Limits c
                    end |}.

Fixpoint toConfigLoop (s : secretSet) (i : nat) (ns : list string) (c : SecretConfig) : option SecretConfig :=
  match ns with
  | [] => Some c
  | name :: ns => c' ← toConfigEntry s i name c; toConfigLoop s (S i) ns c'
  end.

Definition toConfig (s : secretSet) : option SecretConfig :=
  toConfigLoop s 0 (names s) (mkConfig ∅ ∅ (globalAdTag s) ∅).

(** A map lookup of the source gives the zero value for an absent key. *)
Definition buildSecretSet (secretsMap : gmap string Secret) (perSecret : gmap string (list byte))
    (global : option (list byte)) (limitsMap : gmap string SecretLimits) : secretSet :=
  let names := sort_Strings (elements (dom secretsMap)) in
  let secretsList := (fun n => default zeroSecret (secretsMap !! n)) <$> names in
  {| secrets := secretsList;
     names := names;
     hostnames := sort_Strings (elements (list_to_set (Host <$> secretsList) : gset string));
     adTags := (fun n => perSecret !! n) <$> names;
     globalAdTag := global;
     limits := (fun n => default noLimits (limitsMap !! n)) <$> names |}.

Definition buildConfig (c : SecretConfig) : secretSet :=
  buildSecretSet (Secrets c) (SecretAdTags c) (GlobalAdTag c) (Limits c).

(** ** Abstract view

    What the proxy promises per name: the entry of a secret, or nothing. *)
Record entry := mkEntry { e_secret : Secret; e_tag : option (list byte); e_limits : SecretLimits }.

#[export] Instance entry_eq_dec : EqDecision entry.
Proof. solve_decision. Defined.

(** The entry a configuration gives a name. *)
Definition entry_of (c : SecretConfig) (name : string) : option entry :=
  (fun s => mkEntry s (SecretAdTags c !! name) (default noLimits (Limits c !! name))) <$> Secrets c !! name.

(** The entry of a set at a position. *)
Definition entry_at (s : secretSet) (i : nat) : option entry :=
  sec ← secrets s !! i; tag ← adTags s !! i; lim ← limits s !! i; Some (mkEntry sec tag lim).

(** The part of a configuration that can be observed: overrides and non-zero
    limits of names that have a secret. *)
Definition normalize (c : SecretConfig) : SecretConfig :=
  {| Secrets := Secrets c;
     SecretAdTags := filter (fun kv => is_Some (Secrets c !! kv.1)) (SecretAdTags c);
     GlobalAdTag := GlobalAdTag c;
     Limits := filter (fun kv => is_Some (Secrets c !! kv.1) /\ kv.2 <> noLimits) (Limits c) |}.

(** ** Proofs: the order of strings *)

Lemma str_le_cons a s b t :
  str_le (String a s) (String b t) <->
  (Ascii.N_of_ascii a < Ascii.N_of_ascii b)%N \/ a = b /\ str_le s t.
Proof.
  unfold str_le, String.leb. simpl. unfold Ascii.compare.
  destruct (N.compare_spec (Ascii.N_of_ascii a) (Ascii.N_of_ascii b)) as [Heq|Hlt|Hgt].
  - assert (a = b) as ->.
    { rewrite <- (Ascii.ascii_N_embedding a), <- (Ascii.ascii_N_embedding b). by f_equal. }
    split; [by right|]. intros [?|[_ ?]]; [lia|done].
  - by split; [left|].
  - split; [done|]. intros [?|[-> _]]; lia.
Qed.

#[export] Instance str_le_trans : Transitive str_le.
Proof.
  intros s. induction s as [|a s IH]; intros t u.
  - destruct t, u; by unfold str_le.
  - destruct t as [|b t]; [by unfold str_le|]. destruct u as [|c u]; [by unfold str_le|].
    rewrite !str_le_cons. intros [?|[-> ?]] [?|[-> ?]]; try (left; lia). right. eauto.
Qed.

#[export] Instance str_le_antisymm : AntiSymm (=) str_le.
Proof. intros s t. apply String.leb_antisym. Qed.

#[export] Instance str_le_total : Total str_le.
Proof. intros s t. apply String.leb_total. Qed.

Lemma sort_Strings_perm l : sort_Strings l ≡ₚ l.
Proof. apply merge_sort_Permutation. Qed.

Lemma sort_Strings_sorted l : Sorted str_le (sort_Strings l).
Proof. apply Sorted_merge_sort, _. Qed.

(** Sorting forgets the order of its input, hence Go's map iteration order. *)
#[export] Instance sort_Strings_proper : Proper ((≡ₚ) ==> (=)) sort_Strings.
Proof.
  intros l k Hlk. apply (Sorted_unique str_le); [apply sort_Strings_sorted..|].
  by rewrite !sort_Strings_perm.
Qed.

(** ** Proofs: the snapshot *)

Lemma names_elem m ps g lm n : n ∈ names (buildSecretSet m ps g lm) <-> is_Some (m !! n).
Proof. simpl. by rewrite sort_Strings_perm, elem_of_elements, elem_of_dom. Qed.

Lemma names_nodup m ps g lm : NoDup (names (buildSecretSet m ps g lm)).
Proof. simpl. rewrite sort_Strings_perm. apply NoDup_elements. Qed.

Lemma hostnames_spec m ps g lm h :
  h ∈ hostnames (buildSecretSet m ps g lm) <-> exists n s, m !! n = Some s /\ Host s = h.
Proof.
  simpl. rewrite sort_Strings_perm, elem_of_elements, elem_of_list_to_set, list_elem_of_fmap.
  setoid_rewrite list_elem_of_fmap. setoid_rewrite sort_Strings_perm.
  setoid_rewrite elem_of_elements. setoid_rewrite elem_of_dom. split.
  - intros (s & -> & n & -> & [s' Hs]). exists n, s'. by rewrite Hs.
  - intros (n & s & Hn & <-). exists s. split; [done|]. exists n. by rewrite Hn.
Qed.

(** Index alignment: position [i] of every slice belongs to name [i]. *)
Lemma build_entry_at m ps g lm i n :
  names (buildSecretSet m ps g lm) !! i = Some n ->
  entry_at (buildSecretSet m ps g lm) i = entry_of (mkConfig m ps g lm) n.
Proof.
  intros Hi. assert (is_Some (m !! n)) as [s Hs] by (eapply names_elem, list_elem_of_lookup_2, Hi).
  unfold entry_at, entry_of. simpl in *. rewrite !list_lookup_fmap, Hi. simpl. by rewrite Hs.
Qed.

(** The loop of [toConfig] over a suffix of the names of a built set. *)
Lemma toConfigLoop_build m ps g lm pre ns c :
  let s := buildSecretSet m ps g lm in
  names s = pre ++ ns ->
  exists c', toConfigLoop s (length pre) ns c = Some c' /\
    GlobalAdTag c' = GlobalAdTag c /\
    forall k,
      Secrets c' !! k = (if decide (k ∈ ns) then m !! k else Secrets c !! k) /\
      SecretAdTags c' !! k =
        (if decide (k ∈ ns) then from_option Some (SecretAdTags c !! k) (ps !! k) else SecretAdTags c !! k) /\
      Limits c' !! k =
        (if decide (k ∈ ns)
         then from_option (fun l => if Limits_IsZero l then Limits c !! k else Some l) (Limits c !! k) (lm !! k)
         else Limits c !! k).
Proof.
  intros s. revert pre c. induction ns as [|n ns IH]; intros pre c Hnames.
  { exists c. split_and!; [done..|]. intros k. by rewrite !(decide_False (P:=k ∈ [])) by set_solver. }
  assert (names s !! length pre = Some n) as Hn.
  { rewrite Hnames, lookup_app_r, Nat.sub_diag by lia. done. }
  assert (is_Some (m !! n)) as [sec Hsec] by (eapply names_elem, list_elem_of_lookup_2, Hn).
  assert (n ∉ ns) as Hfresh.
  { pose proof (names_nodup m ps g lm) as Hnd. fold s in Hnd. rewrite Hnames in Hnd.
    apply NoDup_app in Hnd as (_ & _ & Hnd). by apply NoDup_cons in Hnd as [? _]. }
  simpl. unfold toConfigEntry. simpl. rewrite !list_lookup_fmap.
  simpl in Hn. rewrite Hn. simpl. rewrite Hsec. simpl.
  match goal with |- context [toConfigLoop s _ ns ?c1] => specialize (IH (pre ++ [n]) c1) end.
  rewrite length_app, Nat.add_1_r, <-app_assoc in IH. destruct (IH Hnames) as (c' & -> & Hg & Hc').
  exists c'. split_and!; [done..|]. intros k. destruct (Hc' k) as (-> & -> & ->). simpl.
  destruct (decide (k = n)) as [->|Hkn].
  - rewrite !(decide_False (P:=n ∈ ns)) by done. rewrite !(decide_True (P:=n ∈ n :: ns)) by set_solver.
    rewrite lookup_insert_eq. split_and!; [done|..].
    + destruct (ps !! n); simpl; [by rewrite lookup_insert_eq|done].
    + destruct (lm !! n) as [l|]; simpl; [|done].
      destruct (Limits_IsZero l); [done|by rewrite lookup_insert_eq].
  - assert (k ∈ n :: ns <-> k ∈ ns) as Hiff by set_solver. rewrite !(decide_ext _ _ _ _ Hiff).
    rewrite lookup_insert_ne by done. split_and!; [done|..].
    + destruct (ps !! n); [by rewrite lookup_insert_ne|done].
    + destruct (default noLimits (lm !! n)) eqn:?; by go_cases; rewrite ?lookup_insert_ne.
Qed.

Lemma config_eq c d :
  (forall k, Secrets c !! k = Secrets d !! k) ->
  (forall k, SecretAdTags c !! k = SecretAdTags d !! k) ->
  GlobalAdTag c = GlobalAdTag d ->
  (forall k, Limits c !! k = Limits d !! k) -> c = d.
Proof.
  destruct c, d; simpl. intros H1 H2 -> H4.
  by rewrite (map_eq _ _ H1), (map_eq _ _ H2), (map_eq _ _ H4).
Qed.

Lemma SecretAdTags_normalize c k :
  SecretAdTags (normalize c) !! k = if decide (is_Some (Secrets c !! k)) then SecretAdTags c !! k else None.
Proof.
  simpl. rewrite map_lookup_filter. destruct (SecretAdTags c !! k); simpl; [|by case_decide].
  by case_decide; case_guard.
Qed.

Lemma Limits_normalize c k :
  Limits (normalize c) !! k =
  if decide (is_Some (Secrets c !! k))
  then from_option (fun l => if Limits_IsZero l then None else Some l) None (Limits c !! k) else None.
Proof.
  simpl. rewrite map_lookup_filter. destruct (Limits c !! k) as [l|]; simpl; [|by case_decide].
  destruct (Limits_IsZero l) eqn:Hz.
  - apply Limits_IsZero_spec in Hz. repeat case_guard; repeat case_decide; naive_solver.
  - assert (l <> noLimits) by (intros ->; by rewrite (proj2 (Limits_IsZero_spec _)) in Hz).
    repeat case_guard; repeat case_decide; naive_solver.
Qed.

(** [toConfig] never indexes out of range on a built set, and gives back the
    configuration's observable part. *)
Lemma toConfig_build c : toConfig (buildConfig c) = Some (normalize c).
Proof.
  destruct c as [m ps g lm]. unfold toConfig, buildConfig. cbn [Secrets SecretAdTags GlobalAdTag Limits].
  destruct (toConfigLoop_build m ps g lm [] (names (buildSecretSet m ps g lm)) (mkConfig ∅ ∅ g ∅) eq_refl)
    as (c' & Hc' & Hg & Hk).
  simpl length in Hc'. cbn [globalAdTag buildSecretSet]. rewrite Hc'. f_equal.
  clear Hc'. pose proof (names_elem m ps g lm) as Hin.
  apply config_eq; [..|exact Hg|]; intros k; destruct (Hk k) as (H1 & H2 & H3); specialize (Hin k);
    rewrite ?H1, ?H2, ?H3, ?SecretAdTags_normalize, ?Limits_normalize; clear H1 H2 H3 Hk;
    cbn [Secrets SecretAdTags Limits normalize]; rewrite ?lookup_empty;
    destruct (decide (k ∈ names (buildSecretSet m ps g lm))) as [Hk|Hk]; rewrite Hin in Hk.
  - done.
  - symmetry. by apply eq_None_not_Some.
  - rewrite decide_True by done. by destruct (ps !! k).
  - by rewrite decide_False.
  - rewrite decide_True by done. by destruct (lm !! k).
  - by rewrite decide_False.
Qed.

Lemma build_ext (c d : SecretConfig) :
  Secrets c = Secrets d -> GlobalAdTag c = GlobalAdTag d ->
  (forall n, is_Some (Secrets c !! n) -> entry_of c n = entry_of d n) ->
  buildConfig c = buildConfig d.
Proof.
  destruct c as [m ps g lm], d as [m' ps' g' lm']; simpl. intros <- <- He.
  unfold buildConfig, buildSecretSet; simpl.
  f_equal; apply list_fmap_ext; intros i n Hi;
    apply list_elem_of_lookup_2, (names_elem m ps g lm) in Hi; specialize (He n Hi);
    destruct Hi as [s Hs]; unfold entry_of in He; simpl in He; rewrite Hs in He; by injection He.
Qed.

Lemma entry_of_normalize c n : entry_of (normalize c) n = entry_of c n.
Proof.
  unfold entry_of. rewrite SecretAdTags_normalize, Limits_normalize. cbn [Secrets normalize].
  destruct (Secrets c !! n) as [s|] eqn:Hs; [|done]. cbn [fmap option_fmap option_map].
  rewrite decide_True by eauto. rewrite decide_True by eauto.
  destruct (Limits c !! n) as [l|]; [|done]. simpl.
  destruct (Limits_IsZero l) eqn:Hz; [|done]. apply Limits_IsZero_spec in Hz. by rewrite Hz.
Qed.

(** The copy-on-write round trip of the management API loses nothing: on a
    snapshot built from any configuration, [toConfig] does not index out of
    range, its result has the same entry for every name, and building a
    snapshot from it gives the same snapshot, slice by slice. *)
Theorem toConfig_roundtrip (c : SecretConfig) :
  exists c', toConfig (buildConfig c) = Some c' /\
    (forall n, entry_of c' n = entry_of c n) /\
    GlobalAdTag c' = GlobalAdTag c /\
    buildConfig c' = buildConfig c.
Proof.
  exists (normalize c). split_and!; [apply toConfig_build | apply entry_of_normalize | done |].
  apply build_ext; [done..|]. intros. apply entry_of_normalize.
Qed.

(** A snapshot is the sorted table of its configuration: the names are
    sorted and without duplicates, exactly the configured ones; every slice at
    position [i] belongs to name [i]; the effective tag is the override if there
    is one and the global tag otherwise; the SNI host names are exactly the
    hosts of the secrets, sorted. *)
Theorem buildSecretSet_table (c : SecretConfig) :
  let s := buildConfig c in
  Sorted str_le (names s) /\ NoDup (names s) /\
  (forall n, n ∈ names s <-> is_Some (Secrets c !! n)) /\
  (forall i n, names s !! i = Some n -> exists e, entry_of c n = Some e /\ entry_at s i = Some e /\
     effectiveAdTag s i = match e_tag e with Some t => Some t | None => GlobalAdTag c end) /\
  Sorted str_le (hostnames s) /\ NoDup (hostnames s) /\
  (forall h, h ∈ hostnames s <-> exists n sec, Secrets c !! n = Some sec /\ Host sec = h).
Proof.
  destruct c as [m ps g lm]. unfold buildConfig. cbn [Secrets SecretAdTags GlobalAdTag Limits]. split_and!.
  - apply sort_Strings_sorted.
  - apply names_nodup.
  - intros n. apply names_elem.
  - intros i n Hi. assert (is_Some (m !! n)) as [s Hs] by (eapply names_elem, list_elem_of_lookup_2, Hi).
    rewrite (build_entry_at _ _ _ _ _ _ Hi).
    unfold entry_of, effectiveAdTag. simpl in *. rewrite Hs. simpl.
    eexists; split_and!; [done..|]. rewrite list_lookup_fmap, Hi. simpl. by destruct (ps !! n).
  - apply sort_Strings_sorted.
  - simpl. rewrite sort_Strings_perm. apply NoDup_elements.
  - intros h. apply hostnames_spec.
Qed.
