(* ===== verification/Proxy.v ===== *)
(** * The served secrets and the live streams: mtglib/proxy.go, mtglib/proxy_api.go

    The part of [Proxy] that reloads and the management API change: the active
    [secretSet], the statistics and [liveConns], the registered streams of each
    secret.  A [*streamContext] is a number; [closed] collects the streams whose
    [Close] was called.  [reloadMu] is held around every mutation, so a mutation
    is one step here; the time it reads the clock at is its argument [now].
    [None] is an index out of range, which the theorems exclude. *)

From S2P Require Import Prelude Secret GoTime Limits Stats SecretSet.

(** ** Errors of mtglib/init.go *)

Definition ErrSecretInvalid : goerr := Errorf "secret is invalid".
Definition ErrReloaderNotConfigured : goerr := Errorf "secrets reloader is not configured".
Definition ErrSecretNotFound : goerr := Errorf "secret not found".
Definition ErrLastSecret : goerr := Errorf "cannot delete the last secret".

(** ** State *)

Record Proxy := mkProxy {
  p_secrets : secretSet;
  p_stats : ProxyStats;
  liveConns : gmap string (gset nat);
  closed : gset nat
}.

Definition set_secrets s p := mkProxy s (p_stats p) (liveConns p) (closed p).
Definition set_stats s p := mkProxy (p_secrets p) s (liveConns p) (closed p).
Definition set_live l p := mkProxy (p_secrets p) (p_stats p) l (closed p).
Definition close_all (ids : gset nat) p := mkProxy (p_secrets p) (p_stats p) (liveConns p) (closed p ∪ ids).

Definition registerConn (p : Proxy) (name : string) (id : nat) : Proxy :=
  set_live (<[name := default ∅ (liveConns p !! name) ∪ {[id]}]> (liveConns p)) p.

Definition unregisterConn (p : Proxy) (name : string) (id : nat) : Proxy :=
  match liveConns p !! name with
  | None => p
  | Some conns =>
      let conns := conns ∖ {[id]} in
      if (size conns =? 0)%nat then set_live (delete name (liveConns p)) p
      else set_live (<[name := conns]> (liveConns p)) p
  end.

(** The loops that fill a map from the parallel slices of a set. *)
Definition byName {A} (ns : list string) (l : list A) : gmap string A :=
  foldl (fun m kv => <[kv.1 := kv.2]> m) ∅ (zip ns l).

Definition keysByName (s : secretSet) : gmap string (list byte) :=
  byName (names s) (Key <$> secrets s).

(** The streams [closeStaleConns] collects: those of every live name but the
    ones whose key is the same in both sets. *)
Definition staleConns (oldSet : option secretSet) (newSet : secretSet) (live : gmap string (gset nat)) : gset nat :=
  let newKeys := keysByName newSet in
  let oldKeys := from_option keysByName ∅ oldSet in
  map_fold (fun name conns stale =>
    match newKeys !! name, oldKeys !! name with
    | Some newKey, Some oldKey => if bool_decide (oldKey = newKey) then stale else stale ∪ conns
    | _, _ => stale ∪ conns
    end) ∅ live.

Definition closeStaleConns (p : Proxy) (oldSet : option secretSet) (newSet : secretSet) : Proxy :=
  close_all (staleConns oldSet newSet (liveConns p)) p.

Section Clock.
Context (localOffset : Z -> Z).

(** [checkLimits] reads the quota through [QuotaUsed], which may roll the
    period over: the statistics afterwards are returned. *)
Definition checkLimits (now : Z) (st : ProxyStats) (name : string) (lim : SecretLimits)
    : ProxyStats * (bool * DenyReason) :=
  if Disabled lim then (st, (false, DenyDisabled)) else
  if negb (IsZeroTime (ExpiresAt lim)) && negb (Before now (ExpiresAt lim)) then (st, (false, DenyExpired)) else
  if 0 <? QuotaBytes lim then
    let '(st', used) := QuotaUsed localOffset now st name (Reset lim) in
    (st', if QuotaBytes lim <=? used then (false, DenyQuota) else (true, DenyNone))
  else (st, (true, DenyNone)).

Definition deniedStep (now : Z) (limitByName : gmap string SecretLimits)
    (name : string) (conns : gset nat) (acc : ProxyStats * gset nat) : ProxyStats * gset nat :=
  match limitByName !! name with
  | None => acc
  | Some lim =>
      let '(st', (allowed, reason)) := checkLimits now acc.1 name lim in
      if allowed || bool_decide (reason = DenyQuota) then (st', acc.2) else (st', acc.2 ∪ conns)
  end.

Definition closeDeniedConns (now : Z) (p : Proxy) : Proxy :=
  let limitByName := byName (names (p_secrets p)) (limits (p_secrets p)) in
  let r := map_fold (deniedStep now limitByName) (p_stats p, ∅) (liveConns p) in
  close_all r.2 (set_stats r.1 p).

Definition rolloverAllQuotas (now : Z) (p : Proxy) : Proxy :=
  set_stats (foldl (fun st '(name, lim) =>
               if bool_decide (Reset lim = QuotaResetMonthly) then rollover localOffset st name (Reset lim) now else st)
             (p_stats p) (zip (names (p_secrets p)) (limits (p_secrets p)))) p.

(** ** Mutations *)

Definition configValid (m : gmap string Secret) : bool :=
  forallb (fun kv => Valid kv.2) (map_to_list m).

Definition swapSecretConfigLocked (now : Z) (p : Proxy) (cfg : SecretConfig) : Proxy * option goerr :=
  if (size (Secrets cfg) =? 0)%nat then (p, Some ErrSecretInvalid) else
  if negb (configValid (Secrets cfg)) then (p, Some ErrSecretInvalid) else
  let newSet := buildSecretSet (Secrets cfg) (SecretAdTags cfg) (GlobalAdTag cfg) (Limits cfg) in
  let oldSet := p_secrets p in
  let p := set_secrets newSet p in
  let p := set_stats (foldl PreRegister (p_stats p) (names newSet)) p in
  let p := closeStaleConns p (Some oldSet) newSet in
  (closeDeniedConns now p, None).

(** [reloader] is what the configured function returns at this call, or [None]
    for a proxy without one. *)
Definition ReloadSecrets (reloader : option (res SecretConfig)) (now : Z) (p : Proxy) : Proxy * option goerr :=
  match reloader with
  | None => (p, Some ErrReloaderNotConfigured)
  | Some (Fail e) => (p, Some (Wrap "cannot reload secrets" e))
  | Some (Ok cfg) => swapSecretConfigLocked now p cfg
  end.

Definition ReplaceSecrets (now : Z) (p : Proxy) (cfg : SecretConfig) : Proxy * option goerr :=
  swapSecretConfigLocked now p cfg.

Definition PutSecret (now : Z) (p : Proxy) (name : string) (s : Secret)
    (adTag : option (list byte)) (lim : option SecretLimits) : option (Proxy * option goerr) :=
  if bool_decide (name = "") then Some (p, Some (Wrap "empty name" ErrSecretInvalid)) else
  if negb (Valid s) then Some (p, Some ErrSecretInvalid) else
  cfg ← toConfig (p_secrets p);
  Some (swapSecretConfigLocked now p
    {| Secrets := <[name := s]> (Secrets cfg);
       SecretAdTags := match adTag with
                       | Some t => <[name := t]> (SecretAdTags cfg)
                       | None => delete name (SecretAdTags cfg)
                       end;
       GlobalAdTag := GlobalAdTag cfg;
       Limits := match lim with
                 | Some l => if Limits_IsZero l then delete name (Limits cfg) else <[name := l]> (Limits cfg)
                 | None => delete name (Limits cfg)
                 end |}).

Definition DeleteSecret (now : Z) (p : Proxy) (name : string) : option (Proxy * option goerr) :=
  cfg ← toConfig (p_secrets p);
  match Secrets cfg !! name with
  | None => Some (p, Some ErrSecretNotFound)
  | Some _ =>
      if (size (Secrets cfg) =? 1)%nat then Some (p, Some ErrLastSecret) else
      Some (swapSecretConfigLocked now p
        {| Secrets := delete name (Secrets cfg);
           SecretAdTags := delete name (SecretAdTags cfg);
           GlobalAdTag := GlobalAdTag cfg;
           Limits := Limits cfg |})
  end.

Definition SetGlobalAdTag (now : Z) (p : Proxy) (tag : option (list byte)) : option (Proxy * option goerr) :=
  cfg ← toConfig (p_secrets p);
  Some (swapSecretConfigLocked now p
    {| Secrets := Secrets cfg; SecretAdTags := SecretAdTags cfg; GlobalAdTag := tag; Limits := Limits cfg |}).

End Clock.

Definition Proxy_GlobalAdTag (p : Proxy) : option (list byte) := globalAdTag (p_secrets p).

Definition hasSecret (p : Proxy) (name : string) : bool :=
  existsb (fun n => bool_decide (n = name)) (names (p_secrets p)).

(** ** The mutations as one operation, and what they promise *)

Inductive mutation :=
  | MReload (reloader : option (res SecretConfig))
  | MReplace (cfg : SecretConfig)
  | MPut (name : string) (s : Secret) (adTag : option (list byte)) (lim : option SecretLimits)
  | MDelete (name : string)
  | MSetGlobal (tag : option (list byte)).

Definition exec (localOffset : Z -> Z) (now : Z) (p : Proxy) (m : mutation) : option (Proxy * option goerr) :=
  match m with
  | MReload r => Some (ReloadSecrets localOffset r now p)
  | MReplace cfg => Some (ReplaceSecrets localOffset now p cfg)
  | MPut name s adTag lim => PutSecret localOffset now p name s adTag lim
  | MDelete name => DeleteSecret localOffset now p name
  | MSetGlobal tag => SetGlobalAdTag localOffset now p tag
  end.

(** The abstract configuration: an entry per name and the global tag. *)
Record config_view := mkView { v_entries : gmap string entry; v_global : option (list byte) }.

Definition view_of (c : SecretConfig) : config_view :=
  mkView (map_imap (fun n _ => entry_of c n) (Secrets c)) (GlobalAdTag c).

(** The abstract configuration is well formed when it has a secret and all its
    secrets are valid. *)
Definition view_ok (v : config_view) : bool :=
  negb (size (v_entries v) =? 0)%nat && forallb (fun kv => Valid (e_secret kv.2)) (map_to_list (v_entries v)).

Definition guarded (v : config_view) : res config_view :=
  if view_ok v then Ok v else Fail ErrSecretInvalid.

Definition spec (v : config_view) (m : mutation) : res config_view :=
  match m with
  | MReload None => Fail ErrReloaderNotConfigured
  | MReload (Some (Fail e)) => Fail (Wrap "cannot reload secrets" e)
  | MReload (Some (Ok cfg)) | MReplace cfg => guarded (view_of cfg)
  | MPut name s adTag lim =>
      if bool_decide (name = "") then Fail (Wrap "empty name" ErrSecretInvalid)
      else if Valid s then Ok (mkView (<[name := mkEntry s adTag (default noLimits lim)]> (v_entries v)) (v_global v))
      else Fail ErrSecretInvalid
  | MDelete name =>
      if bool_decide (is_Some (v_entries v !! name)) then
        if (size (v_entries v) =? 1)%nat then Fail ErrLastSecret
        else Ok (mkView (delete name (v_entries v)) (v_global v))
      else Fail ErrSecretNotFound
  | MSetGlobal tag => Ok (mkView (v_entries v) tag)
  end.

(** A proxy state implements an abstract configuration. *)
Definition implements (p : Proxy) (v : config_view) : Prop :=
  view_ok v = true /\ exists c, p_secrets p = buildConfig c /\ view_of c = v.

(** ** Proofs: views *)

Lemma view_lookup c n : v_entries (view_of c) !! n = entry_of c n.
Proof. simpl. rewrite map_lookup_imap. unfold entry_of. by destruct (Secrets c !! n). Qed.

Lemma view_eq v w : (forall n, v_entries v !! n = v_entries w !! n) -> v_global v = v_global w -> v = w.
Proof. destruct v, w; simpl. intros H ->. f_equal. by apply map_eq. Qed.

Lemma view_dom c : dom (v_entries (view_of c)) = dom (Secrets c).
Proof.
  apply set_eq. intros n. rewrite !elem_of_dom, view_lookup. unfold entry_of. by rewrite fmap_is_Some.
Qed.

Lemma view_size c : size (v_entries (view_of c)) = size (Secrets c).
Proof. by rewrite <-!size_dom, view_dom. Qed.

Lemma forallb_map {A} (f : string * A -> bool) (m : gmap string A) :
  forallb f (map_to_list m) = true <-> map_Forall (fun k x => f (k, x) = true) m.
Proof.
  rewrite forallb_forall, map_Forall_to_list, Forall_forall. setoid_rewrite list_elem_of_In.
  split; intros H [k x]; apply (H (k, x)).
Qed.

Lemma view_ok_spec c :
  view_ok (view_of c) = negb (size (Secrets c) =? 0)%nat && configValid (Secrets c).
Proof.
  unfold view_ok, configValid. rewrite view_size. f_equal. apply eq_true_iff_eq. rewrite !forallb_map.
  unfold map_Forall. setoid_rewrite view_lookup. unfold entry_of. setoid_rewrite fmap_Some.
  simpl. split; [|naive_solver]. intros H n s Hs. apply (H n _ (ex_intro _ s (conj Hs eq_refl))).
Qed.

Lemma implements_config p v :
  implements p v -> exists c, p_secrets p = buildConfig c /\ view_of c = v /\
    view_of (normalize c) = v /\ toConfig (p_secrets p) = Some (normalize c).
Proof.
  intros (_ & c & Hp & Hv). exists c. split_and!; [done..| |by rewrite Hp, toConfig_build].
  rewrite <-Hv. apply view_eq; [|done]. intros k. by rewrite !view_lookup, entry_of_normalize.
Qed.

(** ** Proofs: maps filled from slices *)

Lemma byName_lookup {A} (f : string -> A) ns n :
  NoDup ns -> byName ns (f <$> ns) !! n = if decide (n ∈ ns) then Some (f n) else None.
Proof.
  unfold byName. intros Hnd. enough (forall m : gmap string A,
    foldl (fun m kv => <[kv.1 := kv.2]> m) m (zip ns (f <$> ns)) !! n =
    if decide (n ∈ ns) then Some (f n) else m !! n) as H by (rewrite H; by case_decide).
  induction Hnd as [|k ns Hk Hnd IH]; intros m; simpl zip; simpl foldl.
  - by rewrite decide_False by set_solver.
  - rewrite IH. destruct (decide (n = k)) as [->|Hnk].
    + rewrite decide_False, decide_True by set_solver. by rewrite lookup_insert_eq.
    + destruct (decide (n ∈ ns)); [by rewrite decide_True by set_solver|].
      rewrite decide_False by set_solver. by rewrite lookup_insert_ne.
Qed.

(** A slice of a built set, by name. *)
Lemma byName_build {A} (f : string -> A) c n :
  byName (names (buildConfig c)) (f <$> names (buildConfig c)) !! n = (fun _ => f n) <$> Secrets c !! n.
Proof.
  rewrite byName_lookup by apply names_nodup. case_decide as Hn; unfold buildConfig in Hn; rewrite names_elem in Hn.
  - by destruct Hn as [s ->].
  - apply eq_None_not_Some in Hn. by rewrite Hn.
Qed.

Lemma keysByName_build c n : keysByName (buildConfig c) !! n = Key <$> Secrets c !! n.
Proof.
  unfold keysByName. replace (Key <$> secrets (buildConfig c))
    with ((fun n => Key (default zeroSecret (Secrets c !! n))) <$> names (buildConfig c))
    by (simpl; by rewrite <-list_fmap_compose).
  rewrite byName_build. by destruct (Secrets c !! n).
Qed.

Lemma limitsByName_build c n :
  byName (names (buildConfig c)) (limits (buildConfig c)) !! n = e_limits <$> entry_of c n.
Proof.
  change (limits (buildConfig c)) with ((fun n => default noLimits (Limits c !! n)) <$> names (buildConfig c)).
  rewrite byName_build. unfold entry_of. by destruct (Secrets c !! n).
Qed.

Lemma limitsByName_Some c n lim :
  byName (names (buildConfig c)) (limits (buildConfig c)) !! n = Some lim <->
  exists e, entry_of c n = Some e /\ lim = e_limits e.
Proof. by rewrite limitsByName_build, fmap_Some. Qed.

(** Collecting the streams of the names that satisfy [P]. *)
Lemma collect_conns (P : string -> Prop) (f : string -> gset nat -> gset nat -> gset nat) live id :
  (forall n conns acc, P n -> f n conns acc = acc ∪ conns) ->
  (forall n conns acc, ~ P n -> f n conns acc = acc) ->
  (forall n, Decision (P n)) ->
  id ∈ map_fold f ∅ live <-> exists n conns, live !! n = Some conns /\ id ∈ conns /\ P n.
Proof.
  intros HP HnP Hdec. apply (map_fold_weak_ind (fun acc (m : gmap string (gset nat)) =>
    id ∈ acc <-> exists n conns, m !! n = Some conns /\ id ∈ conns /\ P n)).
  - setoid_rewrite lookup_empty. set_solver.
  - intros n conns m acc Hn IH. destruct (Hdec n) as [Hp|Hp].
    + rewrite (HP n conns acc Hp), elem_of_union, IH. split.
      * intros [(k & c & Hk & ? & ?)|Hid]; [|exists n, conns; by rewrite lookup_insert_eq].
        exists k, c. rewrite lookup_insert_ne by (intros ->; congruence). done.
      * intros (k & c & Hk & Hid & ?). apply lookup_insert_Some in Hk as [[-> ->]|[? ?]]; eauto 10.
    + rewrite (HnP n conns acc Hp), IH. split; intros (k & c & Hk & Hid & ?).
      * exists k, c. rewrite lookup_insert_ne by (intros ->; congruence). done.
      * apply lookup_insert_Some in Hk as [[-> ->]|[? ?]]; [done|eauto].
Qed.

(** ** Proofs: closing streams *)

(** The limits that refuse a live stream: disabled, or expired at [now]. *)
Definition refused (now : Z) (lim : SecretLimits) : bool :=
  Disabled lim || negb (IsZeroTime (ExpiresAt lim)) && negb (Before now (ExpiresAt lim)).

(** The key of a name is the same in both configurations. *)
Definition same_key (old new : SecretConfig) (n : string) : Prop :=
  exists s s', Secrets old !! n = Some s /\ Secrets new !! n = Some s' /\ Key s = Key s'.

(** Two sets of statistics that differ in quota fields at most. *)
Definition same_traffic (s s' : ProxyStats) : Prop :=
  forall n, connections (stats_of s' n) = connections (stats_of s n) /\
            bytesIn (stats_of s' n) = bytesIn (stats_of s n) /\
            bytesOut (stats_of s' n) = bytesOut (stats_of s n) /\
            lastSeen (stats_of s' n) = lastSeen (stats_of s n).

#[export] Instance same_traffic_preorder : PreOrder same_traffic.
Proof.
  split; [by intros s n|]. intros s t u H1 H2 n.
  destruct (H1 n) as (<- & <- & <- & <-). apply H2.
Qed.

#[export] Instance same_key_dec old new n : Decision (same_key old new n).
Proof.
  unfold same_key. destruct (Secrets old !! n) as [s|]; [|right; naive_solver].
  destruct (Secrets new !! n) as [s'|]; [|right; naive_solver].
  destruct (decide (Key s = Key s')); [left|right]; naive_solver.
Defined.

Lemma staleConns_spec old new live id :
  id ∈ staleConns (Some (buildConfig old)) (buildConfig new) live <->
  exists n conns, live !! n = Some conns /\ id ∈ conns /\ ~ same_key old new n.
Proof.
  unfold staleConns. cbn [from_option]. apply (collect_conns (fun n => ~ same_key old new n)); [..|apply _];
    intros n conns acc; rewrite !keysByName_build; unfold same_key;
    destruct (Secrets old !! n) as [s|], (Secrets new !! n) as [s'|]; simpl;
    repeat case_bool_decide; naive_solver.
Qed.

Lemma PreRegister_all_stats ns s n : stats_of (foldl PreRegister s ns) n = stats_of s n.
Proof. revert s. induction ns as [|k ns IH]; intros s; [done|]. simpl. by rewrite IH, PreRegister_stats. Qed.

Section ClockProofs.
Context (localOffset : Z -> Z).

Lemma rolloverIfNeeded_traffic reset now s name :
  same_traffic s (update s name (rolloverIfNeeded localOffset reset now)).
Proof.
  intros n. rewrite stats_of_update. case_decide; [subst|done].
  unfold rolloverIfNeeded. by go_cases.
Qed.

Lemma checkLimits_decision now st name lim st' allowed reason :
  checkLimits localOffset now st name lim = (st', (allowed, reason)) ->
  same_traffic st st' /\ (refused now lim = negb (allowed || bool_decide (reason = DenyQuota))).
Proof.
  unfold checkLimits, refused. destruct (Disabled lim); [by intros [= <- <- <-]|]. simpl.
  destruct (_ && _); [by intros [= <- <- <-]|].
  destruct (0 <? QuotaBytes lim); [|by intros [= <- <- <-]].
  unfold QuotaUsed. destruct (QuotaBytes lim <=? _); intros [= <- <- <-];
    (split; [apply rolloverIfNeeded_traffic|done]).
Qed.

Lemma denied_spec now (lims : gmap string SecretLimits) live st id :
  let r := map_fold (deniedStep localOffset now lims) (st, ∅) live in
  same_traffic st r.1 /\
  (id ∈ r.2 <-> exists n conns, live !! n = Some conns /\ id ∈ conns /\
                   exists lim, lims !! n = Some lim /\ refused now lim = true).
Proof.
  intros r. apply (map_fold_weak_ind (fun r (m : gmap string (gset nat)) => same_traffic st r.1 /\
    (id ∈ r.2 <-> exists n conns, m !! n = Some conns /\ id ∈ conns /\
                     exists lim, lims !! n = Some lim /\ refused now lim = true))).
  { split; [done|]. setoid_rewrite lookup_empty. set_solver. }
  intros n conns m [st1 denied] Hn [Hst IH]. simpl in Hst, IH.
  assert (forall P : string -> gset nat -> Prop,
    (exists k c, <[n:=conns]> m !! k = Some c /\ P k c) <-> P n conns \/ exists k c, m !! k = Some c /\ P k c) as Hins.
  { intros P. split.
    - intros (k & c & Hk & ?). apply lookup_insert_Some in Hk as [[-> ->]|[? ?]]; eauto.
    - intros [?|(k & c & Hk & ?)]; [exists n, conns; by rewrite lookup_insert_eq|].
      exists k, c. by rewrite lookup_insert_ne by (intros ->; congruence). }
  unfold deniedStep. simpl. destruct (lims !! n) as [lim|] eqn:Hlim.
  - destruct (checkLimits localOffset now st1 n lim) as [st2 [allowed reason]] eqn:Hc.
    apply checkLimits_decision in Hc as [Ht Hr].
    assert ((exists lim', lims !! n = Some lim' /\ refused now lim' = true) <-> refused now lim = true) as Hex.
    { rewrite Hlim. split; [by intros (? & [= <-] & ?)|eauto]. }
    destruct (allowed || _) eqn:Ha; (split; [by etrans|]); simpl;
      rewrite Hins, ?elem_of_union, IH, Hex, Hr; simpl; intuition congruence.
  - split; [done|]. simpl. rewrite Hins, IH.
    assert (~ exists lim', lims !! n = Some lim' /\ refused now lim' = true) as Hex
      by (rewrite Hlim; by intros (? & [=] & _)).
    intuition.
Qed.

(** What a swap does, when it succeeds. *)
Lemma swap_ok now p old cfg :
  p_secrets p = buildConfig old -> view_ok (view_of cfg) = true ->
  exists p', swapSecretConfigLocked localOffset now p cfg = (p', None) /\
    p_secrets p' = buildConfig cfg /\ liveConns p' = liveConns p /\
    same_traffic (p_stats p) (p_stats p') /\
    forall id, id ∈ closed p' <-> id ∈ closed p \/
      exists n conns, liveConns p !! n = Some conns /\ id ∈ conns /\
        (~ same_key old cfg n \/ exists e, entry_of cfg n = Some e /\ refused now (e_limits e) = true).
Proof.
  intros Hold Hok. rewrite view_ok_spec in Hok. apply andb_true_iff in Hok as [Hsz Hv].
  unfold swapSecretConfigLocked. apply negb_true_iff in Hsz. rewrite Hsz, Hv. simpl negb. cbv iota.
  fold (buildConfig cfg). eexists. split; [reflexivity|].
  unfold closeDeniedConns, closeStaleConns, close_all, set_stats, set_secrets.
  cbn [p_secrets p_stats liveConns closed]. rewrite Hold.
  match goal with |- context [map_fold (deniedStep localOffset now ?lims) (?st, ∅) ?live] =>
    pose proof (denied_spec now lims live st) as Hd; set (r := map_fold _ _ _) in * end.
  split_and!; [done..| |].
  - destruct (Hd 0%nat) as [Ht _]. etrans; [|exact Ht]. intros n.
    by rewrite PreRegister_all_stats.
  - intros id. rewrite !elem_of_union, staleConns_spec. destruct (Hd id) as [_ ->].
    setoid_rewrite limitsByName_Some. split.
    + intros [[?|(n & c & ? & ? & ?)]|(n & c & ? & ? & lim & (e & ? & ->) & ?)]; [by left|right..];
        exists n, c; (split_and!; [done..|]); [by left|right; by exists e].
    + intros [?|(n & c & ? & ? & [?|(e & ? & ?)])]; [by do 2 left|left; right|right]; exists n, c;
        (split_and!; [done..|]); [done|]. exists (e_limits e). split; [by exists e|done].
Qed.

Lemma swap_fail now p cfg :
  view_ok (view_of cfg) = false -> swapSecretConfigLocked localOffset now p cfg = (p, Some ErrSecretInvalid).
Proof.
  rewrite view_ok_spec. unfold swapSecretConfigLocked.
  destruct (_ =? _)%nat; [done|]. by destruct (configValid _).
Qed.

End ClockProofs.

(** ** Proofs: the mutations refine their specification *)

Lemma view_ok_valid v : view_ok v = true <->
  v_entries v <> ∅ /\ map_Forall (fun _ e => Valid (e_secret e) = true) (v_entries v).
Proof.
  unfold view_ok. by rewrite andb_true_iff, forallb_map, negb_true_iff, Nat.eqb_neq, map_size_empty_iff.
Qed.

Lemma guarded_ok v : view_ok v = true -> guarded v = Ok v.
Proof. unfold guarded. by intros ->. Qed.

(** The view after the edit that [PutSecret] makes. *)
Lemma view_put cfg name s tag lim :
  view_of {| Secrets := <[name := s]> (Secrets cfg);
             SecretAdTags := match tag with
                             | Some t => <[name := t]> (SecretAdTags cfg)
                             | None => delete name (SecretAdTags cfg)
                             end;
             GlobalAdTag := GlobalAdTag cfg;
             Limits := match lim with
                       | Some l => if Limits_IsZero l then delete name (Limits cfg) else <[name := l]> (Limits cfg)
                       | None => delete name (Limits cfg)
                       end |} =
  mkView (<[name := mkEntry s tag (default noLimits lim)]> (v_entries (view_of cfg))) (GlobalAdTag cfg).
Proof.
  apply view_eq; [|done]. intros n. rewrite view_lookup. cbn [v_entries]. destruct (decide (name = n)) as [<-|Hn].
  - rewrite lookup_insert_eq. unfold entry_of. cbn [Secrets SecretAdTags Limits]. rewrite lookup_insert_eq. simpl.
    do 2 f_equal; [by destruct tag; rewrite ?lookup_insert_eq, ?lookup_delete_eq|].
    destruct lim as [l|]; [|by rewrite lookup_delete_eq]. destruct (Limits_IsZero l) eqn:Hz.
    + apply Limits_IsZero_spec in Hz as ->. by rewrite lookup_delete_eq.
    + by rewrite lookup_insert_eq.
  - rewrite lookup_insert_ne, view_lookup by done. unfold entry_of. cbn [Secrets SecretAdTags Limits].
    rewrite lookup_insert_ne by done. destruct (Secrets cfg !! n); [|done]. simpl. do 2 f_equal.
    + by destruct tag; rewrite ?lookup_insert_ne, ?lookup_delete_ne.
    + destruct lim as [l|]; [destruct (Limits_IsZero l)|]; by rewrite ?lookup_insert_ne, ?lookup_delete_ne.
Qed.

(** The view after the edit of [DeleteSecret]; limits left behind under the
    deleted name do not show. *)
Lemma view_delete cfg name :
  view_of (mkConfig (delete name (Secrets cfg)) (delete name (SecretAdTags cfg)) (GlobalAdTag cfg) (Limits cfg)) =
  mkView (delete name (v_entries (view_of cfg))) (GlobalAdTag cfg).
Proof.
  apply view_eq; [|done]. intros n. rewrite view_lookup. cbn [v_entries]. unfold entry_of.
  cbn [Secrets SecretAdTags Limits]. destruct (decide (name = n)) as [<-|Hn].
  - by rewrite !lookup_delete_eq.
  - rewrite !lookup_delete_ne, view_lookup by done. done.
Qed.

(** Every mutation of a proxy that implements [v] fails as the specification
    does, or is a swap to a configuration with the specified view. *)
Lemma exec_shape localOffset now p v m :
  implements p v ->
  (exists e, exec localOffset now p m = Some (p, Some e) /\ spec v m = Fail e) \/
  (exists cfg, exec localOffset now p m = Some (swapSecretConfigLocked localOffset now p cfg) /\
               spec v m = guarded (view_of cfg)).
Proof.
  intros Himp. pose proof (proj1 (view_ok_valid v) (proj1 Himp)) as [Hne Hval].
  destruct (implements_config p v Himp) as (c & Hp & _ & Hv & Hcfg).
  pose proof (view_lookup (normalize c)) as Hl. rewrite Hv in Hl.
  destruct m as [r|cfg|name s tag lim|name|tag]; simpl; unfold ReloadSecrets, PutSecret, DeleteSecret,
    SetGlobalAdTag; rewrite ?Hcfg; cbn [mbind option_bind].
  - destruct r as [[cfg|e]|]; [right|left|left]; eauto.
  - right. eauto.
  - case_bool_decide; [left; eauto|]. destruct (Valid s) eqn:Hs; [|left; eauto]. right.
    eexists. split; [reflexivity|]. rewrite view_put, Hv.
    replace (GlobalAdTag (normalize c)) with (v_global v) by (by rewrite <-Hv).
    symmetry. apply guarded_ok, view_ok_valid. split; [apply insert_non_empty|by apply map_Forall_insert_2].
  - specialize (Hl name). unfold entry_of in Hl. destruct (Secrets (normalize c) !! name) as [s|] eqn:Hs;
      [rewrite bool_decide_true by (by rewrite Hl)
      |rewrite bool_decide_false by (rewrite Hl; by intros [? ?]); left; eauto].
    rewrite <-(view_size (normalize c)), Hv. destruct (_ =? 1)%nat eqn:H1; [left; eauto|]. right.
    eexists. split; [reflexivity|]. rewrite view_delete, Hv.
    replace (GlobalAdTag (normalize c)) with (v_global v) by (by rewrite <-Hv).
    symmetry. apply guarded_ok, view_ok_valid. split; [|by apply map_Forall_delete].
    cbn [v_entries]. rewrite <-map_size_empty_iff. apply Nat.eqb_neq in H1.
    rewrite map_size_delete_Some by (by rewrite Hl).
    rewrite <-map_size_empty_iff in Hne. lia.
  - right. eexists. split; [reflexivity|].
    replace (view_of _) with (mkView (v_entries v) tag) by (apply view_eq; [|done]; intros n; by rewrite <-Hv).
    by rewrite guarded_ok by (by apply view_ok_valid).
Qed.

(** The streams that survive a change from [v] to [v'] at [now]: those of a
    secret whose key is unchanged and that is neither disabled nor expired. *)
Definition keeps (now : Z) (v v' : config_view) (n : string) : Prop :=
  exists e e', v_entries v !! n = Some e /\ v_entries v' !! n = Some e' /\
    Key (e_secret e) = Key (e_secret e') /\ refused now (e_limits e') = false.

Lemma exec_refines localOffset now p v m :
  implements p v ->
  exists p' err, exec localOffset now p m = Some (p', err) /\
    match spec v m with
    | Ok v' => err = None /\ implements p' v'
    | Fail e => err = Some e /\ p' = p
    end.
Proof.
  intros Himp. destruct (exec_shape localOffset now p v m Himp) as [(e & He & Hs)|(cfg & He & Hs)]; rewrite He, Hs.
  - exists p, (Some e). done.
  - destruct Himp as (_ & old & Hold & _). unfold guarded. destruct (view_ok (view_of cfg)) eqn:Hok.
    + destruct (swap_ok localOffset now p old cfg Hold Hok) as (p' & -> & Hp' & _).
      exists p', None. split_and!; [done..|]. split; [done|]. by exists cfg.
    + rewrite swap_fail by done. eauto.
Qed.

(** C1: every mutation of the served secrets (file reload, replacement, put,
    delete, global tag) refines its specification on the abstract map of
    entries: from a proxy that implements a well-formed map it does not index
    out of range; where the specification fails, it returns that error and
    leaves the whole proxy unchanged; where the specification succeeds, it
    returns no error and the proxy implements the specified map. *)
Theorem mutation_refines localOffset now p v m :
  implements p v ->
  exists p' err, exec localOffset now p m = Some (p', err) /\
    match spec v m with
    | Ok v' => err = None /\ implements p' v'
    | Fail e => err = Some e /\ p' = p
    end.
Proof. apply exec_refines. Qed.

(** C7: what a successful mutation does to the live streams: exactly the
    registered streams of a name that lost its secret, changed its key, or is
    now disabled or expired are closed, no other stream is; the registry and the
    traffic counters of every secret are carried over.  This holds for every
    mutation alike: also one that only changes the global tag, or a reload of an
    unchanged file, closes the streams of a secret that has expired since they
    were admitted, which the comments on [SetGlobalAdTag] and [ReloadSecrets] and
    the README do not say. *)
Theorem mutation_closes localOffset now p v m v' p' err :
  implements p v -> spec v m = Ok v' -> exec localOffset now p m = Some (p', err) ->
  (forall id, id ∈ closed p' <-> id ∈ closed p \/
     exists n conns, liveConns p !! n = Some conns /\ id ∈ conns /\ ~ keeps now v v' n) /\
  liveConns p' = liveConns p /\ same_traffic (p_stats p) (p_stats p').
Proof.
  intros Himp Hspec Hexec.
  destruct (exec_shape localOffset now p v m Himp) as [(e & He & Hs)|(cfg & He & Hs)]; [congruence|].
  rewrite Hs in Hspec. unfold guarded in Hspec. destruct (view_ok (view_of cfg)) eqn:Hok; [|done].
  injection Hspec as <-. destruct Himp as (_ & old & Hold & <-). rewrite He in Hexec.
  destruct (swap_ok localOffset now p old cfg Hold Hok) as (p'' & Hsw & _ & Hlive & Ht & Hcl).
  rewrite Hsw in Hexec. injection Hexec as <- <-. split_and!; [|done..].
  intros id. rewrite Hcl. enough (forall n,
    (~ same_key old cfg n \/ (exists e, entry_of cfg n = Some e /\ refused now (e_limits e) = true)) <->
    ~ keeps now (view_of old) (view_of cfg) n) as Hk by (by setoid_rewrite Hk).
  intros n. unfold same_key, keeps. rewrite !view_lookup. unfold entry_of.
  destruct (Secrets old !! n) as [s|], (Secrets cfg !! n) as [s'|]; simpl; [|naive_solver..].
  split.
  - intros [H|(e & [= <-] & Hr)] (e1 & e2 & [= <-] & [= <-] & Hkey & Hrf); simpl in *; [naive_solver|congruence].
  - intros H. destruct (decide (Key s = Key s')) as [Hkey|]; [right|left; naive_solver].
    eexists. split; [done|]. destruct (refused now _) eqn:Hr; [done|]. exfalso. apply H. eauto 10.
Qed.

(** *** Witnesses: a re-key of one of two secrets with a live stream each *)

Definition demo_key (b : byte) : list byte := replicate 16 b.

Definition demo_cfg : SecretConfig :=
  mkConfig {[ "alice" := mkSecret (demo_key Byte.x01) "a.com"; "bob" := mkSecret (demo_key Byte.x02) "b.com" ]}
           {[ "bob" := demo_key Byte.xaa ]} None {[ "alice" := mkLimits 100 QuotaResetMonthly 0 false ]}.

Definition demo_proxy : Proxy :=
  mkProxy (buildConfig demo_cfg) (NewProxyStats 0) {[ "alice" := {[7%nat]}; "bob" := {[8%nat; 9%nat]} ]} ∅.

Definition demo_put : mutation := MPut "bob" (mkSecret (demo_key Byte.x03) "b.com") None None.

Lemma demo_implements : implements demo_proxy (view_of demo_cfg).
Proof. split; [vm_compute; reflexivity | by exists demo_cfg]. Qed.

Lemma mutation_refines_witness :
  exists p' err, exec (fun _ => 0) 5 demo_proxy demo_put = Some (p', err) /\
    match spec (view_of demo_cfg) demo_put with
    | Ok v' => err = None /\ implements p' v'
    | Fail e => err = Some e /\ p' = demo_proxy
    end.
Proof. apply mutation_refines. apply demo_implements. Defined.

Lemma mutation_closes_witness :
  exists p', exec (fun _ => 0) 5 demo_proxy demo_put = Some (p', None) /\
    8%nat ∈ closed p' /\ 7%nat ∉ closed p' /\ liveConns p' = liveConns demo_proxy.
Proof.
  eexists. split; [vm_compute; reflexivity|].
  edestruct (mutation_closes (fun _ => 0) 5 demo_proxy (view_of demo_cfg) demo_put
    (mkView (<["bob" := mkEntry (mkSecret (demo_key Byte.x03) "b.com") None noLimits]>
               (v_entries (view_of demo_cfg))) None))
    as (Hcl & Hlive & _); [apply demo_implements | reflexivity | vm_compute; reflexivity |].
  split_and!; [|apply (bool_decide_unpack _); vm_compute; exact I|exact Hlive].
  apply Hcl. right. exists "bob", {[8%nat; 9%nat]}. split_and!; [reflexivity|set_solver|].
  intros (e & e' & He & He' & Hk & _). rewrite view_lookup in He. injection He as <-.
  cbn [v_entries] in He'. rewrite lookup_insert_eq in He'. injection He' as <-. discriminate Hk.
Defined.

(** A change of the global tag closes a live stream: the secret of the stream
    has expired at 10, the tag is set at 20. *)
Example set_global_tag_closes :
  let cfg := mkConfig (Secrets demo_cfg) ∅ None {[ "alice" := mkLimits 0 QuotaResetNone 10 false ]} in
  let p := mkProxy (buildConfig cfg) (NewProxyStats 0) {[ "alice" := {[7%nat]}; "bob" := {[8%nat]} ]} ∅ in
  exists p', SetGlobalAdTag (fun _ => 0) 20 p None = Some (p', None) /\ closed p' = {[7%nat]}.
Proof. eexists. split; vm_compute; reflexivity. Qed.
