(* ===== verification/API.v ===== *)
(** * The management API: mtglib/proxy_api.go and [reloadHandler] of mtglib/proxy_stats.go

    Every route as a function from the proxy and the request to the proxy
    afterwards and the response.  The JSON decoding of a request body (package
    [encoding/json]) and the unit parser of github.com/alecthomas/units are
    variables of the section; a response body is the value that is encoded.
    The path is the list of its segments after the cleaning [http.ServeMux]
    does. *)

From S2P Require Import Prelude Encoding Secret GoTime Limits Stats GoStrings LimitsParse SecretSet Proxy.

(** ** Data *)

Record SecretInfo := mkInfo {
  si_Name : string;
  si_Secret : string;
  si_Host : string;
  si_AdTag : string;
  si_EffectiveAdTag : string;
  si_Quota : Z;
  si_QuotaUsed : Z;
  si_QuotaRemaining : option Z;
  si_QuotaReset : string;
  si_ExpiresAt : option Z;
  si_Disabled : bool
}.

Record limitFields := mkLimitFields {
  lf_Quota : string;
  lf_QuotaReset : string;
  lf_Expires : string;
  lf_Disabled : bool
}.

Record secretEntry := mkSecretEntry { se_Secret : string; se_AdTag : string; se_limits : limitFields }.

Record putSecretsRequest := mkPutSecrets { ps_Secrets : gmap string secretEntry; ps_AdTag : string }.

Record postSecretRequest := mkPostSecret {
  po_Name : string;
  po_Secret : string;
  po_AdTag : string;
  po_limits : limitFields
}.

Record putAdTagRequest := mkPutAdTag { pa_AdTag : string }.

Inductive body :=
  | BStatusOK
  | BError (e : goerr)
  | BPlain (s : string)
  | BSecrets (l : list SecretInfo)
  | BStats (r : StatsResponse)
  | BAdTag (t : option string).

Record response := mkResp { code : Z; r_body : body }.

Definition StatusOK := 200.
Definition StatusBadRequest := 400.
Definition StatusUnauthorized := 401.
Definition StatusNotFound := 404.
Definition StatusMethodNotAllowed := 405.
Definition StatusConflict := 409.
Definition StatusInternalServerError := 500.
Definition StatusServiceUnavailable := 503.

Definition ok : response := mkResp StatusOK BStatusOK.

Definition httpError (c : Z) (e : goerr) : response := mkResp c (BError e).

(** ** Reading *)

Definition hexTag (t : list byte) : string := string_of_bytes (hex_encode t).

(** [lim.QuotaBytes - used], at zero when negative. *)
Definition remainingOf (quota used : Z) : Z :=
  let remaining := int64 (quota - used) in if remaining <? 0 then 0 else remaining.

Definition fillLimitInfo (info : SecretInfo) (lim : SecretLimits) (used : Z) : SecretInfo :=
  mkInfo (si_Name info) (si_Secret info) (si_Host info) (si_AdTag info) (si_EffectiveAdTag info)
    (if 0 <? QuotaBytes lim then QuotaBytes lim else si_Quota info)
    (if 0 <? QuotaBytes lim then used else si_QuotaUsed info)
    (if 0 <? QuotaBytes lim then Some (remainingOf (QuotaBytes lim) used) else si_QuotaRemaining info)
    (if bool_decide (Reset lim = QuotaResetNone) then si_QuotaReset info else QuotaReset_String (Reset lim))
    (if IsZeroTime (ExpiresAt lim) then si_ExpiresAt info else Some (ExpiresAt lim))
    (Disabled lim).

(** The body of the loop of [SnapshotSecrets] at position [i]. *)
Definition snapshotEntry (p : Proxy) (i : nat) (name : string) : option SecretInfo :=
  let set := p_secrets p in
  s ← secrets set !! i;
  tag ← adTags set !! i;
  lim ← limits set !! i;
  Some (fillLimitInfo
    (mkInfo name (Base64 s) (Host s) (from_option hexTag "" tag) (from_option hexTag "" (effectiveAdTag set i))
            0 0 None "" None false)
    lim (quotaUsedValue (p_stats p) name)).

Fixpoint snapshotLoop (p : Proxy) (i : nat) (ns : list string) : option (list SecretInfo) :=
  match ns with
  | [] => Some []
  | name :: ns => info ← snapshotEntry p i name; rest ← snapshotLoop p (S i) ns; Some (info :: rest)
  end.

Definition SnapshotSecrets (p : Proxy) : option (list SecretInfo) := snapshotLoop p 0 (names (p_secrets p)).

Definition handleGetSecrets (p : Proxy) : option response :=
  l ← SnapshotSecrets p; Some (mkResp StatusOK (BSecrets l)).

(** The limits of a secret in its entry of GET /stats. *)
Definition enrichUser (lim : SecretLimits) (u : UserStatsJSON) : UserStatsJSON :=
  mkUserStats (us_Connections u) (us_BytesIn u) (us_BytesOut u) (us_LastSeen u) (us_QuotaUsed u)
    (if 0 <? QuotaBytes lim then QuotaBytes lim else us_Quota u)
    (if 0 <? QuotaBytes lim then Some (remainingOf (QuotaBytes lim) (us_QuotaUsed u)) else us_QuotaRemaining u)
    (if bool_decide (Reset lim = QuotaResetNone) then us_QuotaReset u else QuotaReset_String (Reset lim))
    (if IsZeroTime (ExpiresAt lim) then us_ExpiresAt u else Some (ExpiresAt lim))
    (Disabled lim).

Fixpoint enrichLoop (lims : list SecretLimits) (i : nat) (ns : list string) (us : gmap string UserStatsJSON)
    : option (gmap string UserStatsJSON) :=
  match ns with
  | [] => Some us
  | name :: ns =>
      match us !! name with
      | None => enrichLoop lims (S i) ns us
      | Some u => lim ← lims !! i; enrichLoop lims (S i) ns (<[name := enrichUser lim u]> us)
      end
  end.

Definition handleStats (now : Z) (p : Proxy) : option response :=
  let resp := buildResponse now (p_stats p) in
  us ← enrichLoop (limits (p_secrets p)) 0 (names (p_secrets p)) (sr_Users resp);
  Some (mkResp StatusOK (BStats (mkResponse (sr_StartedAt resp) (sr_UptimeSeconds resp)
                                            (sr_TotalConnections resp) (sr_Throttle resp) us))).

Definition handleGetAdTag (p : Proxy) : response :=
  mkResp StatusOK (BAdTag (hexTag <$> Proxy_GlobalAdTag p)).

(** ** Parsing *)

(** [parseAdTagHex]: [Ok None] is (nil, nil). *)
Definition parseAdTagHex (s : string) : res (option (list byte)) :=
  if bool_decide (s = "") then Ok None else
  match hex_decode (bytes_of_string s) with
  | Fail e => Fail (Wrap "ad_tag must be a hex string" e)
  | Ok decoded =>
      if (length decoded =? AdTagLength)%nat then Ok (Some decoded)
      else Fail (Errorf "ad_tag must be 16 bytes (32 hex chars)")
  end.

Definition secretMutationStatus (e : goerr) : Z :=
  if errors_is e ErrSecretNotFound then StatusNotFound
  else if errors_is e ErrLastSecret then StatusConflict
  else StatusBadRequest.

(** The response that ends a mutating handler. *)
Definition mutationResponse (r : Proxy * option goerr) : Proxy * response :=
  match r with
  | (p, None) => (p, ok)
  | (p, Some e) => (p, httpError (secretMutationStatus e) e)
  end.

Definition ParseSecret_res (s : string) : res Secret :=
  match ParseSecret s with (sec, None) => Ok sec | (_, Some e) => Fail e end.

Section Handlers.
Context (ParseBase2Bytes : string -> res Z) (localOffset : Z -> Z).
Context (decodePutSecrets : list byte -> res putSecretsRequest)
        (decodePostSecret : list byte -> res postSecretRequest)
        (decodePutAdTag : list byte -> res putAdTagRequest).

Definition limitFields_parse (l : limitFields) : res SecretLimits :=
  quota ← ParseQuotaBytes ParseBase2Bytes (lf_Quota l);
  reset ← ParseQuotaReset (lf_QuotaReset l);
  expires ← ParseExpiry (lf_Expires l);
  Ok (mkLimits quota reset expires (lf_Disabled l)).

(** One entry of PUT /secrets added to the configuration under construction. *)
Definition addEntry (cfg : SecretConfig) (name : string) (entry : secretEntry) : res SecretConfig :=
  secret ← wrap_err "invalid secret" (ParseSecret_res (se_Secret entry));
  tag ← wrap_err "invalid ad_tag for" (parseAdTagHex (se_AdTag entry));
  lim ← wrap_err "invalid limits for" (limitFields_parse (se_limits entry));
  Ok {| Secrets := <[name := secret]> (Secrets cfg);
        SecretAdTags := match tag with
                        | Some t => <[name := t]> (SecretAdTags cfg)
                        | None => SecretAdTags cfg
                        end;
        GlobalAdTag := GlobalAdTag cfg;
        Limits := if Limits_IsZero lim then Limits cfg else <[name := lim]> (Limits cfg) |}.

Fixpoint addEntries (cfg : SecretConfig) (l : list (string * secretEntry)) : res SecretConfig :=
  match l with
  | [] => Ok cfg
  | (name, entry) :: l => cfg ← addEntry cfg name entry; addEntries cfg l
  end.

(** The configuration of a PUT /secrets request, entries in the order of a map
    iteration. *)
Definition putConfig (req : putSecretsRequest) : res SecretConfig :=
  cfg ← addEntries (mkConfig ∅ ∅ None ∅) (map_to_list (ps_Secrets req));
  global ← wrap_err "invalid ad_tag" (parseAdTagHex (ps_AdTag req));
  Ok (mkConfig (Secrets cfg) (SecretAdTags cfg) global (Limits cfg)).

Definition badRequest {A} (p : Proxy) (r : res A) (k : A -> option (Proxy * response)) : option (Proxy * response) :=
  match r with
  | Ok a => k a
  | Fail e => Some (p, httpError StatusBadRequest e)
  end.

Definition decodeJSON {A} (decode : list byte -> res A) (data : list byte) : res A :=
  wrap_err "invalid request body" (decode data).

Definition handlePutSecrets (now : Z) (p : Proxy) (data : list byte) : option (Proxy * response) :=
  badRequest p (decodeJSON decodePutSecrets data) (fun req =>
  badRequest p (putConfig req) (fun cfg =>
  Some (mutationResponse (ReplaceSecrets localOffset now p cfg)))).

Definition handlePostSecret (now : Z) (p : Proxy) (data : list byte) : option (Proxy * response) :=
  badRequest p (decodeJSON decodePostSecret data) (fun req =>
  badRequest p (wrap_err "invalid secret" (ParseSecret_res (po_Secret req))) (fun secret =>
  badRequest p (wrap_err "invalid ad_tag" (parseAdTagHex (po_AdTag req))) (fun tag =>
  badRequest p (wrap_err "invalid limits" (limitFields_parse (po_limits req))) (fun lim =>
  mutationResponse <$> PutSecret localOffset now p (po_Name req) secret tag (Some lim))))).

Definition handleDeleteSecret (now : Z) (p : Proxy) (name : string) : option (Proxy * response) :=
  mutationResponse <$> DeleteSecret localOffset now p name.

Definition handleResetQuota (now : Z) (p : Proxy) (name : string) : Proxy * response :=
  if hasSecret p name then (set_stats (ResetQuota now (p_stats p) name) p, ok)
  else (p, httpError StatusNotFound ErrSecretNotFound).

Definition ErrAdTagRequired : goerr := Errorf "ad_tag is required; use DELETE /adtag to clear it".

Definition handlePutAdTag (now : Z) (p : Proxy) (data : list byte) : option (Proxy * response) :=
  badRequest p (decodeJSON decodePutAdTag data) (fun req =>
  badRequest p (parseAdTagHex (pa_AdTag req)) (fun tag =>
  match tag with
  | None => Some (p, httpError StatusBadRequest ErrAdTagRequired)
  | Some _ => mutationResponse <$> SetGlobalAdTag localOffset now p tag
  end)).

Definition handleDeleteAdTag (now : Z) (p : Proxy) : option (Proxy * response) :=
  mutationResponse <$> SetGlobalAdTag localOffset now p None.

(** [reload] is nil without a reloader; [reloader] is what it returns at this
    call. *)
Definition reloadHandler (reloader : option (res SecretConfig)) (now : Z) (p : Proxy) (meth : string)
    : Proxy * response :=
  if negb (bool_decide (meth = "POST")) then (p, mkResp StatusMethodNotAllowed (BPlain "only POST is allowed"))
  else match reloader with
  | None => (p, mkResp StatusServiceUnavailable (BPlain "reload is not supported"))
  | Some _ =>
      match ReloadSecrets localOffset reloader now p with
      | (p', Some e) => (p', mkResp StatusInternalServerError (BError e))
      | (p', None) => (p', ok)
      end
  end.

(** ** Routing *)

Record request := mkRequest {
  rq_method : string;
  rq_path : list string;
  rq_authorization : string;
  rq_body : list byte
}.

(** A handler that does not change the proxy. *)
Definition reading (p : Proxy) (r : option response) : option (Proxy * response) := pair p <$> r.

Definition notAllowed (p : Proxy) : option (Proxy * response) :=
  Some (p, mkResp StatusMethodNotAllowed (BPlain "Method Not Allowed")).

(** The routes of [buildAPIHandler]; a pattern with method GET also serves
    HEAD, a path with another method is 405 and an unknown path 404.  Paths are
    taken to be clean: the redirects that [http.ServeMux] answers to a path with
    [//], [.] or [..] are not modelled; they change nothing. *)
Definition mux (reloader : option (res SecretConfig)) (now : Z) (p : Proxy) (r : request) : option (Proxy * response) :=
  let isGet := bool_decide (rq_method r = "GET" \/ rq_method r = "HEAD") in
  let isMethod := fun m => bool_decide (rq_method r = m) in
  let notFound := Some (p, mkResp StatusNotFound (BPlain "404 page not found")) in
  match rq_path r with
  | [a] =>
      if bool_decide (a = "stats") then
        if isGet then reading p (handleStats now p) else notAllowed p
      else if bool_decide (a = "reload") then Some (reloadHandler reloader now p (rq_method r))
      else if bool_decide (a = "secrets") then
        if isGet then reading p (handleGetSecrets p)
        else if isMethod "PUT" then handlePutSecrets now p (rq_body r)
        else if isMethod "POST" then handlePostSecret now p (rq_body r)
        else notAllowed p
      else if bool_decide (a = "adtag") then
        if isGet then reading p (Some (handleGetAdTag p))
        else if isMethod "PUT" then handlePutAdTag now p (rq_body r)
        else if isMethod "DELETE" then handleDeleteAdTag now p
        else notAllowed p
      else notFound
  | [a; name] =>
      if bool_decide (a = "secrets") then
        if isMethod "DELETE" then handleDeleteSecret now p name else notAllowed p
      else notFound
  | [a; name; b] =>
      if bool_decide (a = "secrets" /\ b = "reset-quota") then
        if isMethod "POST" then Some (handleResetQuota now p name) else notAllowed p
      else notFound
  | _ => notFound
  end.

(** [withAuth]; [subtle.ConstantTimeCompare] is equality of the bytes. *)
Definition withAuth (token : string) (next : request -> option (Proxy * response)) (p : Proxy) (r : request)
    : option (Proxy * response) :=
  if bool_decide (token = "") then next r else
  let expected := "Bearer " +:+ token in
  if negb (bool_decide (rq_authorization r = expected))
  then Some (p, mkResp StatusUnauthorized (BPlain "unauthorized"))
  else next r.

Definition buildAPIHandler (token : string) (reloader : option (res SecretConfig)) (now : Z) (p : Proxy) (r : request)
    : option (Proxy * response) :=
  withAuth token (mux reloader now p) p r.

End Handlers.

(** ** Proofs *)

Lemma snapshotEntry_build c stats live cl i name :
  names (buildConfig c) !! i = Some name ->
  exists e, entry_of c name = Some e /\
    snapshotEntry (mkProxy (buildConfig c) stats live cl) i name =
    Some (fillLimitInfo
      (mkInfo name (Base64 (e_secret e)) (Host (e_secret e)) (from_option hexTag "" (e_tag e))
         (from_option hexTag "" (match e_tag e with Some t => Some t | None => GlobalAdTag c end))
         0 0 None "" None false)
      (e_limits e) (quotaUsedValue stats name)).
Proof.
  intros Hi. assert (is_Some (Secrets c !! name)) as [s Hs].
  { eapply names_elem, list_elem_of_lookup_2. exact Hi. }
  unfold snapshotEntry, entry_of, effectiveAdTag. cbn [p_secrets p_stats]. simpl in *.
  rewrite !list_lookup_fmap, Hi, Hs. simpl. rewrite Hs. eexists. split; [done|]. simpl.
  by destruct (SecretAdTags c !! name).
Qed.

(** What GET /secrets shows of an entry. *)
Definition infoOf (v : config_view) (stats : ProxyStats) (name : string) (e : entry) : SecretInfo :=
  fillLimitInfo
    (mkInfo name (Base64 (e_secret e)) (Host (e_secret e)) (from_option hexTag "" (e_tag e))
       (from_option hexTag "" (match e_tag e with Some t => Some t | None => v_global v end)) 0 0 None "" None false)
    (e_limits e) (quotaUsedValue stats name).

Lemma snapshotLoop_build c stats live cl pre ns :
  let p := mkProxy (buildConfig c) stats live cl in
  names (buildConfig c) = pre ++ ns ->
  exists l, snapshotLoop p (length pre) ns = Some l /\
    Forall2 (fun name info => exists e, entry_of c name = Some e /\ info = infoOf (view_of c) stats name e) ns l.
Proof.
  intros p. revert pre. induction ns as [|n ns IH]; intros pre Hn; [by exists []|].
  assert (names (buildConfig c) !! length pre = Some n) as Hi.
  { rewrite Hn, lookup_app_r, Nat.sub_diag by lia. done. }
  destruct (snapshotEntry_build c stats live cl _ _ Hi) as (e & He & Hse).
  destruct (IH (pre ++ [n])) as (l & Hl & HF); [by rewrite Hn, <-app_assoc|].
  rewrite length_app, Nat.add_1_r in Hl. cbn [snapshotLoop]. fold p in Hse. rewrite Hse. simpl. rewrite Hl. simpl.
  eexists. split; [done|]. constructor; [|done]. eauto.
Qed.

(** GET /secrets never indexes out of range, and lists the entries by name. *)
Lemma SnapshotSecrets_view p v :
  implements p v ->
  exists ns l, SnapshotSecrets p = Some l /\ Sorted str_le ns /\ NoDup ns /\
    (forall n, n ∈ ns <-> is_Some (v_entries v !! n)) /\
    Forall2 (fun n info => exists e, v_entries v !! n = Some e /\ info = infoOf v (p_stats p) n e) ns l.
Proof.
  intros (_ & c & Hp & <-). destruct p as [set st live cl]. cbn [p_secrets p_stats] in *. subst set.
  destruct (snapshotLoop_build c st live cl [] (names (buildConfig c)) eq_refl) as (l & Hl & HF).
  exists (names (buildConfig c)), l. split_and!; [done|apply sort_Strings_sorted|apply names_nodup|..].
  - intros n. unfold buildConfig. rewrite names_elem, view_lookup. unfold entry_of. by rewrite fmap_is_Some.
  - eapply Forall2_impl; [done|]. intros n info (e & He & ->). exists e. by rewrite view_lookup.
Qed.

Lemma enrichLoop_total c ns pre us :
  names (buildConfig c) = pre ++ ns -> is_Some (enrichLoop (limits (buildConfig c)) (length pre) ns us).
Proof.
  revert pre us. induction ns as [|n ns IH]; intros pre us Hn; [by eexists|]. simpl.
  specialize (IH (pre ++ [n])). rewrite length_app, Nat.add_1_r in IH. rewrite <-app_assoc in IH.
  destruct (us !! n) as [u|]; [|by apply IH].
  assert (is_Some (limits (buildConfig c) !! length pre)) as [lim Hlim].
  { apply lookup_lt_is_Some. simpl. rewrite length_fmap. apply (f_equal length) in Hn.
    rewrite length_app in Hn. simpl in Hn. lia. }
  simpl in Hlim |- *. rewrite Hlim. by apply IH.
Qed.

Lemma handleStats_total now p v : implements p v -> is_Some (handleStats now p).
Proof.
  intros (_ & c & Hp & _). unfold handleStats. rewrite Hp.
  destruct (enrichLoop_total c (names (buildConfig c)) [] (sr_Users (buildResponse now (p_stats p))) eq_refl)
    as [us Hus]. simpl length in Hus. rewrite Hus. by eexists.
Qed.

Section HandlerProofs.
Context (ParseBase2Bytes : string -> res Z) (localOffset : Z -> Z).
Context (decodePutSecrets : list byte -> res putSecretsRequest)
        (decodePostSecret : list byte -> res postSecretRequest)
        (decodePutAdTag : list byte -> res putAdTagRequest).

(** A handler's outcome: a response, and a proxy that still implements a
    well-formed configuration, unchanged unless the response is 200. *)
Definition outcome_ok (p : Proxy) (o : option (Proxy * response)) : Prop :=
  exists p' r, o = Some (p', r) /\ (exists v', implements p' v') /\ (code r <> StatusOK -> p' = p).

Lemma outcome_same p v r : implements p v -> outcome_ok p (Some (p, r)).
Proof. intros. exists p, r. eauto. Qed.

Lemma outcome_reading p v r : implements p v -> is_Some r -> outcome_ok p (reading p r).
Proof. intros H [x ->]. by eapply outcome_same. Qed.

Lemma outcome_badRequest {A} p v (r : res A) k :
  implements p v -> (forall a, r = Ok a -> outcome_ok p (k a)) -> outcome_ok p (badRequest p r k).
Proof. intros H Hk. destruct r; simpl; [by apply Hk|by eapply outcome_same]. Qed.

Lemma secretMutationStatus_error e : secretMutationStatus e <> StatusOK.
Proof. unfold secretMutationStatus. by go_cases. Qed.

Lemma outcome_mutation now p v m :
  implements p v -> outcome_ok p (mutationResponse <$> exec localOffset now p m).
Proof.
  intros H. destruct (exec_refines localOffset now p v m H) as (p' & err & -> & Hs). simpl.
  destruct (spec v m) as [v'|e]; destruct Hs as [-> Hp']; eexists _, _; (split; [reflexivity|]).
  - by split; [exists v'|].
  - subst p'. by split; [exists v|].
Qed.

Lemma outcome_reload now p v reloader meth :
  implements p v -> outcome_ok p (Some (reloadHandler localOffset reloader now p meth)).
Proof.
  intros H. unfold reloadHandler. destruct (negb _); [by eapply outcome_same|].
  destruct reloader as [r|]; [|by eapply outcome_same].
  destruct (exec_refines localOffset now p v (MReload (Some r)) H) as (p' & err & He & Hs).
  assert (ReloadSecrets localOffset (Some r) now p = (p', err)) as -> by (by injection He). clear He. destruct (spec _ _) as [v'|e]; destruct Hs as [-> Hp']; eexists _, _;
    (split; [reflexivity|]).
  - by split; [exists v'|].
  - subst p'. by split; [exists v|].
Qed.

Lemma outcome_reset now p v name : implements p v -> outcome_ok p (Some (handleResetQuota now p name)).
Proof.
  intros H. unfold handleResetQuota. destruct (hasSecret p name); [|by eapply outcome_same].
  eexists _, _. split; [reflexivity|]. by split; [exists v|].
Qed.

Lemma outcome_mux reloader now p v r : implements p v ->
  outcome_ok p (mux ParseBase2Bytes localOffset decodePutSecrets decodePostSecret decodePutAdTag reloader now p r).
Proof.
  intros H. unfold mux.
  destruct (rq_path r) as [|a [|name [|b [|]]]]; repeat case_match;
    try (by eapply outcome_same); try (by eapply outcome_reload); try (by eapply outcome_reset).
  - eapply outcome_reading; [done|]. by eapply handleStats_total.
  - eapply outcome_reading; [done|]. unfold handleGetSecrets.
    destruct (SnapshotSecrets_view p v H) as (ns & l & -> & _). by eexists.
  - unfold handlePutSecrets. do 2 (eapply outcome_badRequest; [done|]; intros ? _).
    apply (outcome_mutation now p v (MReplace _) H).
  - unfold handlePostSecret. do 4 (eapply outcome_badRequest; [done|]; intros ? _).
    apply (outcome_mutation now p v (MPut _ _ _ _) H).
  - unfold handlePutAdTag. do 2 (eapply outcome_badRequest; [done|]; intros ? _).
    case_match; [apply (outcome_mutation now p v (MSetGlobal _) H)|by eapply outcome_same].
  - apply (outcome_mutation now p v (MSetGlobal None) H).
  - apply (outcome_mutation now p v (MDelete name) H).
Qed.

(** C15: the management API is total and atomic: on a proxy that implements a
    well-formed configuration every request, with any token, method, path and
    body, gets a response (no index is out of range), the proxy afterwards
    implements a well-formed configuration again, and any response but 200
    leaves it unchanged; with a token configured, a request without exactly this
    bearer token gets 401 and changes nothing. *)
Theorem api_total_atomic token reloader now p v r :
  implements p v ->
  let o := buildAPIHandler ParseBase2Bytes localOffset decodePutSecrets decodePostSecret decodePutAdTag
             token reloader now p r in
  (exists p' resp, o = Some (p', resp) /\ (exists v', implements p' v') /\ (code resp <> StatusOK -> p' = p)) /\
  (token <> "" -> rq_authorization r <> "Bearer " +:+ token ->
     exists resp, o = Some (p, resp) /\ code resp = StatusUnauthorized).
Proof.
  intros H o. unfold o, buildAPIHandler, withAuth. split.
  - case_bool_decide; [by eapply outcome_mux|]. case_bool_decide; simpl; [by eapply outcome_mux|by eapply outcome_same].
  - intros Ht Ha. rewrite !bool_decide_false by done. by eexists.
Qed.

(** POST /secrets with a request that parses: the response is 200 and the
    entry of that name becomes the posted secret, tag and limits, every other
    entry and the global tag unchanged; or, for an empty name or an invalid
    secret, it is 400 and nothing changes. *)
Theorem post_secret now p v data req secret tag lim :
  implements p v ->
  decodePostSecret data = Ok req -> ParseSecret_res (po_Secret req) = Ok secret ->
  parseAdTagHex (po_AdTag req) = Ok tag -> limitFields_parse ParseBase2Bytes (po_limits req) = Ok lim ->
  exists p' resp,
    handlePostSecret ParseBase2Bytes localOffset decodePostSecret now p data = Some (p', resp) /\
    if bool_decide (po_Name req <> "") && Valid secret
    then code resp = StatusOK /\
         implements p' (mkView (<[po_Name req := mkEntry secret tag lim]> (v_entries v)) (v_global v))
    else code resp = StatusBadRequest /\ p' = p.
Proof.
  intros H Hd Hs Ht Hl. unfold handlePostSecret, decodeJSON. rewrite Hd. cbn [wrap_err badRequest].
  rewrite Hs. cbn [wrap_err badRequest]. rewrite Ht. cbn [wrap_err badRequest]. rewrite Hl. cbn [wrap_err badRequest].
  destruct (exec_refines localOffset now p v (MPut (po_Name req) secret tag (Some lim)) H) as (p' & err & He & Hsp).
  cbn [exec] in He. rewrite He. cbn [fmap option_fmap option_map]. cbn [spec] in Hsp.
  rewrite bool_decide_not. case_bool_decide; [|destruct (Valid secret)]; destruct Hsp as [-> Hp'];
    eexists _, _; (split; [reflexivity|]); done.
Qed.

(** DELETE /secrets/{name}: 404 for an unknown name and 409 for the last
    secret, changing nothing; otherwise 200, and exactly this entry is gone. *)
Theorem delete_secret now p v name :
  implements p v ->
  exists p' resp, handleDeleteSecret localOffset now p name = Some (p', resp) /\
    match v_entries v !! name with
    | None => code resp = StatusNotFound /\ p' = p
    | Some _ =>
        if (size (v_entries v) =? 1)%nat then code resp = StatusConflict /\ p' = p
        else code resp = StatusOK /\ implements p' (mkView (delete name (v_entries v)) (v_global v))
    end.
Proof.
  intros H. destruct (exec_refines localOffset now p v (MDelete name) H) as (p' & err & He & Hsp).
  unfold handleDeleteSecret. cbn [exec] in He. rewrite He. cbn [spec] in Hsp.
  exists p', (mutationResponse (p', err)).2. split; [by destruct err|].
  destruct (v_entries v !! name) as [e|]; [rewrite bool_decide_true in Hsp by eauto|
    rewrite bool_decide_false in Hsp by (by intros [? ?])].
  - destruct (_ =? 1)%nat; by destruct Hsp as [-> ?].
  - by destruct Hsp as [-> ?].
Qed.

(** The limits an API client spells (a decimal byte count, the reset
    policy's name, an RFC 3339 timestamp or nothing, the switch) are the limits
    that are enforced. *)
Theorem limits_roundtrip q reset dis y m d hh mm ss :
  0 <= q <= max_int64 ->
  0 <= y < 10000 -> 1 <= m <= 12 -> 0 <= hh < 24 -> 0 <= mm < 60 -> 0 <= ss < 60 -> 0 <= d < 100 ->
  validDay y m d = true ->
  let fields := fun e => mkLimitFields (Itoa q) (QuotaReset_String reset) e dis in
  limitFields_parse ParseBase2Bytes (fields "") = Ok (mkLimits q reset zeroTime dis) /\
  limitFields_parse ParseBase2Bytes (fields (rfc3339_string y m d hh mm ss)) =
    Ok (mkLimits q reset (DateUTC y m d hh mm ss 0) dis).
Proof.
  intros Hq Hy Hm Hh Hmm Hs Hd Hv fields. unfold limitFields_parse, fields. cbn [lf_Quota lf_QuotaReset lf_Expires lf_Disabled].
  rewrite ParseQuotaBytes_Itoa by done. rewrite ParseQuotaReset_String. split; [done|].
  by rewrite ParseExpiry_rfc3339.
Qed.

End HandlerProofs.

(** GET /secrets shows the active configuration: one entry per configured
    name, sorted by name, without duplicates, each with the secret's text, its
    own and its effective tag, its limits and its live usage. *)
Theorem snapshot_lists p v :
  implements p v ->
  exists ns l, handleGetSecrets p = Some (mkResp StatusOK (BSecrets l)) /\ Sorted str_le ns /\ NoDup ns /\
    (forall n, n ∈ ns <-> is_Some (v_entries v !! n)) /\
    Forall2 (fun n info => exists e, v_entries v !! n = Some e /\
      si_Name info = n /\ si_Secret info = Base64 (e_secret e) /\
      si_AdTag info = from_option hexTag "" (e_tag e) /\
      si_EffectiveAdTag info = from_option hexTag "" (match e_tag e with Some t => Some t | None => v_global v end) /\
      si_Disabled info = Disabled (e_limits e) /\
      (0 < QuotaBytes (e_limits e) -> si_Quota info = QuotaBytes (e_limits e) /\
         si_QuotaRemaining info = Some (remainingOf (QuotaBytes (e_limits e)) (quotaUsedValue (p_stats p) n)))) ns l.
Proof.
  intros H. destruct (SnapshotSecrets_view p v H) as (ns & l & Hl & Hs & Hn & Hd & HF).
  exists ns, l. split_and!; [unfold handleGetSecrets; by rewrite Hl|done..|].
  eapply Forall2_impl; [done|]. intros n info (e & He & ->). exists e. unfold infoOf, fillLimitInfo. simpl.
  split_and!; [done..|]. intros Hq. by rewrite (proj2 (Z.ltb_lt _ _) Hq).
Qed.

(** *** Witnesses *)

Definition demo_post (bs : list byte) : res postSecretRequest :=
  match bs with
  | [] => Fail EOF
  | _ => Ok (mkPostSecret "carol" (Hex (mkSecret (demo_key Byte.x05) "c.com")) "" (mkLimitFields "1024" "monthly" "" false))
  end.

Definition no_units (s : string) : res Z := Fail (Errorf "units").

Lemma api_total_atomic_witness :
  let o := buildAPIHandler no_units (fun _ => 0) (fun _ => Fail EOF) demo_post (fun _ => Fail EOF) "tok" None 5
             demo_proxy (mkRequest "POST" ["secrets"] "Bearer tok" [Byte.x00]) in
  (exists p' resp, o = Some (p', resp) /\ (exists v', implements p' v') /\
     (code resp <> StatusOK -> p' = demo_proxy)) /\
  ("tok" <> "" -> "Bearer tok" <> "Bearer tok" -> exists resp, o = Some (demo_proxy, resp) /\ code resp = StatusUnauthorized).
Proof.
  apply (api_total_atomic no_units (fun _ => 0) (fun _ => Fail EOF) demo_post (fun _ => Fail EOF) "tok" None 5
           demo_proxy (view_of demo_cfg) (mkRequest "POST" ["secrets"] "Bearer tok" [Byte.x00]) demo_implements).
Defined.

Lemma post_secret_witness :
  exists p' resp, handlePostSecret no_units (fun _ => 0) demo_post 5 demo_proxy [Byte.x00] = Some (p', resp) /\
    code resp = StatusOK.
Proof.
  destruct (post_secret no_units (fun _ => 0) demo_post 5 demo_proxy (view_of demo_cfg) [Byte.x00]
    (mkPostSecret "carol" (Hex (mkSecret (demo_key Byte.x05) "c.com")) "" (mkLimitFields "1024" "monthly" "" false))
    (mkSecret (demo_key Byte.x05) "c.com") None (mkLimits 1024 QuotaResetMonthly 0 false))
    as (p' & resp & He & Hr); [apply demo_implements | reflexivity | vm_compute; reflexivity | reflexivity
    | vm_compute; reflexivity |].
  exists p', resp. split; [exact He|]. exact (proj1 Hr).
Defined.

Lemma delete_secret_witness :
  exists p' resp, handleDeleteSecret (fun _ => 0) 5 demo_proxy "bob" = Some (p', resp) /\ code resp = StatusOK.
Proof.
  destruct (delete_secret (fun _ => 0) 5 demo_proxy (view_of demo_cfg) "bob" demo_implements) as (p' & resp & He & Hr).
  exists p', resp. split; [exact He|].
  rewrite view_lookup in Hr. change (entry_of demo_cfg "bob") with
    (Some (mkEntry (mkSecret (demo_key Byte.x02) "b.com") (Some (demo_key Byte.xaa)) noLimits)) in Hr.
  replace (size (v_entries (view_of demo_cfg)) =? 1)%nat with false in Hr by (vm_compute; reflexivity).
  cbv iota beta in Hr. destruct Hr as [Hc _]. exact Hc.
Defined.

Lemma limits_roundtrip_witness :
  let fields := fun e => mkLimitFields (Itoa 1024) (QuotaReset_String QuotaResetMonthly) e true in
  limitFields_parse no_units (fields "") = Ok (mkLimits 1024 QuotaResetMonthly zeroTime true) /\
  limitFields_parse no_units (fields (rfc3339_string 2026 12 31 1 2 3)) =
    Ok (mkLimits 1024 QuotaResetMonthly (DateUTC 2026 12 31 1 2 3 0) true).
Proof. apply (limits_roundtrip no_units 1024 QuotaResetMonthly true 2026 12 31 1 2 3); try lia; [unfold max_int64; lia | reflexivity]. Defined.

Lemma snapshot_lists_witness :
  exists ns l, handleGetSecrets demo_proxy = Some (mkResp StatusOK (BSecrets l)) /\ Sorted str_le ns /\
    (forall n, n ∈ ns <-> is_Some (v_entries (view_of demo_cfg) !! n)).
Proof.
  destruct (snapshot_lists demo_proxy (view_of demo_cfg) demo_implements) as (ns & l & H1 & H2 & _ & H3 & _).
  exists ns, l. exact (conj H1 (conj H2 H3)).
Defined.
