(* ===== verification/APIServer.v ===== *)
(** * The management server: startAPIServer of mtglib/proxy_api.go

    The HTTP server of the management API between its listener and the end of
    the context.  Requests are taken while the listener is open and answered by
    the handler of API.v in any order; when the context ends, [Shutdown] of
    package net/http closes the listener and waits for the requests in flight,
    at most five seconds. *)

From S2P Require Import Prelude GoTime Secret Limits Stats SecretSet Proxy API.

Definition shutdownTimeout : Z := 5 * Second.

(** The server: not started (the listener failed), serving, in [Shutdown] with
    the time that is left, or after its return. *)
Inductive serverPhase := NotStarted | Serving | ShuttingDown (rest : Z) | ShutDown.

#[export] Instance serverPhase_eq_dec : EqDecision serverPhase.
Proof. solve_decision. Defined.

Record apiServer := mkAPIServer {
  as_phase : serverPhase;
  as_ctxDone : bool;
  as_inflight : gmap nat request;
  as_answers : list (nat * request * response);
  as_proxy : Proxy
}.

(** [startAPIServer]: [err] is the error of [net.Listen], which is only logged. *)
Definition startAPIServer (err : option goerr) (p : Proxy) : apiServer :=
  mkAPIServer (match err with Some _ => NotStarted | None => Serving end) false ∅ [] p.

Inductive server_act :=
  | SRequest (i : nat) (r : request)
  | SHandle (i : nat) (now : Z)
  | SCtxDone
  | SShutdown                    (* the goroutine that waits for the context *)
  | STime (d : Z)
  | SReturn                      (* [Shutdown] returns *)
  | SProxy (p : Proxy).          (* the rest of the program changes the proxy *)

Section server.
Context (ParseBase2Bytes : string -> res Z) (localOffset : Z -> Z).
Context (decodePutSecrets : list byte -> res putSecretsRequest)
        (decodePostSecret : list byte -> res postSecretRequest)
        (decodePutAdTag : list byte -> res putAdTagRequest).
Context (token : string) (reloader : option (res SecretConfig)).

(** The handler that the server was built with. *)
Definition handler (now : Z) (p : Proxy) (r : request) : option (Proxy * response) :=
  buildAPIHandler ParseBase2Bytes localOffset decodePutSecrets decodePostSecret decodePutAdTag token reloader now p r.

Definition server_do (a : server_act) (s : apiServer) : option apiServer :=
  match a with
  | SRequest i r =>
      match as_phase s, as_inflight s !! i with
      | Serving, None => Some (mkAPIServer Serving (as_ctxDone s) (<[i := r]> (as_inflight s)) (as_answers s) (as_proxy s))
      | _, _ => None
      end
  | SHandle i now =>
      r ← as_inflight s !! i;
      '(p, resp) ← handler now (as_proxy s) r;
      Some (mkAPIServer (as_phase s) (as_ctxDone s) (delete i (as_inflight s)) (as_answers s ++ [(i, r, resp)]) p)
  | SCtxDone => Some (mkAPIServer (as_phase s) true (as_inflight s) (as_answers s) (as_proxy s))
  | SShutdown =>
      match as_phase s, as_ctxDone s with
      | Serving, true => Some (mkAPIServer (ShuttingDown shutdownTimeout) true (as_inflight s) (as_answers s) (as_proxy s))
      | _, _ => None
      end
  | STime d =>
      if d <=? 0 then None else
      Some (mkAPIServer (match as_phase s with ShuttingDown rest => ShuttingDown (Z.max 0 (rest - d)) | ph => ph end)
              (as_ctxDone s) (as_inflight s) (as_answers s) (as_proxy s))
  | SReturn =>
      match as_phase s with
      | ShuttingDown rest =>
          if (rest =? 0) || (size (as_inflight s) =? 0)%nat
          then Some (mkAPIServer ShutDown (as_ctxDone s) (as_inflight s) (as_answers s) (as_proxy s)) else None
      | _ => None
      end
  | SProxy p => Some (mkAPIServer (as_phase s) (as_ctxDone s) (as_inflight s) (as_answers s) p)
  end.

(** The rest of the program keeps a well-formed configuration, as every mutation
    of Proxy.v does. *)
Definition server_step (s s' : apiServer) : Prop :=
  exists a, server_do a s = Some s' /\ (forall p, a = SProxy p -> exists v, implements p v).

(** ** Proofs *)

Lemma handler_outcome now p v r : implements p v -> outcome_ok p (handler now p r).
Proof.
  intros Hv. unfold handler, buildAPIHandler, withAuth. case_bool_decide; [by eapply outcome_mux|].
  case_bool_decide; simpl; [by eapply outcome_mux|by eapply outcome_same].
Qed.

(** A request that was answered 200 had the token, if there is one. *)
Definition authorised (x : nat * request * response) : Prop :=
  token <> "" -> code x.2 = StatusOK -> rq_authorization x.1.2 = "Bearer " +:+ token.

Lemma handler_authorised now p v r p' resp i : implements p v -> handler now p r = Some (p', resp) -> authorised (i, r, resp).
Proof.
  intros Hv Hh Ht Hc. simpl in *. unfold handler, buildAPIHandler, withAuth in Hh. rewrite bool_decide_false in Hh by done.
  case_bool_decide as Ha; [done|]. simpl in Hh. injection Hh as <- <-. done.
Qed.

Record server_ok (s : apiServer) : Prop := {
  sv_proxy : exists v, implements (as_proxy s) v;
  sv_auth : Forall authorised (as_answers s);
  sv_ctx : as_phase s = NotStarted \/ as_phase s = Serving \/ as_ctxDone s = true;
  sv_idle : as_phase s = NotStarted -> as_inflight s = ∅ /\ as_answers s = [];
  sv_rest : forall rest, as_phase s = ShuttingDown rest -> rest <= shutdownTimeout
}.

Lemma server_step_ok s s' : server_ok s -> server_step s s' -> server_ok s'.
Proof.
  intros [[v Hv] Ha Hc Hi Hrest] [a [Hdo Hp]]. destruct a as [i r|i now| | |d| |p]; cbn [server_do] in Hdo.
  - destruct (as_phase s) eqn:E; try done. destruct (as_inflight s !! i); simplify_eq. split; simpl; [by exists v|done|by right; left|done|done].
  - destruct (as_inflight s !! i) as [r|] eqn:Hr; [|done]. cbn [mbind option_bind] in Hdo.
    destruct (handler_outcome now _ v r Hv) as (p' & resp & Hh & Hv' & _). rewrite Hh in Hdo. cbn [mbind option_bind] in Hdo. injection Hdo as <-.
    split; simpl; [done| |done| |done].
    + apply Forall_app. split; [done|]. apply Forall_singleton. by eapply handler_authorised.
    + intros Hn. destruct (Hi Hn) as [He _]. by rewrite He, lookup_empty in Hr.
  - injection Hdo as <-. split; simpl; [by exists v|done|by right; right|done|done].
  - destruct (as_phase s) eqn:E; try done. destruct (as_ctxDone s); simplify_eq. split; simpl; [by exists v|done|by right; right|done|by intros rest [= <-]].
  - destruct (d <=? 0) eqn:Ed; simplify_eq. zbool. split; simpl; [by exists v|done| | |].
    + destruct (as_phase s); [by left|by right; left|..]; destruct Hc as [?|[?|?]]; try done; by right; right.
    + destruct (as_phase s); done.
    + intros rest. destruct (as_phase s) as [| |r|] eqn:E; try done. intros [= <-]. pose proof (Hrest r eq_refl). unfold shutdownTimeout, Second in *. lia.
  - destruct (as_phase s) eqn:E; try done. destruct (_ || _); simplify_eq. split; simpl; [by exists v|done| |done|done].
    destruct Hc as [?|[?|?]]; try done. by right; right.
  - injection Hdo as <-. split; simpl; [by apply Hp|done|done|done|done].
Qed.

(** The management server.  In every interleaving with the clock, the end of the
    context and the rest of the program: the proxy always implements a
    well-formed configuration; with a token configured only requests that carry
    it are answered 200; a server whose listener failed never takes a request;
    the server stops only after the context has ended, then takes no further
    request, and its shutdown is over as soon as the requests in flight are
    answered, and in any case after five seconds. *)
Theorem api_server_safe err p v s :
  implements p v -> rtc server_step (startAPIServer err p) s ->
  (exists v', implements (as_proxy s) v') /\ Forall authorised (as_answers s) /\
  (is_Some err -> as_answers s = [] /\ as_inflight s = ∅) /\
  (forall rest, as_phase s = ShuttingDown rest ->
     as_ctxDone s = true /\ (forall i r, server_do (SRequest i r) s = None) /\
     (as_inflight s = ∅ -> is_Some (server_do SReturn s)) /\
     exists s', server_do (STime shutdownTimeout) s = Some s' /\ is_Some (server_do SReturn s')).
Proof.
  intros Hv Hr. assert (server_ok (startAPIServer err p)) as H0.
  { split; simpl; [by exists v|constructor|destruct err; [by left|by right; left]|by destruct err|by destruct err]. }
  assert (server_ok s) as Hok.
  { clear Hv. revert H0. generalize dependent (startAPIServer err p). intros s0 Hr H0.
    induction Hr as [|x y z Hs _ IH]; [done|]. apply IH. by eapply server_step_ok. }
  assert (is_Some err -> as_phase s = NotStarted) as Hns.
  { intros [e ->]. clear -Hr. remember (startAPIServer (Some e) p) as s0 eqn:E. assert (as_phase s0 = NotStarted) as H by (by subst). clear E.
    induction Hr as [|x y z [a [Ha _]] _ IH]; [done|]. apply IH.
    destruct a; cbn [server_do] in Ha; rewrite ?H in Ha; repeat (case_match; try done); simplify_eq/=; try done.
    destruct (as_inflight x !! i) as [r|]; simpl in Ha; [|done]. destruct (handler now (as_proxy x) r) as [[p' resp]|]; simpl in Ha; simplify_eq. done. }
  destruct Hok as [Hp Ha Hc Hi Hrest]. split_and!; [done|done|intros He; destruct (Hi (Hns He)); done|].
  intros rest Hph. destruct Hc as [Hc|[Hc|Hc]]; [congruence..|]. split_and!; [done| | |].
  - intros i r. cbn [server_do]. by rewrite Hph.
  - intros He. cbn [server_do]. rewrite Hph, He, map_size_empty, orb_true_r. by eexists.
  - cbn [server_do]. rewrite Hph. eexists. split; [reflexivity|]. cbn [as_phase].
    rewrite Z.max_l by (pose proof (Hrest rest Hph); lia). by eexists.
Qed.
End server.
