(* ===== verification/DC.v ===== *)
(** * Telegram data centres: mtglib/internal/dc and [doTelegramCall] of mtglib/proxy.go

    The address sets, the preference between IPv4 and IPv6, the update from
    Telegram's public configuration, and the choice of a server for a stream.
    [rand.Shuffle] is a function of the section that permutes its argument;
    the outcome of a network call is an argument of the call. *)

From S2P Require Import Prelude GoStrings.
From Stdlib Require Import Ascii String.
Open Scope char_scope.
Open Scope string_scope.
Open Scope list_scope.
Open Scope Z_scope.

(** ** Addresses *)

Record Addr := mkAddr { Network : string; Address : string }.

#[export] Instance Addr_eq_dec : EqDecision Addr.
Proof. solve_decision. Defined.

(** A map of the source may be nil: [None]. *)
Record dcAddrSet := mkAddrSet { as_v4 : option (gmap Z (list Addr)); as_v6 : option (gmap Z (list Addr)) }.

Inductive preferIP := preferIPOnlyIPv4 | preferIPOnlyIPv6 | preferIPPreferIPv4 | preferIPPreferIPv6.

Definition DefaultDC : Z := 2.

Definition TelegramCoreAddresses : gmap Z (list string) :=
  {[ 1 := ["149.154.175.50:443"; "[2001:b28:f23d:f001::a]:443"];
     2 := ["149.154.167.51:443"; "95.161.76.100:443"; "[2001:67c:04e8:f002::a]:443"];
     3 := ["149.154.175.100:443"; "[2001:b28:f23d:f003::a]:443"];
     4 := ["149.154.167.91:443"; "[2001:67c:04e8:f004::a]:443"];
     5 := ["149.154.171.5:443"; "[2001:b28:f23f:f005::a]:443"];
     203 := ["91.105.192.100:443"; "[2a0a:f280:0203:000a:5000:0000:0000:0100]:443"] ]}.

(** [net.ParseIP(host).To4() == nil] for the addresses of the table above: the
    IPv6 ones are in brackets. *)
Definition isIPv6 (addr : string) : bool :=
  match addr with String "[" _ => true | _ => false end.

Definition ofNetwork (network : string) (v6 : bool) (l : list string) : list Addr :=
  map (mkAddr network) (List.filter (fun a => Bool.eqb (isIPv6 a) v6) l).

Definition defaultDCAddrSet : dcAddrSet :=
  {| as_v4 := Some (fmap (M:=gmap Z) (ofNetwork "tcp4" false) TelegramCoreAddresses);
     as_v6 := Some (fmap (M:=gmap Z) (ofNetwork "tcp6" true) TelegramCoreAddresses) |}.

Record Telegram := mkTelegram { publicConfigs : dcAddrSet; t_preferIP : preferIP }.

(** [dc.New]. *)
Definition Telegram_New (ipPreference : string) : res Telegram :=
  let w := ToLower ipPreference in
  let tg := fun pref => Ok (mkTelegram (mkAddrSet None None) pref) in
  if bool_decide (w = "prefer-ipv4") then tg preferIPPreferIPv4
  else if bool_decide (w = "prefer-ipv6") then tg preferIPPreferIPv6
  else if bool_decide (w = "only-ipv4") then tg preferIPOnlyIPv4
  else if bool_decide (w = "only-ipv6") then tg preferIPOnlyIPv6
  else Fail (Errorf "unknown ip preference").

Section Shuffled.
Context (shuffle : list Addr -> list Addr).

(** [dcAddrSet.get]: a shuffled copy. *)
Definition get (addrs : list Addr) : list Addr := shuffle addrs.

Definition set_getV4 (d : dcAddrSet) (dc : Z) : list Addr :=
  match as_v4 d with None => [] | Some m => get (default [] (m !! dc)) end.

Definition set_getV6 (d : dcAddrSet) (dc : Z) : list Addr :=
  match as_v6 d with None => [] | Some m => get (default [] (m !! dc)) end.

(** [dcView]. *)
Definition view_getV4 (t : Telegram) (dc : Z) : list Addr :=
  set_getV4 defaultDCAddrSet dc ++ set_getV4 (publicConfigs t) dc.

Definition view_getV6 (t : Telegram) (dc : Z) : list Addr :=
  set_getV6 defaultDCAddrSet dc ++ set_getV6 (publicConfigs t) dc.

Definition GetAddresses (t : Telegram) (dc : Z) : list Addr :=
  match t_preferIP t with
  | preferIPOnlyIPv4 => view_getV4 t dc
  | preferIPOnlyIPv6 => view_getV6 t dc
  | preferIPPreferIPv4 => view_getV4 t dc ++ view_getV6 t dc
  | preferIPPreferIPv6 => view_getV6 t dc ++ view_getV4 t dc
  end.

(** ** The call of a stream: [doTelegramCall] *)

(** What the network answers during one call: the middle proxy (tried only for
    a stream with an advertising tag), each dial, the obfuscated handshake, and
    [net.SplitHostPort] of the address that was dialled. *)
Record callEnv := mkCallEnv {
  ce_middle : res (list byte);
  ce_dial : Addr -> option goerr;
  ce_handshake : Addr -> option goerr;
  ce_split : string -> res string
}.

Inductive telegramConn :=
  | ViaMiddleProxy (ip : list byte) (dc : Z)
  | Direct (addr : Addr) (dc : Z).

(** The state of the stream the call changes, and the connections it leaves
    open. *)
Record callResult := mkCall {
  cr_dc : Z;
  cr_conn : option telegramConn;
  cr_open : list Addr;
  cr_event : option Z;
  cr_err : option goerr
}.

(** The dial loop: the address that answered, or the last error. *)
Fixpoint dialLoop (dial : Addr -> option goerr) (addrs : list Addr) (err : option goerr) : option Addr * option goerr :=
  match addrs with
  | [] => (None, err)
  | addr :: rest =>
      match dial addr with
      | None => (Some addr, None)
      | Some e => dialLoop dial rest (Some e)
      end
  end.

Definition directCall (t : Telegram) (allowFallback : bool) (env : callEnv) (dcid : Z) : callResult :=
  let lookupDC := if dcid <? 0 then - dcid else dcid in
  let addresses := GetAddresses t lookupDC in
  let unknown := (List.length addresses =? 0)%nat && allowFallback in
  let dc := if unknown then (if dcid <? 0 then - DefaultDC else DefaultDC) else dcid in
  let addresses := if unknown then GetAddresses t DefaultDC else addresses in
  match dialLoop (ce_dial env) addresses None with
  | (_, Some e) => mkCall dc None [] None (Some (Wrap "no addresses to call" e))
  | (None, None) => mkCall dc None [] None (Some (Errorf "no available addresses for DC"))
  | (Some addr, None) =>
      match ce_handshake env addr with
      | Some e => mkCall dc None [] None (Some (Wrap "cannot perform server handshake" e))
      | None =>
          match ce_split env (Address addr) with
          | Fail e => mkCall dc (Some (Direct addr dc)) [] None (Some (Wrap "cannot parse telegram address" e))
          | Ok _ => mkCall dc (Some (Direct addr dc)) [addr] (Some dc) None
          end
      end
  end.

(** [hasAdTag]: the stream's tag is set (the middle-proxy manager always is). *)
Definition doTelegramCall (t : Telegram) (allowFallback : bool) (env : callEnv) (hasAdTag : bool) (dcid : Z) : callResult :=
  match hasAdTag, ce_middle env with
  | true, Ok ip => mkCall dcid (Some (ViaMiddleProxy ip dcid)) [] (Some dcid) None
  | _, _ => directCall t allowFallback env dcid
  end.

End Shuffled.

(** ** The public configuration *)

(** The white space of a regular expression's [\s]. *)
Definition re_space (c : ascii) : bool :=
  bool_decide (c = " "%char \/ c = "009"%char \/ c = "010"%char \/ c = "012"%char \/ c = "013"%char).

Fixpoint drop_ws (s : string) : string :=
  match s with
  | String c s' => if re_space c then drop_ws s' else s
  | EmptyString => EmptyString
  end.

(** One white space at least. *)
Definition skip_ws1 (s : string) : option string :=
  match s with
  | String c s' => if re_space c then Some (drop_ws s') else None
  | EmptyString => None
  end.

Fixpoint span_digits (s : string) : string * string :=
  match s with
  | String c s' =>
      match digit c with
      | Some _ => let '(d, r) := span_digits s' in (String c d, r)
      | None => ("", s)
      end
  | EmptyString => ("", "")
  end.

Fixpoint no_space (s : string) : bool :=
  match s with String c s' => negb (re_space c) && no_space s' | EmptyString => true end.

(** The address: what stands before the last semicolon, which only white space
    may follow; it has no white space and may be empty. *)
Definition parseTail (s : string) : option string :=
  match drop_ws (rev_string s) with
  | String ";" r => let tok := rev_string r in if no_space tok then Some tok else None
  | _ => None
  end.

(** A match of [publicConfigRe]: the number and the address. *)
Definition publicConfigRe (line : string) : option (string * string) :=
  s ← cut_prefix "proxy_for" (drop_ws line);
  s ← skip_ws1 s;
  let '(d, s) := span_digits s in
  if bool_decide (d = "") then None else
  s ← skip_ws1 s;
  tok ← parseTail s;
  Some (d, tok).

(** The loop over the lines of the response. *)
Definition configLine (network : string) (addrs : gmap Z (list Addr)) (line : string) : gmap Z (list Addr) :=
  match publicConfigRe line with
  | None => addrs
  | Some (d, tok) =>
      match ParseInt d with
      | Some 203 => <[203 := default [] (addrs !! 203) ++ [mkAddr network tok]]> addrs
      | _ => addrs
      end
  end.

(** The response of one update: an error before the lines, the lines, and the
    error of the scanner after them. *)
Definition updateConfig (t : Telegram) (network : string) (fetch : res (list string * option goerr)) : Telegram * option goerr :=
  match fetch with
  | Fail e => (t, Some (Wrap "cannot fetch url" e))
  | Ok (_, Some e) => (t, Some (Wrap "cannot read response body" e))
  | Ok (lines, None) =>
      let addrs := foldl (configLine network) ∅ lines in
      let pc := publicConfigs t in
      (mkTelegram (if bool_decide (network = "tcp4") then mkAddrSet (Some addrs) (as_v6 pc)
                   else mkAddrSet (as_v4 pc) (Some addrs)) (t_preferIP t), None)
  end.

(** ** Proofs *)

Lemma dialLoop_spec dial addrs err :
  match dialLoop dial addrs err with
  | (Some a, e) => a ∈ addrs /\ dial a = None /\ e = None
  | (None, e) => (forall a, a ∈ addrs -> is_Some (dial a)) /\ (e = None <-> addrs = [] /\ err = None)
  end.
Proof.
  revert err. induction addrs as [|a addrs IH]; intros err; simpl; [split; [set_solver|naive_solver]|].
  destruct (dial a) as [e|] eqn:Ha; [|set_solver]. specialize (IH (Some e)).
  destruct (dialLoop dial addrs (Some e)) as [[b|] e']; [set_solver|]. destruct IH as [H1 H2].
  split; [|naive_solver]. intros b [->|Hb]%elem_of_cons; eauto.
Qed.

Section ShuffledProofs.
Context (shuffle : list Addr -> list Addr) (shuffle_perm : forall l, shuffle l ≡ₚ l).

(** The addresses of a data centre in a family. *)
Definition known (m : option (gmap Z (list Addr))) (dc : Z) : list Addr := default [] (m ≫= (.!! dc)).

Lemma view_getV4_perm t dc :
  view_getV4 shuffle t dc ≡ₚ known (as_v4 defaultDCAddrSet) dc ++ known (as_v4 (publicConfigs t)) dc.
Proof.
  unfold view_getV4, set_getV4, get, known. cbn [as_v4 defaultDCAddrSet].
  destruct (as_v4 (publicConfigs t)); simpl; by rewrite !shuffle_perm.
Qed.

Lemma view_getV6_perm t dc :
  view_getV6 shuffle t dc ≡ₚ known (as_v6 defaultDCAddrSet) dc ++ known (as_v6 (publicConfigs t)) dc.
Proof.
  unfold view_getV6, set_getV6, get, known. cbn [as_v6 defaultDCAddrSet].
  destruct (as_v6 (publicConfigs t)); simpl; by rewrite !shuffle_perm.
Qed.

(** The addresses tried for a data centre are, in some order within each
    family, exactly the built-in and the published ones of the allowed
    families, those of the preferred family first. *)
Theorem GetAddresses_preference t dc :
  exists l4 l6,
    l4 ≡ₚ known (as_v4 defaultDCAddrSet) dc ++ known (as_v4 (publicConfigs t)) dc /\
    l6 ≡ₚ known (as_v6 defaultDCAddrSet) dc ++ known (as_v6 (publicConfigs t)) dc /\
    GetAddresses shuffle t dc =
      match t_preferIP t with
      | preferIPOnlyIPv4 => l4
      | preferIPOnlyIPv6 => l6
      | preferIPPreferIPv4 => l4 ++ l6
      | preferIPPreferIPv6 => l6 ++ l4
      end.
Proof.
  exists (view_getV4 shuffle t dc), (view_getV6 shuffle t dc).
  split_and!; [apply view_getV4_perm | apply view_getV6_perm | done].
Qed.

End ShuffledProofs.

Lemma GetAddresses_preference_witness :
  exists l4 l6,
    l4 ≡ₚ known (as_v4 defaultDCAddrSet) 2 ++ [] /\
    l6 ≡ₚ known (as_v6 defaultDCAddrSet) 2 ++ [] /\
    GetAddresses (@rev Addr) (mkTelegram (mkAddrSet None None) preferIPPreferIPv6) 2 = l6 ++ l4.
Proof.
  apply (GetAddresses_preference (@rev Addr) (fun l => symmetry (Permutation_rev l))
           (mkTelegram (mkAddrSet None None) preferIPPreferIPv6) 2).
Defined.

(** The sign of a data centre number: negative ones are the media centres. *)
Lemma directCall_cases shuffle t fb env dcid :
  let r := directCall shuffle t fb env dcid in
  (cr_err r = None -> exists a, cr_conn r = Some (Direct a (cr_dc r)) /\ cr_open r = [a] /\
     cr_event r = Some (cr_dc r) /\ ce_dial env a = None /\ ce_handshake env a = None /\
     a ∈ GetAddresses shuffle t (Z.abs (cr_dc r))) /\
  (is_Some (cr_err r) -> cr_open r = [] /\ cr_event r = None) /\
  (cr_dc r = dcid \/
   GetAddresses shuffle t (Z.abs dcid) = [] /\ fb = true /\ cr_dc r = (if dcid <? 0 then - DefaultDC else DefaultDC)).
Proof.
  unfold directCall. replace (if dcid <? 0 then - dcid else dcid) with (Z.abs dcid) by (destruct (dcid <? 0) eqn:E; zbool; lia).
  set (addrs := GetAddresses shuffle t (Z.abs dcid)).
  set (unknown := ((List.length addrs =? 0)%nat && fb)%bool).
  set (dc := if unknown then _ else dcid). set (addrs' := if unknown then _ else addrs).
  assert (addrs' = GetAddresses shuffle t (Z.abs dc)) as Ha.
  { unfold addrs', dc. destruct unknown; [|done]. by destruct (dcid <? 0). }
  assert (dc = dcid \/ addrs = [] /\ fb = true /\ dc = (if dcid <? 0 then - DefaultDC else DefaultDC)) as Hdc.
  { unfold dc. destruct unknown eqn:Hu; [right|by left]. unfold unknown in Hu. zbool. split_and!; [|done..].
    by destruct addrs. }
  clearbody dc addrs'. subst addrs'. pose proof (dialLoop_spec (ce_dial env) (GetAddresses shuffle t (Z.abs dc)) None) as Hd.
  destruct (dialLoop _ _ _) as [[a|] [e|]]; simpl; [naive_solver| |naive_solver..].
  destruct Hd as (Hin & Hda & _). destruct (ce_handshake env a) eqn:Hh; simpl; [naive_solver|].
  destruct (ce_split env (Address a)); simpl; [|naive_solver].
  split_and!; [|by intros [? ?]|done]. intros _. exists a. done.
Qed.

(** The call to Telegram: an error leaves no connection open and reports no
    data centre; success leaves one, through the middle proxy only for a stream
    with a tag, otherwise to an address of the announced data centre that
    answered.  The announced data centre is the requested one with its sign, or,
    when none of its addresses is known and fallback is allowed, the default one
    with the requested sign. *)
Theorem doTelegramCall_spec shuffle t fb env tag dcid :
  let r := doTelegramCall shuffle t fb env tag dcid in
  (is_Some (cr_err r) -> cr_open r = [] /\ cr_event r = None) /\
  (cr_err r = None -> cr_event r = Some (cr_dc r) /\
     ((exists ip, tag = true /\ ce_middle env = Ok ip /\ cr_conn r = Some (ViaMiddleProxy ip dcid)) \/
      exists a, cr_conn r = Some (Direct a (cr_dc r)) /\ cr_open r = [a] /\ ce_dial env a = None /\
                a ∈ GetAddresses shuffle t (Z.abs (cr_dc r)))) /\
  (cr_dc r = dcid \/
   GetAddresses shuffle t (Z.abs dcid) = [] /\ fb = true /\ Z.abs (cr_dc r) = DefaultDC /\ (cr_dc r < 0 <-> dcid < 0)).
Proof.
  assert (forall r : callResult,
    (cr_dc r = dcid \/ GetAddresses shuffle t (Z.abs dcid) = [] /\ fb = true /\
       cr_dc r = (if dcid <? 0 then - DefaultDC else DefaultDC)) ->
    cr_dc r = dcid \/ GetAddresses shuffle t (Z.abs dcid) = [] /\ fb = true /\
       Z.abs (cr_dc r) = DefaultDC /\ (cr_dc r < 0 <-> dcid < 0)) as Hsign.
  { intros r [?|(? & ? & Hr)]; [by left|right]. rewrite Hr. unfold DefaultDC.
    destruct (dcid <? 0) eqn:E; zbool; split_and!; try done; lia. }
  destruct (directCall_cases shuffle t fb env dcid) as (H1 & H2 & H3). unfold doTelegramCall.
  destruct tag; [destruct (ce_middle env) as [ip|e] eqn:Hm|].
  - split_and!; [by intros [? ?]| |by left]. intros _. split; [done|]. left. by exists ip.
  - split_and!; [done| |by apply Hsign]. intros Hok. destruct (H1 Hok) as (a & ? & ? & ? & ? & ? & ?). split; [done|]. right. by exists a.
  - split_and!; [done| |by apply Hsign]. intros Hok. destruct (H1 Hok) as (a & ? & ? & ? & ? & ? & ?). split; [done|]. right. by exists a.
Qed.

(** An update replaces the published addresses of its family by the DC 203
    lines it read, and a failed one changes nothing. *)
Lemma configLines_spec network lines m :
  foldl (configLine network) m lines = m \/
  exists l, foldl (configLine network) m lines = <[203 := default [] (m !! 203) ++ l]> m.
Proof.
  revert m. induction lines as [|line lines IH]; intros m; [by left|]. cbn [foldl].
  assert (configLine network m line = m \/
          exists a, configLine network m line = <[203 := default [] (m !! 203) ++ [a]]> m) as [->|[a ->]]; [|apply IH|].
  { unfold configLine. destruct (publicConfigRe line) as [[d tok]|]; [|by left].
    destruct (decide (ParseInt d = Some 203)) as [->|Hd]; [right; by eexists|left].
    destruct (ParseInt d) as [n|]; [|done]. destruct (decide (n = 203)) as [->|]; [done|].
    by repeat (case_match; try done). }
  right. destruct (IH (<[203 := default [] (m !! 203) ++ [a]]> m)) as [->|[l ->]]; [by exists [a]|].
  exists (a :: l). rewrite lookup_insert_eq. simpl. rewrite insert_insert_eq. by rewrite <-app_assoc.
Qed.

(** The hourly update of published addresses only ever adds addresses of
    the CDN centre 203 to the family it was fetched for: the other family, the
    preference and, after a failure, everything stay as they were. *)
Theorem updateConfig_only_203 t network fetch :
  let '(t', err) := updateConfig t network fetch in
  t_preferIP t' = t_preferIP t /\
  (is_Some err -> t' = t) /\
  (forall dc, dc <> 203 -> network = "tcp4" -> err = None ->
     known (as_v4 (publicConfigs t')) dc = [] /\ as_v6 (publicConfigs t') = as_v6 (publicConfigs t)) /\
  (forall dc, dc <> 203 -> network <> "tcp4" -> err = None ->
     known (as_v6 (publicConfigs t')) dc = [] /\ as_v4 (publicConfigs t') = as_v4 (publicConfigs t)).
Proof.
  unfold updateConfig. destruct fetch as [[lines [e|]]|e]; simpl; [by split_and!| |by split_and!].
  assert (forall dc, dc <> 203 -> default [] (foldl (configLine network) ∅ lines !! dc) = []) as Hl.
  { intros dc Hdc. destruct (configLines_spec network lines ∅) as [->|[l ->]]; [by rewrite lookup_empty|].
    by rewrite lookup_insert_ne. }
  split_and!; [done|by intros [? ?]|..]; intros dc Hdc Hn _;
    [rewrite bool_decide_true by done|rewrite bool_decide_false by done]; (split; [|done]); apply Hl, Hdc.
Qed.
