(* ===== verification/ServeConn.v ===== *)
(** * Serving connections: [ServeConn] and its parts in mtglib/proxy.go

    Every accepted connection runs [ServeConn] in a goroutine of its own, beside
    the others, the management API, the throttle loop and the quota roll-over.
    Here a connection is a program counter between the blocking calls of
    [ServeConn], the stack of its deferred calls and the fields of its
    [streamContext]; [advance] runs it to its next blocking call with the
    outcome of the current one as input, and [do] interleaves any number of
    them with the other goroutines.  The order of the deferred calls is the
    order of the source: last pushed, first run. *)

From S2P Require Import Prelude Secret GoTime Limits Stats SecretSet Proxy Pending DC.

(** ** Data *)

Inductive event :=
  | EventStart (ip : list byte)
  | EventFinish
  | EventPendingHandshakeLimit (a : action)
  | EventReplayAttack
  | EventDomainFronting
  | EventThrottled (name : string)
  | EventConnectedToDC (dc : Z).

#[export] Instance event_eq_dec : EqDecision event.
Proof. solve_decision. Defined.

(** The [defer] statements of [ServeConn]. *)
Inductive deferred :=
  | DWaitGroupDone
  | DCtxClose
  | DStopAfterFunc
  | DEventFinish
  | DRelease (t : nat)
  | DOnDisconnect (name : string)
  | DUnregister (name : string)
  | DClientStop.

#[export] Instance deferred_eq_dec : EqDecision deferred.
Proof. solve_decision. Defined.

Inductive pc :=
  | PEntry          (* before the handshake deadline is set *)
  | PLoad           (* at [p.secrets.Load()] of [doFakeTLSHandshake] *)
  | PHello          (* in [fake.ReadClientHelloMulti] *)
  | PServerHello    (* in [fake.SendServerHello] *)
  | PThrottle       (* at [p.stats.CanConnect] *)
  | POnConnect      (* at [p.stats.OnConnect] *)
  | PRegister       (* at [p.registerConn] *)
  | PDoppel         (* in [p.doppelGanger.NewConn] *)
  | PObfs           (* in [p.doObfuscatedHandshake] *)
  | PDeadline       (* at the second [SetDeadline] *)
  | PCall           (* in [p.doTelegramCall] *)
  | PRelay          (* in [relay.Relay] with Telegram *)
  | PFront          (* in [doDomainFrontingForHost], dialling or relaying *)
  | PReturn         (* running the deferred calls *)
  | PDone.

#[export] Instance pc_eq_dec : EqDecision pc.
Proof. solve_decision. Defined.

Record conn := mkConn {
  c_ip : list byte;
  c_pc : pc;
  c_defers : list deferred;
  c_ticket : option nat;
  c_set : option secretSet;
  c_secretName : string;
  c_key : list byte;
  c_adTag : option (list byte);
  c_dc : Z
}.

Definition goto (l : pc) (c : conn) : conn :=
  mkConn (c_ip c) l (c_defers c) (c_ticket c) (c_set c) (c_secretName c) (c_key c) (c_adTag c) (c_dc c).
Definition defer (d : deferred) (c : conn) : conn :=
  mkConn (c_ip c) (c_pc c) (d :: c_defers c) (c_ticket c) (c_set c) (c_secretName c) (c_key c) (c_adTag c) (c_dc c).
Definition set_defers l (c : conn) : conn :=
  mkConn (c_ip c) (c_pc c) l (c_ticket c) (c_set c) (c_secretName c) (c_key c) (c_adTag c) (c_dc c).
Definition set_ticket t (c : conn) : conn :=
  mkConn (c_ip c) (c_pc c) (c_defers c) t (c_set c) (c_secretName c) (c_key c) (c_adTag c) (c_dc c).
Definition set_set s (c : conn) : conn :=
  mkConn (c_ip c) (c_pc c) (c_defers c) (c_ticket c) s (c_secretName c) (c_key c) (c_adTag c) (c_dc c).
Definition set_matched name key tag (c : conn) : conn :=
  mkConn (c_ip c) (c_pc c) (c_defers c) (c_ticket c) (c_set c) name key tag (c_dc c).
Definition set_dc dc (c : conn) : conn :=
  mkConn (c_ip c) (c_pc c) (c_defers c) (c_ticket c) (c_set c) (c_secretName c) (c_key c) (c_adTag c) dc.

(** [newStreamContext] for an accepted connection. *)
Definition newConn (ip : list byte) : conn := mkConn ip PEntry [] None None "" [] None 0.

(** What [ReadClientHelloMulti] returns: an error, with the host name it could
    match if any, or the index of the secret and the matched host. *)
Inductive helloResult :=
  | HelloErr (matchedHost : option string)
  | HelloOk (matchedIndex : nat) (matchedHost : string).

(** The outcome of the call a connection waits in. *)
Inductive input :=
  | InErr (failed : bool)
  | InStep
  | InTime (now : Z)
  | InHello (r : helloResult) (seenBefore : bool) (now : Z)
  | InObfs (r : res Z)
  | InCall (env : callEnv)
  | InRead (n : Z)
  | InWrite (n : Z)
  | InEnd.

(** The settings [NewProxy] fixes. *)
Record settings := mkSettings {
  s_limit : Z;
  s_dryRun : bool;
  s_telegram : Telegram;
  s_fallback : bool;
  s_shuffle : list Addr -> list Addr;
  s_localOffset : Z -> Z
}.

Record outcome := mkOutcome {
  o_conn : conn;
  o_proxy : Proxy;
  o_pending : pendingHandshakes;
  o_events : list event
}.

Definition finishPendingHandshake (pd : pendingHandshakes) (c : conn) : pendingHandshakes :=
  match c_ticket c with Some t => release pd t | None => pd end.

(** The start of [doDomainFrontingForHost]; the host is not part of the
    state. *)
Definition doDomainFronting (p : Proxy) (pd : pendingHandshakes) (c : conn) (before : list event) : outcome :=
  mkOutcome (goto PFront c) p (finishPendingHandshake pd c) (before ++ [EventDomainFronting]).

Definition returns (p : Proxy) (pd : pendingHandshakes) (c : conn) (evs : list event) : outcome :=
  mkOutcome (goto PReturn c) p pd evs.

(** One deferred call. *)
Definition runDeferred (id : nat) (d : deferred) (p : Proxy) (pd : pendingHandshakes)
    : Proxy * pendingHandshakes * list event :=
  match d with
  | DWaitGroupDone | DStopAfterFunc | DClientStop => (p, pd, [])
  | DCtxClose => (close_all {[id]} p, pd, [])
  | DEventFinish => (p, pd, [EventFinish])
  | DRelease t => (p, release pd t, [])
  | DOnDisconnect name => (set_stats (OnDisconnect (p_stats p) name) p, pd, [])
  | DUnregister name => (unregisterConn p name id, pd, [])
  end.

(** The part of [doFakeTLSHandshake] after the client hello was read. *)
Definition afterHello (cfg : settings) (p : Proxy) (pd : pendingHandshakes) (c : conn) (set : secretSet)
    (r : helloResult) (seenBefore : bool) (now : Z) : option outcome :=
  match r with
  | HelloErr _ => Some (doDomainFronting p pd c [])
  | HelloOk i _ =>
      if seenBefore then Some (doDomainFronting p pd c [EventReplayAttack]) else
      s ← secrets set !! i;
      name ← names set !! i;
      lim ← limits set !! i;
      let c := set_matched name (Key s) (effectiveAdTag set i) c in
      let '(st, (allowed, _)) := checkLimits (s_localOffset cfg) now (p_stats p) name lim in
      let p := set_stats st p in
      if negb allowed then Some (doDomainFronting p pd c [])
      else Some (mkOutcome (goto PServerHello c) p pd [])
  end.

(** One run of a connection up to its next blocking call; [None] when the input
    is not an outcome of the call it waits in. *)
Definition advance (cfg : settings) (i : input) (id : nat) (c : conn) (p : Proxy) (pd : pendingHandshakes) : option outcome :=
  match c_pc c, i with
  | PEntry, InErr failed =>
      let c := defer DCtxClose (defer DWaitGroupDone c) in
      if failed then Some (returns p pd c []) else
      let c := defer DEventFinish (defer DStopAfterFunc c) in
      let a := acquire pd (c_ip c) (s_limit cfg) (s_dryRun cfg) in
      let evs := EventStart (c_ip c) ::
                 (if bool_decide (a_action a = NoAction) then [] else [EventPendingHandshakeLimit (a_action a)]) in
      if negb (a_admitted a) then Some (returns p (a_state a) c evs) else
      match a_release a with
      | Some t => Some (mkOutcome (goto PLoad (set_ticket (Some t) (defer (DRelease t) c))) p (a_state a) evs)
      | None => Some (mkOutcome (goto PLoad c) p (a_state a) evs)
      end
  | PLoad, InStep => Some (mkOutcome (goto PHello (set_set (Some (p_secrets p)) c)) p pd [])
  | PHello, InHello r seen now => set ← c_set c; afterHello cfg p pd c set r seen now
  | PServerHello, InErr failed =>
      if failed then Some (returns p pd c []) else
      Some (mkOutcome (goto PThrottle c) p (finishPendingHandshake pd c) [])
  | PThrottle, InStep =>
      let '(st, can) := CanConnect (p_stats p) (c_secretName c) in
      let p := set_stats st p in
      if negb can then Some (returns p pd c [EventThrottled (c_secretName c)])
      else Some (mkOutcome (goto POnConnect c) p pd [])
  | POnConnect, InTime now =>
      let name := c_secretName c in
      let p := set_stats (UpdateLastSeen now (OnConnect (p_stats p) name) name) p in
      Some (mkOutcome (goto PRegister (defer (DOnDisconnect name) c)) p pd [])
  | PRegister, InStep =>
      let name := c_secretName c in
      Some (mkOutcome (goto PDoppel (defer (DUnregister name) c)) (registerConn p name id) pd [])
  | PDoppel, InErr failed =>
      if failed then Some (returns p pd c []) else
      Some (mkOutcome (goto PObfs (defer DClientStop c)) p pd [])
  | PObfs, InObfs r =>
      match r with
      | Fail _ => Some (returns p pd c [])
      | Ok dc => Some (mkOutcome (goto PDeadline (set_dc dc c)) p pd [])
      end
  | PDeadline, InErr failed =>
      if failed then Some (returns p pd c []) else Some (mkOutcome (goto PCall c) p pd [])
  | PCall, InCall env =>
      let r := doTelegramCall (s_shuffle cfg) (s_telegram cfg) (s_fallback cfg) env
                 (bool_decide (is_Some (c_adTag c))) (c_dc c) in
      let c := set_dc (cr_dc r) c in
      let evs := match cr_event r with Some dc => [EventConnectedToDC dc] | None => [] end in
      match cr_err r with
      | Some _ => Some (returns p pd c evs)
      | None => Some (mkOutcome (goto PRelay c) p pd evs)
      end
  | PRelay, InRead n => Some (mkOutcome c (set_stats (countRead (p_stats p) (c_secretName c) n) p) pd [])
  | PRelay, InWrite n => Some (mkOutcome c (set_stats (countWrite (p_stats p) (c_secretName c) n) p) pd [])
  | PRelay, InEnd | PFront, InEnd => Some (returns p pd c [])
  | PReturn, InStep =>
      match c_defers c with
      | [] => Some (mkOutcome (goto PDone c) p pd [])
      | d :: rest =>
          let '(p, pd, evs) := runDeferred id d p pd in
          Some (mkOutcome (set_defers rest c) p pd evs)
      end
  | _, _ => None
  end.

(** ** The whole proxy *)

Record world := mkWorld {
  w_proxy : Proxy;
  w_pending : pendingHandshakes;
  w_conns : gmap nat conn;
  w_events : list (nat * event)
}.

(** What any goroutine may do next. *)
Inductive act :=
  | AAccept (id : nat) (ip : list byte)
  | AConn (id : nat) (i : input)
  | AMutate (now : Z) (m : mutation)
  | AThrottleTick
  | ARollover (now : Z)
  | AResetQuota (now : Z) (name : string).

Definition set_proxy p w := mkWorld p (w_pending w) (w_conns w) (w_events w).

Definition do (cfg : settings) (a : act) (w : world) : option world :=
  match a with
  | AAccept id ip =>
      match w_conns w !! id with
      | Some _ => None
      | None => Some (mkWorld (w_proxy w) (w_pending w) (<[id := newConn ip]> (w_conns w)) (w_events w))
      end
  | AConn id i =>
      c ← w_conns w !! id;
      o ← advance cfg i id c (w_proxy w) (w_pending w);
      Some (mkWorld (o_proxy o) (o_pending o) (<[id := o_conn o]> (w_conns w))
                    (w_events w ++ (pair id <$> o_events o)))
  | AMutate now m => '(p, _) ← exec (s_localOffset cfg) now (w_proxy w) m; Some (set_proxy p w)
  | AThrottleTick => st ← recomputeCaps (p_stats (w_proxy w)); Some (set_proxy (set_stats st (w_proxy w)) w)
  | ARollover now => Some (set_proxy (rolloverAllQuotas (s_localOffset cfg) now (w_proxy w)) w)
  | AResetQuota now name =>
      Some (set_proxy (set_stats (ResetQuota now (p_stats (w_proxy w)) name) (w_proxy w)) w)
  end.

Definition wstep (cfg : settings) (w w' : world) : Prop := exists a, do cfg a w = Some w'.

(** The proxy [NewProxy] makes from a configuration, with the usage loaded
    from the state file: counters of traffic and connections start at zero. *)
Definition initial (w : world) : Prop :=
  (exists v, implements (w_proxy w) v) /\
  (forall n, connections (stats_of (p_stats (w_proxy w)) n) = 0) /\
  liveConns (w_proxy w) = ∅ /\ w_pending w = newPendingHandshakes /\ w_conns w = ∅ /\ w_events w = [].

Definition reach (cfg : settings) (w : world) : Prop := exists w0, initial w0 /\ rtc (wstep cfg) w0 w.

(** A run of labelled steps, for examples. *)
Fixpoint run (cfg : settings) (l : list act) (w : world) : option world :=
  match l with
  | [] => Some w
  | a :: l => w' ← do cfg a w; run cfg l w'
  end.

(** ** Proofs: one connection *)

(** The deferred calls of a connection that has come through admission, and of
    one that has pushed everything. *)
Definition pre (c : conn) : list deferred :=
  from_option (fun t => [DRelease t]) [] (c_ticket c) ++ [DEventFinish; DStopAfterFunc; DCtxClose; DWaitGroupDone].

Definition full (c : conn) : list deferred :=
  DClientStop :: DUnregister (c_secretName c) :: DOnDisconnect (c_secretName c) :: pre c.

(** What is on the stack at each program point. *)
Definition conn_ok (c : conn) : Prop :=
  match c_pc c with
  | PEntry => c_defers c = [] /\ c_ticket c = None
  | PLoad | PHello | PServerHello | PThrottle | POnConnect | PFront => c_defers c = pre c
  | PRegister => c_defers c = DOnDisconnect (c_secretName c) :: pre c
  | PDoppel => c_defers c = DUnregister (c_secretName c) :: DOnDisconnect (c_secretName c) :: pre c
  | PObfs | PDeadline | PCall | PRelay => c_defers c = full c
  | PReturn => c_defers c `suffix_of` full c
  | PDone => c_defers c = []
  end.

Lemma full_nodup c : NoDup (full c).
Proof.
  unfold full, pre. destruct (c_ticket c); simpl; repeat (constructor; [set_solver|]); constructor.
Qed.

Lemma suffix_full_nodup c l : l `suffix_of` full c -> NoDup l.
Proof. intros [k Hk]. pose proof (full_nodup c) as H. rewrite Hk in H. by apply NoDup_app in H as (_ & _ & ?). Qed.

Lemma conn_ok_suffix c : conn_ok c -> c_defers c `suffix_of` full c.
Proof.
  unfold conn_ok, full. destruct (c_pc c); intros H; try done;
    match type of H with _ /\ _ => destruct H as [H _] | _ => idtac end;
    rewrite H; try apply suffix_nil; eauto using suffix_cons_r.
Qed.

(** Case analysis on a run of [advance]. *)
Ltac adv_cases H :=
  unfold advance, afterHello, doDomainFronting, returns in H;
  repeat (match type of H with
  | (match c_pc ?c with _ => _ end) = _ => destruct (c_pc c) eqn:?Hpc
  | (match ?i with _ => _ end) = Some _ => destruct i eqn:?; try discriminate H
  | mbind _ ?x = Some _ => destruct x eqn:?; [cbn [mbind option_bind] in H|discriminate H]
  | None = Some _ => discriminate H
  | Some _ = Some _ => injection H as <-
  end; cbv zeta beta in H).

Ltac suffix_solve := first [reflexivity | apply suffix_nil | apply suffix_cons_r; suffix_solve].

Lemma advance_conn_ok cfg i id c p pd o :
  conn_ok c -> advance cfg i id c p pd = Some o -> conn_ok (o_conn o).
Proof.
  intros Hok H. pose proof (conn_ok_suffix c Hok) as Hsuf. unfold conn_ok in Hok.
  adv_cases H; try match type of Hok with _ /\ _ => destruct Hok as [Hok Ht] end;
    unfold conn_ok, full, pre in *; simpl; rewrite ?Hpc; simpl; try done; rewrite ?Hok, ?Ht; simpl;
    try done; try suffix_solve.
  by eapply suffix_cons_l.
Qed.

(** The effect of a run on the counters of connections: one more for the name
    whose [OnDisconnect] it pushes, one less when it runs it. *)
Definition holds (d : deferred) (c : conn) : Z := if bool_decide (d ∈ c_defers c) then 1 else 0.

Lemma holds_cons d d' c l :
  NoDup (d' :: l) -> holds d (set_defers (d' :: l) c) = holds d (set_defers l c) + (if bool_decide (d = d') then 1 else 0).
Proof.
  intros Hnd. apply NoDup_cons in Hnd as [Hd' _]. unfold holds. simpl.
  repeat case_bool_decide; subst; set_solver.
Qed.

(** Operations that keep the number of connections of every secret. *)
Definition same_conns (s s' : ProxyStats) : Prop :=
  forall n, connections (stats_of s' n) = connections (stats_of s n).

Lemma same_traffic_conns s s' : same_traffic s s' -> same_conns s s'.
Proof. intros H n. apply H. Qed.

Lemma update_conns s name f :
  (forall st, connections (f st) = connections st) -> same_conns s (update s name f).
Proof. intros Hf n. rewrite stats_of_update. case_decide; subst; [apply Hf|done]. Qed.

Lemma CanConnect_conns s name : same_conns s (CanConnect s name).1.
Proof.
  intros n. unfold CanConnect. destruct (_ =? 0); [done|]. destruct (throttleCaps s !! name); [|done].
  pose proof (PreRegister_stats s name n) as Hp. unfold PreRegister in Hp.
  destruct (getOrCreate s name). simpl in *. by rewrite Hp.
Qed.

Lemma count_conns s name k : same_conns s (countRead s name k) /\ same_conns s (countWrite s name k).
Proof.
  unfold countRead, countWrite. split; destruct (0 <? k); try done; by apply update_conns.
Qed.

(** The change of a counter by [d] of -1, 0 or 1. *)
Definition bumped (v v' d : Z) : Prop := if d =? 0 then v' = v else v' = int64 (v + d).

Lemma bumped_connect now s sn name c l :
  DOnDisconnect sn ∉ c_defers c -> c_defers l = DOnDisconnect sn :: c_defers c ->
  bumped (connections (stats_of s name)) (connections (stats_of (UpdateLastSeen now (OnConnect s sn) sn) name))
         (holds (DOnDisconnect name) l - holds (DOnDisconnect name) c).
Proof.
  intros Hn Hl. unfold holds, bumped. rewrite Hl. unfold UpdateLastSeen, OnConnect. rewrite !stats_of_update.
  destruct (decide (sn = name)) as [<-|Hne].
  - rewrite bool_decide_true by set_solver. rewrite bool_decide_false by done. by rewrite !decide_True.
  - destruct (decide (DOnDisconnect name ∈ c_defers c)).
    + by rewrite !bool_decide_true by set_solver.
    + by rewrite !bool_decide_false by set_solver.
Qed.

Lemma bumped_deferred id d p pd p' pd' evs name h :
  runDeferred id d p pd = (p', pd', evs) ->
  bumped (connections (stats_of (p_stats p) name)) (connections (stats_of (p_stats p') name))
         (h - (h + (if bool_decide (DOnDisconnect name = d) then 1 else 0))).
Proof.
  intros Hd. replace (h - (h + _)) with (- (if bool_decide (DOnDisconnect name = d) then 1 else 0)) by lia.
  unfold bumped. destruct d; simpl in Hd; injection Hd as <- <- <-; try done.
  - simpl. unfold OnDisconnect. rewrite stats_of_update. case_bool_decide as Hn.
    + injection Hn as ->. by rewrite decide_True.
    + rewrite decide_False by congruence. done.
  - unfold unregisterConn. by destruct (liveConns p !! name0); [destruct (_ =? 0)%nat|].
Qed.

Lemma advance_conns cfg i id c p pd o name :
  conn_ok c -> advance cfg i id c p pd = Some o ->
  bumped (connections (stats_of (p_stats p) name)) (connections (stats_of (p_stats (o_proxy o)) name))
         (holds (DOnDisconnect name) (o_conn o) - holds (DOnDisconnect name) c).
Proof.
  intros Hok H. pose proof (conn_ok_suffix c Hok) as Hsuf.
  assert (forall c' st', holds (DOnDisconnect name) c' = holds (DOnDisconnect name) c ->
    same_conns (p_stats p) st' ->
    bumped (connections (stats_of (p_stats p) name)) (connections (stats_of st' name))
           (holds (DOnDisconnect name) c' - holds (DOnDisconnect name) c)) as Hsame.
  { intros c' st' -> Hs. unfold bumped. rewrite Z.sub_diag. apply Hs. }
  unfold conn_ok in Hok. adv_cases H; simpl;
    try (apply Hsame; [unfold holds; simpl; repeat case_bool_decide; set_solver|]); try done.
  - by eapply same_traffic_conns, checkLimits_decision.
  - by eapply same_traffic_conns, checkLimits_decision.
  - match goal with H : CanConnect ?s ?n = _ |- _ => pose proof (CanConnect_conns s n) as Hc; by rewrite H in Hc end.
  - match goal with H : CanConnect ?s ?n = _ |- _ => pose proof (CanConnect_conns s n) as Hc; by rewrite H in Hc end.
  - apply bumped_connect; [rewrite Hok; unfold pre; destruct (c_ticket c); set_solver|done].
  - apply count_conns.
  - apply count_conns.
  - match goal with H : c_defers c = _ :: _ |- _ => rename H into Hd end.
    assert (NoDup (d :: l)) as Hnd by by apply (suffix_full_nodup c).
    replace (holds (DOnDisconnect name) c) with (holds (DOnDisconnect name) (set_defers (d :: l) c))
      by (unfold holds; simpl; by rewrite Hd).
    rewrite holds_cons by done. eapply bumped_deferred; done.
Qed.

Lemma runDeferred_live id d p pd p' pd' evs name k :
  runDeferred id d p pd = (p', pd', evs) ->
  (k ∈ default ∅ (liveConns p' !! name) <->
   k ∈ default ∅ (liveConns p !! name) /\ ~ (d = DUnregister name /\ k = id)).
Proof.
  intros H. destruct d; simpl in H; injection H as <- <- <-; try naive_solver.
  unfold unregisterConn. destruct (liveConns p !! name0) as [conns|] eqn:Hl.
  - assert (k ∈ conns ∖ {[id]} <-> k ∈ conns /\ k <> id) as Hk by set_solver.
    destruct (size (conns ∖ {[id]}) =? 0)%nat eqn:Hz; simpl; destruct (decide (name0 = name)) as [->|Hne].
    + rewrite lookup_delete_eq, Hl. simpl. apply Nat.eqb_eq, size_empty_inv in Hz. set_solver.
    + rewrite lookup_delete_ne by done. naive_solver.
    + rewrite lookup_insert_eq, Hl. simpl. naive_solver.
    + rewrite lookup_insert_ne by done. naive_solver.
  - destruct (decide (name0 = name)) as [->|Hne]; [rewrite Hl; set_solver|naive_solver].
Qed.

(** The effect of a run on the registry of live streams. *)
Lemma advance_live cfg i id c p pd o name k :
  conn_ok c -> advance cfg i id c p pd = Some o ->
  (id ∈ default ∅ (liveConns p !! name) <-> DUnregister name ∈ c_defers c) ->
  (k ∈ default ∅ (liveConns (o_proxy o) !! name) <->
   if decide (k = id) then DUnregister name ∈ c_defers (o_conn o) else k ∈ default ∅ (liveConns p !! name)).
Proof.
  intros Hok H Hid. pose proof (conn_ok_suffix c Hok) as Hsuf. unfold conn_ok in Hok. adv_cases H; simpl.
  all: try (case_decide as Hk; [rewrite Hk, Hid; set_solver|done]).
  - rewrite lookup_insert. destruct (decide (c_secretName c = name)) as [<-|Hne]; simpl.
    + rewrite elem_of_union, elem_of_singleton. case_decide; [|set_solver]. split; [left|by right].
    + case_decide as Hk; [rewrite Hk, Hid; set_solver|done].
  - match goal with H : c_defers c = [] |- _ => rewrite H in * end. case_decide as Hk; [by rewrite Hk|done].
  - match goal with H : c_defers c = _ :: _ |- _ => rename H into Hd end. rewrite ?Hd in Hid.
    pose proof (suffix_full_nodup c _ Hsuf) as Hnd. rewrite ?Hd in Hnd. apply NoDup_cons in Hnd as [Hnd _].
    match goal with H : runDeferred _ _ _ _ = _ |- _ => rewrite (runDeferred_live _ _ _ _ _ _ _ name k H) end.
    case_decide as Hk; [rewrite Hk, Hid; set_solver|naive_solver].
Qed.

(** ** Proofs: the pending-handshake slot of a connection *)

(** Waiting: the client hello has not come, or the server hello has not been
    sent; the slot is held. *)
Definition waiting (l : pc) : bool := bool_decide (l ∈ [PLoad; PHello; PServerHello]).

(** Served: the fake TLS handshake is over, or the stream was sent to the
    fronting domain. *)
Definition served (l : pc) : bool :=
  bool_decide (l ∈ [PThrottle; POnConnect; PRegister; PDoppel; PObfs; PDeadline; PCall; PRelay; PFront]).

(** What a run does to the slots: nothing, take one, or free its own. *)
Inductive slot_effect (c c' : conn) (pd pd' : pendingHandshakes) : Prop :=
  | slot_none :
      pd' = pd -> c_ticket c' = c_ticket c ->
      (forall t, c_ticket c = Some t -> DRelease t ∈ c_defers c -> DRelease t ∈ c_defers c') ->
      (is_Some (c_ticket c) -> waiting (c_pc c') = true -> waiting (c_pc c) = true) ->
      (is_Some (c_ticket c) -> served (c_pc c') = true -> served (c_pc c) = true) ->
      slot_effect c c' pd pd'
  | slot_take addr :
      tickets pd' = tickets pd ++ [mkTicket addr false] -> addrOf (c_ip c) = Some addr ->
      c_ticket c = None -> c_ticket c' = Some (length (tickets pd)) ->
      DRelease (length (tickets pd)) ∈ c_defers c' -> waiting (c_pc c') = true ->
      slot_effect c c' pd pd'
  | slot_free t :
      pd' = release pd t -> c_ticket c = Some t -> c_ticket c' = Some t -> waiting (c_pc c') = false ->
      slot_effect c c' pd pd'.

Lemma acquire_cases pd ip limit dry :
  (a_state (acquire pd ip limit dry) = pd /\ a_release (acquire pd ip limit dry) = None) \/
  exists addr, addrOf ip = Some addr /\ tickets (a_state (acquire pd ip limit dry)) = tickets pd ++ [mkTicket addr false] /\
    a_release (acquire pd ip limit dry) = Some (length (tickets pd)) /\ a_admitted (acquire pd ip limit dry) = true.
Proof.
  unfold acquire. destruct (limit =? 0); [by left|]. destruct (addrOf ip) as [addr|]; [|by left].
  destruct (_ && _); [by left|right]. by exists addr.
Qed.

Lemma runDeferred_slot id d p pd p' pd' evs :
  runDeferred id d p pd = (p', pd', evs) ->
  (pd' = pd /\ forall t, d <> DRelease t) \/ exists t, d = DRelease t /\ pd' = release pd t.
Proof. destruct d; simpl; intros [= <- <- <-]; eauto; by left. Qed.

Lemma finish_slot c c' pd :
  c_ticket c' = c_ticket c -> c_defers c' = c_defers c -> waiting (c_pc c') = false ->
  slot_effect c c' pd (finishPendingHandshake pd c).
Proof.
  intros Ht Hd Hw. unfold finishPendingHandshake. destruct (c_ticket c) as [t|] eqn:E.
  - by eapply slot_free.
  - apply slot_none; rewrite ?E; try done; by intros [? ?].
Qed.

Lemma elem_of_suffix {A} (x : A) l k : x ∈ l -> l `suffix_of` k -> x ∈ k.
Proof. intros Hx [j ->]. set_solver. Qed.

Lemma full_release c t : DRelease t ∈ full c -> c_ticket c = Some t.
Proof. unfold full, pre. destruct (c_ticket c); simpl; set_solver. Qed.

Lemma advance_slot cfg i id c p pd o :
  conn_ok c -> advance cfg i id c p pd = Some o -> slot_effect c (o_conn o) pd (o_pending o).
Proof.
  intros Hok H. pose proof (conn_ok_suffix c Hok) as Hsuf. unfold conn_ok in Hok. adv_cases H; simpl.
  all: try (apply finish_slot; done).
  all: try (apply slot_none; simpl; [done|done|set_solver|by rewrite Hpc|by rewrite Hpc]).
  1-3: simpl in *; destruct Hok as [Hd Ht]; pose proof (acquire_cases pd (c_ip c) (s_limit cfg) (s_dryRun cfg))
         as [[-> Hr]|(addr & Ha & Htk & Hr & Hadm)]; try congruence.
  - apply slot_none; simpl; rewrite ?Ht; try done; by intros [? ?].
  - by rewrite Hadm in *.
  - eapply (slot_take _ _ _ _ addr); try done; simpl; [congruence|rewrite Hr in *; simplify_eq; set_solver].
  - apply slot_none; simpl; rewrite ?Ht; try done; by intros [? ?].
  - match goal with |- context [finishPendingHandshake pd ?c1] =>
      change (finishPendingHandshake pd c1) with (finishPendingHandshake pd c) end. by apply finish_slot.
  - match goal with H : c_defers c = _ :: _ |- _ => rename H into Hd end.
    match goal with H : runDeferred _ _ _ _ = _ |- _ => apply runDeferred_slot in H as [[-> Hn]|(t & -> & ->)] end.
    + apply slot_none; simpl; try done; [|by rewrite Hpc..]. rewrite Hd. intros t _ [<-|?]%elem_of_cons; [|done].
      by destruct (Hn t).
    + assert (c_ticket c = Some t) by (apply (full_release c); rewrite <-?Hd in Hsuf; eapply elem_of_suffix; [|exact Hsuf]; rewrite Hd; set_solver).
      by apply (slot_free _ _ _ _ t); simpl; [..|rewrite Hpc].
Qed.

(** ** Proofs: the other goroutines *)

(** A step of another goroutine: it keeps the configuration well formed, the
    registry and the numbers of connections. *)
Definition frame (p p' : Proxy) : Prop :=
  ((exists v, implements p v) -> exists v', implements p' v') /\
  liveConns p' = liveConns p /\ same_conns (p_stats p) (p_stats p').

Lemma frame_stats p st : same_conns (p_stats p) st -> frame p (set_stats st p).
Proof. intros H. by split_and!. Qed.

Lemma exec_frame localOffset now p v m p' err :
  implements p v -> exec localOffset now p m = Some (p', err) -> frame p p'.
Proof.
  intros Himp He. pose proof (exec_refines localOffset now p v m Himp) as (p2 & err2 & He2 & Hs).
  rewrite He in He2. injection He2 as <- <-.
  split; [intros _; destruct (spec v m); destruct Hs as [_ ?]; subst; eauto|].
  destruct (exec_shape localOffset now p v m Himp) as [(e & He' & _)|(cfg & He' & Hsp)]; rewrite He in He'; injection He'.
  - intros _ ->. by split.
  - destruct Himp as (_ & old & Hold & _). destruct (view_ok (view_of cfg)) eqn:Hok.
    + destruct (swap_ok localOffset now p old cfg Hold Hok) as (p2 & -> & _ & Hl & Ht & _). intros [= -> ->].
      split; [done|]. by apply same_traffic_conns.
    + rewrite swap_fail by done. intros [= -> ->]. by split.
Qed.

Lemma rollover_frame localOffset now p : frame p (rolloverAllQuotas localOffset now p).
Proof.
  apply frame_stats. generalize (zip (names (p_secrets p)) (limits (p_secrets p))) as l. intros l.
  generalize (p_stats p). induction l as [|[n lim] l IH]; intros st; [done|]. simpl. intros k. rewrite IH.
  case_bool_decide; [|done]. by apply same_traffic_conns, rolloverIfNeeded_traffic.
Qed.

Lemma do_other_frame cfg a w w' :
  (exists v, implements (w_proxy w) v) -> do cfg a w = Some w' ->
  match a with
  | AAccept id ip => w_proxy w' = w_proxy w /\ w_pending w' = w_pending w /\ w_conns w !! id = None /\
      w_conns w' = <[id := newConn ip]> (w_conns w) /\ w_events w' = w_events w
  | AConn id i => exists c o, w_conns w !! id = Some c /\
      advance cfg i id c (w_proxy w) (w_pending w) = Some o /\ w_proxy w' = o_proxy o /\ w_pending w' = o_pending o /\
      w_conns w' = <[id := o_conn o]> (w_conns w) /\ w_events w' = w_events w ++ (pair id <$> o_events o)
  | _ => frame (w_proxy w) (w_proxy w') /\ w_pending w' = w_pending w /\ w_conns w' = w_conns w /\
      w_events w' = w_events w
  end.
Proof.
  intros [v Hv] H. destruct a as [id ip|id i|now m| |now|now name]; simpl in H.
  - by destruct (w_conns w !! id); simplify_eq/=.
  - destruct (w_conns w !! id) as [c|]; [|done]. simpl in H.
    destruct (advance _ _ _ _ _ _) as [o|] eqn:Ho; simplify_eq/=. by exists c, o.
  - destruct (exec _ _ _ _) as [[p err]|] eqn:He; simplify_eq/=. split_and!; [by eapply exec_frame|done..].
  - destruct (recomputeCaps _) as [st|] eqn:Hr; simplify_eq/=. split_and!; [|done..]. apply frame_stats.
    unfold recomputeCaps in Hr. destruct (computeFairCaps _ _); simplify_eq/=. by intros n.
  - simplify_eq/=. split_and!; [apply rollover_frame|done..].
  - simplify_eq/=. split_and!; [|done..]. by apply frame_stats, update_conns.
Qed.

(** ** The invariant of the whole proxy *)

Definition count_defer (d : deferred) (m : gmap nat conn) : Z :=
  Z.of_nat (size (filter (fun kv : nat * conn => d ∈ c_defers kv.2) m)).

Lemma count_defer_new d m id c : m !! id = None -> count_defer d (<[id := c]> m) = count_defer d m + holds d c.
Proof.
  intros Hn. unfold count_defer, holds. rewrite map_filter_insert. simpl. case_decide as Hd.
  - rewrite bool_decide_true by done. rewrite map_size_insert_None; [lia|].
    apply map_lookup_filter_None. by left.
  - rewrite bool_decide_false by done. rewrite delete_id by (apply Hn). lia.
Qed.

Lemma count_defer_insert d m id c c' :
  m !! id = Some c -> count_defer d (<[id := c']> m) = count_defer d m + (holds d c' - holds d c).
Proof.
  intros Hc. pose proof (lookup_delete_eq m id) as Hn.
  rewrite <-(insert_delete_eq m id c') at 1. rewrite <-(insert_delete_id m id c Hc) at 2.
  rewrite !count_defer_new by done. lia.
Qed.

(** The counters and the registry are those of the connections that still have
    to undo them. *)
Definition counts_ok (p : Proxy) (m : gmap nat conn) : Prop :=
  (forall n, connections (stats_of (p_stats p) n) = int64 (count_defer (DOnDisconnect n) m)) /\
  (forall n id, id ∈ default ∅ (liveConns p !! n) <-> exists c, m !! id = Some c /\ DUnregister n ∈ c_defers c).

Definition all_ok (m : gmap nat conn) : Prop := map_Forall (fun _ => conn_ok) m.

Lemma counts_ok_frame p p' m : frame p p' -> counts_ok p m -> counts_ok p' m.
Proof.
  intros (_ & Hl & Hc) [H1 H2]. split; [intros n; by rewrite Hc|intros n id]. by rewrite Hl.
Qed.

Lemma counts_ok_accept p m id ip : m !! id = None -> counts_ok p m -> counts_ok p (<[id := newConn ip]> m).
Proof.
  intros Hn [H1 H2]. split.
  - intros n. rewrite count_defer_new by done. unfold holds.
    rewrite bool_decide_false by (simpl; set_solver). by rewrite Z.add_0_r.
  - intros n k. rewrite H2. split; intros (c & Hc & Hd).
    + exists c. rewrite lookup_insert_ne by congruence. done.
    + apply lookup_insert_Some in Hc as [[-> <-]|[? ?]]; [simpl in Hd; set_solver|eauto].
Qed.

Lemma counts_ok_advance cfg i id c o p pd m :
  all_ok m -> m !! id = Some c -> advance cfg i id c p pd = Some o ->
  counts_ok p m -> counts_ok (o_proxy o) (<[id := o_conn o]> m).
Proof.
  intros Hall Hc Ho [H1 H2]. pose proof (Hall id c Hc) as Hok. split.
  - intros n. pose proof (advance_conns cfg i id c p pd o n Hok Ho) as Hb. unfold bumped in Hb.
    rewrite (count_defer_insert _ _ _ _ _ Hc). destruct (_ =? 0) eqn:E; zbool.
    + by rewrite Hb, H1, E, Z.add_0_r.
    + by rewrite Hb, H1, int64_add_l.
  - intros n k. rewrite (advance_live cfg i id c p pd o n k Hok Ho).
    + case_decide as Hk; [subst k|].
      * setoid_rewrite lookup_insert_eq. naive_solver.
      * rewrite H2. by setoid_rewrite (lookup_insert_ne m id k (o_conn o) (not_eq_sym Hk)).
    + rewrite H2. naive_solver.
Qed.

(** ** Proofs: slots *)

Lemma release_lookup pd t k :
  tickets (release pd t) !! k =
  if decide (k = t) then (fun x => mkTicket (t_addr x) true) <$> tickets pd !! t else tickets pd !! k.
Proof.
  unfold release. destruct (tickets pd !! t) as [[a []]|] eqn:E; simpl.
  - case_decide; subst; by rewrite ?E.
  - case_decide; subst; [|by rewrite list_lookup_insert_ne].
    by rewrite list_lookup_insert_eq by (by eapply lookup_lt_Some).
  - case_decide; subst; by rewrite ?E.
Qed.

Lemma release_length pd t : length (tickets (release pd t)) = length (tickets pd).
Proof. unfold release. destruct (tickets pd !! t) as [[a []]|]; simpl; by rewrite ?length_insert. Qed.

Lemma advance_ip cfg i id c p pd o : advance cfg i id c p pd = Some o -> c_ip (o_conn o) = c_ip c.
Proof. intros H. by adv_cases H. Qed.

Record slots_ok (pd : pendingHandshakes) (m : gmap nat conn) : Prop := {
  slots_bound : forall id c t, m !! id = Some c -> c_ticket c = Some t -> (t < length (tickets pd))%nat;
  slots_unique : forall id id' c c' t, m !! id = Some c -> m !! id' = Some c' ->
    c_ticket c = Some t -> c_ticket c' = Some t -> id = id';
  slots_owned : forall t a, tickets pd !! t = Some (mkTicket a false) ->
    exists id c, m !! id = Some c /\ c_ticket c = Some t /\ DRelease t ∈ c_defers c;
  slots_served : forall id c t, m !! id = Some c -> c_ticket c = Some t -> served (c_pc c) = true ->
    exists a, tickets pd !! t = Some (mkTicket a true);
  slots_waiting : forall id c t, m !! id = Some c -> c_ticket c = Some t -> waiting (c_pc c) = true ->
    exists a, addrOf (c_ip c) = Some a /\ tickets pd !! t = Some (mkTicket a false)
}.

Section SlotEffect.
Context (m : gmap nat conn) (id : nat) (c c' : conn) (pd pd' : pendingHandshakes).
Hypothesis Hc : m !! id = Some c.
Hypothesis Hip : c_ip c' = c_ip c.
Hypothesis Hm : slots_ok pd m.

(** The lookup in the updated map. *)
Lemma lookup_update k x : <[id := c']> m !! k = Some x -> (k = id /\ x = c') \/ (k <> id /\ m !! k = Some x).
Proof. intros H. apply lookup_insert_Some in H as [[-> ->]|[? ?]]; auto. Qed.

Lemma slots_none :
  pd' = pd -> c_ticket c' = c_ticket c ->
  (forall t, c_ticket c = Some t -> DRelease t ∈ c_defers c -> DRelease t ∈ c_defers c') ->
  (is_Some (c_ticket c) -> waiting (c_pc c') = true -> waiting (c_pc c) = true) ->
  (is_Some (c_ticket c) -> served (c_pc c') = true -> served (c_pc c) = true) ->
  slots_ok pd' (<[id := c']> m).
Proof.
  intros -> Ht Hd Hw Hs. destruct Hm as [H1 H2 H3 H4 H5]. split.
  - intros k x t [[-> ->]|[? ?]]%lookup_update Hx; [rewrite Ht in Hx|]; eauto.
  - intros k k' x x' t [[-> ->]|[? ?]]%lookup_update [[-> ->]|[? ?]]%lookup_update Hx Hx';
      rewrite ?Ht in *; [done|eauto..].
  - intros t a Ha. destruct (H3 t a Ha) as (k & x & Hk & Hx & Hin). destruct (decide (k = id)) as [->|Hne].
    + rewrite Hc in Hk. injection Hk as ->. exists id, c'. rewrite lookup_insert_eq, Ht. eauto.
    + exists k, x. by rewrite lookup_insert_ne.
  - intros k x t [[-> ->]|[? ?]]%lookup_update Hx Hsv; [rewrite Ht in Hx|]; eauto.
  - intros k x t [[-> ->]|[? ?]]%lookup_update Hx Hsv; [rewrite Ht in Hx; rewrite Hip|]; eauto.
Qed.

Lemma slots_take addr :
  tickets pd' = tickets pd ++ [mkTicket addr false] -> addrOf (c_ip c) = Some addr ->
  c_ticket c = None -> c_ticket c' = Some (length (tickets pd)) ->
  DRelease (length (tickets pd)) ∈ c_defers c' -> waiting (c_pc c') = true ->
  slots_ok pd' (<[id := c']> m).
Proof.
  intros Hpd Ha Hn Ht Hd Hw. destruct Hm as [H1 H2 H3 H4 H5].
  assert (served (c_pc c') = false) as Hns by (by destruct (c_pc c')).
  assert (forall k x t, m !! k = Some x -> c_ticket x = Some t -> t <> length (tickets pd)) as Hlt.
  { intros k x t Hk Hx ->. specialize (H1 k x _ Hk Hx). lia. }
  split; rewrite ?Hpd.
  - rewrite length_app. simpl. intros k x t [[-> ->]|[? ?]]%lookup_update Hx; [rewrite Ht in Hx; injection Hx; lia|].
    specialize (H1 k x t). assert (t < length (tickets pd))%nat by eauto. lia.
  - intros k k' x x' t [[-> ->]|[? Hk]]%lookup_update [[-> ->]|[? Hk']]%lookup_update Hx Hx'; [done|..|by eauto].
    + rewrite Ht in Hx. injection Hx as <-. by destruct (Hlt k' x' _ Hk' Hx').
    + rewrite Ht in Hx'. injection Hx' as <-. by destruct (Hlt k x _ Hk Hx).
  - intros t a Hta. apply lookup_app_Some in Hta as [Hta|[Hge Hta]].
    + destruct (H3 t a Hta) as (k & x & Hk & Hx & Hin). exists k, x. rewrite lookup_insert_ne; [done|].
      intros <-. congruence.
    + destruct (t - length (tickets pd))%nat as [|n] eqn:E; [|by destruct n].
      assert (t = length (tickets pd)) as -> by lia. exists id, c'. by rewrite lookup_insert_eq.
  - intros k x t [[-> ->]|[? ?]]%lookup_update Hx Hsv; [congruence|].
    destruct (H4 k x t) as [a Hk]; [done..|]. exists a. by apply lookup_app_l_Some.
  - intros k x t [[-> ->]|[? ?]]%lookup_update Hx Hsv.
    + rewrite Ht in Hx. injection Hx as <-. exists addr. rewrite Hip. split; [done|].
      by rewrite lookup_app_r, Nat.sub_diag.
    + destruct (H5 k x t) as (a & ? & ?); [done..|]. exists a. split; [done|]. by apply lookup_app_l_Some.
Qed.

Lemma slots_free t0 :
  pd' = release pd t0 -> c_ticket c = Some t0 -> c_ticket c' = Some t0 -> waiting (c_pc c') = false ->
  slots_ok pd' (<[id := c']> m).
Proof.
  intros -> Ht Ht' Hw. destruct Hm as [H1 H2 H3 H4 H5].
  assert (forall k x t, k <> id -> m !! k = Some x -> c_ticket x = Some t -> t <> t0) as Hne.
  { intros k x t Hk Hx Hxt ->. by destruct Hk; eapply H2. }
  split.
  - rewrite release_length. intros k x t [[-> ->]|[? ?]]%lookup_update Hx; [|by eauto].
    rewrite Ht' in Hx. injection Hx as <-. eauto.
  - intros k k' x x' t [[-> ->]|[? Hk]]%lookup_update [[-> ->]|[? Hk']]%lookup_update Hx Hx'; [done|..|by eauto].
    + rewrite Ht' in Hx. injection Hx as <-. by destruct (Hne k' x' t0).
    + rewrite Ht' in Hx'. injection Hx' as <-. by destruct (Hne k x t0).
  - intros t a. rewrite release_lookup. case_decide as Hd; [by destruct (tickets pd !! t0)|]. intros Ha.
    destruct (H3 t a Ha) as (k & x & Hk & Hx & Hin). exists k, x. rewrite lookup_insert_ne; [done|]. intros <-. congruence.
  - intros k x t [[-> ->]|[? ?]]%lookup_update Hx Hsv; rewrite release_lookup.
    + rewrite Ht' in Hx. injection Hx as <-. rewrite decide_True by done.
      destruct (lookup_lt_is_Some_2 (tickets pd) t0) as [[a b] ->]; [by eauto|]. by exists a.
    + rewrite decide_False by eauto. eauto.
  - intros k x t [[-> ->]|[? ?]]%lookup_update Hx Hsv; [congruence|]. rewrite release_lookup, decide_False by eauto. eauto.
Qed.

Lemma slots_ok_effect : slot_effect c c' pd pd' -> slots_ok pd' (<[id := c']> m).
Proof. destruct 1; [by apply slots_none|by eapply slots_take|by eapply slots_free]. Qed.
End SlotEffect.

Lemma slots_ok_accept pd m id ip : m !! id = None -> slots_ok pd m -> slots_ok pd (<[id := newConn ip]> m).
Proof.
  intros Hn [H1 H2 H3 H4 H5]. split.
  - intros k x t [[-> <-]|[? ?]]%lookup_insert_Some Hx; [done|eauto].
  - intros k k' x x' t [[-> <-]|[? ?]]%lookup_insert_Some [[-> <-]|[? ?]]%lookup_insert_Some Hx Hx'; [done..|eauto].
  - intros t a Ha. destruct (H3 t a Ha) as (k & x & ? & ? & ?). exists k, x. rewrite lookup_insert_ne by congruence. done.
  - intros k x t [[-> <-]|[? ?]]%lookup_insert_Some Hx; [done|eauto].
  - intros k x t [[-> <-]|[? ?]]%lookup_insert_Some Hx; [done|eauto].
Qed.

(** ** Proofs: events *)

(** An event between the first and the last one of a stream. *)
Definition inner (e : event) : Prop :=
  match e with EventStart _ | EventFinish => False | _ => True end.

Inductive event_effect (c c' : conn) (evs : list event) : Prop :=
  | ev_refused : c_pc c = PEntry -> evs = [] -> DEventFinish ∉ c_defers c' -> event_effect c c' evs
  | ev_start mid : c_pc c = PEntry -> evs = EventStart (c_ip c) :: mid -> Forall inner mid ->
      DEventFinish ∈ c_defers c' -> event_effect c c' evs
  | ev_inner : c_pc c <> PEntry -> DEventFinish ∈ c_defers c -> DEventFinish ∈ c_defers c' -> Forall inner evs ->
      event_effect c c' evs
  | ev_finish : c_pc c <> PEntry -> DEventFinish ∈ c_defers c -> DEventFinish ∉ c_defers c' -> evs = [EventFinish] ->
      event_effect c c' evs
  | ev_after : c_pc c <> PEntry -> DEventFinish ∉ c_defers c -> DEventFinish ∉ c_defers c' -> evs = [] ->
      event_effect c c' evs.

Lemma pre_finish c : DEventFinish ∈ pre c.
Proof. unfold pre. set_solver. Qed.

Lemma advance_events cfg i id c p pd o :
  conn_ok c -> advance cfg i id c p pd = Some o ->
  event_effect c (o_conn o) (o_events o) /\ c_pc (o_conn o) <> PEntry.
Proof.
  intros Hok H. pose proof (conn_ok_suffix c Hok) as Hsuf. pose proof (pre_finish c) as Hpf. unfold conn_ok in Hok.
  split; [|adv_cases H; simpl; congruence].
  adv_cases H; simpl in *;
    try match type of Hok with c_defers c = _ => assert (DEventFinish ∈ c_defers c) as Hf by (rewrite Hok; set_solver) end.
  all: try (apply ev_inner; simpl; [congruence|done|set_solver|by repeat constructor]).
  - apply ev_refused; simpl; [done..|]. destruct Hok as [-> _]. set_solver.
  - eapply ev_start; [done..| |simpl; set_solver]. case_bool_decide; by repeat constructor.
  - eapply ev_start; [done..| |simpl; set_solver]. case_bool_decide; by repeat constructor.
  - eapply ev_start; [done..| |simpl; set_solver]. case_bool_decide; by repeat constructor.
  - apply ev_inner; simpl; [congruence|done..|]. destruct (cr_event _); by repeat constructor.
  - apply ev_inner; simpl; [congruence|done..|]. destruct (cr_event _); by repeat constructor.
  - apply ev_after; simpl; [congruence|..|done]; match goal with H : c_defers c = [] |- _ => rewrite H end; set_solver.
  - match goal with H : c_defers c = _ :: _ |- _ => rename H into Hd end.
    pose proof (suffix_full_nodup c _ Hsuf) as Hnd. rewrite ?Hd in Hnd. apply NoDup_cons in Hnd as [Hnd _].
    destruct (decide (DEventFinish ∈ l)) as [Hl|Hl]; destruct d; simpl in *; simplify_eq/=; try done;
      first [ apply ev_inner; simpl; [congruence|rewrite Hd; set_solver|done|done]
            | apply ev_finish; simpl; [congruence|rewrite Hd; set_solver|done|done]
            | apply ev_after; simpl; [congruence|rewrite Hd; set_solver|done|done] ].
Qed.

(** The events of a stream, oldest first. *)
Definition events_of (id : nat) (l : list (nat * event)) : list event :=
  snd <$> filter (fun x : nat * event => x.1 = id) l.

(** Started by [EventStart], then inner events, then [EventFinish] if and only
    if the deferred send has run; nothing at all for a connection whose deadline
    could not be set. *)
Definition stream_events (c : conn) (l : list event) : Prop :=
  if decide (c_pc c = PEntry) then l = []
  else if decide (DEventFinish ∈ c_defers c) then exists mid, l = EventStart (c_ip c) :: mid /\ Forall inner mid
  else l = [] \/ exists mid, l = EventStart (c_ip c) :: mid ++ [EventFinish] /\ Forall inner mid.

Lemma stream_events_effect c c' evs l :
  c_ip c' = c_ip c -> c_pc c' <> PEntry -> event_effect c c' evs -> stream_events c l -> stream_events c' (l ++ evs).
Proof.
  intros Hip Hpc He. unfold stream_events. rewrite (decide_False (P:=c_pc c' = PEntry)) by done. rewrite Hip.
  destruct He as [Hc -> Hf|mid Hc -> Hmid Hf|Hc Hf Hf' Hin|Hc Hf Hf' ->|Hc Hf Hf' ->].
  - rewrite decide_True, decide_False by done. intros ->. by left.
  - rewrite !decide_True by done. intros ->. by exists mid.
  - rewrite (decide_False (P:=c_pc c = PEntry)), !decide_True by done. intros (mid & -> & Hmid).
    exists (mid ++ evs). split; [done|]. by apply Forall_app.
  - rewrite (decide_False (P:=c_pc c = PEntry)), decide_True, decide_False by done. intros (mid & -> & Hmid).
    right. by exists mid.
  - rewrite (decide_False (P:=c_pc c = PEntry)), !decide_False by done. by rewrite app_nil_r.
Qed.

Lemma events_of_app id k l evs :
  events_of id (l ++ (pair k <$> evs)) = events_of id l ++ (if decide (k = id) then evs else []).
Proof.
  unfold events_of. rewrite filter_app, fmap_app. f_equal. induction evs as [|e evs IH]; [by case_decide|].
  rewrite fmap_cons, filter_cons. simpl. case_decide; [by rewrite fmap_cons, IH|done].
Qed.

Definition events_ok (evs : list (nat * event)) (m : gmap nat conn) : Prop :=
  forall id, match m !! id with Some c => stream_events c (events_of id evs) | None => events_of id evs = [] end.

Lemma events_ok_advance cfg i id c o p pd m evs :
  all_ok m -> m !! id = Some c -> advance cfg i id c p pd = Some o ->
  events_ok evs m -> events_ok (evs ++ (pair id <$> o_events o)) (<[id := o_conn o]> m).
Proof.
  intros Hall Hc Ho He k. specialize (He k). rewrite events_of_app. destruct (decide (id = k)) as [<-|Hne].
  - rewrite lookup_insert_eq. rewrite Hc in He. destruct (advance_events cfg i id c p pd o (Hall id c Hc) Ho) as [H1 H2].
    eapply stream_events_effect; [by eapply advance_ip|done..].
  - rewrite lookup_insert_ne by done. by rewrite app_nil_r.
Qed.

Lemma events_ok_accept evs m id ip : m !! id = None -> events_ok evs m -> events_ok evs (<[id := newConn ip]> m).
Proof.
  intros Hn He k. specialize (He k). destruct (decide (id = k)) as [<-|Hne].
  - rewrite lookup_insert_eq. by rewrite Hn in He.
  - by rewrite lookup_insert_ne.
Qed.

(** ** Proofs: who is served *)

(** Past the authentication. *)
Definition authenticated (l : pc) : bool :=
  bool_decide (l ∈ [PServerHello; PThrottle; POnConnect; PRegister; PDoppel; PObfs; PDeadline; PCall; PRelay]).

(** The identity of a stream is one entry of the snapshot it loaded. *)
Definition identified (c : conn) : Prop :=
  exists cfg e, c_set c = Some (buildConfig cfg) /\ entry_of cfg (c_secretName c) = Some e /\
    c_key c = Key (e_secret e) /\ Disabled (e_limits e) = false /\
    c_adTag c = match e_tag e with Some t => Some t | None => GlobalAdTag cfg end.

Definition auth_ok (c : conn) : Prop :=
  (forall s, c_set c = Some s -> exists cfg, s = buildConfig cfg) /\
  (authenticated (c_pc c) = true -> identified c).

Lemma checkLimits_allowed localOffset now st name lim st' r :
  checkLimits localOffset now st name lim = (st', (true, r)) -> Disabled lim = false.
Proof. unfold checkLimits. by destruct (Disabled lim). Qed.

Lemma build_identified c cfg i s name lim :
  let set := buildConfig cfg in
  secrets set !! i = Some s -> names set !! i = Some name -> limits set !! i = Some lim -> Disabled lim = false ->
  c_set c = Some set -> identified (goto PServerHello (set_matched name (Key s) (effectiveAdTag set i) c)).
Proof.
  intros set Hs Hn Hl Hd Hset. exists cfg. simpl.
  pose proof (build_entry_at (Secrets cfg) (SecretAdTags cfg) (GlobalAdTag cfg) (Limits cfg) i name Hn) as He.
  unfold entry_at in He. fold (buildConfig cfg) in He. fold set in He. rewrite Hs in He. cbn [mbind option_bind] in He.
  destruct (adTags set !! i) as [tag|] eqn:Ht; cbn [mbind option_bind] in He.
  - rewrite Hl in He. cbn [mbind option_bind] in He. exists (mkEntry s tag lim). split_and!; [done| |done..|].
    + rewrite He. by destruct cfg.
    + unfold effectiveAdTag. by rewrite Ht.
  - exfalso. apply lookup_ge_None in Ht. apply lookup_lt_Some in Hn.
    unfold set, buildConfig in Ht, Hn. simpl in Ht, Hn. rewrite length_fmap in Ht. lia.
Qed.

Lemma advance_auth cfg i id c p pd o :
  (exists v, implements p v) -> auth_ok c -> advance cfg i id c p pd = Some o -> auth_ok (o_conn o).
Proof.
  intros (v & _ & cf & Hp & _) [Hset Hid] H. split.
  - adv_cases H; simpl; intros s' Hs'; try (apply Hset; congruence). injection Hs' as <-. by exists cf.
  - adv_cases H; simpl; try done; intros Hau; try (apply Hid; by rewrite Hpc).
    + match goal with H : c_set c = Some ?s |- _ => destruct (Hset s eq_refl) as [cf' ->] end.
      match goal with H : negb ?b = false |- _ => destruct b; [|done] end.
      match goal with H : checkLimits _ _ _ _ _ = _ |- _ => apply checkLimits_allowed in H end.
      by apply build_identified with (lim := s2).
    + by apply Hid.
    + by apply Hid.
    + by rewrite Hpc in Hau.
Qed.

(** ** The invariant *)

Record world_ok (cfg : settings) (w : world) : Prop := {
  ok_config : exists v, implements (w_proxy w) v;
  ok_conns : all_ok (w_conns w);
  ok_counts : counts_ok (w_proxy w) (w_conns w);
  ok_slots : slots_ok (w_pending w) (w_conns w);
  ok_reachable : reachable (s_limit cfg) (s_dryRun cfg) (w_pending w);
  ok_events : events_ok (w_events w) (w_conns w);
  ok_auth : map_Forall (fun _ => auth_ok) (w_conns w)
}.

Lemma initial_ok cfg w : initial w -> world_ok cfg w.
Proof.
  intros (Hv & Hc & Hl & Hp & Hm & He). split; rewrite ?Hm, ?Hp, ?He.
  - done.
  - apply map_Forall_empty.
  - split; [intros n; by rewrite Hc|]. intros n id. rewrite Hl, lookup_empty. simpl.
    setoid_rewrite lookup_empty. set_solver.
  - by split.
  - apply rtc_refl.
  - intros id. by rewrite lookup_empty.
  - apply map_Forall_empty.
Qed.

(** A run of a connection takes at most one step of the limiter. *)
Lemma advance_pending cfg i id c p pd o :
  advance cfg i id c p pd = Some o -> rtc (pstep (s_limit cfg) (s_dryRun cfg)) pd (o_pending o).
Proof.
  intros H. assert (forall t, rtc (pstep (s_limit cfg) (s_dryRun cfg)) pd (release pd t)) as Hr.
  { intros t. apply rtc_once, step_release. }
  adv_cases H; simpl in *; try apply rtc_refl; try apply rtc_once, step_acquire;
    unfold finishPendingHandshake; simpl; try (destruct (c_ticket c); [apply Hr|apply rtc_refl]).
  match goal with H : runDeferred _ _ _ _ = _ |- _ => apply runDeferred_slot in H as [[-> _]|(t & _ & ->)] end;
    [apply rtc_refl|apply Hr].
Qed.

Lemma advance_config cfg i id c p pd o :
  advance cfg i id c p pd = Some o -> p_secrets (o_proxy o) = p_secrets p.
Proof.
  intros H. adv_cases H; try done. simpl.
  match goal with H : runDeferred _ ?d _ _ = _ |- _ => destruct d; simpl in H; injection H as <- <- <- end; try done.
  unfold unregisterConn. by destruct (liveConns p !! name); [destruct (_ =? 0)%nat|].
Qed.

Lemma world_ok_step cfg w w' : wstep cfg w w' -> world_ok cfg w -> world_ok cfg w'.
Proof.
  intros [a Ha] [Hv Hall Hcnt Hsl Hre Hev Hau]. pose proof (do_other_frame cfg a w w' Hv Ha) as H.
  destruct a as [id ip|id i|now m| |now|now name].
  - destruct H as (Hp & Hpd & Hn & Hm & He). split; rewrite ?Hp, ?Hpd, ?Hm, ?He; try done.
    + by apply map_Forall_insert_2.
    + by apply counts_ok_accept.
    + by apply slots_ok_accept.
    + by apply events_ok_accept.
    + by apply map_Forall_insert_2.
  - destruct H as (c & o & Hc & Ho & Hp & Hpd & Hm & He). split; rewrite ?Hp, ?Hpd, ?Hm, ?He.
    + destruct Hv as (v & Hv). exists v. unfold implements in *. by rewrite (advance_config _ _ _ _ _ _ _ Ho).
    + apply map_Forall_insert_2; [|done]. eapply advance_conn_ok; [|done]. by eapply Hall.
    + by eapply counts_ok_advance.
    + eapply slots_ok_effect; [done|by eapply advance_ip|done|]. eapply advance_slot; [|done]. by eapply Hall.
    + unfold reachable in *. etrans; [done|]. by eapply advance_pending.
    + by eapply events_ok_advance.
    + apply map_Forall_insert_2; [|done]. eapply advance_auth; [done| |done]. by eapply Hau.
  - destruct H as (Hf & Hpd & Hm & He). split; rewrite ?Hpd, ?Hm, ?He; try done; [by apply Hf|by eapply counts_ok_frame].
  - destruct H as (Hf & Hpd & Hm & He). split; rewrite ?Hpd, ?Hm, ?He; try done; [by apply Hf|by eapply counts_ok_frame].
  - destruct H as (Hf & Hpd & Hm & He). split; rewrite ?Hpd, ?Hm, ?He; try done; [by apply Hf|by eapply counts_ok_frame].
  - destruct H as (Hf & Hpd & Hm & He). split; rewrite ?Hpd, ?Hm, ?He; try done; [by apply Hf|by eapply counts_ok_frame].
Qed.

Lemma reach_ok cfg w : reach cfg w -> world_ok cfg w.
Proof.
  intros (w0 & Hi & Hr). apply (initial_ok cfg) in Hi. induction Hr; [done|]. eauto using world_ok_step.
Qed.

(** ** Theorems *)

(** C2: in every interleaving of connections, management requests, throttle
    ticks and roll-overs, the connection counter of a secret is the number of
    its streams between [OnConnect] and their deferred [OnDisconnect], as an
    [int64], and a stream is registered under a name exactly from
    [registerConn] to its deferred [unregisterConn]. *)
Theorem serve_counts cfg w :
  reach cfg w ->
  (forall n, connections (stats_of (p_stats (w_proxy w)) n) = int64 (count_defer (DOnDisconnect n) (w_conns w))) /\
  (forall n id, id ∈ default ∅ (liveConns (w_proxy w) !! n) <->
     exists c, w_conns w !! id = Some c /\ DUnregister n ∈ c_defers c).
Proof. intros H. apply (ok_counts _ _ (reach_ok cfg w H)). Qed.

(** Without waiting or returning connections no slot is taken. *)
Lemma slots_all_free cfg w :
  world_ok cfg w -> Z.of_nat (length (tickets (w_pending w))) < 2 ^ 32 ->
  map_Forall (fun _ c => waiting (c_pc c) = false /\ c_pc c <> PReturn) (w_conns w) ->
  pending (w_pending w) = ∅.
Proof.
  intros [_ Hall _ Hsl Hre _ _] Hlen Hno. apply map_eq. intros a. rewrite lookup_empty.
  pose proof (pending_inv_reachable _ _ _ Hre Hlen a) as Ha.
  enough (outstanding (w_pending w) a = 0%nat) as Hz.
  { destruct (pending (w_pending w) !! a); [|done]. destruct Ha as [-> Hpos]. rewrite Hz in Hpos. lia. }
  apply open_count_all_released. intros t [a' []] Ht; [done|].
  destruct (slots_owned _ _ Hsl t a' Ht) as (id & c & Hc & Hct & Hin). destruct (Hno id c Hc) as [Hw Hr].
  destruct (served (c_pc c)) eqn:Hs.
  - destruct (slots_served _ _ Hsl id c t Hc Hct Hs) as [b Hb]. congruence.
  - pose proof (Hall id c Hc) as Hok. unfold conn_ok in Hok. destruct (c_pc c); simpl in *; try done.
    + destruct Hok as [Hok _]. rewrite Hok in Hin. set_solver.
    + rewrite Hok in Hin. set_solver.
Qed.

(** C8: a stream holds its pending-handshake slot exactly until its fake TLS
    handshake is over.  While it waits for the client hello or sends the server
    hello, its slot is counted under its own address; once the server hello was
    sent, or the stream went to the fronting domain, the slot is released; and
    (below 2^32 connections) when no stream is waiting or returning, the limiter's
    map is empty.  The sending of the server hello comes after the verification
    of the secret, so an authenticated client that does not read keeps its slot
    (see [slot_outlives_verification]); the comments say that the slot is released
    as soon as the secret is verified. *)
Theorem serve_slots cfg w :
  reach cfg w ->
  (forall id c t, w_conns w !! id = Some c -> c_ticket c = Some t -> waiting (c_pc c) = true ->
     exists a, addrOf (c_ip c) = Some a /\ tickets (w_pending w) !! t = Some (mkTicket a false)) /\
  (forall id c t, w_conns w !! id = Some c -> c_ticket c = Some t -> served (c_pc c) = true ->
     exists a, tickets (w_pending w) !! t = Some (mkTicket a true)) /\
  (Z.of_nat (length (tickets (w_pending w))) < 2 ^ 32 ->
   map_Forall (fun _ c => waiting (c_pc c) = false /\ c_pc c <> PReturn) (w_conns w) ->
   pending (w_pending w) = ∅).
Proof.
  intros H%reach_ok. split_and!.
  - apply (slots_waiting _ _ (ok_slots _ _ H)).
  - apply (slots_served _ _ (ok_slots _ _ H)).
  - by eapply slots_all_free.
Qed.

(** The events of a stream are bracketed in every interleaving: nothing
    before [EventStart], at most one of it, then inner events, and [EventFinish]
    once, last, when the stream returns; a finished stream that was started has
    its [EventFinish]. *)
Theorem serve_events cfg w id c :
  reach cfg w -> w_conns w !! id = Some c ->
  let l := events_of id (w_events w) in
  (l = [] \/ exists mid, (l = EventStart (c_ip c) :: mid \/ l = EventStart (c_ip c) :: mid ++ [EventFinish]) /\ Forall inner mid) /\
  (c_pc c = PDone -> l = [] \/ exists mid, l = EventStart (c_ip c) :: mid ++ [EventFinish] /\ Forall inner mid).
Proof.
  intros H%reach_ok Hc. pose proof (ok_events _ _ H id) as He. rewrite Hc in He.
  pose proof (ok_conns _ _ H id c Hc) as Hok. intros l. unfold stream_events in He. fold l in He. split.
  - case_decide; [by left|]. case_decide; destruct He as [Hl|He] || idtac; naive_solver.
  - intros Hd. unfold conn_ok in Hok. rewrite Hd in *. rewrite decide_False in He by done.
    rewrite decide_False in He by (rewrite Hok; set_solver). done.
Qed.

(** C10: the identity of a stream is consistent whatever is reloaded meanwhile:
    past authentication its name, key and advertising tag are those of one entry
    of the one configuration it loaded, and that entry was not disabled. *)
Theorem serve_identity cfg w id c :
  reach cfg w -> w_conns w !! id = Some c -> authenticated (c_pc c) = true -> identified c.
Proof. intros H%reach_ok Hc. apply (ok_auth _ _ H id c Hc). Qed.

(** C9: nothing leaks: when every stream is done, every connection counter is
    zero, no stream is registered and (below 2^32 connections) no
    pending-handshake slot is taken. *)
Theorem serve_quiescent cfg w :
  reach cfg w -> map_Forall (fun _ c => c_pc c = PDone) (w_conns w) ->
  (forall n, connections (stats_of (p_stats (w_proxy w)) n) = 0) /\
  (forall n, default ∅ (liveConns (w_proxy w) !! n) = ∅) /\
  (Z.of_nat (length (tickets (w_pending w))) < 2 ^ 32 -> pending (w_pending w) = ∅).
Proof.
  intros H%reach_ok Hd. destruct (ok_counts _ _ H) as [Hc Hl].
  assert (forall id c, w_conns w !! id = Some c -> c_defers c = []) as Hnil.
  { intros id c Hi. pose proof (ok_conns _ _ H id c Hi) as Hok. unfold conn_ok in Hok.
    by rewrite (Hd id c Hi) in Hok. }
  split_and!.
  - intros n. rewrite Hc. unfold count_defer. rewrite map_empty_filter_2; [done|].
    intros id c Hi Hin. simpl in Hin. rewrite (Hnil id c Hi) in Hin. set_solver.
  - intros n. apply set_eq. intros id. rewrite Hl. split; [|set_solver].
    intros (c & Hi & Hin). rewrite (Hnil id c Hi) in Hin. set_solver.
  - intros Hlen. apply (slots_all_free cfg); [done..|]. intros id c Hi. by rewrite (Hd id c Hi).
Qed.

(** *** Witnesses *)

Definition demo_settings : settings :=
  mkSettings 2 false (mkTelegram (mkAddrSet None None) preferIPPreferIPv6) true (fun l => l) (fun _ => 0).

Definition demo_world : world :=
  mkWorld (mkProxy (buildConfig demo_cfg) (NewProxyStats 0) ∅ ∅) newPendingHandshakes ∅ [].

Definition demo_env : callEnv := mkCallEnv (Fail EOF) (fun _ => None) (fun _ => None) (fun _ => Ok "host").

(** A stream of "bob" up to its relay. *)
Definition demo_serve : list act :=
  [AAccept 1 demo_ip; AConn 1 (InErr false); AConn 1 InStep; AConn 1 (InHello (HelloOk 1 "b.com") false 5);
   AConn 1 (InErr false); AConn 1 InStep; AConn 1 (InTime 6); AConn 1 InStep; AConn 1 (InErr false);
   AConn 1 (InObfs (Ok 2)); AConn 1 (InErr false); AConn 1 (InCall demo_env)].

(** The same stream until all its deferred calls have run. *)
Definition demo_finish : list act :=
  demo_serve ++ [AConn 1 (InRead 100); AConn 1 InEnd] ++ replicate 9 (AConn 1 InStep).

Lemma demo_initial : initial demo_world.
Proof.
  split_and!; try done. exists (view_of demo_cfg). split; [vm_compute; reflexivity|by exists demo_cfg].
Qed.

Lemma run_steps cfg l w w' : run cfg l w = Some w' -> rtc (wstep cfg) w w'.
Proof.
  revert w. induction l as [|a l IH]; intros w; simpl; [intros [= ->]; apply rtc_refl|].
  destruct (do cfg a w) as [w1|] eqn:Ha; [|done]. simpl. intros H. eapply rtc_l; [by exists a|]. by apply IH.
Qed.

Lemma run_reach l w : run demo_settings l demo_world = Some w -> reach demo_settings w.
Proof. intros H. exists demo_world. split; [apply demo_initial|by eapply run_steps]. Qed.

Definition demo_at (l : list act) : world := default demo_world (run demo_settings l demo_world).

Lemma demo_at_reach l : is_Some (run demo_settings l demo_world) -> reach demo_settings (demo_at l).
Proof. intros [w Hw]. apply (run_reach l). unfold demo_at. by rewrite Hw. Qed.

Lemma demo_serve_reach : reach demo_settings (demo_at demo_serve).
Proof. apply demo_at_reach. apply (bool_decide_unpack _). vm_compute. exact I. Qed.

Lemma demo_finish_reach : reach demo_settings (demo_at demo_finish).
Proof. apply demo_at_reach. apply (bool_decide_unpack _). vm_compute. exact I. Qed.

Definition demo_conn : conn := default (newConn []) (w_conns (demo_at demo_serve) !! 1%nat).

Lemma serve_counts_witness :
  connections (stats_of (p_stats (w_proxy (demo_at demo_serve))) "bob") = 1 /\
  1%nat ∈ default ∅ (liveConns (w_proxy (demo_at demo_serve)) !! "bob").
Proof.
  destruct (serve_counts demo_settings (demo_at demo_serve) demo_serve_reach) as [Hc Hl]. split.
  - rewrite Hc. vm_compute. reflexivity.
  - apply Hl. exists demo_conn. split; [vm_compute; reflexivity|]. apply (bool_decide_unpack _). vm_compute. exact I.
Defined.

Lemma serve_slots_witness : pending (w_pending (demo_at demo_finish)) = ∅.
Proof.
  apply (serve_slots demo_settings (demo_at demo_finish) demo_finish_reach).
  - vm_compute. reflexivity.
  - apply (bool_decide_unpack _). vm_compute. exact I.
Defined.

Lemma serve_events_witness :
  let l := events_of 1 (w_events (demo_at demo_serve)) in
  l = [] \/ exists mid, (l = EventStart (c_ip demo_conn) :: mid \/ l = EventStart (c_ip demo_conn) :: mid ++ [EventFinish]) /\
                        Forall inner mid.
Proof.
  apply (serve_events demo_settings (demo_at demo_serve) 1 demo_conn demo_serve_reach). vm_compute. reflexivity.
Defined.

Lemma serve_identity_witness : identified demo_conn.
Proof.
  apply (serve_identity demo_settings (demo_at demo_serve) 1 demo_conn demo_serve_reach); vm_compute; reflexivity.
Defined.

Lemma serve_quiescent_witness :
  connections (stats_of (p_stats (w_proxy (demo_at demo_finish))) "bob") = 0.
Proof.
  apply (serve_quiescent demo_settings (demo_at demo_finish) demo_finish_reach).
  apply (bool_decide_unpack _). vm_compute. exact I.
Defined.

(** ** A stream that outlives its secret

    [ReloadSecrets] promises that connections whose secret disappeared are
    closed.  It closes the registered ones; a stream that authenticated before
    the swap and registers after it is missed. *)

(** A stream of "bob" authenticates, "bob" is deleted, the stream registers. *)
Definition demo_race : list act :=
  take 6 demo_serve ++ [AMutate 7 (MDelete "bob")] ++ drop 6 demo_serve.

(** There is an interleaving in which a stream is relayed to Telegram under
    a name that is no longer configured and no [Close] was called on it: it
    authenticated with the old snapshot and registered after the swap had
    closed the registered streams. *)
Theorem reload_race :
  let w := demo_at demo_race in
  reach demo_settings w /\
  exists c, w_conns w !! 1%nat = Some c /\ c_pc c = PRelay /\ c_secretName c = "bob" /\
    hasSecret (w_proxy w) "bob" = false /\ 1%nat ∉ closed (w_proxy w).
Proof.
  split; [apply demo_at_reach; apply (bool_decide_unpack _); vm_compute; exact I|].
  exists (default (newConn []) (w_conns (demo_at demo_race) !! 1%nat)).
  split_and!; [vm_compute; reflexivity..|]. apply (bool_decide_unpack _). vm_compute. exact I.
Qed.

(** The secret of a stream is verified, and its slot is still held, while the
    server hello is being sent. *)
Lemma slot_outlives_verification :
  let w := demo_at (take 4 demo_serve) in
  reach demo_settings w /\
  exists c t a, w_conns w !! 1%nat = Some c /\ authenticated (c_pc c) = true /\ c_secretName c = "bob" /\
    c_ticket c = Some t /\ tickets (w_pending w) !! t = Some (mkTicket a false).
Proof.
  split; [apply demo_at_reach; apply (bool_decide_unpack _); vm_compute; exact I|].
  eexists _, _, _. split; [vm_compute; reflexivity|]. split_and!; vm_compute; reflexivity.
Qed.
