(* ===== verification/GoIO.v ===== *)
(** * Byte streams: the parts of packages [io], [bufio] and [bytes] the program uses

    The reading side of a connection is the bytes it will deliver and the error
    that ends them.  How the bytes are split over reads does not matter to
    [io.ReadFull] and [io.CopyN], the operations the parsers use. *)

From S2P Require Import Prelude.

Record source := mkSource { avail : list byte; fin : goerr }.

(** A [bytes.Buffer]: it ends with [io.EOF]. *)
Definition buffer (l : list byte) : source := mkSource l EOF.

(** [io.ReadFull] of [n] bytes: nothing read gives the stream's error, a part
    turns [io.EOF] into [io.ErrUnexpectedEOF]. *)
Definition read_full (n : nat) (s : source) : res (list byte) * source :=
  if (n <=? length (avail s))%nat then (Ok (take n (avail s)), mkSource (drop n (avail s)) (fin s))
  else (Fail (if (length (avail s) =? 0)%nat then fin s
              else if bool_decide (fin s = EOF) then ErrUnexpectedEOF else fin s), mkSource [] (fin s)).

(** [io.CopyN] of [n] bytes: what was copied, and the error of a short copy. *)
Definition copy_n (n : nat) (s : source) : list byte * option goerr * source :=
  (take n (avail s), if (n <=? length (avail s))%nat then None else Some (fin s), mkSource (drop n (avail s)) (fin s)).

(** One [Read] of a connection into [p] bytes of which [n] have arrived: at least
    one byte while there are any. *)
Definition sock_read (n p : nat) (s : source) : res (list byte) * source :=
  match avail s with
  | [] => (Fail (fin s), s)
  | l => let k := Nat.min (Nat.max 1 n) p in (Ok (take k l), mkSource (drop k l) (fin s))
  end.

Lemma read_full_ok n s l s' : read_full n s = (Ok l, s') <-> avail s = l ++ avail s' /\ length l = n /\ fin s' = fin s.
Proof.
  unfold read_full. destruct (n <=? length (avail s))%nat eqn:E; zbool; split.
  - intros [= <- <-]. simpl. rewrite take_drop, length_take. split_and!; [done|lia|done].
  - intros (Ha & Hl & Hf). rewrite Ha, <-Hl, take_app_length, drop_app_length. destruct s'; simpl in *. by subst.
  - by intros [=].
  - intros (Ha & Hl & _). rewrite Ha, length_app in E. lia.
Qed.

Lemma read_full_0 s : read_full 0 s = (Ok [], s).
Proof. by apply read_full_ok. Qed.

Lemma read_full_app n l k e : length l = n -> read_full n (mkSource (l ++ k) e) = (Ok l, mkSource k e).
Proof. intros. by apply read_full_ok. Qed.

Lemma copy_n_app n l k e : length l = n -> copy_n n (mkSource (l ++ k) e) = (l, None, mkSource k e).
Proof.
  intros <-. unfold copy_n. simpl. rewrite take_app_length, drop_app_length.
  rewrite length_app. by rewrite (proj2 (Nat.leb_le _ _)) by lia.
Qed.

