(* ===== verification/TLS.v ===== *)
(** * TLS records: mtglib/internal/tls

    Reading and writing of records, and [Conn], the connection that carries the
    obfuscated stream in ApplicationData records. *)

From S2P Require Import Prelude GoIO.

Definition SizeHeader : nat := 5.
Definition MaxRecordSize : nat := Z.to_nat 16384.
Definition MaxRecordPayloadSize : nat := MaxRecordSize - SizeHeader.

Definition TypeChangeCipherSpec : byte := Byte.x14.
Definition TypeHandshake : byte := Byte.x16.
Definition TypeApplicationData : byte := Byte.x17.

Definition TLSVersion : list byte := [Byte.x03; Byte.x03].

(** [ReadRecord(r, w)]: the record type or the error, the bytes written to [w]
    (also by a failed copy) and the rest of the stream. *)
Definition ReadRecord (s : source) : res byte * list byte * source :=
  match read_full SizeHeader s with
  | (Fail e, s) => (Fail e, [], s)
  | (Ok buf, s) =>
      if negb (bool_decide (slice 1 3 buf = TLSVersion)) then (Fail (Errorf "incorrect tls version"), [], s) else
      let length := be_combine (slice 3 5 buf) in
      let '(w, err, s) := copy_n (Z.to_nat length) s in
      (match err with None => Ok (hd Byte.x00 buf) | Some e => Fail e end, w, s)
  end.

(** [WriteRecordInPlace]: what is written to the connection. *)
Definition WriteRecordInPlace (buf : list byte) (payloadLen : nat) : res (list byte) :=
  if (MaxRecordPayloadSize <? payloadLen)%nat then Fail (Errorf "payload exceeds max") else
  let buf := copy_at 0 [TypeApplicationData] buf in
  let buf := copy_at 1 TLSVersion buf in
  let buf := copy_at 3 (be_split 2 (uwrap 16 (Z.of_nat payloadLen))) buf in
  Ok (slice 0 (SizeHeader + payloadLen) buf).

Definition WriteRecord (payload : list byte) : res (list byte) :=
  let buf := copy_at SizeHeader payload (replicate MaxRecordSize Byte.x00) in
  WriteRecordInPlace buf (length payload).

(** ** Conn *)

(** The reading half with [read] set: the decoded bytes not yet taken and the
    connection.  [len(p)] is the argument of [Read] and positive. *)
Record tlsConn := mkTLS { readBuf : list byte; conn_src : source }.

(** The loop of [Conn.Read]; every round takes a header from the stream, so its
    length is enough fuel. *)
Fixpoint Conn_Read (fuel : nat) (p : nat) (c : tlsConn) : option (res (list byte) * tlsConn) :=
  match readBuf c with
  | _ :: _ => Some (Ok (take p (readBuf c)), mkTLS (drop p (readBuf c)) (conn_src c))
  | [] =>
      match fuel with
      | O => None
      | S fuel =>
          match ReadRecord (conn_src c) with
          | (Fail e, w, s) => Some (Fail e, mkTLS w s)
          | (Ok recordType, w, s) =>
              Conn_Read fuel p (mkTLS (if bool_decide (recordType = TypeApplicationData) then w else []) s)
          end
      end
  end.

Definition read_fuel (c : tlsConn) : nat := S (length (avail (conn_src c))).

(** [Conn.Write] with [write] set: the count it returns, and what it writes. *)
Definition Conn_Write (p : list byte) : nat * res (list byte) := (length p, WriteRecord p).

(** [New(conn, read, write)]: each direction either speaks records or passes
    bytes through to the connection below. *)
Record tlsModes := mkModes { m_read : bool; m_write : bool; m_conn : tlsConn }.

Definition New (s : source) (read write : bool) : tlsModes := mkModes read write (mkTLS [] s).

(** [Read] of at most [p] bytes; [n] bytes have arrived where the connection is
    read directly. *)
Definition modes_Read (n p : nat) (c : tlsModes) : option (res (list byte) * tlsModes) :=
  if negb (m_read c) then
    let '(r, s) := sock_read n p (conn_src (m_conn c)) in Some (r, mkModes (m_read c) (m_write c) (mkTLS (readBuf (m_conn c)) s))
  else '(r, t) ← Conn_Read (read_fuel (m_conn c)) p (m_conn c); Some (r, mkModes (m_read c) (m_write c) t).

Definition modes_Write (p : list byte) (c : tlsModes) : nat * res (list byte) :=
  if negb (m_write c) then (length p, Ok p) else Conn_Write p.

(** Reads, each with the bytes that have arrived, until one fails. *)
Fixpoint modes_reads (ps : list (nat * nat)) (c : tlsModes) : option (list byte * option goerr * tlsModes) :=
  match ps with
  | [] => Some ([], None, c)
  | (n, p) :: ps =>
      '(r, c) ← modes_Read n p c;
      match r with
      | Fail e => Some ([], Some e, c)
      | Ok l => '(l', e, c) ← modes_reads ps c; Some (l ++ l', e, c)
      end
  end.

(** ** Specification *)

(** A record on the wire. *)
Definition record (typ : byte) (payload : list byte) : list byte :=
  typ :: TLSVersion ++ be_split 2 (Z.of_nat (length payload)) ++ payload.

(** The payload bytes a stream of whole records carries. *)
Definition app_data (rs : list (byte * list byte)) : list byte :=
  concat (map (fun r => if bool_decide (r.1 = TypeApplicationData) then r.2 else []) rs).

Definition wire (rs : list (byte * list byte)) : list byte := concat (map (fun r => record r.1 r.2) rs).

Definition rec_ok (r : byte * list byte) : Prop := Z.of_nat (length r.2) < 2 ^ 16.

(** [Read]s of the given sizes until one fails: the bytes in order, the error
    and the connection. *)
Fixpoint read_many (ps : list nat) (c : tlsConn) : option (list byte * option goerr * tlsConn) :=
  match ps with
  | [] => Some ([], None, c)
  | p :: ps =>
      '(r, c) ← Conn_Read (read_fuel c) p c;
      match r with
      | Fail e => Some ([], Some e, c)
      | Ok l => '(l', e, c) ← read_many ps c; Some (l ++ l', e, c)
      end
  end.

(** ** Proofs *)

Lemma length_record t p : length (record t p) = (5 + length p)%nat.
Proof. unfold record. rewrite length_cons, !length_app, length_be_split. simpl. lia. Qed.

Lemma write_header N p :
  (5 + length p <= N)%nat ->
  exists T, copy_at SizeHeader p (replicate N Byte.x00) = replicate 5 Byte.x00 ++ p ++ T.
Proof.
  intros H. unfold copy_at, SizeHeader. rewrite length_replicate, take_replicate, (take_ge p) by lia.
  rewrite Nat.min_l by lia. by eexists.
Qed.

Lemma header_record p T :
  slice 0 (SizeHeader + length p)
    (copy_at 3 (be_split 2 (Z.of_nat (length p)))
       (copy_at 1 TLSVersion (copy_at 0 [TypeApplicationData] (replicate 5 Byte.x00 ++ p ++ T)))) =
  record TypeApplicationData p.
Proof.
  pose proof (length_be_split 2 (Z.of_nat (length p))) as Hl. unfold record.
  destruct (be_split 2 _) as [|x [|y [|]]]; try done. unfold slice, copy_at, TLSVersion. simpl.
  rewrite !firstn_nil, !drop_0. simpl. by rewrite take_app_length.
Qed.

(** Writing a record: the exact bytes, or an error for a payload that does not
    fit. *)
Lemma WriteRecord_spec p :
  WriteRecord p = if (MaxRecordPayloadSize <? length p)%nat then Fail (Errorf "payload exceeds max")
                  else Ok (record TypeApplicationData p).
Proof.
  unfold WriteRecord, WriteRecordInPlace. destruct (_ <? _)%nat eqn:Hp; [done|]. f_equal. zbool.
  assert (Z.of_nat (length p) < 2 ^ 14) as Hlt by (unfold MaxRecordPayloadSize, MaxRecordSize, SizeHeader in Hp; lia).
  rewrite uwrap_small by lia.
  destruct (write_header MaxRecordSize p) as [T ->]; [unfold MaxRecordPayloadSize, SizeHeader, MaxRecordSize in *; lia|].
  apply header_record.
Qed.

(** Reading a record that is on the wire. *)
Lemma ReadRecord_record t p k e :
  rec_ok (t, p) -> ReadRecord (mkSource (record t p ++ k) e) = (Ok t, p, mkSource k e).
Proof.
  unfold rec_ok. cbn [snd]. intros Hp. unfold ReadRecord, record.
  pose proof (length_be_split 2 (Z.of_nat (length p))) as Hl.
  assert (be_combine (be_split 2 (Z.of_nat (length p))) = Z.of_nat (length p)) as Hv by (apply be_combine_split; lia).
  destruct (be_split 2 _) as [|x [|y [|]]]; try done.
  replace ((t :: TLSVersion ++ [x; y] ++ p) ++ k) with ([t; Byte.x03; Byte.x03; x; y] ++ p ++ k)
    by (unfold TLSVersion; simpl; by rewrite <-?app_assoc).
  rewrite read_full_app by done. cbv iota beta.
  change (slice 1 3 [t; Byte.x03; Byte.x03; x; y]) with TLSVersion.
  change (slice 3 5 [t; Byte.x03; Byte.x03; x; y]) with [x; y].
  rewrite bool_decide_true by done. cbv zeta. rewrite Hv, Nat2Z.id, copy_n_app by done. done.
Qed.

Lemma wire_cons t q rs : wire ((t, q) :: rs) = record t q ++ wire rs.
Proof. done. Qed.

Lemma Conn_Read_buffered fuel p c :
  readBuf c <> [] -> Conn_Read fuel p c = Some (Ok (take p (readBuf c)), mkTLS (drop p (readBuf c)) (conn_src c)).
Proof. destruct c as [[|b l] s]; [done|]. by destruct fuel. Qed.

(** A read takes from the buffer, or from the first records that carry data;
    [rest] is what remains to be read. *)
Lemma Conn_Read_stream rs fuel p buf k e :
  Forall rec_ok rs -> (0 < p)%nat -> (length rs < fuel)%nat ->
  (buf ++ app_data rs <> []) ->
  exists l buf' rs', Conn_Read fuel p (mkTLS buf (mkSource (wire rs ++ k) e)) =
      Some (Ok l, mkTLS buf' (mkSource (wire rs' ++ k) e)) /\
    l <> [] /\ (length l <= p)%nat /\ buf ++ app_data rs = l ++ buf' ++ app_data rs' /\
    Forall rec_ok rs' /\ (length rs' <= length rs)%nat.
Proof.
  intros Hok Hp. revert fuel buf. induction Hok as [|[t q] rs Hr Hok IH]; intros fuel buf Hf Hne.
  - simpl in Hne. rewrite app_nil_r in Hne. rewrite Conn_Read_buffered by done. simpl.
    exists (take p buf), (drop p buf), []. split_and!; [done| |rewrite length_take; lia| |done..].
    + destruct buf, p; [done..|lia|done].
    + by rewrite !app_nil_r, take_drop.
  - destruct (decide (buf = [])) as [->|Hb].
    + destruct fuel as [|fuel]; [simpl in Hf; lia|]. cbn [Conn_Read readBuf conn_src].
      rewrite wire_cons, <-app_assoc, ReadRecord_record by done.
      destruct (IH fuel (if bool_decide (t = TypeApplicationData) then q else [])) as (l & buf' & rs' & H1 & H2 & H3 & H4 & H5 & H6);
        [simpl in Hf; lia|done|].
      exists l, buf', rs'. split_and!; [done..|simpl; lia].
    + rewrite Conn_Read_buffered by done. simpl.
      exists (take p buf), (drop p buf), ((t, q) :: rs). split_and!; [done| |rewrite length_take; lia| | |done].
      * destruct buf, p; [done..|lia|done].
      * by rewrite (app_assoc (take p buf)), take_drop.
      * by constructor.
Qed.

(** When no data is left the read gives the stream's error. *)
Lemma Conn_Read_end rs fuel p e :
  Forall rec_ok rs -> (length rs < fuel)%nat -> app_data rs = [] ->
  exists c, Conn_Read fuel p (mkTLS [] (mkSource (wire rs) e)) = Some (Fail e, c).
Proof.
  intros Hok. revert fuel. induction Hok as [|[t q] rs Hr Hok IH]; intros fuel Hf He; (destruct fuel as [|fuel]; [simpl in Hf; lia|]).
  - simpl. by eexists.
  - cbn [app_data map concat fst snd] in He. apply app_eq_nil in He as [Hq He].
    cbn [Conn_Read readBuf conn_src]. rewrite wire_cons, ReadRecord_record by done.
    rewrite Hq. apply IH; [simpl in Hf; lia|done].
Qed.

Lemma wire_fuel rs : Forall rec_ok rs -> (length rs <= length (wire rs))%nat.
Proof.
  induction 1 as [|[t q] rs _ _ IH]; [done|]. rewrite wire_cons, length_app, length_record. simpl. lia.
Qed.

Lemma read_many_stream ps rs buf e :
  Forall rec_ok rs -> Forall (fun p => 0 < p)%nat ps ->
  exists l err c, read_many ps (mkTLS buf (mkSource (wire rs) e)) = Some (l, err, c) /\
    (err = None -> (length ps <= length l)%nat /\ exists rest, buf ++ app_data rs = l ++ rest) /\
    (forall e', err = Some e' -> e' = e /\ l = buf ++ app_data rs).
Proof.
  intros Hok Hps. revert rs buf Hok. induction Hps as [|p ps Hp _ IH]; intros rs buf Hok.
  { exists [], None. eexists. split; [done|]. split; [eauto with lia|done]. }
  cbn [read_many]. pose proof (wire_fuel rs Hok) as Hf.
  assert (length rs < read_fuel (mkTLS buf (mkSource (wire rs) e)))%nat as Hlt by (unfold read_fuel; simpl; lia).
  destruct (decide (buf ++ app_data rs = [])) as [Hnil|Hne].
  - apply app_eq_nil in Hnil as [-> Hnil]. destruct (Conn_Read_end rs _ p e Hok Hlt Hnil) as [c ->]. simpl.
    exists [], (Some e), c. rewrite Hnil. split; [done|]. split; [done|]. by intros e' [= <-].
  - destruct (Conn_Read_stream rs _ p buf [] e Hok Hp Hlt Hne) as (l & buf' & rs' & H1 & H2 & _ & H4 & H5 & _).
    rewrite !app_nil_r in H1. rewrite H1. simpl.
    destruct (IH rs' buf' H5) as (l' & err & c & -> & Hn & He). simpl. exists (l ++ l'), err, c. split; [done|].
    rewrite H4. split.
    + intros Hnone. destruct (Hn Hnone) as (Hlen & rest & ->). rewrite length_app.
      split; [destruct l; [done|simpl; lia]|]. exists rest. by rewrite app_assoc.
    + intros e' Hs. destruct (He e' Hs) as [-> ->]. done.
Qed.

(** With [read] set the reads are those of the record layer. *)
Lemma modes_reads_records ps c :
  m_read c = true ->
  modes_reads ps c = ('(l, e, t) ← read_many ps.*2 (m_conn c); Some (l, e, mkModes (m_read c) (m_write c) t)).
Proof.
  revert c. induction ps as [|[n p] ps IH]; intros [rd wr t] Hrd; simpl in Hrd; subst rd; [done|].
  cbn [modes_reads fmap list_fmap snd read_many]. unfold modes_Read. cbn [m_read m_write m_conn negb].
  destruct (Conn_Read (read_fuel t) p t) as [[[l|e] t']|]; [|done..]. cbn [mbind option_bind].
  rewrite IH by done. cbn [m_read m_write m_conn]. destruct (read_many ps.*2 t') as [[[l' e] t'']|]; done.
Qed.

(** Without it the bytes of the connection pass through, in order and whole. *)
Lemma modes_reads_raw ps s wr buf :
  Forall (fun x => 0 < x.2)%nat ps ->
  exists l err s', modes_reads ps (mkModes false wr (mkTLS buf s)) = Some (l, err, mkModes false wr (mkTLS buf s')) /\
    avail s = l ++ avail s' /\ fin s' = fin s /\ (err = None -> (length ps <= length l)%nat) /\
    (forall e, err = Some e -> e = fin s /\ l = avail s).
Proof.
  intros Hps. revert s. induction Hps as [|[n p] ps Hp _ IH]; intros s.
  { exists [], None, s. by split_and!. }
  cbn [modes_reads]. unfold modes_Read, sock_read. cbn [m_read m_write m_conn conn_src readBuf negb snd] in *.
  destruct (avail s) as [|b l0] eqn:Ha.
  { exists [], (Some (fin s)), s. split_and!; [done|by rewrite Ha|done|done|]. by intros e [= <-]. }
  set (k := Nat.min (Nat.max 1 n) p). cbn [mbind option_bind].
  destruct (IH (mkSource (drop k (b :: l0)) (fin s))) as (l & err & s' & -> & Hl & Hf & Hn & He). cbn [avail fin] in *.
  exists (take k (b :: l0) ++ l), err, s'. split_and!; [done|by rewrite <-app_assoc, <-Hl, take_drop|done| |].
  - intros Hnone. rewrite length_app, length_take. specialize (Hn Hnone). simpl. lia.
  - intros e Hs. destruct (He e Hs) as [-> ->]. by rewrite take_drop.
Qed.

(** C16: the record layer carries a byte stream.  A write of at most
    [MaxRecordPayloadSize] bytes puts exactly one ApplicationData record on the
    wire, a longer one puts nothing and is an error.  Over a wire of records
    (other types interleaved, any payload a record can hold), reads of any
    positive sizes deliver the ApplicationData bytes in order, at least one byte
    each, and the stream's error comes only after all of them; no read runs out
    of fuel.  A direction opened without records passes the bytes of the
    connection through unchanged. *)
Theorem tls_stream rs ps e rd wr :
  Forall rec_ok rs -> Forall (fun x => 0 < x.2)%nat ps ->
  (forall p, modes_Write p (New (mkSource (wire rs) e) rd wr) =
               (length p, if negb wr then Ok p
                          else if (MaxRecordPayloadSize <? length p)%nat then Fail (Errorf "payload exceeds max")
                          else Ok (record TypeApplicationData p))) /\
  exists l err c, modes_reads ps (New (mkSource (wire rs) e) rd wr) = Some (l, err, c) /\
    let sent := if rd then app_data rs else wire rs in
    (err = None -> (length ps <= length l)%nat /\ exists rest, sent = l ++ rest) /\
    (forall e', err = Some e' -> e' = e /\ l = sent).
Proof.
  intros Hok Hps. split.
  { intros p. unfold modes_Write. destruct wr; [|done]. cbn [New m_write negb]. unfold Conn_Write. by rewrite WriteRecord_spec. }
  destruct rd.
  - rewrite modes_reads_records by done. destruct (read_many_stream ps.*2 rs [] e Hok) as (l & err & c & Hr & Hn & He).
    { apply Forall_fmap. exact Hps. }
    cbn [New m_conn]. rewrite Hr. rewrite length_fmap in Hn. by eexists l, err, _.
  - destruct (modes_reads_raw ps (mkSource (wire rs) e) wr [] Hps) as (l & err & s' & Hr & Ha & _ & Hn & He).
    eexists l, err, _. split; [exact Hr|]. simpl in *. split; [|done]. intros Hnone. split; [by apply Hn|]. by eexists.
Qed.

Lemma tls_stream_witness :
  exists l err c,
    modes_reads [(1, 2); (1, 2); (1, 2)]%nat (New (mkSource (wire
      [(TypeChangeCipherSpec, [Byte.x01]); (TypeApplicationData, [Byte.x0a; Byte.x0b; Byte.x0c])]) EOF) true false) =
      Some (l, err, c) /\
    (forall e', err = Some e' -> e' = EOF /\ l = [Byte.x0a; Byte.x0b; Byte.x0c]).
Proof.
  destruct (tls_stream [(TypeChangeCipherSpec, [Byte.x01]); (TypeApplicationData, [Byte.x0a; Byte.x0b; Byte.x0c])]
              [(1, 2); (1, 2); (1, 2)]%nat EOF true false) as [_ (l & err & c & H & _ & He)].
  - repeat constructor.
  - repeat constructor; simpl; lia.
  - exists l, err, c. split; [exact H|exact He].
Defined.
