(* ===== verification/FakeTLS.v ===== *)
(** * The FakeTLS handshake: mtglib/internal/tls/fake

    The client hello is reassembled from handshake records, parsed, and
    authenticated by an HMAC over itself; the server hello answers in kind.
    HMAC-SHA256 is a variable of the sections, of which only the length of its
    output is assumed. *)

From S2P Require Import Prelude GoTime GoIO TLS.

Definition TypeHandshakeClient : byte := Byte.x01.
Definition TypeHandshakeServer : byte := Byte.x02.
Definition RandomLen : nat := 32.
Definition RandomOffset : nat := 11.
Definition GreaseMask : Z := 0x0f0f.
Definition GreaseValueType : Z := 0x0a0a.
Definition emptyRandom : list byte := replicate RandomLen Byte.x00.

Definition maxFragmentsCount : nat := 10.

Definition ErrTooManyFragments : goerr := Errorf "too many fragments".
Definition ErrCannotFindCipher : goerr := Errorf "cannot find a cipher".
Definition ErrBadDigest : goerr := Errorf "incorrect client random".

Definition u16 (l : list byte) : Z := be_combine l.

(** ** Reassembly: utils.go *)

Record fragReader := mkFrag { fr_src : source; fr_buf : list byte; readFragments : nat }.

Definition parseNextFragment (f : fragReader) : option goerr * fragReader :=
  match read_full 5 (fr_src f) with
  | (Fail e, s) => (Some (Wrap "cannot read record header" e), mkFrag s (fr_buf f) (readFragments f))
  | (Ok header, s) =>
      let f := mkFrag s (fr_buf f) (readFragments f) in
      if negb (bool_decide (slice 0 1 header = [TypeHandshake])) then (Some (Errorf "unexpected record type"), f) else
      if negb (bool_decide (slice 1 3 header = [Byte.x03; Byte.x01])) then (Some (Errorf "unexpected protocol version"), f) else
      let '(w, err, s) := copy_n (Z.to_nat (u16 (slice 3 5 header))) s in
      (err, mkFrag s (fr_buf f ++ w) (readFragments f))
  end.

(** The loop of [Read] that fills an empty buffer: [fuel] of twelve rounds is
    enough, the eleventh fragment is the last one. *)
Fixpoint fillBuf (fuel : nat) (f : fragReader) : option goerr * fragReader :=
  match fr_buf f with
  | _ :: _ => (None, f)
  | [] =>
      match fuel with
      | O => (Some ErrTooManyFragments, f)
      | S fuel =>
          if (maxFragmentsCount <? readFragments f)%nat then (Some ErrTooManyFragments, f) else
          match parseNextFragment f with
          | (Some e, f) => (Some e, f)
          | (None, f) => fillBuf fuel (mkFrag (fr_src f) (fr_buf f) (S (readFragments f)))
          end
      end
  end.

(** [fragmentedHandshakeReader.Read] into a slice of [p] bytes. *)
Definition frag_Read (p : nat) (f : fragReader) : res (list byte) * fragReader :=
  let take_buf := fun f => (Ok (take p (fr_buf f)), mkFrag (fr_src f) (drop p (fr_buf f)) (readFragments f)) in
  match fr_buf f with
  | _ :: _ => take_buf f
  | [] =>
      match fillBuf 12 f with
      | (Some e, f) => (Fail e, f)
      | (None, f) => take_buf f
      end
  end.

(** Repeated reads until [n] bytes are there or one fails, as [io.ReadFull] and
    [io.CopyN] do: the bytes, the error, the reader.  Every read but the last
    empties a fragment, so twelve are enough. *)
Fixpoint frag_collect (fuel n : nat) (f : fragReader) : list byte * option goerr * fragReader :=
  match n, fuel with
  | O, _ => ([], None, f)
  | _, O => ([], Some ErrTooManyFragments, f)
  | _, S fuel =>
      match frag_Read n f with
      | (Fail e, f) => ([], Some e, f)
      | (Ok l, f) => let '(l', e, f) := frag_collect fuel (n - length l) f in (l ++ l', e, f)
      end
  end.

Definition frag_fuel : nat := 13.

Definition frag_read_full (n : nat) (f : fragReader) : res (list byte) * fragReader :=
  let '(l, err, f) := frag_collect frag_fuel n f in
  (match err with
   | None => Ok l
   | Some e => Fail (if negb (length l =? 0)%nat && bool_decide (e = EOF) then ErrUnexpectedEOF else e)
   end, f).

Definition frag_copy_n (n : nat) (f : fragReader) : list byte * option goerr * fragReader :=
  frag_collect frag_fuel n f.

(** [parseClientHello]: the copy of the hello as one record, and its body; the
    connection is left behind the last fragment that was read. *)
Definition parseClientHello_conn (s : source) : res (list byte * list byte) * source :=
  let f := mkFrag s [] 0 in
  match frag_read_full 4 f with
  | (Fail e, f) => (Fail (Wrap "cannot read handshake header" e), fr_src f)
  | (Ok header, f) =>
      if negb (bool_decide (slice 0 1 header = [TypeHandshakeClient])) then (Fail (Errorf "incorrect handshake type"), fr_src f) else
      let header := Byte.x00 :: drop 1 header in
      let length := be_combine header in
      let prefix := [TypeHandshake; Byte.x03; Byte.x01] ++ be_split 2 (uwrap 16 (1 + 3 + length)) ++
                    [TypeHandshakeClient] ++ drop 1 header in
      match frag_copy_n (Z.to_nat length) f with
      | (body, None, f) => (Ok (prefix ++ body, body), fr_src f)
      | (_, Some e, f) => (Fail e, fr_src f)
      end
  end.

Definition parseClientHello (s : source) : res (list byte * list byte) := (parseClientHello_conn s).1.

(** ** Parsing: client_side.go *)

Record ClientHello := mkHello { Random : list byte; SessionID : list byte; CipherSuite : Z }.

(** A [bytes.Buffer] is its remaining bytes. *)
Definition parser (A : Type) : Type := list byte -> res (A * list byte).

Definition p_read (msg : string) (n : nat) : parser (list byte) := fun l =>
  if (n <=? length l)%nat then Ok (take n l, drop n l)
  else Fail (Wrap msg (if (length l =? 0)%nat then EOF else ErrUnexpectedEOF)).

(** [io.CopyN] from the buffer. *)
Definition p_copy (msg : string) (n : nat) : parser (list byte) := fun l =>
  if (n <=? length l)%nat then Ok (take n l, drop n l) else Fail (Wrap msg EOF).

(** The scan for the first cipher suite that is not a GREASE value. *)
Fixpoint cipherLoop (n : nat) (acc : Z) : parser Z := fun l =>
  match n with
  | O => Ok (acc, l)
  | S n =>
      '(header, l) ← p_read "cannot read cipher suite" 2 l;
      let cs := u16 header in
      cipherLoop n (if negb (acc =? 0) then acc
                    else if negb (Z.land cs GreaseMask =? GreaseValueType) then cs else acc) l
  end.

Definition parseHandshake : parser ClientHello := fun l =>
  '(_, l) ← p_read "cannot read client version" 2 l;
  '(random, l) ← p_read "cannot read client random" RandomLen l;
  '(header, l) ← p_read "cannot read session ID length" 1 l;
  '(session, l) ← p_read "cannot read session id" (Z.to_nat (be_combine header)) l;
  '(header, l) ← p_read "cannot read cipher suite length" 2 l;
  '(cs, l) ← cipherLoop (Z.to_nat (u16 header / 2)) 0 l;
  if cs =? 0 then Fail ErrCannotFindCipher else
  '(header, l) ← p_read "cannot read compression methods length" 1 l;
  '(_, l) ← p_copy "cannot skip compression methods" (Z.to_nat (be_combine header)) l;
  Ok (mkHello random session cs, l).

(** The names of an SNI entry; every round takes two bytes at least. *)
Fixpoint sniNames (fuel : nat) (buf : list byte) : res (list string) :=
  match buf, fuel with
  | [], _ => Ok []
  | _, O => Fail (Errorf "unreachable")
  | _, S fuel =>
      if (length buf <? 2)%nat then Fail (Errorf "incorrect length of the hostname") else
      let n := Z.to_nat (u16 (take 2 buf)) in
      let buf := drop 2 buf in
      if (length buf <? n)%nat then Fail (Errorf "incorrect length of SNI hostname") else
      rest ← sniNames fuel (drop n buf);
      Ok (string_of_bytes (take n buf) :: rest)
  end.

(** The data of the SNI extension. *)
Definition sniData (data : list byte) : res (list string) :=
  if (length data <? 2)%nat then Fail (Errorf "cannot read the length of the SNI record") else
  if u16 (take 2 data) =? 0 then Ok [] else
  match drop 2 data with
  | [] => Fail (Wrap "cannot read SNI list type" EOF)
  | listType :: buf =>
      if negb (bool_decide (listType = Byte.x00)) then Fail (Errorf "incorrect SNI list type")
      else sniNames (length buf) buf
  end.

(** The loop over the extensions; every round takes four bytes at least. *)
Fixpoint extLoop (fuel : nat) (buf : list byte) : res (list string) :=
  match buf, fuel with
  | [], _ => Ok []
  | _, O => Fail (Errorf "unreachable")
  | _, S fuel =>
      if (length buf <? 2)%nat then Fail (Errorf "cannot read extension type") else
      let extType := take 2 buf in
      let buf := drop 2 buf in
      if (length buf <? 2)%nat then Fail (Errorf "cannot read extension length") else
      let n := Z.to_nat (u16 (take 2 buf)) in
      let buf := drop 2 buf in
      if (length buf <? n)%nat then Fail (Errorf "cannot read extension data") else
      if negb (bool_decide (extType = [Byte.x00; Byte.x00])) then extLoop fuel (drop n buf)
      else sniData (take n buf)
  end.

Definition parseSNI (l : list byte) : res (list string) :=
  '(header, l) ← p_read "cannot read length of TLS extensions" 2 l;
  '(exts, _) ← p_copy "cannot read extensions" (Z.to_nat (u16 header)) l;
  extLoop (length exts) exts.

(** ** Authentication *)

(** What [ReadClientHelloMulti] returns: an error without a result, the partial
    result of a hello no secret matches, or a match. *)
Inductive readResult :=
  | ReadFailed (e : goerr)
  | ReadPartial (matchedHost : string) (e : goerr)
  | ReadMatched (hello : ClientHello) (matchedIndex : nat) (matchedHost : string).

Definition findHost (hostnames sni : list string) : string :=
  hd "" (List.filter (fun h => existsb (fun s => bool_decide (s = h)) sni) hostnames).

Section Hmac.
Context (hmac : list byte -> list byte -> list byte).

(** The digest of a hello under a secret, with the client random zeroed. *)
Definition helloDigest (secret handshake random : list byte) : list byte :=
  xor_bytes (hmac secret (take RandomOffset handshake ++ emptyRandom ++ drop (RandomOffset + RandomLen) handshake)) random.

(** The check of one secret. *)
Definition secretMatches (now tolerance : Z) (secret handshake random : list byte) : bool :=
  let computed := helloDigest secret handshake random in
  bool_decide (take (RandomLen - 4) computed = take (RandomLen - 4) emptyRandom) &&
  let timestamp := le_combine (drop (RandomLen - 4) computed) in
  (DurationAbs (Sub now (Unix timestamp 0)) <=? tolerance).

Fixpoint secretLoop (now tolerance : Z) (idx : nat) (secrets : list (list byte)) (handshake random : list byte) : option nat :=
  match secrets with
  | [] => None
  | secret :: secrets =>
      if secretMatches now tolerance secret handshake random then Some idx
      else secretLoop now tolerance (S idx) secrets handshake random
  end.

Definition ReadClientHelloMulti (now tolerance : Z) (conn : source) (secrets : list (list byte)) (hostnames : list string)
    : readResult :=
  match parseClientHello conn with
  | Fail e => ReadFailed (Wrap "cannot read client hello" e)
  | Ok (handshakeBytes, body) =>
      match parseHandshake body with
      | Fail e => ReadFailed (Wrap "cannot parse handshake" e)
      | Ok (hello, rest) =>
          match parseSNI rest with
          | Fail e => ReadFailed (Wrap "cannot parse SNI" e)
          | Ok sni =>
              let matchedHost := findHost hostnames sni in
              if bool_decide (matchedHost = "") then ReadFailed (Errorf "cannot find any of the host names") else
              match secretLoop now tolerance 0 secrets handshakeBytes (Random hello) with
              | Some idx => ReadMatched hello idx matchedHost
              | None => ReadPartial matchedHost ErrBadDigest
              end
          end
      end
  end.

(** One secret and one host: a partial result is an error. *)
Definition ReadClientHello (now tolerance : Z) (conn : source) (secret : list byte) (hostname : string) : res ClientHello :=
  match ReadClientHelloMulti now tolerance conn [secret] [hostname] with
  | ReadFailed e | ReadPartial _ e => Fail e
  | ReadMatched hello _ _ => Ok hello
  end.
End Hmac.

(** ** Proofs: the fuel is enough *)

Lemma parseNextFragment_count f : readFragments (parseNextFragment f).2 = readFragments f.
Proof.
  unfold parseNextFragment. destruct (read_full 5 (fr_src f)) as [[h|e] s]; [|done].
  case_match; [done|]. case_match; [done|]. by destruct (copy_n _ _) as [[w err] s'].
Qed.

Lemma fillBuf_count fuel f f' :
  fr_buf f = [] -> fillBuf fuel f = (None, f') -> (readFragments f < readFragments f' <= S maxFragmentsCount)%nat /\ fr_buf f' <> [].
Proof.
  revert f. induction fuel as [|fuel IH]; intros f Hb; cbn [fillBuf]; rewrite Hb; [done|].
  destruct (maxFragmentsCount <? readFragments f)%nat eqn:Em; [done|]. apply Nat.ltb_ge in Em.
  pose proof (parseNextFragment_count f) as Hc. destruct (parseNextFragment f) as [[e|] g]; [done|]. cbn [snd] in Hc.
  destruct (fr_buf g) as [|b l] eqn:Eg.
  - intros Hf. apply IH in Hf as [Hf Hn]; [|done]. cbn in Hf. split; [lia|done].
  - destruct fuel; cbn; intros [= <-]; cbn; (split; [lia|done]).
Qed.

(** Twelve rounds fill the buffer or fail for a reason of the source. *)
Lemma fillBuf_fuel fuel fuel' f :
  (S maxFragmentsCount - readFragments f <= fuel)%nat -> (S maxFragmentsCount - readFragments f <= fuel')%nat ->
  fillBuf fuel f = fillBuf fuel' f.
Proof.
  revert fuel' f. induction fuel as [|fuel IH]; intros fuel' f H1 H2.
  - destruct fuel' as [|fuel']; [done|]. cbn [fillBuf]. destruct (fr_buf f); [|done].
    by rewrite (proj2 (Nat.ltb_lt _ _)) by lia.
  - destruct fuel' as [|fuel'].
    + cbn [fillBuf]. destruct (fr_buf f); [|done]. by rewrite (proj2 (Nat.ltb_lt _ _)) by lia.
    + cbn [fillBuf]. destruct (fr_buf f); [|done]. destruct (_ <? _)%nat; [done|].
      pose proof (parseNextFragment_count f) as Hc. destruct (parseNextFragment f) as [[e|] g]; [done|]. cbn [snd] in Hc.
      apply IH; cbn [readFragments]; lia.
Qed.

(** So do thirteen reads: a read that does not finish empties a fragment. *)
Lemma frag_collect_fuel fuel fuel' n f :
  (S maxFragmentsCount - readFragments f + (if bool_decide (fr_buf f = []) then 0 else 1) <= fuel)%nat ->
  (S maxFragmentsCount - readFragments f + (if bool_decide (fr_buf f = []) then 0 else 1) <= fuel')%nat ->
  frag_collect fuel n f = frag_collect fuel' n f.
Proof.
  assert (forall n f, fr_buf f = [] -> (maxFragmentsCount < readFragments f)%nat -> frag_Read n f = (Fail ErrTooManyFragments, f)) as Hstop.
  { intros m g Hb Hm. unfold frag_Read. rewrite Hb. cbn [fillBuf]. rewrite Hb. by rewrite (proj2 (Nat.ltb_lt _ _)). }
  revert fuel' n f. induction fuel as [|fuel IH]; intros fuel' [|n] f H1 H2; try (by destruct fuel').
  - destruct fuel' as [|fuel']; [done|]. cbn [frag_collect]. case_bool_decide; [|lia]. by rewrite Hstop by (done || lia).
  - destruct fuel' as [|fuel'].
    { cbn [frag_collect]. case_bool_decide; [|lia]. by rewrite Hstop by (done || lia). }
    cbn [frag_collect]. destruct (frag_Read (S n) f) as [[l|e] g] eqn:Er; [|done].
    enough (frag_collect fuel (S n - length l) g = frag_collect fuel' (S n - length l) g) as -> by done.
    unfold frag_Read in Er. destruct (fr_buf f) as [|b buf] eqn:Eb.
    + rewrite bool_decide_true in H1, H2 by done. destruct (fillBuf 12 f) as [[e|] h] eqn:Ef; [done|].
      apply fillBuf_count in Ef as [Hc Hn]; [|done]. simplify_eq.
      destruct (decide (length (fr_buf h) <= S n)%nat) as [Hl|Hl].
      * apply IH; cbn [readFragments fr_buf]; rewrite bool_decide_true by (apply drop_ge; lia); lia.
      * replace (S n - length (take (S n) (fr_buf h)))%nat with 0%nat by (rewrite length_take; lia). by destruct fuel, fuel'.
    + rewrite bool_decide_false in H1, H2 by done. simplify_eq.
      destruct (decide (length (b :: buf) <= S n)%nat) as [Hl|Hl].
      * apply IH; cbn [readFragments fr_buf]; rewrite bool_decide_true by (apply drop_ge; lia); lia.
      * replace (S n - length (b :: take n buf))%nat with 0%nat by (cbn [length] in *; rewrite length_take; lia). by destruct fuel, fuel'.
Qed.

(** ** Proofs: reassembly *)

(** A handshake record of the client. *)
Definition hsrec (p : list byte) : list byte :=
  [TypeHandshake; Byte.x03; Byte.x01] ++ be_split 2 (Z.of_nat (length p)) ++ p.

Definition frag_ok (p : list byte) : Prop := Z.of_nat (length p) < 2 ^ 16.

(** A reader in front of the given fragments. *)
Definition reader (frags : list (list byte)) (k : list byte) (e : goerr) (buf : list byte) (j : nat) : fragReader :=
  mkFrag (mkSource (concat (map hsrec frags) ++ k) e) buf j.

Lemma parseNextFragment_hsrec p frags k e buf j :
  frag_ok p -> parseNextFragment (reader (p :: frags) k e buf j) = (None, reader frags k e (buf ++ p) j).
Proof.
  unfold frag_ok. intros Hp. unfold parseNextFragment, reader. cbn [fr_src fr_buf readFragments map concat].
  pose proof (length_be_split 2 (Z.of_nat (length p))) as Hl.
  assert (be_combine (be_split 2 (Z.of_nat (length p))) = Z.of_nat (length p)) as Hv by (apply be_combine_split; lia).
  unfold hsrec at 1. destruct (be_split 2 _) as [|x [|y [|]]]; try done.
  replace (((([TypeHandshake; Byte.x03; Byte.x01] ++ [x; y] ++ p) ++ concat (map hsrec frags)) ++ k))
    with ([TypeHandshake; Byte.x03; Byte.x01; x; y] ++ p ++ concat (map hsrec frags) ++ k)
    by (by rewrite <-!app_assoc).
  rewrite read_full_app by done. cbv iota beta zeta.
  change (slice 0 1 _) with [TypeHandshake]. change (slice 1 3 _) with [Byte.x03; Byte.x01].
  change (slice 3 5 _) with [x; y]. rewrite !bool_decide_true by done. simpl negb. cbv iota.
  unfold u16. rewrite Hv, Nat2Z.id, copy_n_app by done. done.
Qed.

Lemma fillBuf_frags fuel frags k e j :
  Forall frag_ok frags -> (j + length frags <= 11)%nat -> (length frags < fuel)%nat -> concat frags <> [] ->
  exists buf frags', buf <> [] /\ concat frags = buf ++ concat frags' /\ Forall frag_ok frags' /\
    frags' `suffix_of` frags /\ (length frags' < length frags)%nat /\
    fillBuf fuel (reader frags k e [] j) = (None, reader frags' k e buf (j + (length frags - length frags'))).
Proof.
  intros Hok. revert fuel j. induction Hok as [|p frags Hp Hok IH]; intros fuel j Hj Hf Hne; [done|].
  destruct fuel as [|fuel]; [simpl in Hf; lia|]. cbn [fillBuf]. cbn [fr_buf reader readFragments].
  simpl in Hj. rewrite (proj2 (Nat.ltb_ge _ _)) by (unfold maxFragmentsCount; lia).
  rewrite parseNextFragment_hsrec by done. cbn [app fr_src fr_buf reader readFragments].
  destruct (decide (p = [])) as [->|Hpe].
  - fold (reader frags k e [] (S j)). destruct (IH fuel (S j)) as (buf & frags' & H1 & H2 & H3 & Hsuf & H4 & H5); [lia|simpl in Hf; lia|done|].
    exists buf, frags'. split_and!; [done..|by apply suffix_cons_r|simpl; lia|]. rewrite H5. do 2 f_equal. simpl. lia.
  - exists p, frags. split_and!; [done..|by exists [p]|simpl; lia|]. fold (reader frags k e p (S j)).
    destruct fuel, p; try done; simpl; do 2 f_equal; lia.
Qed.

Lemma frag_Read_frags n frags k e buf j :
  (0 < n)%nat -> Forall frag_ok frags -> (j + length frags <= 11)%nat -> buf ++ concat frags <> [] ->
  exists b frags', b <> [] /\ buf ++ concat frags = b ++ concat frags' /\ Forall frag_ok frags' /\ frags' `suffix_of` frags /\
    (buf = [] -> (length frags' < length frags)%nat) /\ (length frags' <= length frags)%nat /\
    frag_Read n (reader frags k e buf j) =
      (Ok (take n b), reader frags' k e (drop n b) (j + (length frags - length frags'))).
Proof.
  intros Hn Hok Hj Hne. unfold frag_Read. cbn [fr_buf reader].
  destruct buf as [|x buf].
  - destruct (fillBuf_frags 12 frags k e j Hok Hj) as (b & frags' & H1 & H2 & H3 & Hsuf & H4 & H5); [lia|done|].
    exists b, frags'. split_and!; [done..|lia|]. fold (reader frags k e [] j). by rewrite H5.
  - exists (x :: buf), frags. split_and!; [done..|lia|]. rewrite Nat.sub_diag, Nat.add_0_r. done.
Qed.

Lemma frag_collect_frags fuel n frags k e buf j :
  Forall frag_ok frags -> (j + length frags <= 11)%nat -> (length frags + 1 < fuel)%nat ->
  (n <= length (buf ++ concat frags))%nat ->
  exists buf' frags', buf' ++ concat frags' = drop n (buf ++ concat frags) /\ Forall frag_ok frags' /\
    frags' `suffix_of` frags /\ (length frags' <= length frags)%nat /\
    frag_collect fuel n (reader frags k e buf j) =
      (take n (buf ++ concat frags), None, reader frags' k e buf' (j + (length frags - length frags'))).
Proof.
  assert (forall fuel n frags buf j, Forall frag_ok frags -> (j + length frags <= 11)%nat ->
    (length frags + (if decide (buf = []) then 0 else 1) < fuel)%nat -> (n <= length (buf ++ concat frags))%nat ->
    exists buf' frags', buf' ++ concat frags' = drop n (buf ++ concat frags) /\ Forall frag_ok frags' /\
      frags' `suffix_of` frags /\ (length frags' <= length frags)%nat /\
      frag_collect fuel n (reader frags k e buf j) =
        (take n (buf ++ concat frags), None, reader frags' k e buf' (j + (length frags - length frags')))) as H;
    [|intros; apply H; try done; case_decide; lia].
  clear. induction fuel as [|fuel IH]; intros n frags buf j Hok Hj Hf Hn; [lia|].
  destruct n as [|n]; [exists buf, frags; split_and!; [done..|lia|]; by rewrite Nat.sub_diag, Nat.add_0_r|].
  assert (buf ++ concat frags <> []) as Hne by (intros Hnil; rewrite Hnil in Hn; simpl in Hn; lia).
  destruct (frag_Read_frags (S n) frags k e buf j) as (b & fr & H1 & H2 & H3 & Hsuf & H4 & H5 & H6); [lia|done..|].
  cbn [frag_collect]. rewrite H6. rewrite H2 in Hn |- *. rewrite length_app in Hn.
  destruct (decide (S n <= length b)%nat) as [Hle|Hgt].
  - replace (S n - length (take (S n) b))%nat with 0%nat by (rewrite length_take; lia).
    exists (drop (S n) b), fr. split_and!; [by rewrite drop_app_le|done..|].
    rewrite take_app_le by done. destruct fuel; simpl; by rewrite ?app_nil_r.
  - rewrite (take_ge b) by lia. rewrite (drop_ge b) by lia.
    destruct (IH (S n - length b)%nat fr [] (j + (length frags - length fr))%nat)
      as (buf' & frags' & G1 & G2 & Gsuf & G3 & G4); [done|lia| |simpl; lia|].
    + rewrite decide_True by done. revert Hf. destruct (decide (buf = [])) as [Hb|Hb]; [specialize (H4 Hb)|]; lia.
    + rewrite G4. exists buf', frags'. split_and!; [|done|by etrans|lia|].
      * rewrite drop_app_ge by lia. exact G1.
      * rewrite (take_app_ge b) by lia. simpl. do 2 f_equal. lia.
Qed.

(** A message whose length is announced in three bytes. *)
Definition helloMsg (body : list byte) : list byte :=
  TypeHandshakeClient :: be_split 3 (Z.of_nat (length body)) ++ body.

(** The copy over which the digest is taken: the message as one record. *)
Definition helloCopy (body : list byte) : list byte :=
  [TypeHandshake; Byte.x03; Byte.x01] ++ be_split 2 (uwrap 16 (4 + Z.of_nat (length body))) ++ helloMsg body.

Lemma be_combine_zero x y z : be_combine [Byte.x00; x; y; z] = be_combine [x; y; z].
Proof. reflexivity. Qed.

(** A client hello split over at most eleven handshake records, in any way, is
    read as the whole message; the fragments behind it are left. *)
Lemma parseClientHello_conn_frags frags body extra k e :
  Forall frag_ok frags -> (length frags <= 11)%nat -> Z.of_nat (length body) < 2 ^ 24 ->
  concat frags = helloMsg body ++ extra ->
  exists rest, rest `suffix_of` frags /\ concat rest `suffix_of` extra /\
    parseClientHello_conn (mkSource (concat (map hsrec frags) ++ k) e) =
      (Ok (helloCopy body, body), mkSource (concat (map hsrec rest) ++ k) e).
Proof.
  intros Hok Hlen Hb Hc. unfold parseClientHello_conn.
  change (mkFrag (mkSource (concat (map hsrec frags) ++ k) e) [] 0) with (reader frags k e [] 0).
  pose proof (length_be_split 3 (Z.of_nat (length body))) as Hl3.
  assert (be_combine (be_split 3 (Z.of_nat (length body))) = Z.of_nat (length body)) as Hv by (apply be_combine_split; lia).
  unfold helloCopy. unfold helloMsg in *. destruct (be_split 3 _) as [|x [|y [|z [|]]]]; try done.
  assert (concat frags = [TypeHandshakeClient; x; y; z] ++ body ++ extra) as Hc' by (by rewrite Hc).
  destruct (frag_collect_frags frag_fuel 4 frags k e [] 0 Hok) as (buf & fr & H1 & H2 & Hs1 & H3 & H4);
    [simpl; lia|unfold frag_fuel; lia|simpl; rewrite Hc'; simpl; lia|].
  unfold frag_read_full. rewrite H4. cbn [app] in H1 |- *. rewrite Hc' in H1 |- *.
  change (take 4 ([TypeHandshakeClient; x; y; z] ++ body ++ extra)) with [TypeHandshakeClient; x; y; z].
  cbn [app drop] in H1. rewrite drop_0 in H1. cbv iota beta zeta. change (slice 0 1 _) with [TypeHandshakeClient].
  rewrite bool_decide_true by done. simpl negb. cbv iota. cbn [drop].
  rewrite be_combine_zero, Hv, Nat2Z.id.
  destruct (frag_collect_frags frag_fuel (length body) fr k e buf (0 + (length frags - length fr)))
    as (buf' & fr' & G1 & G2 & Hs2 & G3 & G4);
    [done|lia|unfold frag_fuel; lia|rewrite H1, length_app; lia|].
  exists fr'. split_and!; [by etrans|by exists buf'; rewrite G1, H1, drop_app_length|].
  unfold frag_copy_n. rewrite G4, H1, take_app_length. replace (1 + 3) with 4 by lia. by rewrite <-app_assoc.
Qed.

Lemma parseClientHello_frags frags body extra k e :
  Forall frag_ok frags -> (length frags <= 11)%nat -> Z.of_nat (length body) < 2 ^ 24 ->
  concat frags = helloMsg body ++ extra ->
  parseClientHello (mkSource (concat (map hsrec frags) ++ k) e) = Ok (helloCopy body, body).
Proof.
  intros Hok Hlen Hb Hc. unfold parseClientHello.
  by destruct (parseClientHello_conn_frags frags body extra k e Hok Hlen Hb Hc) as (rest & _ & _ & ->).
Qed.

(** ** Proofs: parsing *)

Lemma p_read_app msg n a l : length a = n -> p_read msg n (a ++ l) = Ok (a, l).
Proof.
  intros <-. unfold p_read. rewrite length_app, (proj2 (Nat.leb_le _ _)) by lia.
  by rewrite take_app_length, drop_app_length.
Qed.

Lemma p_copy_app msg n a l : length a = n -> p_copy msg n (a ++ l) = Ok (a, l).
Proof.
  intros <-. unfold p_copy. rewrite length_app, (proj2 (Nat.leb_le _ _)) by lia.
  by rewrite take_app_length, drop_app_length.
Qed.

Lemma p_read_length msg n l a r : p_read msg n l = Ok (a, r) -> length a = n.
Proof.
  unfold p_read. destruct (n <=? length l)%nat eqn:E; [|done]. intros [= <- <-]. zbool. rewrite length_take. lia.
Qed.

Lemma parseHandshake_random l h r : parseHandshake l = Ok (h, r) -> length (Random h) = RandomLen.
Proof.
  unfold parseHandshake. intros H.
  apply bind_ok in H as ([v l1] & _ & H). apply bind_ok in H as ([rnd l2] & Hr & H).
  apply p_read_length in Hr. apply bind_ok in H as ([? ?] & _ & H). apply bind_ok in H as ([? ?] & _ & H).
  apply bind_ok in H as ([? ?] & _ & H). apply bind_ok in H as ([cs ?] & _ & H). destruct (cs =? 0); [done|].
  apply bind_ok in H as ([? ?] & _ & H). apply bind_ok in H as ([? ?] & _ & H). by injection H as <- <-.
Qed.

(** A suite the server may select. *)
Definition selectable (cs : Z) : bool := negb (Z.land cs GreaseMask =? GreaseValueType) && negb (cs =? 0).

Definition firstSuite (cs : list Z) : Z := hd 0 (List.filter selectable cs).

Definition suite_ok (cs : Z) : Prop := 0 <= cs < 2 ^ 16.

Lemma cipherLoop_suites cs acc l :
  Forall suite_ok cs ->
  cipherLoop (length cs) acc (concat (map (be_split 2) cs) ++ l) =
  Ok (if acc =? 0 then firstSuite cs else acc, l).
Proof.
  intros Hok. revert acc. induction Hok as [|c cs Hc Hok IH]; intros acc.
  { cbn [length cipherLoop map concat app firstSuite List.filter hd]. destruct (acc =? 0) eqn:E; zbool; by subst. }
  cbn [length cipherLoop map concat]. rewrite <-app_assoc, p_read_app by apply length_be_split.
  cbn [mbind res_bind]. rewrite IH. unfold u16. rewrite be_combine_split by (unfold suite_ok in Hc; lia).
  f_equal. f_equal. unfold firstSuite. cbn [List.filter]. unfold selectable at 2.
  destruct (acc =? 0) eqn:Ea; simpl negb; cbv iota; [|by rewrite Ea].
  destruct (Z.land c GreaseMask =? GreaseValueType) eqn:Eg; simpl; [by rewrite Ea|].
  destruct (c =? 0) eqn:Ec; simpl; done.
Qed.

(** The fields a client puts into its hello. *)
Record helloFields := mkFields {
  hf_session : list byte;
  hf_suites : list Z;
  hf_comp : list byte;
  hf_before : list (list byte * list byte);
  hf_host : string;
  hf_after : list byte
}.

Definition encodeExt (x : list byte * list byte) : list byte :=
  x.1 ++ be_split 2 (Z.of_nat (length x.2)) ++ x.2.

(** The server name extension with one DNS name. *)
Definition sniExt (host : string) : list byte :=
  let name := bytes_of_string host in
  be_split 2 (3 + Z.of_nat (length name)) ++ [Byte.x00] ++ be_split 2 (Z.of_nat (length name)) ++ name.

Definition encodeExts (h : helloFields) : list byte :=
  concat (map encodeExt (hf_before h)) ++ encodeExt ([Byte.x00; Byte.x00], sniExt (hf_host h)) ++ hf_after h.

Definition encodeBody (random : list byte) (h : helloFields) : list byte :=
  [Byte.x03; Byte.x03] ++ random ++
  be_split 1 (Z.of_nat (length (hf_session h))) ++ hf_session h ++
  be_split 2 (2 * Z.of_nat (length (hf_suites h))) ++ concat (map (be_split 2) (hf_suites h)) ++
  be_split 1 (Z.of_nat (length (hf_comp h))) ++ hf_comp h ++
  be_split 2 (Z.of_nat (length (encodeExts h))) ++ encodeExts h.

Definition ext_ok (x : list byte * list byte) : Prop :=
  length x.1 = 2%nat /\ x.1 <> [Byte.x00; Byte.x00] /\ Z.of_nat (length x.2) < 2 ^ 16.

Record fields_ok (h : helloFields) : Prop := {
  fo_session : Z.of_nat (length (hf_session h)) < 2 ^ 8;
  fo_suites : Forall suite_ok (hf_suites h);
  fo_suites_len : 2 * Z.of_nat (length (hf_suites h)) < 2 ^ 16;
  fo_selectable : firstSuite (hf_suites h) <> 0;
  fo_comp : Z.of_nat (length (hf_comp h)) < 2 ^ 8;
  fo_before : Forall ext_ok (hf_before h);
  fo_exts : Z.of_nat (length (encodeExts h)) < 2 ^ 16
}.

Lemma parseHandshake_body random h :
  length random = RandomLen -> fields_ok h ->
  parseHandshake (encodeBody random h) =
  Ok (mkHello random (hf_session h) (firstSuite (hf_suites h)),
      be_split 2 (Z.of_nat (length (encodeExts h))) ++ encodeExts h).
Proof.
  intros Hr [H1 H2 H3 H4 H5 H6 H7]. unfold parseHandshake, encodeBody.
  rewrite p_read_app by done. cbn [mbind res_bind]. rewrite p_read_app by done. cbn [mbind res_bind].
  rewrite p_read_app by apply length_be_split. cbn [mbind res_bind]. rewrite be_combine_split, Nat2Z.id by lia.
  rewrite p_read_app by done. cbn [mbind res_bind]. rewrite p_read_app by apply length_be_split. cbn [mbind res_bind].
  unfold u16. rewrite be_combine_split by lia.
  replace (2 * Z.of_nat (length (hf_suites h)) / 2) with (Z.of_nat (length (hf_suites h)))
    by (rewrite Z.mul_comm, Z.div_mul; lia).
  rewrite Nat2Z.id, cipherLoop_suites by done. cbn [mbind res_bind].
  rewrite (proj2 (Z.eqb_eq 0 0)) by done. rewrite (proj2 (Z.eqb_neq _ _) H4).
  rewrite p_read_app by apply length_be_split. cbn [mbind res_bind]. rewrite be_combine_split, Nat2Z.id by lia.
  by rewrite p_copy_app.
Qed.

Lemma sniNames_one fuel name :
  Z.of_nat (length name) < 2 ^ 16 -> (2 <= fuel)%nat ->
  sniNames fuel (be_split 2 (Z.of_nat (length name)) ++ name) = Ok [string_of_bytes name].
Proof.
  intros Hn Hf. destruct fuel as [|fuel]; [lia|].
  pose proof (length_be_split 2 (Z.of_nat (length name))) as Hl.
  assert (u16 (be_split 2 (Z.of_nat (length name))) = Z.of_nat (length name)) as Hv by (apply be_combine_split; lia).
  destruct (be_split 2 _) as [|x [|y [|]]]; try done. cbn [app sniNames].
  change (length (x :: y :: name) <? 2)%nat with false. change (take 2 (x :: y :: name)) with [x; y].
  change (drop 2 (x :: y :: name)) with name. cbv iota zeta.
  rewrite Hv, Nat2Z.id, Nat.ltb_irrefl, drop_all, firstn_all. by destruct fuel; [lia|].
Qed.

Lemma sniData_sniExt host : Z.of_nat (length (sniExt host)) < 2 ^ 16 -> sniData (sniExt host) = Ok [host].
Proof.
  unfold sniExt. set (name := bytes_of_string host). rewrite !length_app, !length_be_split. intros Hn. unfold sniData.
  simpl length in Hn.
  rewrite length_app, length_be_split. cbn [Nat.ltb Nat.leb Nat.add].
  rewrite take_app_length' by (by rewrite length_be_split). rewrite drop_app_length' by (by rewrite length_be_split).
  unfold u16. rewrite be_combine_split by lia. rewrite (proj2 (Z.eqb_neq _ _)) by lia.
  cbn [app]. rewrite bool_decide_true by done. simpl negb. cbv iota.
  rewrite sniNames_one by (rewrite ?length_app, ?length_be_split; lia).
  unfold name. by rewrite string_of_bytes_of_string.
Qed.

(** One step of the extension loop over an encoded extension. *)
Lemma extLoop_step fuel t d l :
  length t = 2%nat -> Z.of_nat (length d) < 2 ^ 16 ->
  extLoop (S fuel) (encodeExt (t, d) ++ l) =
  if bool_decide (t = [Byte.x00; Byte.x00]) then sniData d else extLoop fuel l.
Proof.
  intros Ht Hd. unfold encodeExt. cbn [fst snd].
  pose proof (length_be_split 2 (Z.of_nat (length d))) as Hl.
  assert (u16 (be_split 2 (Z.of_nat (length d))) = Z.of_nat (length d)) as Hv by (apply be_combine_split; lia).
  destruct (be_split 2 _) as [|x [|y [|]]]; try done. destruct t as [|a [|b [|]]]; try done.
  cbn [app extLoop]. set (r := d ++ l).
  change (length (a :: b :: x :: y :: r) <? 2)%nat with false. change (take 2 (a :: b :: x :: y :: r)) with [a; b].
  change (drop 2 (a :: b :: x :: y :: r)) with (x :: y :: r). cbv iota zeta.
  change (length (x :: y :: r) <? 2)%nat with false. change (take 2 (x :: y :: r)) with [x; y].
  change (drop 2 (x :: y :: r)) with r. cbv iota. unfold r. rewrite Hv, Nat2Z.id, length_app.
  rewrite (proj2 (Nat.ltb_ge _ _)) by lia. rewrite take_app_length, drop_app_length.
  by destruct (bool_decide ([a; b] = [Byte.x00; Byte.x00])).
Qed.

Lemma extLoop_sni xs fuel host l :
  Forall ext_ok xs -> (length xs < fuel)%nat -> Z.of_nat (length (sniExt host)) < 2 ^ 16 ->
  extLoop fuel (concat (map encodeExt xs) ++ encodeExt ([Byte.x00; Byte.x00], sniExt host) ++ l) = Ok [host].
Proof.
  intros Hok. revert fuel. induction Hok as [|[t d] xs [H1 [H2 H3]] Hok IH]; intros fuel Hf Hs; (destruct fuel as [|fuel]; [simpl in Hf; lia|]).
  - cbn [map concat app]. rewrite extLoop_step by done. rewrite bool_decide_true by done. by apply sniData_sniExt.
  - cbn [map concat]. rewrite <-app_assoc, extLoop_step by done. rewrite bool_decide_false by done.
    apply IH; [simpl in Hf; lia|done].
Qed.

Lemma length_encodeExt x : length (encodeExt x) = (length x.1 + 2 + length x.2)%nat.
Proof. unfold encodeExt. rewrite !length_app, length_be_split. lia. Qed.

Lemma length_concat_exts xs : (length xs <= length (concat (map encodeExt xs)))%nat.
Proof.
  induction xs as [|x xs IH]; [done|]. cbn [map concat length]. rewrite length_app, length_encodeExt. lia.
Qed.

Lemma parseSNI_exts h :
  fields_ok h -> parseSNI (be_split 2 (Z.of_nat (length (encodeExts h))) ++ encodeExts h) = Ok [hf_host h].
Proof.
  intros [_ _ _ _ _ H6 H7]. unfold parseSNI. rewrite p_read_app by apply length_be_split. cbn [mbind res_bind].
  unfold u16. rewrite be_combine_split, Nat2Z.id by lia.
  rewrite <-(app_nil_r (encodeExts h)) at 2. rewrite p_copy_app by done. cbn [mbind res_bind].
  unfold encodeExts in *. rewrite !length_app, length_encodeExt in H7. cbn [fst snd] in H7.
  apply extLoop_sni; [done| |lia]. pose proof (length_concat_exts (hf_before h)).
  rewrite !length_app, length_encodeExt. simpl fst. simpl length at 3. lia.
Qed.

(** ** Proofs: authentication *)

(** The bytes over which client and server take the digest: only the random
    differs between the hello and its zeroed copy. *)
Lemma zeroed_copy random h :
  length random = RandomLen ->
  take RandomOffset (helloCopy (encodeBody random h)) ++ emptyRandom ++
    drop (RandomOffset + RandomLen) (helloCopy (encodeBody random h)) = helloCopy (encodeBody emptyRandom h).
Proof.
  intros Hr. unfold helloCopy, helloMsg.
  assert (length (encodeBody random h) = length (encodeBody emptyRandom h)) as Hlen.
  { unfold encodeBody. rewrite !length_app. rewrite Hr. unfold emptyRandom. by rewrite length_replicate. }
  rewrite Hlen. pose proof (length_be_split 2 (uwrap 16 (4 + Z.of_nat (length (encodeBody emptyRandom h))))) as H2.
  pose proof (length_be_split 3 (Z.of_nat (length (encodeBody emptyRandom h)))) as H3.
  destruct (be_split 2 _) as [|a [|b [|]]]; try done. destruct (be_split 3 _) as [|x [|y [|z [|]]]]; try done.
  unfold encodeBody. match goal with |- context [random ++ ?t] => set (tl := t) end.
  unfold RandomOffset. cbn [app take drop Nat.add]. rewrite ?drop_0, ?take_0.
  rewrite (drop_app_length' random tl) by done. done.
Qed.

Section HmacProofs.
Context (hmac : list byte -> list byte -> list byte).
Context (hmac_length : forall k d, length (hmac k d) = RandomLen).

(** The random field a client that knows [secret] sends at Unix time [ts]. *)
Definition clientRandom (secret : list byte) (ts : Z) (h : helloFields) : list byte :=
  xor_bytes (hmac secret (helloCopy (encodeBody emptyRandom h))) (replicate (RandomLen - 4) Byte.x00 ++ le_split 4 ts).

Lemma length_clientRandom secret ts h : length (clientRandom secret ts h) = RandomLen.
Proof.
  unfold clientRandom. rewrite length_xor_bytes, hmac_length, length_app, length_replicate, length_le_split. done.
Qed.

Lemma clientRandom_matches secret ts h now tol :
  0 <= ts < 2 ^ 32 -> DurationAbs (Sub now (Unix ts 0)) <= tol ->
  secretMatches hmac now tol secret (helloCopy (encodeBody (clientRandom secret ts h) h)) (clientRandom secret ts h) = true.
Proof.
  intros Hts Ht. unfold secretMatches, helloDigest. rewrite zeroed_copy by apply length_clientRandom.
  assert (xor_bytes (hmac secret (helloCopy (encodeBody emptyRandom h))) (clientRandom secret ts h) =
          replicate (RandomLen - 4) Byte.x00 ++ le_split 4 ts) as ->.
  { apply xor_bytes_cancel. by rewrite hmac_length, length_app, length_replicate, length_le_split. }
  rewrite take_app_length' by (by rewrite length_replicate). rewrite drop_app_length' by (by rewrite length_replicate).
  rewrite bool_decide_true by done. rewrite le_combine_split_small by lia.
  by rewrite (proj2 (Z.leb_le _ _)).
Qed.

Lemma secretLoop_first now tol idx secrets hs random i s :
  secrets !! i = Some s -> secretMatches hmac now tol s hs random = true ->
  (forall j s', (j < i)%nat -> secrets !! j = Some s' -> secretMatches hmac now tol s' hs random = false) ->
  secretLoop hmac now tol idx secrets hs random = Some (idx + i)%nat.
Proof.
  revert idx i. induction secrets as [|x secrets IH]; intros idx i Hi Hs Hj; [done|]. simpl. destruct i as [|i].
  - simpl in Hi. injection Hi as ->. rewrite Hs. f_equal. lia.
  - rewrite (Hj 0%nat x) by (done || lia). rewrite (IH (S idx) i) by first [done | intros j s' ? ?; apply (Hj (S j)); [lia|done]].
    f_equal. lia.
Qed.

Lemma secretLoop_some now tol idx secrets hs random n :
  secretLoop hmac now tol idx secrets hs random = Some n ->
  exists i s, n = (idx + i)%nat /\ secrets !! i = Some s /\ secretMatches hmac now tol s hs random = true /\
    forall j s', (j < i)%nat -> secrets !! j = Some s' -> secretMatches hmac now tol s' hs random = false.
Proof.
  revert idx. induction secrets as [|x secrets IH]; intros idx; simpl; [done|].
  destruct (secretMatches hmac now tol x hs random) eqn:Hx.
  - intros [= <-]. exists 0%nat, x. split_and!; [lia|done..|]. lia.
  - intros H. destruct (IH _ H) as (i & s & -> & Hi & Hs & Hj). exists (S i), s. split_and!; [lia|done..|].
    intros [|j] s' Hlt; simpl; [intros [= <-]; done|]. apply Hj. lia.
Qed.

(** A client that knows a secret is let in: whatever session id, suites,
    compression methods and extensions its hello has, and however the hello is
    cut into at most eleven handshake records, the server reassembles and parses
    it and matches the first secret whose digest and clock agree, with the
    host it asked for. *)
Theorem client_hello_accepted now tol secrets hostnames i secret ts h frags extra k e :
  fields_ok h -> 0 <= ts < 2 ^ 32 -> DurationAbs (Sub now (Unix ts 0)) <= tol ->
  let random := clientRandom secret ts h in
  let body := encodeBody random h in
  Z.of_nat (length body) < 2 ^ 24 ->
  Forall frag_ok frags -> (length frags <= 11)%nat -> concat frags = helloMsg body ++ extra ->
  findHost hostnames [hf_host h] = hf_host h -> hf_host h <> "" ->
  secrets !! i = Some secret ->
  (forall j s', (j < i)%nat -> secrets !! j = Some s' ->
     secretMatches hmac now tol s' (helloCopy body) random = false) ->
  ReadClientHelloMulti hmac now tol (mkSource (concat (map hsrec frags) ++ k) e) secrets hostnames =
  ReadMatched (mkHello random (hf_session h) (firstSuite (hf_suites h))) i (hf_host h).
Proof.
  intros Hf Hts Ht random body Hb Hok Hlen Hc Hhost Hne Hi Hj. unfold ReadClientHelloMulti.
  rewrite (parseClientHello_frags frags body extra k e) by done. unfold body.
  rewrite parseHandshake_body by (done || apply length_clientRandom).
  rewrite parseSNI_exts by done. rewrite Hhost, bool_decide_false by done. cbn [Random].
  rewrite (secretLoop_first now tol 0 secrets _ _ i secret); [done|done| |done].
  by apply clientRandom_matches.
Qed.

Lemma xor_zero_eq n a b :
  length a = length b -> (n <= length a)%nat ->
  take n (xor_bytes a b) = replicate n Byte.x00 -> take n a = take n b.
Proof.
  revert a b. induction n as [|n IH]; intros [|x a] [|y b]; simpl; try done; try lia.
  intros [= Hl] Hn [= Hx H]. rewrite (xor_byte_zero _ _ Hx). f_equal. by apply IH; [|lia|].
Qed.

(** Nobody else is let in: a match means that the client's random carries
    the first 28 bytes of the digest of its own hello under the matched secret,
    that the time in it is within the tolerance, that no earlier secret
    matches, and that the host it asked for is one of the configured ones. *)
Theorem client_hello_sound now tol conn secrets hostnames hello idx host :
  ReadClientHelloMulti hmac now tol conn secrets hostnames = ReadMatched hello idx host ->
  host <> "" /\ host ∈ hostnames /\
  exists secret bytes body, secrets !! idx = Some secret /\ parseClientHello conn = Ok (bytes, body) /\
    take 28 (Random hello) =
      take 28 (hmac secret (take RandomOffset bytes ++ emptyRandom ++ drop (RandomOffset + RandomLen) bytes)) /\
    DurationAbs (Sub now (Unix (le_combine (drop 28 (helloDigest hmac secret bytes (Random hello)))) 0)) <= tol /\
    forall j s', (j < idx)%nat -> secrets !! j = Some s' -> secretMatches hmac now tol s' bytes (Random hello) = false.
Proof.
  intros H. unfold ReadClientHelloMulti in H.
  destruct (parseClientHello conn) as [[bytes body]|] eqn:Hp; [|done].
  destruct (parseHandshake body) as [[hello' rest]|] eqn:Hph; [|done]. apply parseHandshake_random in Hph as Hr.
  destruct (parseSNI rest) as [sni|]; [|done].
  case_bool_decide as Hh; [done|]. destruct (secretLoop _ _ _ _ _ _ _) as [n|] eqn:Hs; [|done].
  injection H as <- <- <-. split; [done|]. split.
  { unfold findHost in *. destruct (List.filter _ hostnames) as [|x l] eqn:Hfl; [done|]. simpl.
    assert (In x (List.filter (fun h => existsb (fun s => bool_decide (s = h)) sni) hostnames)) as Hin by (rewrite Hfl; by left).
    apply List.filter_In in Hin as [Hin _]. by apply list_elem_of_In. }
  destruct (secretLoop_some _ _ _ _ _ _ _ Hs) as (i & s & -> & Hi & Hm & Hj).
  exists s, bytes, body. split_and!; [done..| | |done]; unfold secretMatches in Hm; apply andb_true_iff in Hm as [Hd Ht].
  - apply bool_decide_eq_true in Hd. symmetry. apply (xor_zero_eq 28);
      [by rewrite hmac_length|rewrite hmac_length; unfold RandomLen; lia|exact Hd].
  - by apply Z.leb_le in Ht.
Qed.
End HmacProofs.

(** *** Witnesses *)

Definition demo_hmac (k d : list byte) : list byte := take 32 (k ++ drop 11 d ++ replicate 32 Byte.x00).

Lemma demo_hmac_length k d : length (demo_hmac k d) = RandomLen.
Proof. unfold demo_hmac. rewrite length_take, !length_app, length_replicate. unfold RandomLen. lia. Qed.

Definition demo_fields : helloFields :=
  mkFields [Byte.x01; Byte.x02] [0x0a0a; 0x1301; 0x1302] [Byte.x00] [([Byte.x00; Byte.x17], [])] "a.com" [].

Lemma demo_fields_ok : fields_ok demo_fields.
Proof.
  split; try (vm_compute; reflexivity); [repeat constructor; (vm_compute; done)|by vm_compute|].
  repeat constructor; done.
Qed.

Definition demo_secret : list byte := replicate 16 Byte.x07.

Definition demo_msg : list byte :=
  helloMsg (encodeBody (clientRandom demo_hmac demo_secret 1700000000 demo_fields) demo_fields).

(** The hello in three records, the first of three bytes. *)
Definition demo_frags : list (list byte) := [take 3 demo_msg; take 40 (drop 3 demo_msg); drop 43 demo_msg].

Lemma client_hello_accepted_witness :
  ReadClientHelloMulti demo_hmac (Unix 1700000001 0) (3 * Second)
    (mkSource (concat (map hsrec demo_frags) ++ []) EOF) [replicate 16 Byte.x09; demo_secret] ["a.com"; "b.com"] =
  ReadMatched (mkHello (clientRandom demo_hmac demo_secret 1700000000 demo_fields) [Byte.x01; Byte.x02] 0x1301) 1 "a.com".
Proof.
  apply (client_hello_accepted demo_hmac demo_hmac_length (Unix 1700000001 0) (3 * Second)
    [replicate 16 Byte.x09; demo_secret] ["a.com"; "b.com"] 1 demo_secret 1700000000 demo_fields demo_frags [] [] EOF).
  - apply demo_fields_ok.
  - lia.
  - vm_compute. discriminate.
  - vm_compute. reflexivity.
  - repeat constructor; vm_compute; reflexivity.
  - vm_compute. lia.
  - vm_compute. reflexivity.
  - reflexivity.
  - discriminate.
  - reflexivity.
  - intros [|j] s' Hj Hs; [|lia]. injection Hs as <-. vm_compute. reflexivity.
Defined.

Lemma client_hello_sound_witness : "a.com" ∈ ["a.com"; "b.com"].
Proof.
  eapply (client_hello_sound demo_hmac demo_hmac_length (Unix 1700000001 0) (3 * Second)
    (mkSource (concat (map hsrec demo_frags) ++ []) EOF) [replicate 16 Byte.x09; demo_secret] ["a.com"; "b.com"]).
  vm_compute. reflexivity.
Defined.

(** ** The server hello: server_side.go *)

Definition ChangeCipherValue : byte := Byte.x01.
Definition EllipticCurveLen : nat := 32.

Definition serverHelloSuffix : list byte :=
  [Byte.x00; Byte.x00; Byte.x2e; Byte.x00; Byte.x2b; Byte.x00; Byte.x02; Byte.x03; Byte.x04;
   Byte.x00; Byte.x33; Byte.x00; Byte.x24; Byte.x00; Byte.x1d; Byte.x00; Byte.x20].

Record NoiseParams := mkNoise { Mean : Z; Jitter : Z }.

(** [curve] is the public key the X25519 computation gives. *)
Definition generateServerHelloHandshakePayload (hello : ClientHello) (curve : list byte) : list byte :=
  TLSVersion ++ emptyRandom ++ be_split 1 (uwrap 8 (Z.of_nat (length (SessionID hello)))) ++ SessionID hello ++
  be_split 2 (CipherSuite hello) ++ serverHelloSuffix ++ curve.

Definition generateServerHelloPayload (hello : ClientHello) (curve : list byte) : list byte :=
  let payload := generateServerHelloHandshakePayload hello curve in
  [TypeHandshakeServer] ++ drop 1 (be_split 4 (uwrap 32 (Z.of_nat (length payload)))) ++ payload.

Definition generateServerHello (hello : ClientHello) (curve : list byte) : list byte :=
  let payload := generateServerHelloPayload hello curve in
  [TypeHandshake] ++ TLSVersion ++ be_split 2 (uwrap 16 (Z.of_nat (length payload))) ++ payload.

Definition generateChangeCipherValue : list byte :=
  [TypeChangeCipherSpec] ++ TLSVersion ++ be_split 2 1 ++ [ChangeCipherValue].

(** The size of the noise; [rnd n] is [rand.IntN(n)]. *)
Definition noiseSize (rnd : Z -> Z) (noise : NoiseParams) : Z :=
  if (0 <? Mean noise) && (0 <? Jitter noise)
  then Z.max (Mean noise - Jitter noise + rnd (2 * Jitter noise)) 1000
  else 2500 + rnd 2200.

(** [data n] are the random bytes of [rand.Read]; an error of [WriteRecord] is
    dropped, and nothing is written then. *)
Definition generateNoise (rnd : Z -> Z) (data : nat -> list byte) (noise : NoiseParams) : list byte :=
  match WriteRecord (data (Z.to_nat (noiseSize rnd noise))) with
  | Ok w => w
  | Fail _ => []
  end.

Section ServerHmac.
Context (hmac : list byte -> list byte -> list byte).

Definition SendServerHello (rnd : Z -> Z) (data : nat -> list byte) (curve secret : list byte) (clientHello : ClientHello)
    (noise : NoiseParams) : list byte :=
  let packet := generateServerHello clientHello curve ++ generateChangeCipherValue ++ generateNoise rnd data noise in
  copy_at RandomOffset (hmac secret (Random clientHello ++ packet)) packet.
End ServerHmac.

(** What a Telegram client checks of the answer: the random of the packet is
    the digest of its own random and the packet with the random zeroed. *)
Definition serverHello_verifies (hmac : list byte -> list byte -> list byte) (secret clientRnd packet : list byte) : Prop :=
  slice RandomOffset (RandomOffset + RandomLen) packet =
  hmac secret (clientRnd ++ copy_at RandomOffset emptyRandom packet).

(** ** Proofs: the server hello *)

Lemma noiseSize_bounds rnd noise :
  (forall n, 0 < n -> 0 <= rnd n < n) ->
  1000 <= noiseSize rnd noise /\
  (Mean noise <= 0 \/ Jitter noise <= 0 -> 2500 <= noiseSize rnd noise < 4700) /\
  (noiseSize rnd noise <= Z.max 4700 (Mean noise + Jitter noise)).
Proof.
  intros Hr. unfold noiseSize. pose proof (Hr 2200 ltac:(lia)).
  destruct ((0 <? Mean noise) && (0 <? Jitter noise)) eqn:E; zbool.
  - pose proof (Hr (2 * Jitter noise) ltac:(lia)). lia.
  - lia.
Qed.

Lemma generateNoise_record rnd data noise :
  length (data (Z.to_nat (noiseSize rnd noise))) = Z.to_nat (noiseSize rnd noise) ->
  generateNoise rnd data noise =
  if Z.of_nat MaxRecordPayloadSize <? noiseSize rnd noise then []
  else record TypeApplicationData (data (Z.to_nat (noiseSize rnd noise))).
Proof.
  intros Hd. unfold generateNoise. rewrite WriteRecord_spec, Hd.
  destruct (_ <? _)%nat eqn:E, (Z.of_nat MaxRecordPayloadSize <? _) eqn:E'; zbool; try done; lia.
Qed.

(** The bytes of the handshake record around its random. *)
Lemma generateServerHello_shape hello curve :
  Z.of_nat (length (SessionID hello)) < 2 ^ 8 -> length curve = EllipticCurveLen ->
  exists a b, length a = RandomOffset /\ generateServerHello hello curve = a ++ emptyRandom ++ b /\
    forall d, length d = RandomLen -> exists p, a ++ d ++ b = record TypeHandshake p.
Proof.
  intros Hs Hc. set (n := length (generateServerHelloPayload hello curve)).
  set (tail := be_split 1 (uwrap 8 (Z.of_nat (length (SessionID hello)))) ++ SessionID hello ++
               be_split 2 (CipherSuite hello) ++ serverHelloSuffix ++ curve).
  set (l3 := drop 1 (be_split 4 (uwrap 32 (Z.of_nat (length (generateServerHelloHandshakePayload hello curve)))))).
  assert (length l3 = 3%nat) as Hl3 by (unfold l3; rewrite length_drop, length_be_split; lia).
  assert (Z.of_nat n < 2 ^ 16) as Hn.
  { unfold n, generateServerHelloPayload. fold l3. rewrite !length_app, Hl3.
    unfold generateServerHelloHandshakePayload. rewrite !length_app, !length_be_split, Hc.
    unfold emptyRandom, RandomLen, EllipticCurveLen. rewrite length_replicate. simpl length. lia. }
  exists ([TypeHandshake] ++ TLSVersion ++ be_split 2 (Z.of_nat n) ++ [TypeHandshakeServer] ++ l3 ++ TLSVersion), tail.
  split_and!.
  - rewrite !length_app, length_be_split, Hl3. done.
  - unfold generateServerHello. fold n. rewrite (uwrap_small 16) by lia. unfold generateServerHelloPayload. fold l3.
    unfold generateServerHelloHandshakePayload. fold tail. by rewrite <-!app_assoc.
  - intros d Hd. exists ([TypeHandshakeServer] ++ l3 ++ TLSVersion ++ d ++ tail). unfold record.
    replace (length ([TypeHandshakeServer] ++ l3 ++ TLSVersion ++ d ++ tail)) with n; [by rewrite <-!app_assoc|].
    unfold n, generateServerHelloPayload. fold l3. unfold generateServerHelloHandshakePayload. fold tail.
    rewrite !length_app, Hd. unfold emptyRandom. by rewrite length_replicate.
Qed.

(** The server's answer is what a client expects: exactly a handshake
    record, a ChangeCipherSpec record and one ApplicationData record (as long as
    the noise fits a record), and its random is the digest of the client's
    random and of the packet with the random zeroed, so the client's check
    succeeds. *)
Theorem server_hello_verifies hmac rnd data curve secret hello noise :
  (forall k d, length (hmac k d) = RandomLen) ->
  (forall n, 0 < n -> 0 <= rnd n < n) -> (forall n, length (data n) = n) ->
  Z.of_nat (length (SessionID hello)) < 2 ^ 8 -> length curve = EllipticCurveLen ->
  Mean noise + Jitter noise <= Z.of_nat MaxRecordPayloadSize ->
  let packet := SendServerHello hmac rnd data curve secret hello noise in
  serverHello_verifies hmac secret (Random hello) packet /\
  exists p1 p3, packet = wire [(TypeHandshake, p1); (TypeChangeCipherSpec, [ChangeCipherValue]); (TypeApplicationData, p3)].
Proof.
  intros Hh Hr Hd Hs Hc Hn packet. destruct (generateServerHello_shape hello curve Hs Hc) as (a & b & Ha & Hg & Hrec).
  set (rest := generateChangeCipherValue ++ generateNoise rnd data noise).
  set (digest := hmac secret (Random hello ++ (a ++ emptyRandom ++ b) ++ rest)).
  assert (packet = a ++ digest ++ b ++ rest) as Hp.
  { unfold packet, SendServerHello. rewrite Hg. fold rest digest. rewrite <-Ha, <-!app_assoc.
    apply copy_at_mid; [done|]. unfold digest. rewrite Hh. by unfold emptyRandom; rewrite length_replicate. }
  split.
  - unfold serverHello_verifies. rewrite Hp. unfold slice. rewrite <-Ha at 1 2 3.
    rewrite drop_app_length. rewrite take_app_length' by (unfold digest; rewrite Hh; lia).
    rewrite <-Ha, copy_at_mid by (try done; unfold digest; rewrite Hh; by unfold emptyRandom; rewrite length_replicate).
    unfold digest. by rewrite <-!app_assoc.
  - destruct (Hrec digest) as [p1 Hp1]; [apply Hh|]. exists p1, (data (Z.to_nat (noiseSize rnd noise))).
    rewrite Hp, (app_assoc digest), (app_assoc a), Hp1, wire_cons. f_equal. unfold rest.
    rewrite generateNoise_record by apply Hd. pose proof (noiseSize_bounds rnd noise Hr) as (_ & _ & Hb).
    rewrite (proj2 (Z.ltb_ge _ _)); [unfold wire; simpl; by rewrite app_nil_r|].
    unfold MaxRecordPayloadSize, MaxRecordSize, SizeHeader in *. lia.
Qed.

Definition demo_hello : ClientHello := mkHello (replicate 32 Byte.x0d) (replicate 32 Byte.x0e) 0x1301.

Lemma server_hello_verifies_witness :
  let packet := SendServerHello demo_hmac (fun _ => 0) (fun n => replicate n Byte.x00) (replicate 32 Byte.x0c)
                  demo_secret demo_hello (mkNoise 4000 100) in
  serverHello_verifies demo_hmac demo_secret (Random demo_hello) packet.
Proof.
  apply (server_hello_verifies demo_hmac (fun _ => 0) (fun n => replicate n Byte.x00) (replicate 32 Byte.x0c)
           demo_secret demo_hello (mkNoise 4000 100)).
  - apply demo_hmac_length.
  - lia.
  - intros n. apply length_replicate.
  - vm_compute. reflexivity.
  - reflexivity.
  - vm_compute. discriminate.
Defined.

(** With a measured size beyond the record limit the noise record is dropped
    silently: the answer then has no ApplicationData record at all, and a
    client that waits for three records does not complete. *)
Lemma oversized_noise_dropped rnd data noise :
  (forall n, 0 < n -> 0 <= rnd n < n) -> (forall n, length (data n) = n) ->
  0 < Mean noise -> 0 < Jitter noise -> Z.of_nat MaxRecordPayloadSize < Mean noise - Jitter noise ->
  generateNoise rnd data noise = [].
Proof.
  intros Hr Hd Hm Hj Hbig. rewrite generateNoise_record by apply Hd. unfold noiseSize.
  rewrite (proj2 (Z.ltb_lt 0 _) Hm), (proj2 (Z.ltb_lt 0 _) Hj). simpl. pose proof (Hr (2 * Jitter noise) ltac:(lia)).
  by rewrite (proj2 (Z.ltb_lt _ _)) by lia.
Qed.
