(* ===== verification/HelloBound.v ===== *)
(** * A bound on the client hello: mtglib/internal/tls/fake/utils.go

    A client that has not authenticated decides how many records its hello has
    and how long they are.  The reader of the fragments stops after eleven, so
    that the proxy reads a bounded hello whatever such a client sends.  What it
    sends after that, to the fronting host, has no bound. *)

From S2P Require Import Prelude GoIO TLS FakeTLS.
Open Scope Z_scope.

(** A fragment with its header. *)
Definition maxFragment : Z := 5 + 65535.

(** What is left of the connection below a reader. *)
Definition left_of (f : fragReader) : Z := Z.of_nat (length (avail (fr_src f))).

Lemma parseNextFragment_bound f :
  left_of f <= left_of (parseNextFragment f).2 + maxFragment /\ avail (fr_src (parseNextFragment f).2) `suffix_of` avail (fr_src f).
Proof.
  unfold parseNextFragment, left_of, maxFragment, read_full. destruct (5 <=? length (avail (fr_src f)))%nat eqn:E; zbool.
  - case_match; [cbn; rewrite length_drop; split; [lia|apply suffix_drop]|]. case_match; [cbn; rewrite length_drop; split; [lia|apply suffix_drop]|].
    unfold copy_n. cbn [snd fr_src avail fin]. set (h := slice 3 5 (take 5 (avail (fr_src f)))).
    assert (u16 h <= 65535) as Hu.
    { unfold u16. pose proof (be_combine_bound h) as Hb. assert (length h <= 2)%nat by (unfold h, slice; rewrite length_take; lia).
      assert (2 ^ (8 * Z.of_nat (length h)) <= 2 ^ 16) by (apply Z.pow_le_mono_r; lia). lia. }
    rewrite drop_drop. split; [rewrite !length_drop; lia|apply suffix_drop].
  - cbn. split; [lia|apply suffix_nil].
Qed.

(** From one reader to a later one: only bytes of the stream were taken, and no
    more than the fragments that were left can have. *)
Definition bounded (f f' : fragReader) (failed : bool) : Prop :=
  avail (fr_src f') `suffix_of` avail (fr_src f) /\
  (failed = false -> (readFragments f <= readFragments f' <= 11)%nat) /\
  left_of f <= left_of f' + maxFragment * ((if failed then 11 else Z.of_nat (readFragments f')) - Z.of_nat (readFragments f)).

Lemma bounded_refl f b : (readFragments f <= 11)%nat -> bounded f f b.
Proof. intros H. split_and!; [done|lia|]. unfold maxFragment. destruct b; lia. Qed.

Lemma bounded_trans f f1 f2 b : bounded f f1 false -> bounded f1 f2 b -> bounded f f2 b.
Proof.
  intros (H1 & H2 & H3) (H4 & H5 & H6). specialize (H2 eq_refl). split_and!; [by etrans|intros Hb; specialize (H5 Hb); lia|].
  unfold maxFragment in *. destruct b; lia.
Qed.

Lemma fillBuf_bound fuel f : (readFragments f <= 11)%nat -> bounded f (fillBuf fuel f).2 (bool_decide ((fillBuf fuel f).1 <> None)).
Proof.
  revert f. induction fuel as [|fuel IH]; intros f Hf; cbn [fillBuf]; destruct (fr_buf f) as [|b l] eqn:Hb; try (by apply bounded_refl).
  destruct (maxFragmentsCount <? readFragments f)%nat eqn:E; [by apply bounded_refl|].
  apply Nat.ltb_ge in E. unfold maxFragmentsCount in E.
  destruct (parseNextFragment_bound f) as [Hp Hs]. pose proof (parseNextFragment_count f) as Hc.
  destruct (parseNextFragment f) as [[e|] g]; cbn [fst snd] in *.
  - rewrite bool_decide_true by done. split_and!; [done|done|]. unfold maxFragment in *. lia.
  - eapply bounded_trans; [|apply IH; cbn; lia]. split_and!; [done|cbn; lia|]. cbn [readFragments]. unfold left_of, maxFragment in *. cbn [fr_src]. lia.
Qed.

Lemma frag_Read_bound p f : (readFragments f <= 11)%nat -> bounded f (frag_Read p f).2 (negb (is_ok (frag_Read p f).1)).
Proof.
  intros Hf. unfold frag_Read. destruct (fr_buf f) eqn:Hb; [|by apply (bounded_refl f)].
  pose proof (fillBuf_bound 12 f Hf) as H. destruct (fillBuf 12 f) as [[e|] g]; cbn [fst snd] in *.
  - by rewrite bool_decide_true in H by done.
  - rewrite bool_decide_false in H by auto. exact H.
Qed.

Lemma frag_collect_bound fuel n f :
  (readFragments f <= 11)%nat -> bounded f (frag_collect fuel n f).2 (bool_decide ((frag_collect fuel n f).1.2 <> None)).
Proof.
  revert n f. induction fuel as [|fuel IH]; intros [|n] f Hf; cbn [frag_collect]; try (by apply bounded_refl).
  pose proof (frag_Read_bound (S n) f Hf) as Hr. destruct (frag_Read (S n) f) as [[l|e] g]; cbn [fst snd is_ok negb] in *.
  - specialize (IH (S n - length l)%nat g ltac:(destruct Hr as (_ & Hr & _); specialize (Hr eq_refl); lia)).
    destruct (frag_collect fuel _ g) as [[l' e'] g']. cbn [fst snd] in *. by eapply bounded_trans.
  - by rewrite bool_decide_true by done.
Qed.

(** C6: the client hello is read within a bound.  Whatever a client sends and
    however long it goes on, [parseClientHello] takes at most eleven records,
    720940 bytes, off its connection before it gives a hello or an error, so the
    proxy buffers no more than that before it decides whether the client is
    authenticated; what was not taken is an end of the client's stream.  This
    bounds the reading of the hello only: a client that is then sent to the
    fronting domain is relayed there without a limit. *)
Theorem hello_bounded client :
  let rest := (parseClientHello_conn client).2 in
  Z.of_nat (length (avail client)) <= Z.of_nat (length (avail rest)) + 720940 /\ avail rest `suffix_of` avail client.
Proof.
  cbn zeta. set (f := mkFrag client [] 0).
  assert (forall g b, bounded f g b -> left_of f <= left_of g + 720940 /\ avail (fr_src g) `suffix_of` avail client) as Hfin.
  { intros g b (H1 & H2 & H3). split; [|done]. unfold maxFragment in H3. cbn [readFragments f] in *. destruct b; [lia|].
    specialize (H2 eq_refl). lia. }
  unfold parseClientHello_conn. fold f. pose proof (frag_collect_bound frag_fuel 4 f ltac:(cbn; lia)) as H4.
  unfold frag_read_full. destruct (frag_collect frag_fuel 4 f) as [[header [e|]] g]; cbn [fst snd] in *; [by eapply Hfin|].
  case_match; [by eapply Hfin|]. rewrite bool_decide_false in H4 by auto.
  set (n := Z.to_nat _). unfold frag_copy_n. assert (readFragments g <= 11)%nat as Hg by (destruct H4 as (_ & H4 & _); specialize (H4 eq_refl); lia).
  pose proof (bounded_trans _ _ _ _ H4 (frag_collect_bound frag_fuel n g Hg)) as H6.
  destruct (frag_collect frag_fuel n g) as [[body [e|]] k]; cbn [fst snd] in *; by eapply Hfin.
Qed.

(** Of twelve empty records, eleven are read. *)
Example eleven_empty_fragments :
  let client := mkSource (concat (map hsrec (replicate 12 []))) EOF in
  (is_ok (parseClientHello client), length (avail (parseClientHello_conn client).2)) = (false, 5%nat).
Proof. vm_compute. reflexivity. Qed.
