(* ===== verification/Obfuscation.v ===== *)
(** * Obfuscated2: mtglib/obfuscation

    The 64-byte handshake that fixes two AES-CTR streams, and the connection
    that applies them.  The ciphers come from an interface: AES-CTR is
    exclusive-or with a key stream determined by key and IV, SHA-256 a function
    of bytes; nothing else of them is used. *)

From S2P Require Import Prelude GoIO.

(** ** The cryptographic interface *)

Class Crypto := {
  ctr_stream : list byte -> list byte -> nat -> byte;
  sha256 : list byte -> list byte
}.

(** A [cipher.Stream] made by [cipher.NewCTR]: key, IV and position. *)
Record ctr := mkCtr { ctr_key : list byte; ctr_iv : list byte; ctr_pos : nat }.

Section Obfuscated.
Context `{Crypto}.

(** [n] bytes of the key stream from the cipher's position. *)
Definition pad (c : ctr) (n : nat) : list byte :=
  map (ctr_stream (ctr_key c) (ctr_iv c)) (seq (ctr_pos c) n).

(** [XORKeyStream(dst, src)]: the result and the cipher after it. *)
Definition XORKeyStream (c : ctr) (src : list byte) : list byte * ctr :=
  (xor_bytes src (pad c (length src)), mkCtr (ctr_key c) (ctr_iv c) (ctr_pos c + length src)).

(** ** The handshake frame: handshake_frame.go *)

Definition defaultDC : Z := 2.
Definition hfLen : nat := 64.
Definition hfOffsetKey : nat := 8.
Definition hfOffsetIV : nat := 40.
Definition hfOffsetConnectionType : nat := 56.
Definition hfOffsetDC : nat := 60.
Definition hfConnectionType : list byte := replicate 4 Byte.xdd.

Definition hf_key (d : list byte) : list byte := slice hfOffsetKey hfOffsetIV d.
Definition hf_iv (d : list byte) : list byte := slice hfOffsetIV hfOffsetConnectionType d.
Definition connectionType (d : list byte) : list byte := slice hfOffsetConnectionType hfOffsetDC d.
Definition dcSlice (d : list byte) : list byte := slice hfOffsetDC (hfOffsetDC + 2) d.

(** [dc()]: the signed number, the default one for zero. *)
Definition hf_dc (d : list byte) : Z :=
  let idx := swrap 16 (le_combine (dcSlice d)) in if idx =? 0 then defaultDC else idx.

Definition revert (d : list byte) : list byte :=
  take hfOffsetKey d ++ reverse (slice hfOffsetKey hfOffsetConnectionType d) ++ drop hfOffsetConnectionType d.

(** A candidate that [generateHandshake] throws away. *)
Definition rejected (d : list byte) : bool :=
  bool_decide (take 1 d = [Byte.xef]) ||
  bool_decide (le_combine (take 4 d) ∈
    [0x44414548; 0x54534f50; 0x20544547; 0x4954504f; 0x02010316; 0xdddddddd; 0xeeeeeeee]) ||
  bool_decide (slice 4 8 d = replicate 4 Byte.x00).

(** [generateHandshake] over the frames [rand.Read] gives, in order; [None] when
    they run out. *)
Fixpoint generateHandshake (rnd : list (list byte)) (dc : Z) : option (list byte) :=
  match rnd with
  | [] => None
  | d :: rnd =>
      if rejected d then generateHandshake rnd dc
      else Some (copy_at hfOffsetDC (le_split 2 (uwrap 16 dc)) (copy_at hfOffsetConnectionType hfConnectionType d))
  end.

(** ** The handshakes: obfuscator.go *)

(** The connection: the ciphers of both directions. *)
Record obfConn := mkObf { sendCipher : ctr; recvCipher : ctr }.

(** [getCipher]; a nil secret leaves the key as it is. *)
Definition getCipher (secret : option (list byte)) (frame : list byte) : ctr :=
  mkCtr (match secret with
         | None => hf_key frame
         | Some s => sha256 (hf_key frame ++ s)
         end) (hf_iv frame) 0.

Definition ReadHandshake (secret : option (list byte)) (s : source) : res (Z * obfConn) * source :=
  match read_full hfLen s with
  | (Fail e, s) => (Fail (Wrap "cannot read frame" e), s)
  | (Ok frame, s) =>
      let recv := getCipher secret frame in
      let frame := revert frame in
      let send := getCipher secret frame in
      let '(frame, recv) := XORKeyStream recv frame in
      (if negb (bool_decide (connectionType frame = hfConnectionType))
       then Fail (Errorf "unsupported connection type")
       else Ok (hf_dc frame, mkObf send recv), s)
  end.

(** The bytes that [SendHandshake] writes for a generated frame, and the
    connection; [werr] is the error of the write. *)
Definition SendHandshake (secret : option (list byte)) (frame : list byte) (werr : option goerr)
    : list byte * res obfConn :=
  let copyFrame := frame in
  let send := getCipher secret frame in
  let frame := revert frame in
  let recv := getCipher secret frame in
  let '(frame, send) := XORKeyStream send frame in
  let frame := copy_at hfOffsetKey (hf_key copyFrame) frame in
  let frame := copy_at hfOffsetIV (hf_iv copyFrame) frame in
  (frame, match werr with
          | Some e => Fail (Wrap "cannot send a handshake" e)
          | None => Ok (mkObf send recv)
          end).

(** ** The connection: conn.go *)

(** [Read]: [l] and [err] are what the connection below returned; with an
    error the bytes are passed on as they are. *)
Definition obf_Read (c : obfConn) (l : list byte) (err : option goerr) : list byte * option goerr * obfConn :=
  match err with
  | Some e => (l, Some e, c)
  | None => let '(p, r) := XORKeyStream (recvCipher c) l in (p, None, mkObf (sendCipher c) r)
  end.

(** [Write]: what is given to the connection below. *)
Definition obf_Write (c : obfConn) (p : list byte) : list byte * obfConn :=
  let '(q, s) := XORKeyStream (sendCipher c) p in (q, mkObf s (recvCipher c)).

(** Successive writes: the concatenated wire bytes. *)
Fixpoint write_all (c : obfConn) (ps : list (list byte)) : list byte * obfConn :=
  match ps with
  | [] => ([], c)
  | p :: ps => let '(w, c) := obf_Write c p in let '(w', c) := write_all c ps in (w ++ w', c)
  end.

(** Successive reads of the given pieces: the concatenated plain bytes. *)
Fixpoint read_all (c : obfConn) (ws : list (list byte)) : list byte * obfConn :=
  match ws with
  | [] => ([], c)
  | w :: ws => let '(p, _, c) := obf_Read c w None in let '(p', c) := read_all c ws in (p ++ p', c)
  end.

(** ** Proofs *)

Lemma length_pad c n : length (pad c n) = n.
Proof. unfold pad. by rewrite length_map, length_seq. Qed.

Lemma pad_app c n m : pad c (n + m) = pad c n ++ pad (mkCtr (ctr_key c) (ctr_iv c) (ctr_pos c + n)) m.
Proof. unfold pad. by rewrite seq_app, map_app. Qed.

Lemma xor_bytes_app a b c d : length a = length c -> xor_bytes (a ++ b) (c ++ d) = xor_bytes a c ++ xor_bytes b d.
Proof. intros. unfold xor_bytes. by apply zip_with_app. Qed.

(** A cipher applied piecewise is the cipher applied at once. *)
Lemma write_all_spec c ps :
  write_all c ps = ((XORKeyStream (sendCipher c) (concat ps)).1,
                    mkObf (XORKeyStream (sendCipher c) (concat ps)).2 (recvCipher c)).
Proof.
  revert c. induction ps as [|p ps IH]; intros [[k iv n] r].
  { simpl. unfold XORKeyStream. simpl. by rewrite Nat.add_0_r. }
  simpl. rewrite IH. simpl. unfold XORKeyStream. simpl. rewrite length_app, pad_app, xor_bytes_app by (by rewrite length_pad).
  simpl. by rewrite Nat.add_assoc.
Qed.

Lemma read_all_spec c ws :
  read_all c ws = ((XORKeyStream (recvCipher c) (concat ws)).1,
                   mkObf (sendCipher c) (XORKeyStream (recvCipher c) (concat ws)).2).
Proof.
  revert c. induction ws as [|p ps IH]; intros [s [k iv n]].
  { simpl. unfold XORKeyStream. simpl. by rewrite Nat.add_0_r. }
  simpl. rewrite IH. simpl. unfold XORKeyStream. simpl. rewrite length_app, pad_app, xor_bytes_app by (by rewrite length_pad).
  simpl. by rewrite Nat.add_assoc.
Qed.

(** Data crosses two connections whose ciphers agree, in whatever pieces it is
    written and read. *)
Lemma streams_agree w r ps ws :
  recvCipher r = sendCipher w -> concat ws = (write_all w ps).1 -> (read_all r ws).1 = concat ps.
Proof.
  intros Hr Hw. rewrite read_all_spec, Hw, write_all_spec, Hr. simpl.
  rewrite length_xor_bytes, length_pad, Nat.min_id. apply xor_bytes_invol. by rewrite length_pad.
Qed.

(** The four parts of a frame. *)
Record parts (n k v t d : list byte) : Prop := {
  parts_eq : d = n ++ k ++ v ++ t;
  len_n : length n = 8%nat; len_k : length k = 32%nat; len_v : length v = 16%nat; len_t : length t = 8%nat }.

Lemma parts_of d : length d = hfLen -> exists n k v t, parts n k v t d.
Proof.
  intros Hl. unfold hfLen in Hl. exists (take 8 d), (slice 8 40 d), (slice 40 56 d), (drop 56 d).
  split; [|rewrite ?length_take, ?length_drop, ?length_slice; lia..].
  by rewrite !drop_slice, take_drop by lia.
Qed.

Lemma parts_length n k v t d : parts n k v t d -> length d = hfLen.
Proof. intros [-> ? ? ? ?]. rewrite length_app, length_app, length_app. unfold hfLen. lia. Qed.

Lemma parts_key n k v t d : parts n k v t d -> hf_key d = k.
Proof. intros [-> ? ? ? ?]. apply slice_mid; unfold hfOffsetKey, hfOffsetIV; lia. Qed.

Lemma parts_iv n k v t d : parts n k v t d -> hf_iv d = v.
Proof.
  intros [-> ? ? ? ?]. unfold hf_iv. rewrite app_assoc.
  apply slice_mid; rewrite ?length_app; unfold hfOffsetIV, hfOffsetConnectionType; lia.
Qed.

Lemma parts_tail n k v t d : parts n k v t d -> drop hfOffsetConnectionType d = t.
Proof.
  intros [-> ? ? ? ?]. rewrite !app_assoc. apply drop_app_length'. rewrite !length_app. unfold hfOffsetConnectionType. lia.
Qed.

(** Reversing a frame leaves its ends and depends on key and IV only. *)
Lemma parts_revert n k v t d :
  parts n k v t d ->
  parts n (take 32 (reverse (k ++ v))) (drop 32 (reverse (k ++ v))) t (revert d).
Proof.
  intros P. pose proof (parts_tail _ _ _ _ _ P) as Ht. destruct P as [E Hn Hk Hv Hl]. split; [|rewrite ?length_take, ?length_drop, ?length_reverse, ?length_app; lia..].
  unfold revert. rewrite Ht, (app_assoc (take 32 _)), take_drop, E. f_equal; [by apply take_app_length'|].
  do 2 f_equal. rewrite (app_assoc k v t). apply slice_mid; rewrite ?length_app; unfold hfOffsetKey, hfOffsetConnectionType; lia.
Qed.

(** What the ciphers of a frame are made from. *)
Lemma getCipher_parts secret n k v t d n' t' d' :
  parts n k v t d -> parts n' k v t' d' -> getCipher secret d = getCipher secret d'.
Proof. intros P Q. unfold getCipher. by rewrite (parts_key _ _ _ _ _ P), (parts_key _ _ _ _ _ Q), (parts_iv _ _ _ _ _ P), (parts_iv _ _ _ _ _ Q). Qed.

(** Encryption acts on the four parts separately. *)
Lemma parts_xor c n k v t d :
  parts n k v t d ->
  exists k' v', parts (xor_bytes n (pad c 8)) k' v' (xor_bytes t (pad (mkCtr (ctr_key c) (ctr_iv c) (ctr_pos c + 56)) 8)) (XORKeyStream c d).1.
Proof.
  intros [-> ? ? ? ?]. unfold XORKeyStream. simpl. rewrite !length_app.
  replace (length n + (length k + (length v + length t)))%nat with (8 + (32 + (16 + 8)))%nat by lia.
  rewrite (pad_app c 8), (pad_app _ 32), (pad_app _ 16). do 3 (rewrite xor_bytes_app by (rewrite length_pad; lia)). simpl.
  rewrite <-!Nat.add_assoc. simpl.
  eexists _, _. split; [reflexivity|rewrite length_xor_bytes, length_pad; lia..].
Qed.

(** The frame on the wire: noise and tail encrypted, key and IV in clear. *)
Lemma sent_parts secret n k v t d werr :
  parts n k v t d ->
  let c := getCipher secret d in
  parts (xor_bytes n (pad c 8)) k v (xor_bytes t (pad (mkCtr (ctr_key c) (ctr_iv c) 56) 8)) (SendHandshake secret d werr).1.
Proof.
  intros P c. destruct (parts_xor c _ _ _ _ _ (parts_revert _ _ _ _ _ P)) as (k' & v' & Q).
  unfold SendHandshake. fold c. destruct (XORKeyStream c (revert d)) as [f s]. cbn [fst] in *.
  change (ctr_pos c + 56)%nat with 56%nat in Q. clearbody c.
  rewrite (parts_key _ _ _ _ _ P), (parts_iv _ _ _ _ _ P).
  destruct P as [_ ? ? ? ?], Q as [-> ? ? ? ?]. split; [|done..].
  rewrite (copy_at_mid hfOffsetKey) by (unfold hfOffsetKey; lia).
  rewrite (app_assoc _ k). rewrite (copy_at_mid hfOffsetIV) by (rewrite ?length_app; unfold hfOffsetIV; lia).
  by rewrite <-app_assoc.
Qed.

Lemma generateHandshake_parts rnd dc d :
  Forall (fun f => length f = hfLen) rnd -> generateHandshake rnd dc = Some d ->
  exists n k v r, parts n k v (hfConnectionType ++ le_split 2 (uwrap 16 dc) ++ r) d.
Proof.
  induction 1 as [|f rnd Hf _ IH]; [done|]. cbn [generateHandshake]. destruct (rejected f); [done|]. intros [= <-].
  destruct (parts_of f Hf) as (n & k & v & t & [-> ? ? ? ?]). exists n, k, v, (drop 6 t).
  assert (length (le_split 2 (uwrap 16 dc)) = 2%nat) by (by rewrite length_le_split).
  split; [|done..|rewrite !length_app, length_drop; simpl length; lia].
  rewrite !(app_assoc _ v), !(app_assoc n).
  rewrite <-(take_drop 4 t) at 1. rewrite copy_at_mid; [|rewrite !length_app; unfold hfOffsetConnectionType; lia|rewrite length_take; simpl length; lia].
  rewrite <-(take_drop 2 (drop 4 t)), drop_drop. rewrite (app_assoc _ hfConnectionType).
  rewrite copy_at_mid; [|rewrite !length_app; simpl length; unfold hfOffsetDC; lia|rewrite length_take, length_drop; simpl length; lia].
  by rewrite <-!app_assoc.
Qed.

(** The two fields of the tail. *)
Lemma tail_field n k v c a b d lo hi :
  parts n k v (c ++ a ++ b) d -> (lo = 56 + length c)%nat -> (hi = lo + length a)%nat -> slice lo hi d = a.
Proof.
  intros [-> ? ? ? _] -> ->. rewrite (app_assoc v), (app_assoc k), (app_assoc n).
  apply slice_mid; rewrite ?length_app; lia.
Qed.

(** What the reader computes from the wire bytes. *)
Lemma ReadHandshake_parts secret n k v r d dc werr rest e :
  parts n k v (hfConnectionType ++ le_split 2 (uwrap 16 dc) ++ r) d -> -32768 <= dc < 32768 ->
  ReadHandshake secret (mkSource ((SendHandshake secret d werr).1 ++ rest) e) =
  (Ok (if dc =? 0 then defaultDC else dc,
       mkObf (getCipher secret (revert d)) (XORKeyStream (getCipher secret d) (revert d)).2), mkSource rest e).
Proof.
  intros P Hdc. pose proof (sent_parts secret _ _ _ _ _ werr P) as Q. cbv zeta in Q.
  set (wire := (SendHandshake secret d werr).1) in *. clearbody wire.
  pose proof (parts_length _ _ _ _ _ Q) as Hw.
  unfold ReadHandshake. rewrite read_full_app by done.
  rewrite (getCipher_parts secret _ _ _ _ _ _ _ _ Q P).
  pose proof (parts_revert _ _ _ _ _ P) as P'. pose proof (parts_revert _ _ _ _ _ Q) as Q'.
  rewrite (getCipher_parts secret _ _ _ _ _ _ _ _ Q' P').
  destruct (parts_xor (getCipher secret d) _ _ _ _ _ Q') as (k' & v' & R).
  change (ctr_pos (getCipher secret d) + 56)%nat with 56%nat in R.
  rewrite !xor_bytes_invol in R by (rewrite length_pad; by destruct P).
  assert (length (revert wire) = length (revert d)) as Hl.
  { by rewrite (parts_length _ _ _ _ _ P'), (parts_length _ _ _ _ _ Q'). }
  unfold XORKeyStream in *. rewrite Hl in *. cbn [fst snd] in R |- *.
  set (f := xor_bytes (revert wire) _) in *. clearbody f.
  assert (connectionType f = hfConnectionType) as -> by (by apply (tail_field _ _ _ [] _ _ _ _ _ R)).
  assert (dcSlice f = le_split 2 (uwrap 16 dc)) as Hf by (by apply (tail_field _ _ _ _ _ _ _ _ _ R)).
  unfold hf_dc. rewrite Hf, le_combine_split_small, swrap_uwrap by (try apply uwrap_range; lia).
  rewrite bool_decide_true by done. simpl negb. cbv iota.
  reflexivity.
Qed.

(** What [ReadHandshake] makes of a handshake that [SendHandshake] wrote: the two
    connections use the same ciphers. *)
Lemma handshake_pair secret rnd dc frame :
  Forall (fun f => length f = hfLen) rnd -> generateHandshake rnd dc = Some frame -> -32768 <= dc < 32768 ->
  exists wire w r, SendHandshake secret frame None = (wire, Ok w) /\ length wire = hfLen /\
    (forall rest e, ReadHandshake secret (mkSource (wire ++ rest) e) = (Ok (if dc =? 0 then defaultDC else dc, r), mkSource rest e)) /\
    recvCipher r = sendCipher w /\ recvCipher w = sendCipher r.
Proof.
  intros Hr Hg Hdc. destruct (generateHandshake_parts _ _ _ Hr Hg) as (n & k & v & t & P).
  exists (SendHandshake secret frame None).1, (mkObf (XORKeyStream (getCipher secret frame) (revert frame)).2 (getCipher secret (revert frame))). eexists. split_and!.
  - done.
  - apply (parts_length _ _ _ _ _ (sent_parts secret _ _ _ _ _ None P)).
  - intros rest e. by apply (ReadHandshake_parts _ _ _ _ _ _ _ _ _ _ P).
  - done.
  - done.
Qed.

(** A beginning of what was written is read as a beginning. *)
Lemma streams_prefix w r ps ws :
  recvCipher r = sendCipher w -> concat ws `prefix_of` (write_all w ps).1 ->
  (read_all r ws).1 = take (length (concat ws)) (concat ps).
Proof.
  intros Hr Hp. rewrite write_all_spec in Hp. set (X := concat ps) in *. set (n := length (concat ws)).
  rewrite (streams_agree w r [take n X] ws Hr); [by apply app_nil_r|].
  rewrite write_all_spec. change (concat [take n X]) with (take n X ++ []). rewrite app_nil_r. destruct Hp as [rest Hp]. cbn [XORKeyStream fst] in *.
  assert (n <= length X)%nat as Hn.
  { apply (f_equal length) in Hp. rewrite length_xor_bytes, length_pad, Nat.min_id, length_app in Hp. unfold n. lia. }
  assert (length (take n X) = n) as Hl by (rewrite length_take; lia). pose proof (take_drop n X) as HX.
  set (A := take n X) in *. set (B := drop n X) in *. clearbody A B X. subst X.
  rewrite length_app, pad_app, xor_bytes_app in Hp by (by rewrite length_pad).
  apply app_inj_1 in Hp as [-> _]; [done|]. rewrite length_xor_bytes, length_pad, Nat.min_id. done.
Qed.

(** The obfuscated2 handshake round trip.  Whatever frame [generateHandshake]
    draws for a data centre number that fits in 16 bits, [ReadHandshake] with
    the same secret takes exactly the 64 bytes [SendHandshake] wrote, returns
    that number (2 for 0, negative numbers with their sign), and from then on
    everything written on either side, in any pieces, is what the other side
    reads, in any pieces. *)
Theorem obfuscated2_roundtrip secret rnd dc frame rest e :
  Forall (fun f => length f = hfLen) rnd -> generateHandshake rnd dc = Some frame -> -32768 <= dc < 32768 ->
  exists wire w r,
    SendHandshake secret frame None = (wire, Ok w) /\ length wire = hfLen /\
    ReadHandshake secret (mkSource (wire ++ rest) e) = (Ok (if dc =? 0 then defaultDC else dc, r), mkSource rest e) /\
    (forall ps ws, concat ws = (write_all w ps).1 -> (read_all r ws).1 = concat ps) /\
    (forall ps ws, concat ws = (write_all r ps).1 -> (read_all w ws).1 = concat ps).
Proof.
  intros Hr Hg Hdc. destruct (handshake_pair secret rnd dc frame Hr Hg Hdc) as (wire & w & r & Hs & Hl & Hrd & H1 & H2).
  exists wire, w, r. split_and!; [done|done|by apply Hrd|intros ps ws; by apply streams_agree..].
Qed.

(** The noise of the frame is encrypted as well: the prefixes that
    [generateHandshake] avoids are avoided in the frame, not on the wire. *)
Lemma wire_prefix secret frame werr :
  length frame = hfLen ->
  take 8 (SendHandshake secret frame werr).1 = xor_bytes (take 8 frame) (pad (getCipher secret frame) 8).
Proof.
  intros Hl. destruct (parts_of _ Hl) as (n & k & v & t & P).
  pose proof (sent_parts secret _ _ _ _ _ werr P) as Q. cbv zeta in Q.
  destruct P as [E ? ? ? ?], Q as [-> ? ? ? ?]. rewrite take_app_length' by done. f_equal.
  subst frame. by rewrite take_app_length'.
Qed.
End Obfuscated.

(** A concrete interface for the examples: the key stream mixes key, IV and
    position, the digest is the first 32 bytes. *)
Definition demo_crypto : Crypto := {|
  ctr_stream k v n := xor_byte (nth (n mod 32) k Byte.x00) (xor_byte (nth (n mod 16) v Byte.x00) (byte.of_Z (Z.of_nat n)));
  sha256 l := take 32 (reverse l ++ l) |}.

Definition demo_frame : list byte := map (fun n => byte.of_Z (Z.of_nat n * 7 + 1)) (seq 0 64).

Lemma obfuscated2_roundtrip_witness :
  let H := demo_crypto in
  exists frame wire w r,
    generateHandshake [replicate 64 Byte.xef; demo_frame] (-2) = Some frame /\
    SendHandshake (Some [Byte.x01; Byte.x02]) frame None = (wire, Ok w) /\
    ReadHandshake (Some [Byte.x01; Byte.x02]) (mkSource (wire ++ [Byte.x41]) EOF) = (Ok (-2, r), mkSource [Byte.x41] EOF) /\
    (read_all r [(write_all w [[Byte.x41; Byte.x42]; [Byte.x43]]).1]).1 = [Byte.x41; Byte.x42; Byte.x43].
Proof.
  intros H. eexists _. assert (Forall (fun f => length f = hfLen) [replicate 64 Byte.xef; demo_frame]) as Hf
    by (apply (bool_decide_unpack _); vm_compute; exact I).
  destruct (@obfuscated2_roundtrip H (Some [Byte.x01; Byte.x02]) [replicate 64 Byte.xef; demo_frame] (-2) _ [Byte.x41] EOF
    Hf eq_refl ltac:(lia)) as (wire & w & r & H1 & H2 & H3 & H4 & _).
  exists wire, w, r. split_and!; [done|exact H1|exact H3|].
  apply (H4 [[Byte.x41; Byte.x42]; [Byte.x43]]). apply app_nil_r.
Defined.
