(* ===== verification/Frame.v ===== *)
(** * The RPC transport of the middle proxy: mtglib/internal/middleproxy/frame.go

    [frameConn] cuts a byte stream into numbered, checksummed packets;
    [cbcConn] encrypts the stream below it with AES-256-CBC.  A frame runs over
    any [io.ReadWriter]: the interface is the class [ReadWriter], whose law says
    that [io.ReadFull] over the transport reads the transport's plain stream.
    A socket and a [cbcConn] over a socket are its two instances. *)

From S2P Require Import Prelude GoIO.

(** ** The transports *)

(** What a frame needs of [io.ReadWriter]: [io.ReadFull] and [Write].
    [rw_view] is the plain stream that can still be read. *)
Class ReadWriter (R : Type) := {
  rw_view : R -> source;
  rw_read_full : nat -> R -> res (list byte) * R;
  rw_write : list byte -> R -> option goerr * R
}.

(** [rw_wf] is the transport's own invariant; writing leaves the reading side
    alone. *)
Class ReadWriterLaws (R : Type) `{ReadWriter R} := {
  rw_wf : R -> Prop;
  rw_ok n r l s : rw_wf r -> read_full n (rw_view r) = (Ok l, s) ->
    exists r', rw_read_full n r = (Ok l, r') /\ rw_view r' = s /\ rw_wf r';
  rw_fail n r e s : rw_wf r -> read_full n (rw_view r) = (Fail e, s) -> exists r', rw_read_full n r = (Fail e, r');
  rw_write_view p r : rw_wf r -> rw_view (rw_write p r).2 = rw_view r /\ rw_wf (rw_write p r).2
}.

(** A connection: what it will deliver, what was written to it, and the error
    that writing to it gives, if any. *)
Record socket := mkSocket { s_in : source; s_out : list byte; s_werr : option goerr }.

Definition set_in (s : source) (c : socket) : socket := mkSocket s (s_out c) (s_werr c).

Definition s_write (p : list byte) (c : socket) : option goerr * socket :=
  match s_werr c with
  | Some e => (Some e, c)
  | None => (None, mkSocket (s_in c) (s_out c ++ p) None)
  end.

#[export] Instance socket_rw : ReadWriter socket := {
  rw_view := s_in;
  rw_read_full n c := let '(r, s) := read_full n (s_in c) in (r, set_in s c);
  rw_write := s_write
}.

#[export] Program Instance socket_laws : ReadWriterLaws socket := {| rw_wf _ := True |}.
Next Obligation. simpl. intros n r l s _ ->. eauto. Qed.
Next Obligation. simpl. intros n r e s _ ->. eauto. Qed.
Next Obligation. simpl. intros p r _. unfold s_write. by destruct (s_werr r). Qed.

(** ** cbcConn *)

Definition BlockSize : nat := 16.

(** The AES block operations; the law is the invertibility of a block cipher. *)
Class BlockCipher := {
  aes_encrypt : list byte -> list byte -> list byte;
  aes_decrypt : list byte -> list byte -> list byte
}.

Class BlockCipherLaws `{BlockCipher} := {
  length_aes_encrypt k b : length b = BlockSize -> length (aes_encrypt k b) = BlockSize;
  length_aes_decrypt k b : length b = BlockSize -> length (aes_decrypt k b) = BlockSize;
  aes_decrypt_encrypt k b : length b = BlockSize -> aes_decrypt k (aes_encrypt k b) = b
}.

(** A [cipher.BlockMode]: the key and the current IV. *)
Record blockMode := mkMode { bm_key : list byte; bm_iv : list byte }.

Section CBC.
Context `{BlockCipher}.

(** [CryptBlocks] of the encrypter and of the decrypter on [n] blocks. *)
Fixpoint cbc_encrypt (n : nat) (m : blockMode) (p : list byte) : list byte * blockMode :=
  match n with
  | O => ([], m)
  | S n =>
      let c := aes_encrypt (bm_key m) (xor_bytes (take BlockSize p) (bm_iv m)) in
      let '(cs, m) := cbc_encrypt n (mkMode (bm_key m) c) (drop BlockSize p) in (c ++ cs, m)
  end.

Fixpoint cbc_decrypt (n : nat) (m : blockMode) (c : list byte) : list byte * blockMode :=
  match n with
  | O => ([], m)
  | S n =>
      let b := take BlockSize c in
      let '(ps, m') := cbc_decrypt n (mkMode (bm_key m) b) (drop BlockSize c) in
      (xor_bytes (aes_decrypt (bm_key m) b) (bm_iv m) ++ ps, m')
  end.

Record cbcConn := mkCBC { cbc_raw : socket; cbc_enc : blockMode; cbc_dec : blockMode; cbc_buf : list byte }.

Definition newCBCConn (raw : socket) (enc dec : blockMode) : cbcConn := mkCBC raw enc dec [].

(** [Read] into a slice of length [n]. *)
Definition cbc_Read (n : nat) (c : cbcConn) : list byte * option goerr * cbcConn :=
  match (match cbc_buf c with
         | [] =>
             let '(r, raw) := rw_read_full BlockSize (cbc_raw c) in
             match r with
             | Fail e => (Some e, mkCBC raw (cbc_enc c) (cbc_dec c) [])
             | Ok block => let '(block, dec) := cbc_decrypt 1 (cbc_dec c) block in (None, mkCBC raw (cbc_enc c) dec block)
             end
         | _ => (None, c)
         end) with
  | (Some e, c) => ([], Some e, c)
  | (None, c) => (take n (cbc_buf c), None, mkCBC (cbc_raw c) (cbc_enc c) (cbc_dec c) (drop n (cbc_buf c)))
  end.

Definition cbc_Write (p : list byte) (c : cbcConn) : option goerr * cbcConn :=
  if negb (length p mod BlockSize =? 0)%nat then (Some (Errorf "cbc write of non-block-aligned length"), c)
  else
    let '(encrypted, enc) := cbc_encrypt (length p / BlockSize) (cbc_enc c) p in
    let '(err, raw) := rw_write encrypted (cbc_raw c) in
    (err, mkCBC raw enc (cbc_dec c) (cbc_buf c)).

(** [io.ReadFull] over [Read]: [n] bytes are missing, [acc] was read. *)
Fixpoint readFullLoop (fuel n : nat) (acc : list byte) (c : cbcConn) : res (list byte) * cbcConn :=
  match n, fuel with
  | O, _ => (Ok acc, c)
  | _, O => (Fail (Errorf "out of fuel"), c)
  | _, S fuel =>
      match cbc_Read n c with
      | (_, Some e, c) => (Fail (match acc with
                                 | [] => e
                                 | _ => if bool_decide (e = EOF) then ErrUnexpectedEOF else e
                                 end), c)
      | (l, None, c) => readFullLoop fuel (n - length l) (acc ++ l) c
      end
  end.

(** The plain stream: the rest of the current block and the whole blocks that
    follow. *)
Definition cbc_view (c : cbcConn) : source :=
  let s := s_in (cbc_raw c) in
  mkSource (cbc_buf c ++ (cbc_decrypt (length (avail s) / BlockSize) (cbc_dec c) (avail s)).1)
    (if (length (avail s) mod BlockSize =? 0)%nat then fin s
     else if bool_decide (fin s = EOF) then ErrUnexpectedEOF else fin s).

#[export] Instance cbc_rw : ReadWriter cbcConn := {
  rw_view := cbc_view;
  rw_read_full n c := readFullLoop n n [] c;
  rw_write := cbc_Write
}.
End CBC.

(** ** crc32.ChecksumIEEE *)

Definition crc32_bit (c : Z) : Z :=
  if Z.testbit c 0 then Z.lxor (Z.shiftr c 1) 0xEDB88320 else Z.shiftr c 1.

Definition crc32_byte (c : Z) (b : byte) : Z := Nat.iter 8 crc32_bit (Z.lxor c (byte.unsigned b)).

Definition crc32_update (c : Z) (l : list byte) : Z := Z.lxor (fold_left crc32_byte l (Z.lxor c 0xFFFFFFFF)) 0xFFFFFFFF.

Definition ChecksumIEEE (l : list byte) : Z := crc32_update 0 l.

(** ** frameConn *)

Definition frameMinMessageLength : Z := 12.
Definition frameMaxMessageLength : Z := 16777216.
Definition framePadding : list byte := [Byte.x04; Byte.x00; Byte.x00; Byte.x00].

Section Frame.
Context {R : Type} `{ReadWriter R}.

Record frameConn := mkFrame { f_raw : R; readSeqNo : Z; writeSeqNo : Z }.

Definition newFrameConn (raw : R) (seqNo : Z) : frameConn := mkFrame raw seqNo seqNo.

(** The packet with sequence number [seq], and its padding. *)
Definition packetBody (seq : Z) (msg : list byte) : list byte :=
  let messageLength := (4 + 4 + length msg + 4)%nat in
  let buf := le_split 4 (uwrap 32 (Z.of_nat messageLength)) ++ le_split 4 (uwrap 32 seq) ++ msg in
  buf ++ le_split 4 (ChecksumIEEE buf).

Definition packetPadding (msg : list byte) : list byte :=
  let messageLength := (4 + 4 + length msg + 4)%nat in
  let paddingLength := ((BlockSize - messageLength mod BlockSize) mod BlockSize)%nat in
  concat (replicate (paddingLength / 4) framePadding).

Definition packetBytes (seq : Z) (msg : list byte) : list byte := packetBody seq msg ++ packetPadding msg.

Definition writePacket (msg : list byte) (f : frameConn) : option goerr * frameConn :=
  let '(err, raw) := rw_write (packetBytes (writeSeqNo f) msg) (f_raw f) in
  (err, mkFrame raw (readSeqNo f) (swrap 32 (writeSeqNo f + 1))).

(** The loop over the padding words. *)
Fixpoint skipPadding (fuel : nat) (r : R) : res (list byte) * R :=
  match rw_read_full 4 r with
  | (Fail e, r) => (Fail (Wrap "cannot read frame length" e), r)
  | (Ok lenBuf, r) =>
      if bool_decide (lenBuf = framePadding) then
        match fuel with
        | O => (Fail (Errorf "out of fuel"), r)
        | S fuel => skipPadding fuel r
        end
      else (Ok lenBuf, r)
  end.

Definition readPacket (f : frameConn) : res (list byte) * frameConn :=
  let stay r := mkFrame r (readSeqNo f) (writeSeqNo f) in
  match skipPadding (length (avail (rw_view (f_raw f)))) (f_raw f) with
  | (Fail e, r) => (Fail e, stay r)
  | (Ok lenBuf, r) =>
      let messageLength := le_combine lenBuf in
      if negb (messageLength mod 4 =? 0) || (messageLength <? frameMinMessageLength) || (frameMaxMessageLength <? messageLength)
      then (Fail (Errorf "incorrect frame message length"), stay r)
      else
        match rw_read_full (Z.to_nat (messageLength - 4)) r with
        | (Fail e, r) => (Fail (Wrap "cannot read frame body" e), stay r)
        | (Ok rest, r) =>
            let seqNo := swrap 32 (le_combine (take 4 rest)) in
            if negb (seqNo =? readSeqNo f) then (Fail (Errorf "unexpected sequence number"), stay r)
            else
              let msg := slice 4 (length rest - 4) rest in
              let checksum := le_combine (drop (length rest - 4) rest) in
              let sum := crc32_update (crc32_update 0 lenBuf) (take (length rest - 4) rest) in
              if negb (sum =? checksum) then (Fail (Errorf "crc32 mismatch"), stay r)
              else (Ok msg, mkFrame r (swrap 32 (readSeqNo f + 1)) (writeSeqNo f))
        end
  end.
End Frame.
Arguments frameConn : clear implicits.

(** ** Proofs: CBC *)

(** Arithmetic on numbers of blocks. *)
Ltac blk := unfold BlockSize in *; lia.

Section CBCProofs.
Context `{BlockCipherLaws}.

Lemma length_cbc_encrypt n m p :
  length p = (n * BlockSize)%nat -> length (bm_iv m) = BlockSize ->
  length (cbc_encrypt n m p).1 = length p /\ length (bm_iv (cbc_encrypt n m p).2) = BlockSize.
Proof.
  revert m p. induction n as [|n IH]; intros m p Hp Hiv; [by destruct p|]. simpl.
  assert (length (aes_encrypt (bm_key m) (xor_bytes (take BlockSize p) (bm_iv m))) = BlockSize) as Hc.
  { apply length_aes_encrypt. rewrite length_xor_bytes, length_take. blk. }
  destruct (IH (mkMode (bm_key m) (aes_encrypt (bm_key m) (xor_bytes (take BlockSize p) (bm_iv m)))) (drop BlockSize p)) as [I1 I2];
    [rewrite length_drop; blk|done|].
  destruct (cbc_encrypt n _ _). simpl in *. rewrite length_app, I1, length_drop. split; [blk|done].
Qed.

(** Decrypting what was encrypted, whatever follows it. *)
Lemma cbc_decrypt_encrypt n m p rest :
  length p = (n * BlockSize)%nat -> length (bm_iv m) = BlockSize ->
  cbc_decrypt n m ((cbc_encrypt n m p).1 ++ rest) = (p, (cbc_encrypt n m p).2).
Proof.
  revert m p. induction n as [|n IH]; intros m p Hp Hiv; [by destruct p|]. simpl.
  assert (length (xor_bytes (take BlockSize p) (bm_iv m)) = BlockSize) as Hx by (rewrite length_xor_bytes, length_take; blk).
  set (c := aes_encrypt (bm_key m) (xor_bytes (take BlockSize p) (bm_iv m))).
  assert (length c = BlockSize) as Hc by (by apply length_aes_encrypt).
  specialize (IH (mkMode (bm_key m) c) (drop BlockSize p)). rewrite length_drop in IH.
  destruct (cbc_encrypt n _ _) as [cs m']. simpl in *. rewrite <-app_assoc, (take_app_length' c), (drop_app_length' c) by (by rewrite Hc).
  rewrite IH by (done || blk). unfold c. rewrite aes_decrypt_encrypt by done.
  rewrite xor_bytes_invol by (rewrite length_take; blk). by rewrite take_drop.
Qed.

Lemma cbc_decrypt_app n k m c :
  cbc_decrypt (n + k) m c =
  ((cbc_decrypt n m c).1 ++ (cbc_decrypt k (cbc_decrypt n m c).2 (drop (n * BlockSize) c)).1,
   (cbc_decrypt k (cbc_decrypt n m c).2 (drop (n * BlockSize) c)).2).
Proof.
  revert m c. induction n as [|n IH]; intros m c; [simpl; rewrite drop_0; by destruct (cbc_decrypt k m c)|].
  cbn [Nat.add cbc_decrypt]. rewrite IH. destruct (cbc_decrypt n _ (drop BlockSize c)) as [ps m']. cbn [fst snd].
  rewrite drop_drop. by rewrite app_assoc.
Qed.

Lemma length_cbc_decrypt n m c :
  (n * BlockSize <= length c)%nat -> length (bm_iv m) = BlockSize ->
  length (cbc_decrypt n m c).1 = (n * BlockSize)%nat /\ length (bm_iv (cbc_decrypt n m c).2) = BlockSize.
Proof.
  revert m c. induction n as [|n IH]; intros m c Hc Hiv; [done|]. simpl.
  assert (length (take BlockSize c) = BlockSize) as Hb by (rewrite length_take; blk).
  destruct (IH (mkMode (bm_key m) (take BlockSize c)) (drop BlockSize c)) as [I1 I2]; [rewrite length_drop; blk|done|].
  destruct (cbc_decrypt n _ _). simpl in *.
  rewrite length_app, I1, length_xor_bytes, length_aes_decrypt by done. split; [blk|done].
Qed.

(** One [Read] hands out the next bytes of the plain stream, at least one
    while there is one. *)
Lemma cbc_Read_view n c :
  length (bm_iv (cbc_dec c)) = BlockSize -> (0 < n)%nat ->
  match cbc_Read n c with
  | (l, None, c') => l <> [] /\ (length l <= n)%nat /\ length (bm_iv (cbc_dec c')) = BlockSize /\
      avail (cbc_view c) = l ++ avail (cbc_view c') /\ fin (cbc_view c') = fin (cbc_view c)
  | (_, Some e, c') => avail (cbc_view c) = [] /\ e = fin (cbc_view c)
  end.
Proof.
  intros Hiv Hn. unfold cbc_Read. destruct c as [[[a f] o we] enc dec [|b buf]]; simpl in Hiv.
  2:{ simpl. destruct n; [lia|]. simpl. split_and!; [done|rewrite length_take; lia|done| |done].
      unfold cbc_view. simpl. by rewrite app_assoc, take_drop. }
  cbn [cbc_buf cbc_raw rw_read_full socket_rw s_in]. unfold read_full. cbn [avail fin].
  destruct (BlockSize <=? length a)%nat eqn:E; zbool.
  - assert (length a / BlockSize = 1 + (length a - BlockSize) / BlockSize)%nat as Hd.
    { replace (length a) with (1 * BlockSize + (length a - BlockSize))%nat at 1 by blk. by rewrite Nat.div_add_l by done. }
    assert (length a mod BlockSize = (length a - BlockSize) mod BlockSize)%nat as Hm.
    { replace (length a) with ((length a - BlockSize) + 1 * BlockSize)%nat at 1 by blk. by rewrite Nat.Div0.mod_add. }
    destruct (length_cbc_decrypt 1 dec (take BlockSize a)) as [L1 L2]; [rewrite length_take; blk|done|].
    assert (cbc_decrypt 1 dec (take BlockSize a) = cbc_decrypt 1 dec a) as E1 by (cbn [cbc_decrypt]; by rewrite take_take, Nat.min_id).
    unfold cbc_view. cbn [cbc_buf cbc_raw cbc_dec s_in avail fin app]. rewrite Hd, cbc_decrypt_app, <-E1.
    destruct (cbc_decrypt 1 dec (take BlockSize a)) as [blk dec']. cbn [fst snd set_in cbc_raw cbc_enc cbc_dec cbc_buf s_in avail fin] in *.
    rewrite Hm, length_drop, Nat.mul_1_l, app_assoc, take_drop. split_and!; [|rewrite length_take; lia|done..].
    destruct blk; [done|]. by destruct n; [lia|].
  - assert (length a / BlockSize = 0)%nat as Hd by (apply Nat.div_small; blk).
    unfold cbc_view. cbn [cbc_buf cbc_raw cbc_dec s_in avail fin app]. rewrite Hd, Nat.mod_small by blk. simpl. split; [done|].
    destruct (length a =? 0)%nat; done.
Qed.

Lemma readFullLoop_view fuel n acc c :
  length (bm_iv (cbc_dec c)) = BlockSize -> (n <= fuel)%nat ->
  match read_full n (cbc_view c) with
  | (Ok l, s) => exists c', readFullLoop fuel n acc c = (Ok (acc ++ l), c') /\ cbc_view c' = s /\ length (bm_iv (cbc_dec c')) = BlockSize
  | (Fail e, _) => exists c', readFullLoop fuel n acc c =
      (Fail (match acc with [] => e | _ => if bool_decide (e = EOF) then ErrUnexpectedEOF else e end), c')
  end.
Proof.
  revert n acc c. induction fuel as [|fuel IH]; intros [|n] acc c Hiv Hn; [| lia | |].
  1,2: rewrite read_full_0; exists c; by rewrite app_nil_r.
  cbn [readFullLoop]. pose proof (cbc_Read_view (S n) c Hiv ltac:(lia)) as Hr.
  destruct (cbc_Read (S n) c) as [[l [e|]] c'].
  { destruct Hr as [Ha ->]. unfold read_full. rewrite Ha. simpl. eauto. }
  destruct Hr as (Hl & Hle & Hiv' & Ha & Hf).
  assert (0 < length l)%nat as Hpos by (destruct l; [done|simpl; lia]).
  specialize (IH (S n - length l)%nat (acc ++ l) c' Hiv' ltac:(lia)). unfold read_full in *. rewrite Ha, length_app.
  destruct (S n - length l <=? length (avail (cbc_view c')))%nat eqn:E; zbool.
  - rewrite (proj2 (Nat.leb_le _ _)) by lia. destruct IH as (c2 & -> & Hv & Hi). exists c2. split_and!; [|rewrite Hv|done].
    + by rewrite take_app_ge, app_assoc by lia.
    + by rewrite drop_app_ge, Hf by lia.
  - rewrite (proj2 (Nat.leb_gt _ _)) by lia. rewrite (proj2 (Nat.eqb_neq _ 0)) by lia.
    destruct IH as (c2 & ->). exists c2. do 2 f_equal. rewrite Hf.
    destruct acc; simpl; destruct l; try done; repeat (case_match || case_bool_decide || subst); done.
Qed.

#[export] Program Instance cbc_laws : ReadWriterLaws cbcConn := {| rw_wf c := length (bm_iv (cbc_dec c)) = BlockSize |}.
Next Obligation.
  simpl. intros n c l s Hiv E. pose proof (readFullLoop_view n n [] c Hiv ltac:(lia)) as Hr. by rewrite E in Hr.
Qed.
Next Obligation.
  simpl. intros n c e s Hiv E. pose proof (readFullLoop_view n n [] c Hiv ltac:(lia)) as Hr. by rewrite E in Hr.
Qed.
Next Obligation.
  simpl. intros p c Hiv. unfold cbc_Write. case_match; [done|]. destruct (cbc_encrypt _ _ _). simpl.
  unfold s_write. by destruct (s_werr (cbc_raw c)).
Qed.
End CBCProofs.

(** ** Proofs: frames *)

Lemma ChecksumIEEE_range l : 0 <= ChecksumIEEE l < 2 ^ 32.
Proof.
  assert (forall c, 0 <= c < 2 ^ 32 -> 0 <= crc32_bit c < 2 ^ 32) as Hbit.
  { intros c Hc. unfold crc32_bit. rewrite Z.shiftr_div_pow2 by lia.
    assert (0 <= c / 2 ^ 1 < 2 ^ 32) by (Z.div_mod_to_equations; lia). case_match; [apply lxor_range; lia|done]. }
  assert (forall n c, 0 <= c < 2 ^ 32 -> 0 <= Nat.iter n crc32_bit c < 2 ^ 32) as Hit.
  { intros n c Hc. induction n; simpl; auto. }
  unfold ChecksumIEEE, crc32_update. apply lxor_range; [lia| |lia].
  change (Z.lxor 0 0xFFFFFFFF) with 0xFFFFFFFF. assert (0 <= 0xFFFFFFFF < 2 ^ 32) as Hc by lia. revert Hc.
  generalize 0xFFFFFFFF as c. induction l as [|b l IH]; intros c Hc; simpl fold_left; [done|].
  apply IH, Hit, lxor_range; [lia|done|]. pose proof (byte.unsigned_range b). lia.
Qed.

(** The running checksum of readPacket is the checksum of the concatenation. *)
Lemma crc32_update_app c a b : crc32_update (crc32_update c a) b = crc32_update c (a ++ b).
Proof.
  unfold crc32_update. rewrite Z.lxor_assoc, Z.lxor_nilpotent, Z.lxor_0_r. by rewrite fold_left_app.
Qed.

(** A plain stream is a transport too: the one the others refine. *)
#[export] Instance source_rw : ReadWriter source := {
  rw_view := id;
  rw_read_full := read_full;
  rw_write p s := (None, s)
}.

Lemma le_combine_split4 z : 0 <= z < 2 ^ 32 -> le_combine (le_split 4 z) = z.
Proof. by apply (le_combine_split_small 4). Qed.

Lemma skipPadding_words fuel k w rest e :
  length w = 4%nat -> w <> framePadding -> (k <= fuel)%nat ->
  skipPadding fuel (mkSource (concat (replicate k framePadding) ++ w ++ rest) e) = (Ok w, mkSource rest e).
Proof.
  intros Hw Hp. revert k. induction fuel as [|fuel IH]; intros [|k] Hk; [|lia| |].
  1,2: cbn [skipPadding rw_read_full source_rw replicate concat app]; rewrite read_full_app by done; by rewrite bool_decide_false.
  cbn [skipPadding rw_read_full source_rw replicate concat]. rewrite <-app_assoc, read_full_app by done.
  rewrite bool_decide_true by done. apply IH. lia.
Qed.

(** What can be sent: [readPacket] wants whole words and no more than 16 MB. *)
Definition sendable (msg : list byte) : Prop :=
  (length msg mod 4 = 0)%nat /\ 12 + Z.of_nat (length msg) <= frameMaxMessageLength.

#[export] Instance sendable_dec msg : Decision (sendable msg).
Proof. unfold sendable. apply _. Defined.

Lemma length_packetBody seq msg : length (packetBody seq msg) = (12 + length msg)%nat.
Proof. unfold packetBody. rewrite !length_app, !length_le_split. lia. Qed.

Lemma length_word_repeat k : length (concat (replicate k framePadding)) = (4 * k)%nat.
Proof. induction k; [done|]. cbn [replicate concat]. rewrite length_app, IHk. simpl length. lia. Qed.

Lemma readPacket_packet k seq msg rest e ws :
  sendable msg -> - 2 ^ 31 <= seq < 2 ^ 31 ->
  readPacket (mkFrame (mkSource (concat (replicate k framePadding) ++ packetBody seq msg ++ rest) e) seq ws) =
  (Ok msg, mkFrame (mkSource rest e) (swrap 32 (seq + 1)) ws).
Proof.
  intros [H4 Hmax] Hseq. unfold frameMaxMessageLength in Hmax. unfold readPacket. cbn [f_raw readSeqNo writeSeqNo rw_view source_rw id avail].
  rewrite length_app, length_word_repeat. unfold packetBody.
  set (M := (4 + 4 + length msg + 4)%nat). set (w := le_split 4 (uwrap 32 (Z.of_nat M))).
  set (q := le_split 4 (uwrap 32 seq)). set (c := ChecksumIEEE (w ++ q ++ msg)).
  assert (le_combine w = Z.of_nat M) as Ew.
  { unfold w. by rewrite uwrap_small, le_combine_split4 by (unfold M; lia). }
  assert (length w = 4%nat) as Lw by apply length_le_split. assert (length q = 4%nat) as Lq by apply length_le_split.
  rewrite <-!app_assoc, skipPadding_words; [|done| |lia].
  2:{ intros Hp. rewrite Hp in Ew. change (le_combine framePadding) with 4 in Ew. unfold M in Ew. lia. }
  rewrite Ew. unfold frameMinMessageLength, frameMaxMessageLength.
  assert (Z.of_nat M mod 4 = 0) as ->.
  { unfold M. apply (Nat2Z.inj_iff (length msg mod 4) 0) in H4. rewrite Nat2Z.inj_mod in H4. Z.div_mod_to_equations; lia. }
  rewrite (proj2 (Z.ltb_ge _ _)), (proj2 (Z.ltb_ge _ _)) by (unfold M; lia). cbn [negb orb Z.eqb].
  set (cs := le_split 4 c). assert (length cs = 4%nat) as Lc by apply length_le_split.
  cbn [rw_read_full source_rw]. rewrite !app_assoc, read_full_app, <-!app_assoc by (rewrite !length_app; unfold M; lia).
  rewrite take_app_length' by done. unfold q at 1.
  rewrite le_combine_split4 by (by apply (uwrap_range 32)). rewrite swrap_uwrap by lia. rewrite Z.eqb_refl. cbn [negb].
  replace (length (q ++ msg ++ cs) - 4)%nat with (4 + length msg)%nat by (rewrite !length_app; lia).
  rewrite slice_mid by lia. rewrite app_assoc, (drop_app_length' (q ++ msg)), (take_app_length' (q ++ msg)) by (rewrite length_app; lia).
  rewrite crc32_update_app. unfold cs. rewrite le_combine_split4 by apply ChecksumIEEE_range. fold (ChecksumIEEE (w ++ q ++ msg)).
  unfold c. by rewrite Z.eqb_refl.
Qed.

Lemma skipPadding_ok fuel s w s' :
  skipPadding fuel s = (Ok w, s') ->
  exists k, avail s = concat (replicate k framePadding) ++ w ++ avail s' /\ length w = 4%nat /\ fin s' = fin s.
Proof.
  revert s. induction fuel as [|fuel IH]; intros s; cbn [skipPadding rw_read_full source_rw];
    destruct (read_full 4 s) as [[l|e] s1] eqn:E; try done; apply read_full_ok in E as (Ha & Hl & Hf); case_bool_decide; try done.
  - intros [= -> ->]. by exists 0%nat.
  - subst l. intros (k & Hk & ? & Hf')%IH. exists (S k). rewrite Ha, Hk, Hf'. cbn [replicate concat]. by rewrite <-app_assoc.
  - intros [= -> ->]. by exists 0%nat.
Qed.

Lemma readPacket_ok s seq ws msg f :
  readPacket (mkFrame s seq ws) = (Ok msg, f) ->
  sendable msg /\ exists k, avail s = concat (replicate k framePadding) ++ packetBody seq msg ++ avail (f_raw f).
Proof.
  unfold readPacket. cbn [f_raw readSeqNo writeSeqNo].
  destruct (skipPadding _ s) as [[w|e] s1] eqn:E1; [|done]. apply skipPadding_ok in E1 as (k & Ha & Lw & _).
  destruct (negb _ || _ || _) eqn:EM; [done|]. unfold frameMinMessageLength, frameMaxMessageLength in EM. zbool.
  cbn [rw_read_full source_rw]. destruct (read_full _ s1) as [[rest|e] s2] eqn:E2; [|done].
  apply read_full_ok in E2 as (Ha2 & Lr & _). destruct (negb (_ =? seq)) eqn:Es; [done|].
  destruct (negb (crc32_update _ _ =? _)) eqn:Ec; [done|]. zbool.
  intros Heq. simplify_eq. cbn [f_raw].
  set (msg := slice 4 (length rest - 4) rest). assert (length rest = Z.to_nat (le_combine w) - 4)%nat as Lr' by lia.
  assert (length msg = Z.to_nat (le_combine w) - 12)%nat as Lm by (unfold msg; rewrite length_slice; lia).
  assert (take (length rest - 4) rest = take 4 rest ++ msg) as Et.
  { unfold msg, slice. rewrite <-(take_drop 4 (take _ rest)), take_take, skipn_firstn_comm. do 2 f_equal; lia. }
  assert (drop (length rest - 4) rest = le_split 4 (ChecksumIEEE (w ++ take 4 rest ++ msg))) as Ed.
  { rewrite crc32_update_app, Et in *. fold (ChecksumIEEE (w ++ take 4 rest ++ msg)) in *.
    match goal with H : ChecksumIEEE _ = _ |- _ => rewrite H end.
    rewrite <-(split_le_combine (drop _ rest)) at 1. f_equal. rewrite length_drop. lia. }
  assert (le_split 4 (uwrap 32 (Z.of_nat (4 + 4 + length msg + 4))) = w) as Ew.
  { rewrite uwrap_small by lia. rewrite <-(split_le_combine w) at 1. rewrite Lw. f_equal. lia. }
  assert (le_split 4 (uwrap 32 (swrap 32 (le_combine (take 4 rest)))) = take 4 rest) as Eq.
  { rewrite <-(split_le_combine (take 4 rest)) at 2. rewrite length_take_le by lia. f_equal.
    apply uwrap_swrap; [lia|]. pose proof (le_combine_bound (take 4 rest)) as Hb. rewrite length_take_le in Hb by lia. exact Hb. }
  split.
  - split; [|unfold frameMaxMessageLength; lia]. apply Nat2Z.inj. rewrite Nat2Z.inj_mod, Lm. Z.div_mod_to_equations; lia.
  - exists k. rewrite Ha, Ha2. f_equal. unfold packetBody. rewrite Ew, Eq, <-Ed, <-Et, <-!app_assoc.
    by rewrite (app_assoc (take _ rest)), take_drop.
Qed.

Section FrameProofs.
Context {R : Type} `{ReadWriterLaws R}.

Lemma skipPadding_view fuel r :
  rw_wf r ->
  match skipPadding fuel (rw_view r) with
  | (Ok l, s) => exists r', skipPadding fuel r = (Ok l, r') /\ rw_view r' = s /\ rw_wf r'
  | (Fail e, _) => exists r', skipPadding fuel r = (Fail e, r')
  end.
Proof.
  revert r. induction fuel as [|fuel IH]; intros r Hw; cbn [skipPadding rw_read_full source_rw];
    destruct (read_full 4 (rw_view r)) as [[l|e] s] eqn:E.
  2,4: destruct (rw_fail _ _ _ _ Hw E) as (r' & ->); eauto.
  all: destruct (rw_ok _ _ _ _ Hw E) as (r' & -> & Hv & Hw'); case_bool_decide; eauto.
  rewrite <-Hv. by apply IH.
Qed.

(** A packet read over a transport is the packet read from its plain stream. *)
Lemma readPacket_view r rs ws :
  rw_wf r ->
  match readPacket (mkFrame (rw_view r) rs ws) with
  | (Ok m, f) => exists r', readPacket (mkFrame r rs ws) = (Ok m, mkFrame r' (readSeqNo f) (writeSeqNo f)) /\ rw_view r' = f_raw f /\ rw_wf r'
  | (Fail e, _) => exists f', readPacket (mkFrame r rs ws) = (Fail e, f')
  end.
Proof.
  intros Hw. unfold readPacket. cbn [f_raw readSeqNo writeSeqNo].
  pose proof (skipPadding_view (length (avail (rw_view r))) r Hw) as Hs.
  change (rw_view (R:=source) (rw_view r)) with (rw_view r).
  destruct (skipPadding _ (rw_view r)) as [[l|e] s]; [|destruct Hs as (? & ->); eauto].
  destruct Hs as (r1 & -> & <- & Hw1). destruct (negb _ || _ || _); [eauto|].
  cbn [rw_read_full source_rw]. destruct (read_full _ (rw_view r1)) as [[rest|e] s] eqn:E.
  2:{ destruct (rw_fail _ _ _ _ Hw1 E) as (r' & ->); eauto. }
  destruct (rw_ok _ _ _ _ Hw1 E) as (r2 & -> & <- & Hw2). destruct (negb (_ =? rs)); [eauto|]. destruct (negb _); eauto.
Qed.

Lemma readPacket_sound r seq ws msg f :
  rw_wf r -> readPacket (mkFrame r seq ws) = (Ok msg, f) ->
  sendable msg /\ rw_wf (f_raw f) /\
  exists k, avail (rw_view r) = concat (replicate k framePadding) ++ packetBody seq msg ++ avail (rw_view (f_raw f)).
Proof.
  intros Hw E. pose proof (readPacket_view r seq ws Hw) as Hv.
  destruct (readPacket (mkFrame (rw_view r) seq ws)) as [[m|e] g] eqn:Ef.
  - destruct Hv as (r2 & E2 & Hv & Hw2). rewrite E in E2. simplify_eq. apply readPacket_ok in Ef as [Hm [k Hk]].
    rewrite <-Hv in Hk. cbn [f_raw]. eauto.
  - destruct Hv as [f' E2]. rewrite E in E2. done.
Qed.

Lemma readPacket_complete r seq ws msg k rest :
  rw_wf r -> - 2 ^ 31 <= seq < 2 ^ 31 -> sendable msg ->
  avail (rw_view r) = concat (replicate k framePadding) ++ packetBody seq msg ++ rest ->
  exists r', readPacket (mkFrame r seq ws) = (Ok msg, mkFrame r' (swrap 32 (seq + 1)) ws) /\ rw_wf r' /\
    rw_view r' = mkSource rest (fin (rw_view r)).
Proof.
  intros Hw Hs Hm Hk. pose proof (readPacket_view r seq ws Hw) as Hv.
  destruct (rw_view r) as [a e] eqn:Er. cbn [avail] in Hk. subst a.
  rewrite readPacket_packet in Hv by done. destruct Hv as (r' & -> & Hv & Hw'). cbn [f_raw] in Hv. exists r'. by rewrite Hv.
Qed.

(** C17: a frame reader accepts exactly what a frame writer produces.  Over any
    transport, [readPacket] returns [msg] if and only if the stream holds, after
    any number of padding words, the packet of [msg] with the expected sequence
    number and a correct checksum, [msg] being whole words within the size
    limit; the packet is then consumed and the sequence number advances (modulo
    2^32). *)
Theorem readPacket_spec r seq ws msg :
  rw_wf r -> - 2 ^ 31 <= seq < 2 ^ 31 ->
  forall rest,
  (exists r', readPacket (mkFrame r seq ws) = (Ok msg, mkFrame r' (swrap 32 (seq + 1)) ws) /\ rw_wf r' /\
     avail (rw_view r') = rest) <->
  sendable msg /\ exists k, avail (rw_view r) = concat (replicate k framePadding) ++ packetBody seq msg ++ rest.
Proof.
  intros Hw Hs rest. split.
  - intros (r' & E & _ & <-). destruct (readPacket_sound _ _ _ _ _ Hw E) as (Hm & _ & Hk). eauto.
  - intros [Hm [k Hk]]. destruct (readPacket_complete _ _ ws _ _ _ Hw Hs Hm Hk) as (r' & E & Hw' & Hv).
    exists r'. by rewrite Hv.
Qed.

(** What reading leaves alone, reading packets leaves alone. *)
Lemma readPacket_inv (P : R -> Prop) f :
  (forall n r, P r -> P (rw_read_full n r).2) -> P (f_raw f) -> P (f_raw (readPacket f).2).
Proof.
  intros Hp Hf. unfold readPacket. generalize (length (avail (rw_view (f_raw f)))) as fuel. intros fuel.
  assert (P (skipPadding fuel (f_raw f)).2) as Hs.
  { destruct f as [r rs ws]. cbn [f_raw] in *. clear rs ws. revert r Hf. induction fuel as [|fuel IH]; intros r Hf; cbn [skipPadding];
      specialize (Hp 4%nat r Hf); destruct (rw_read_full 4 r) as [[l|e] r']; cbn [snd] in *; try case_bool_decide; auto. }
  destruct (skipPadding _ _) as [[l|e] r]; [|done]. cbn [snd] in *. case_match; [done|].
  specialize (Hp (Z.to_nat (le_combine l - 4)) r Hs). destruct (rw_read_full _ r) as [[b|e] r']; cbn [snd] in *; [|done].
  destruct (negb (_ =? readSeqNo f)); [done|]. destruct (negb (crc32_update _ _ =? _)); done.
Qed.

(** Reading [n] packets. *)
Fixpoint readPackets (n : nat) (f : frameConn R) : res (list (list byte)) * frameConn R :=
  match n with
  | O => (Ok [], f)
  | S n =>
      match readPacket f with
      | (Fail e, f) => (Fail e, f)
      | (Ok m, f) => let '(ms, f) := readPackets n f in (ms ≫= (fun ms => Ok (m :: ms)), f)
      end
  end.

(** The bytes of a sequence of packets. *)
Fixpoint packets (seq : Z) (ms : list (list byte)) : list byte :=
  match ms with
  | [] => []
  | m :: ms => packetBytes seq m ++ packets (swrap 32 (seq + 1)) ms
  end.

Lemma readPackets_packets r seq ws ms k rest :
  rw_wf r -> - 2 ^ 31 <= seq < 2 ^ 31 -> Forall sendable ms ->
  avail (rw_view r) = concat (replicate k framePadding) ++ packets seq ms ++ rest ->
  exists f, readPackets (length ms) (mkFrame r seq ws) = (Ok ms, f) /\ rw_wf (f_raw f) /\
    readSeqNo f = Nat.iter (length ms) (fun z => swrap 32 (z + 1)) seq /\ writeSeqNo f = ws /\
    exists k', avail (rw_view (f_raw f)) = concat (replicate k' framePadding) ++ rest.
Proof.
  intros Hw Hs Hm. revert r seq k Hw Hs. induction Hm as [|m ms Hm _ IH]; intros r seq k Hw Hs Ha.
  { eexists. split_and!; eauto. }
  cbn [packets packetBytes] in Ha. unfold packetBytes in Ha. rewrite <-!app_assoc in Ha.
  pose proof (readPacket_view r seq ws Hw) as Hv. destruct (rw_view r) as [a e] eqn:Er. cbn [avail] in Ha. subst a.
  rewrite readPacket_packet in Hv by done. destruct Hv as (r' & Hr & Hv & Hw'). cbn [f_raw readSeqNo writeSeqNo] in *.
  cbn [length readPackets]. rewrite Hr. unfold packetPadding in Hv.
  edestruct (IH r' (swrap 32 (seq + 1))) as (f & -> & Hf & Hrs & Hws & Hk); [done|apply (swrap_range 32); lia|rewrite Hv; cbn [avail]; reflexivity|].
  exists f. split_and!; [done|done| |done|done]. by rewrite Hrs, Nat.iter_succ_r.
Qed.
End FrameProofs.

(** Reading touches neither what was written nor the encrypter. *)
Lemma readPacket_socket f :
  s_out (f_raw (readPacket f).2) = s_out (f_raw f) /\ s_werr (f_raw (readPacket f).2) = s_werr (f_raw f).
Proof.
  apply (readPacket_inv (fun c => s_out c = s_out (f_raw f) /\ s_werr c = s_werr (f_raw f))); [|done].
  intros n r Hr. cbn. by destruct (read_full n (s_in r)).
Qed.

Lemma readPacket_cbc `{BlockCipher} (f : frameConn cbcConn) :
  cbc_enc (f_raw (readPacket f).2) = cbc_enc (f_raw f) /\ s_out (cbc_raw (f_raw (readPacket f).2)) = s_out (cbc_raw (f_raw f)).
Proof.
  set (P := fun c => cbc_enc c = cbc_enc (f_raw f) /\ s_out (cbc_raw c) = s_out (cbc_raw (f_raw f))).
  apply (readPacket_inv P); [|done]. intros n c Hc. cbn [rw_read_full cbc_rw]. generalize (@nil byte) as acc.
  assert (forall n c, P c -> P (cbc_Read n c).2) as Hr.
  { clear. intros n [raw enc dec [|b buf]] Hc; [|done]. unfold cbc_Read. cbn [cbc_buf cbc_raw rw_read_full socket_rw].
    destruct (read_full BlockSize (s_in raw)) as [[l|e] s]; [|done]. by destruct (cbc_decrypt 1 _ l). }
  enough (forall fuel n acc, P (readFullLoop fuel n acc c).2) by auto. intros fuel. revert c Hc.
  induction fuel as [|fuel IH]; intros c Hc [|k] acc; try done. cbn [readFullLoop].
  specialize (Hr (S k) c Hc). destruct (cbc_Read (S k) c) as [[l [e|]] c']; [done|]. by apply IH.
Qed.

(** ** The encrypted channel *)

Lemma length_packetBytes seq msg : (length msg mod 4 = 0)%nat -> (length (packetBytes seq msg) mod BlockSize = 0)%nat.
Proof.
  unfold packetBytes, packetPadding. rewrite length_app, length_packetBody, length_word_repeat. unfold BlockSize.
  generalize (length msg) as n. intros n Hn. apply Nat.Div0.div_exact in Hn.
  pose proof (Nat.div_mod_eq (n / 4) 4) as Hq. pose proof (Nat.mod_upper_bound (n / 4) 4 ltac:(lia)) as Hb.
  set (a := (n / 4 / 4)%nat) in *. set (b := ((n / 4) mod 4)%nat) in *. clearbody a b.
  assert (n = 4 * b + a * 16)%nat as -> by lia. clear Hn Hq.
  replace (4 + 4 + (4 * b + a * 16) + 4)%nat with (12 + 4 * b + a * 16)%nat by lia. rewrite Nat.Div0.mod_add.
  match goal with |- ((12 + _ + ?y) mod _ = _)%nat => replace (12 + (4 * b + a * 16) + y)%nat with (12 + 4 * b + y + a * 16)%nat by lia end.
  rewrite Nat.Div0.mod_add. do 4 (destruct b as [|b]; [reflexivity|]). lia.
Qed.

Lemma packets_blocks seq ms :
  Forall sendable ms -> length (packets seq ms) = (length (packets seq ms) / BlockSize * BlockSize)%nat.
Proof.
  intros Hm. rewrite Nat.mul_comm. apply Nat.Div0.div_exact. revert seq. induction Hm as [|m ms [Hm _] _ IH]; intros seq; [done|].
  cbn [packets]. rewrite length_app, Nat.Div0.add_mod, IH, length_packetBytes by done. done.
Qed.

Section Channel.
Context `{BlockCipherLaws}.

(** Successive writes, up to the first error. *)
Fixpoint writePackets (ms : list (list byte)) (f : frameConn cbcConn) : option goerr * frameConn cbcConn :=
  match ms with
  | [] => (None, f)
  | m :: ms => match writePacket m f with (Some e, f) => (Some e, f) | (None, f) => writePackets ms f end
  end.

Lemma writePackets_split a b f f' :
  writePackets (a ++ b) f = (None, f') -> exists f1, writePackets a f = (None, f1) /\ writePackets b f1 = (None, f').
Proof.
  revert f. induction a as [|m a IH]; intros f; [by exists f|]. cbn [app writePackets].
  destruct (writePacket m f) as [[e|] f1]; [done|]. apply IH.
Qed.

Lemma cbc_encrypt_app n k m p q :
  length p = (n * BlockSize)%nat ->
  cbc_encrypt (n + k) m (p ++ q) =
  ((cbc_encrypt n m p).1 ++ (cbc_encrypt k (cbc_encrypt n m p).2 q).1, (cbc_encrypt k (cbc_encrypt n m p).2 q).2).
Proof.
  revert m p. induction n as [|n IH]; intros m p Hp.
  { destruct p; [|done]. simpl. by destruct (cbc_encrypt k m q). }
  cbn [Nat.add cbc_encrypt]. rewrite take_app_le, drop_app_le by blk.
  rewrite IH by (rewrite length_drop; blk). destruct (cbc_encrypt n _ _) as [cs m']. cbn [fst snd]. by rewrite app_assoc.
Qed.

(** What [cbcConn] puts on the socket for a plain text of whole blocks. *)
Definition cbc_wire (m : blockMode) (p : list byte) : list byte * blockMode := cbc_encrypt (length p / BlockSize) m p.

Lemma cbc_wire_app m p q :
  length p = (length p / BlockSize * BlockSize)%nat ->
  cbc_wire m (p ++ q) = ((cbc_wire m p).1 ++ (cbc_wire (cbc_wire m p).2 q).1, (cbc_wire (cbc_wire m p).2 q).2).
Proof.
  intros Hp. unfold cbc_wire. rewrite <-cbc_encrypt_app by done. f_equal. rewrite length_app, Hp at 1. by rewrite Nat.div_add_l.
Qed.

Lemma writePackets_wire ms c rs ws :
  Forall sendable ms -> s_werr (cbc_raw c) = None ->
  writePackets ms (mkFrame c rs ws) =
  (None, mkFrame (mkCBC (mkSocket (s_in (cbc_raw c)) (s_out (cbc_raw c) ++ (cbc_wire (cbc_enc c) (packets ws ms)).1) None)
                    (cbc_wire (cbc_enc c) (packets ws ms)).2 (cbc_dec c) (cbc_buf c))
           rs (Nat.iter (length ms) (fun z => swrap 32 (z + 1)) ws)).
Proof.
  intros Hm. revert c ws. induction Hm as [|m ms Hm Hms IH]; intros [[i o we] enc dec buf] ws Hwe; simpl in Hwe; subst we.
  { cbn. by rewrite app_nil_r. }
  pose proof (packets_blocks ws [m] ltac:(by constructor)) as Hb. cbn [packets] in Hb. rewrite app_nil_r in Hb.
  cbn [writePackets]. unfold writePacket. cbn [f_raw readSeqNo writeSeqNo rw_write cbc_rw]. unfold cbc_Write.
  rewrite length_packetBytes by apply Hm. cbn [Nat.eqb negb cbc_enc cbc_raw].
  fold (cbc_wire enc (packetBytes ws m)). cbn [packets length]. rewrite cbc_wire_app by done.
  destruct (cbc_wire enc (packetBytes ws m)) as [w1 enc1].
  cbn [rw_write socket_rw s_write s_werr s_in s_out cbc_dec cbc_buf fst snd].
  rewrite IH by done. cbn [cbc_raw cbc_enc cbc_dec cbc_buf s_in s_out]. by rewrite <-app_assoc, Nat.iter_succ_r.
Qed.

Lemma writePacket_cbc m c rs ws :
  sendable m -> s_werr (cbc_raw c) = None ->
  writePacket m (mkFrame c rs ws) =
  (None, mkFrame (mkCBC (mkSocket (s_in (cbc_raw c)) (s_out (cbc_raw c) ++ (cbc_wire (cbc_enc c) (packetBytes ws m)).1) None)
                    (cbc_wire (cbc_enc c) (packetBytes ws m)).2 (cbc_dec c) (cbc_buf c)) rs (swrap 32 (ws + 1))).
Proof.
  intros Hm Hw. pose proof (writePackets_wire [m] c rs ws ltac:(by constructor) Hw) as E. cbn [writePackets packets length Nat.iter] in E.
  rewrite app_nil_r in E. destruct (writePacket m _) as [[e|] f]; [done|]. exact E.
Qed.

(** The encrypted RPC channel.  Whatever sendable messages one side writes
    through frame and AES-CBC, they reach the socket without an error, and the
    other side, with the matching cipher state and sequence number, reads back
    exactly these messages in this order from the bytes, whatever follows them
    on the wire; both sequence numbers end up equal. *)
Lemma rpc_channel (w : frameConn cbcConn) ms :
  Forall sendable ms -> s_werr (cbc_raw (f_raw w)) = None -> - 2 ^ 31 <= writeSeqNo w < 2 ^ 31 ->
  length (bm_iv (cbc_enc (f_raw w))) = BlockSize ->
  exists w' wire,
    writePackets ms w = (None, w') /\ s_out (cbc_raw (f_raw w')) = s_out (cbc_raw (f_raw w)) ++ wire /\
    forall (r : frameConn cbcConn) rest,
      cbc_dec (f_raw r) = cbc_enc (f_raw w) -> cbc_buf (f_raw r) = [] -> readSeqNo r = writeSeqNo w ->
      avail (s_in (cbc_raw (f_raw r))) = wire ++ rest ->
      exists r', readPackets (length ms) r = (Ok ms, r') /\ readSeqNo r' = writeSeqNo w'.
Proof.
  destruct w as [[rw enc dec buf] rs ws]. cbn [f_raw readSeqNo writeSeqNo cbc_raw cbc_enc].
  intros Hm Hwe Hs Hiv. do 2 eexists. split_and!; [by apply writePackets_wire|done|].
  intros [[rr enc' dec' buf'] rs' ws'] rest. cbn [f_raw readSeqNo writeSeqNo cbc_raw cbc_dec cbc_buf]. intros -> -> ->.
  cbn [f_raw writeSeqNo cbc_enc]. intros Ha. pose proof (packets_blocks ws ms Hm) as Hb.
  set (P := packets ws ms) in *. destruct (length_cbc_encrypt _ enc P Hb Hiv) as [Hl _].
  assert (exists more, avail (rw_view (mkCBC rr enc' enc [])) = concat (replicate 0 framePadding) ++ P ++ more) as [more Hv].
  { eexists. cbn [rw_view cbc_rw]. unfold cbc_view. cbn [avail cbc_raw cbc_buf cbc_dec app replicate concat].
    rewrite Ha. unfold cbc_wire. rewrite length_app, Hl, Hb at 1. rewrite Nat.div_add_l by done.
    rewrite cbc_decrypt_app. rewrite cbc_decrypt_encrypt by done. reflexivity. }
  assert (rw_wf (mkCBC rr enc' enc [])) as Hwf by exact Hiv.
  destruct (readPackets_packets (mkCBC rr enc' enc []) ws ws' ms 0 more Hwf Hs Hm Hv) as (f & Hf & _ & Hseq & _).
  eauto.
Qed.
End Channel.

(** A concrete block cipher for the examples: exclusive-or with the key. *)
#[local] Instance demo_cipher : BlockCipher := {
  aes_encrypt k b := xor_bytes b (take (length b) (k ++ replicate (length b) Byte.x00));
  aes_decrypt k b := xor_bytes b (take (length b) (k ++ replicate (length b) Byte.x00))
}.

#[local] Program Instance demo_cipher_laws : BlockCipherLaws.
Next Obligation. intros k b Hb. cbn. rewrite length_xor_bytes, length_take, length_app, length_replicate. lia. Qed.
Next Obligation. intros k b Hb. cbn. rewrite length_xor_bytes, length_take, length_app, length_replicate. lia. Qed.
Next Obligation.
  intros k b Hb. cbn. assert (length b = length (take (length b) (k ++ replicate (length b) Byte.x00))) as Hl
    by (rewrite length_take, length_app, length_replicate; lia).
  rewrite length_xor_bytes, <-Hl, Nat.min_id. by apply xor_bytes_invol.
Qed.

Definition demo_mode : blockMode := mkMode (replicate 32 Byte.x5a) (replicate 16 Byte.xc3).

Lemma readPacket_spec_witness :
  exists r', readPacket (mkFrame (mkSocket (buffer (framePadding ++ packetBody (-1) (replicate 8 Byte.x04) ++ [Byte.x41])) [] None) (-1) 7) =
    (Ok (replicate 8 Byte.x04), mkFrame r' 0 7) /\ rw_wf r' /\ avail (rw_view r') = [Byte.x41].
Proof.
  apply (readPacket_spec (R:=socket)); [exact I|lia|].
  split; [apply (bool_decide_unpack _); vm_compute; exact I|]. by exists 1%nat.
Defined.
