(* ===== verification/MiddleStream.v ===== *)
(** * The middle-proxy stream: mtglib/internal/middleproxy/stream.go, tags.go

    [middleConn] turns the client's padded-intermediate byte stream into
    RPC_PROXY_REQ packets carrying the advertising tag, and RPC answers back
    into such a stream.  The theorems are about the whole path: bytes written in
    any pieces against the packets the middle proxy reads, packets the middle
    proxy sends against the bytes read with any buffer sizes. *)

From S2P Require Import Prelude GoIO GoNet Frame.

(** ** Tags and flags: tags.go *)

Definition tagNonce : list byte := [Byte.xaa; Byte.x87; Byte.xcb; Byte.x7a].
Definition tagHandshake : list byte := [Byte.xf5; Byte.xee; Byte.x82; Byte.x76].
Definition tagProxyRequest : list byte := [Byte.xee; Byte.xf1; Byte.xce; Byte.x36].
Definition tagProxyAns : list byte := [Byte.x0d; Byte.xda; Byte.x03; Byte.x44].
Definition tagSimpleAck : list byte := [Byte.x9b; Byte.x40; Byte.xac; Byte.x3b].
Definition tagCloseExt : list byte := [Byte.xa2; Byte.x34; Byte.xb6; Byte.x5e].

Definition nonceCryptoAES : list byte := [Byte.x01; Byte.x00; Byte.x00; Byte.x00].
Definition handshakeFlags : list byte := [Byte.x00; Byte.x00; Byte.x00; Byte.x00].
Definition proxyRequestExtraSize : list byte := [Byte.x18; Byte.x00; Byte.x00; Byte.x00].
Definition proxyRequestProxyTag : list byte := [Byte.xae; Byte.x26; Byte.x1e; Byte.xdb].
(** IPIPPRPDTIME *)
Definition handshakePID : list byte :=
  [Byte.x49; Byte.x50; Byte.x49; Byte.x50; Byte.x50; Byte.x52; Byte.x50; Byte.x44; Byte.x54; Byte.x49; Byte.x4d; Byte.x45].

Definition flagHasAdTag : Z := 0x8.
Definition flagEncrypted : Z := 0x2.
Definition flagMagic : Z := 0x1000.
Definition flagExtMode2 : Z := 0x20000.
Definition flagIntermediate : Z := 0x20000000.
Definition flagQuickAck : Z := 0x80000000.
Definition flagPad : Z := 0x8000000.

Definition seqNoNonce : Z := -2.
Definition seqNoHandshake : Z := -1.
Definition adTagLength : nat := 16.

(** ** middleConn *)

Definition quickAckLength : Z := 0x80000000.

Inductive proxyResponseType := respAns | respSimpleAck | respCloseExt.

Definition isAllZero (b : list byte) : bool := forallb (fun v => bool_decide (v = Byte.x00)) b.

Definition encodeIPPort (addr : option tcpAddr) : list byte :=
  let out := replicate 20 Byte.x00 in
  match addr with
  | None => out
  | Some a => copy_at 16 (le_split 4 (uwrap 32 (Port a))) (copy_at 0 (To16 (IP a)) out)
  end.

Definition frameIntermediate (payload : list byte) : list byte :=
  let out := replicate (4 + length payload) Byte.x00 in
  let out := copy_at 0 (le_split 4 (uwrap 32 (Z.of_nat (length payload)))) out in
  copy_at 4 payload out.

Definition parseProxyResponse (packet : list byte) : res (proxyResponseType * list byte) :=
  if (length packet <? 4)%nat then Fail ErrUnexpectedEOF
  else
    let tag := take 4 packet in
    if bool_decide (tag = tagProxyAns) then
      if (length packet <? 16)%nat then Fail ErrUnexpectedEOF else Ok (respAns, drop 16 packet)
    else if bool_decide (tag = tagSimpleAck) then
      if (length packet <? 12)%nat then Fail ErrUnexpectedEOF else Ok (respSimpleAck, drop 12 packet)
    else if bool_decide (tag = tagCloseExt) then Ok (respCloseExt, [])
    else Fail ErrUnexpectedEOF.

Section Middle.
Context `{BlockCipher}.

Record middleConn := mkMiddle {
  mc_frame : frameConn cbcConn;
  connID : list byte;
  adTag : list byte;
  clientAddr : option tcpAddr;
  ourAddr : option tcpAddr;
  inbuf : list byte;
  outbuf : list byte
}.

Definition newMiddleConn (frame : frameConn cbcConn) (connID adTag : list byte) (clientAddr ourAddr : option tcpAddr) : middleConn :=
  mkMiddle frame connID adTag clientAddr ourAddr [] [].

Definition set_io (f : frameConn cbcConn) (i o : list byte) (m : middleConn) : middleConn :=
  mkMiddle f (connID m) (adTag m) (clientAddr m) (ourAddr m) i o.

Definition buildProxyReq (m : middleConn) (packet : list byte) (quickAck : bool) : list byte :=
  let flags := Z.lor flagHasAdTag (Z.lor flagMagic (Z.lor flagExtMode2 (Z.lor flagIntermediate flagPad))) in
  let flags := if quickAck then Z.lor flags flagQuickAck else flags in
  let flags := if (8 <=? length packet)%nat && isAllZero (take 8 packet) then Z.lor flags flagEncrypted else flags in
  let buf := tagProxyRequest ++ le_split 4 flags ++ connID m ++ encodeIPPort (clientAddr m) ++ encodeIPPort (ourAddr m) ++
             proxyRequestExtraSize ++ proxyRequestProxyTag ++ [byte.of_Z (Z.of_nat (length (adTag m)))] ++ adTag m in
  let pad := ((4 - length buf mod 4) mod 4)%nat in
  buf ++ replicate pad Byte.x00 ++ packet.

(** The first packet of a buffer: its bytes, the quick-ack bit and the rest;
    [None] while it is incomplete. *)
Definition nextInner (buf : list byte) : option (list byte * bool * list byte) :=
  if (length buf <? 4)%nat then None
  else
    let length0 := le_combine (take 4 buf) in
    let quickAck := quickAckLength <=? length0 in
    let len := if quickAck then length0 - quickAckLength else length0 in
    if Z.of_nat (length buf) <? len + 4 then None
    else
      let packet := slice 4 (4 + Z.to_nat len) buf in
      Some (take (length packet - length packet mod 4) packet, quickAck, drop (4 + Z.to_nat len) buf).

(** The loop of [Write]; every round removes a length word, so the length of
    the buffer is enough fuel. *)
Fixpoint writeLoop (fuel : nat) (m : middleConn) : option goerr * middleConn :=
  match nextInner (inbuf m), fuel with
  | None, _ => (None, m)
  | Some _, O => (None, m)
  | Some (packet, quickAck, rest), S fuel =>
      match writePacket (buildProxyReq m packet quickAck) (mc_frame m) with
      | (Some e, f) => (Some e, set_io f (inbuf m) (outbuf m) m)
      | (None, f) => writeLoop fuel (set_io f rest (outbuf m) m)
      end
  end.

(** [Write]: the number of bytes or the error. *)
Definition middle_Write (p : list byte) (m : middleConn) : res nat * middleConn :=
  let m := set_io (mc_frame m) (inbuf m ++ p) (outbuf m) m in
  match writeLoop (length (inbuf m)) m with
  | (Some e, m) => (Fail e, m)
  | (None, m) => (Ok (length p), m)
  end.

(** The loop of [Read]: every round consumes a packet of the stream, so its
    length is enough fuel. *)
Fixpoint readLoop (fuel : nat) (m : middleConn) : option goerr * middleConn :=
  match outbuf m, fuel with
  | _ :: _, _ => (None, m)
  | [], O => (Some (Errorf "out of fuel"), m)
  | [], S fuel =>
      let '(r, f) := readPacket (mc_frame m) in
      let m := set_io f (inbuf m) (outbuf m) m in
      match r with
      | Fail e => (Some e, m)
      | Ok msg =>
          match parseProxyResponse msg with
          | Fail e => (Some e, m)
          | Ok (respAns, payload) => readLoop fuel (set_io f (inbuf m) (outbuf m ++ frameIntermediate payload) m)
          | Ok (respSimpleAck, payload) => readLoop fuel (set_io f (inbuf m) (outbuf m ++ payload) m)
          | Ok (respCloseExt, _) => (Some EOF, m)
          end
      end
  end.

(** [Read] into a slice of length [n]. *)
Definition middle_Read (n : nat) (m : middleConn) : list byte * option goerr * middleConn :=
  match readLoop (S (length (avail (rw_view (f_raw (mc_frame m)))))) m with
  | (Some e, m) => ([], Some e, m)
  | (None, m) => (take n (outbuf m), None, set_io (mc_frame m) (inbuf m) (drop n (outbuf m)) m)
  end.
End Middle.

(** ** Proofs: to the middle proxy *)

(** A packet of the client's stream: data, quick-ack bit and random padding. *)
Definition interBytes (p : list byte * bool * list byte) : list byte :=
  let '(d, q, pad) := p in
  le_split 4 (Z.of_nat (length (d ++ pad)) + (if q then quickAckLength else 0)) ++ d ++ pad.

Definition clientPacket (p : list byte * bool * list byte) : Prop :=
  let '(d, q, pad) := p in
  (length d mod 4 = 0)%nat /\ (length pad < 4)%nat /\ 96 + Z.of_nat (length d) <= frameMaxMessageLength.

#[export] Instance clientPacket_dec p : Decision (clientPacket p).
Proof. destruct p as [[d q] pad]. unfold clientPacket. apply _. Defined.

Lemma nextInner_packet p rest :
  clientPacket p -> nextInner (interBytes p ++ rest) = Some (p.1.1, p.1.2, rest).
Proof.
  destruct p as [[d q] pad]. cbn [fst snd clientPacket interBytes]. intros (H4 & Hp & Hm). unfold frameMaxMessageLength in Hm.
  set (L := Z.of_nat (length (d ++ pad))). assert (0 <= L < 2 ^ 31) as HL by (unfold L; rewrite length_app; lia).
  unfold nextInner. rewrite <-app_assoc. rewrite (proj2 (Nat.ltb_ge _ _)) by (rewrite length_app, length_le_split; lia).
  rewrite take_app_length' by (by rewrite length_le_split).
  rewrite le_combine_split4 by (unfold quickAckLength; destruct q; lia).
  assert ((quickAckLength <=? L + (if q then quickAckLength else 0)) = q) as ->.
  { unfold quickAckLength. destruct q; [apply Z.leb_le|apply Z.leb_gt]; lia. }
  assert ((if q then L + (if q then quickAckLength else 0) - quickAckLength else L + (if q then quickAckLength else 0)) = L) as ->
    by (destruct q; lia).
  rewrite (proj2 (Z.ltb_ge _ _)) by (rewrite !length_app, length_le_split; unfold L; rewrite length_app; lia).
  rewrite slice_mid by (rewrite ?length_le_split; unfold L; lia).
  rewrite (app_assoc (le_split _ _)), drop_app_length' by (rewrite length_app, length_le_split; unfold L; lia).
  do 3 f_equal. rewrite length_app, Nat.Div0.add_mod, H4, Nat.add_0_l, Nat.Div0.mod_mod, (Nat.mod_small (length pad)) by lia.
  apply take_app_length'. lia.
Qed.

Lemma nextInner_shrinks buf p q rest : nextInner buf = Some (p, q, rest) -> (length rest < length buf)%nat.
Proof.
  unfold nextInner. destruct (length buf <? 4)%nat eqn:E; [done|]. apply Nat.ltb_ge in E. case_match; [done|]. intros Hs.
  simplify_eq. rewrite length_drop. lia.
Qed.

Lemma nextInner_app buf p q rest more :
  nextInner buf = Some (p, q, rest) -> nextInner (buf ++ more) = Some (p, q, rest ++ more).
Proof.
  unfold nextInner. destruct (length buf <? 4)%nat eqn:E; [done|]. apply Nat.ltb_ge in E.
  rewrite length_app, take_app_le by lia. rewrite (proj2 (Nat.ltb_ge _ _)) by lia.
  pose proof (le_combine_bound (take 4 buf)) as Hb.
  set (len := if quickAckLength <=? le_combine (take 4 buf) then _ else _).
  assert (0 <= len) by (unfold len; destruct (Z.leb_spec quickAckLength (le_combine (take 4 buf))); lia). clearbody len.
  destruct (Z.of_nat (length buf) <? len + 4) eqn:El; [done|]. apply Z.ltb_ge in El.
  rewrite (proj2 (Z.ltb_ge _ _)) by lia. intros Hs. simplify_eq.
  unfold slice. rewrite drop_app_le, take_app_le, drop_app_le by (rewrite ?length_drop; lia). done.
Qed.

(** A buffer cut into its complete packets and the rest. *)
Inductive splits : list byte -> list (list byte * bool) -> list byte -> Prop :=
  | splits_nil buf : nextInner buf = None -> splits buf [] buf
  | splits_cons buf p q b l r : nextInner buf = Some (p, q, b) -> splits b l r -> splits buf ((p, q) :: l) r.

Lemma splits_total buf : exists l r, splits buf l r.
Proof.
  remember (length buf) as n eqn:Hn. revert buf Hn. induction (lt_wf n) as [n _ IH]; intros buf ->.
  destruct (nextInner buf) as [[[p q] b]|] eqn:E; [|exists [], buf; by constructor].
  destruct (IH (length b) (nextInner_shrinks _ _ _ _ E) b eq_refl) as (l & r & Hs). exists ((p, q) :: l), r. by econstructor.
Qed.

Lemma splits_det buf l r l' r' : splits buf l r -> splits buf l' r' -> l = l' /\ r = r'.
Proof.
  intros Hs. revert l' r'. induction Hs as [buf E|buf p q b l r E _ IH]; intros l' r' Hs'; inversion Hs'; simplify_eq; [done|].
  destruct (IH _ _ ltac:(eassumption)) as [-> ->]. done.
Qed.

Lemma splits_app a b l r l' r' : splits a l r -> splits (r ++ b) l' r' -> splits (a ++ b) (l ++ l') r'.
Proof.
  induction 1 as [buf E|buf p q c l r E _ IH]; [done|]. intros Hs. cbn [app]. econstructor; [by apply nextInner_app|auto].
Qed.

Lemma splits_rest buf l r : splits buf l r -> nextInner r = None.
Proof. by induction 1. Qed.

Lemma splits_packets ps partial :
  Forall clientPacket ps -> nextInner partial = None ->
  splits (concat (map interBytes ps) ++ partial) (map fst ps) partial.
Proof.
  intros Hp Hn. induction Hp as [|p ps Hp _ IH]; [by constructor|]. cbn [map concat]. rewrite <-app_assoc.
  destruct p as [[d q] pad]. econstructor; [by apply (nextInner_packet (d, q, pad))|done].
Qed.

Lemma length_encodeIPPort a : length (encodeIPPort a) = 20%nat.
Proof. unfold encodeIPPort. destruct a; by rewrite ?length_copy_at. Qed.

Section MiddleProofs.
Context `{BlockCipherLaws}.

Definition wf_middle (m : middleConn) : Prop := length (connID m) = 8%nat /\ length (adTag m) = adTagLength.

(** A request is an 84-byte header and the packet. *)
Lemma buildProxyReq_layout m packet quickAck :
  wf_middle m -> exists header,
    buildProxyReq m packet quickAck = header ++ packet /\ length header = 84%nat /\
    take 4 header = tagProxyRequest /\ slice 8 16 header = connID m /\ slice 65 81 header = adTag m /\
    Z.testbit (le_combine (slice 4 8 header)) 31 = quickAck.
Proof.
  intros [Hc Ha]. unfold adTagLength in Ha. unfold buildProxyReq.
  set (flags := if (8 <=? length packet)%nat && isAllZero (take 8 packet) then _ else _).
  set (P := encodeIPPort (clientAddr m)). set (Q := encodeIPPort (ourAddr m)).
  assert (length P = 20%nat) as HP by apply length_encodeIPPort. assert (length Q = 20%nat) as HQ by apply length_encodeIPPort.
  assert (length (le_split 4 flags) = 4%nat) as Hf by apply length_le_split.
  match goal with |- context [(length ?b mod 4)%nat] => set (buf := b) end.
  assert (length buf = 81%nat) as Hb by (unfold buf; rewrite !length_app, Hc, Ha, HP, HQ, Hf; done).
  exists (buf ++ replicate 3 Byte.x00). rewrite Hb. split_and!.
  - by rewrite <-app_assoc.
  - by rewrite length_app, Hb.
  - done.
  - unfold buf. rewrite <-!app_assoc, (app_assoc tagProxyRequest). apply slice_mid; rewrite ?length_app, ?Hf; simpl length; lia.
  - unfold buf. rewrite <-!app_assoc.
    rewrite (slice_app_r _ _ tagProxyRequest), (slice_app_r _ _ (le_split 4 flags)), (slice_app_r _ _ (connID m)), (slice_app_r _ _ P),
      (slice_app_r _ _ Q), (slice_app_r _ _ proxyRequestExtraSize), (slice_app_r _ _ proxyRequestProxyTag), (slice_app_r _ _ [_])
      by (rewrite ?Hf, ?Hc, ?HP, ?HQ; simpl length; lia).
    apply (slice_mid _ _ []); rewrite ?Hf, ?Hc, ?HP, ?HQ, ?Ha; done.
  - unfold buf. rewrite <-!app_assoc. rewrite slice_mid by (rewrite ?Hf; done).
    rewrite le_combine_split4; unfold flags; destruct quickAck, (_ && _); done.
Qed.

Lemma buildProxyReq_sendable m packet quickAck :
  wf_middle m -> (length packet mod 4 = 0)%nat -> 96 + Z.of_nat (length packet) <= frameMaxMessageLength ->
  sendable (buildProxyReq m packet quickAck).
Proof.
  intros Hm H4 Hl. destruct (buildProxyReq_layout m packet quickAck Hm) as (h & -> & Hh & _). unfold sendable. rewrite length_app, Hh.
  split; [|lia]. by rewrite Nat.Div0.add_mod, H4.
Qed.

(** The requests of a list of packets. *)
Definition requests (m : middleConn) (l : list (list byte * bool)) : list (list byte) :=
  map (fun '(p, q) => buildProxyReq m p q) l.

Lemma requests_set_io m f i o l : requests (set_io f i o m) l = requests m l.
Proof. done. Qed.

Lemma writeLoop_splits fuel m l r f :
  splits (inbuf m) l r -> (length (inbuf m) <= fuel)%nat -> writePackets (requests m l) (mc_frame m) = (None, f) ->
  writeLoop fuel m = (None, set_io f r (outbuf m) m).
Proof.
  intros Hs. remember (inbuf m) as buf eqn:Hbuf. revert fuel m Hbuf. induction Hs as [buf E|buf p q b l r E _ IH]; intros fuel m -> Hl Hw.
  { destruct m, fuel; cbn in *; rewrite E; by simplify_eq. }
  apply nextInner_shrinks in E as Hb. destruct fuel as [|fuel]; [lia|]. cbn [writeLoop]. rewrite E.
  cbn [requests map writePackets] in Hw. destruct (writePacket _ _) as [[e|] f1]; [done|].
  rewrite (IH fuel (set_io f1 b (outbuf m) m)); [done|done|lia|exact Hw].
Qed.

(** Successive writes, up to the first error. *)
Fixpoint middle_Writes (chunks : list (list byte)) (m : middleConn) : option goerr * middleConn :=
  match chunks with
  | [] => (None, m)
  | c :: chunks => match middle_Write c m with (Fail e, m) => (Some e, m) | (Ok _, m) => middle_Writes chunks m end
  end.

Lemma middle_Writes_splits chunks m l r f :
  splits (inbuf m ++ concat chunks) l r -> nextInner (inbuf m) = None -> 
  writePackets (requests m l) (mc_frame m) = (None, f) ->
  middle_Writes chunks m = (None, set_io f r (outbuf m) m).
Proof.
  revert m l. induction chunks as [|c chunks IH]; intros m l Hs Hn Hw.
  { cbn [concat] in Hs. rewrite app_nil_r in Hs. destruct (splits_det _ _ _ _ _ Hs (splits_nil _ Hn)) as [-> ->].
    cbn in *. destruct m. by simplify_eq. }
  cbn [concat middle_Writes] in *. destruct (splits_total (inbuf m ++ c)) as (l1 & r1 & H1).
  destruct (splits_total (r1 ++ concat chunks)) as (l2 & r2 & H2).
  pose proof (splits_app _ _ _ _ _ _ H1 H2) as H12. rewrite <-app_assoc in H12.
  destruct (splits_det _ _ _ _ _ Hs H12) as [-> ->].
  unfold requests in Hw. rewrite map_app in Hw. destruct (writePackets_split _ _ _ _ Hw) as (f1 & Hw1 & Hw2).
  unfold middle_Write. set (m1 := set_io _ _ _ m).
  rewrite (writeLoop_splits _ m1 l1 r1 f1) by done. 
  rewrite (IH (set_io f1 r1 (outbuf m1) m1) l2); [done|exact H2|by eapply splits_rest|exact Hw2].
Qed.

(** What the middle proxy has got when [m] has become [m'] by the packets [ps]:
    reading the encrypted frames with the matching cipher state and sequence
    number, one RPC_PROXY_REQ per packet, the header and then the packet without
    its padding. *)
Definition requested (m m' : middleConn) (ps : list (list byte * bool * list byte)) : Prop :=
  exists wire reqs,
    s_out (cbc_raw (f_raw (mc_frame m'))) = s_out (cbc_raw (f_raw (mc_frame m))) ++ wire /\
    Forall2 (fun req '(data, quickAck, _) => exists header, req = header ++ data /\ length header = 84%nat /\
      take 4 header = tagProxyRequest /\ slice 8 16 header = connID m /\ slice 65 81 header = adTag m /\
      Z.testbit (le_combine (slice 4 8 header)) 31 = quickAck) reqs ps /\
    forall (peer : frameConn cbcConn) rest,
      cbc_dec (f_raw peer) = cbc_enc (f_raw (mc_frame m)) -> cbc_buf (f_raw peer) = [] ->
      readSeqNo peer = writeSeqNo (mc_frame m) -> avail (s_in (cbc_raw (f_raw peer))) = wire ++ rest ->
      exists peer', readPackets (length ps) peer = (Ok reqs, peer').

(** A connection to a middle proxy that can be written to, with no packet
    begun. *)
Record ready (m : middleConn) : Prop := {
  rd_wf : wf_middle m;
  rd_empty : inbuf m = [];
  rd_open : s_werr (cbc_raw (f_raw (mc_frame m))) = None;
  rd_seq : - 2 ^ 31 <= writeSeqNo (mc_frame m) < 2 ^ 31;
  rd_iv : length (bm_iv (cbc_enc (f_raw (mc_frame m)))) = BlockSize }.

Lemma upstream_requested m ps chunks partial :
  ready m -> Forall clientPacket ps -> splits (concat chunks) (map fst ps) partial ->
  exists m', middle_Writes chunks m = (None, m') /\ inbuf m' = partial /\ requested m m' ps.
Proof.
  intros [Hm Hi Hwe Hs Hiv] Hp Hc.
  assert (Forall sendable (requests m (map fst ps))) as Hsend.
  { unfold requests. rewrite map_map. apply Forall_map. eapply Forall_impl; [exact Hp|]. intros [[d q] pad] (? & ? & ?).
    by apply buildProxyReq_sendable. }
  destruct (rpc_channel (mc_frame m) _ Hsend Hwe Hs Hiv) as (f & wire & Hw & Ho & Hr).
  exists (set_io f partial (outbuf m) m). split_and!; [|done|].
  - apply (middle_Writes_splits _ _ (map fst ps)); [by rewrite Hi|by rewrite Hi|done].
  - exists wire, (requests m (map fst ps)). split_and!; [done| |].
    + unfold requests. rewrite map_map. apply Forall2_fmap_l, Forall_Forall2_diag, Forall_true. intros [[d q] pad].
      by apply buildProxyReq_layout.
    + intros peer rest H1 H2 H3 H4. destruct (Hr peer rest H1 H2 H3 H4) as (peer' & Hp' & _). exists peer'.
      rewrite <-Hp'. unfold requests. by rewrite !length_map.
Qed.

(** A beginning of a stream of packets has the first of them complete. *)
Lemma splits_beginning ps partial a b :
  Forall clientPacket ps -> nextInner partial = None -> a ++ b = concat (map interBytes ps) ++ partial ->
  exists k r, splits a (map fst (take k ps)) r /\ (b = [] -> take k ps = ps /\ r = partial).
Proof.
  intros Hp Hn Hab. destruct (splits_total a) as (l & r & Ha). destruct (splits_total (r ++ b)) as (l' & r' & Hb).
  pose proof (splits_app _ _ _ _ _ _ Ha Hb) as H12. rewrite Hab in H12.
  destruct (splits_det _ _ _ _ _ H12 (splits_packets ps partial Hp Hn)) as [Hl ->].
  exists (length l), r. rewrite <-firstn_map, <-Hl. rewrite take_app_length. split; [done|]. intros ->. rewrite app_nil_r in Hb.
  destruct (splits_det _ _ _ _ _ Hb (splits_nil _ (splits_rest _ _ _ Ha))) as [-> ->]. split; [|done].
  rewrite app_nil_r in Hl. apply take_ge. by rewrite Hl, length_map.
Qed.

(** C18: from the client to the middle proxy.  A stream of padded-intermediate
    packets that fit a frame (followed by at most an incomplete one), written to
    the connection in any pieces, is written without an error; the middle proxy, reading the
    encrypted frames with the matching cipher state and sequence number, gets
    one RPC_PROXY_REQ per packet, in order, each the 84-byte header (tag, flags
    with the quick-ack bit, connection id, advertising tag) followed by the
    packet without its padding; the incomplete packet stays buffered. *)
Theorem middle_upstream m ps chunks partial :
  wf_middle m -> inbuf m = [] -> s_werr (cbc_raw (f_raw (mc_frame m))) = None ->
  - 2 ^ 31 <= writeSeqNo (mc_frame m) < 2 ^ 31 -> length (bm_iv (cbc_enc (f_raw (mc_frame m)))) = BlockSize ->
  Forall clientPacket ps -> nextInner partial = None -> concat chunks = concat (map interBytes ps) ++ partial ->
  exists m' wire reqs,
    middle_Writes chunks m = (None, m') /\ inbuf m' = partial /\
    s_out (cbc_raw (f_raw (mc_frame m'))) = s_out (cbc_raw (f_raw (mc_frame m))) ++ wire /\
    Forall2 (fun req '(data, quickAck, _) => exists header, req = header ++ data /\ length header = 84%nat /\
      take 4 header = tagProxyRequest /\ slice 8 16 header = connID m /\ slice 65 81 header = adTag m /\
      Z.testbit (le_combine (slice 4 8 header)) 31 = quickAck) reqs ps /\
    forall (peer : frameConn cbcConn) rest,
      cbc_dec (f_raw peer) = cbc_enc (f_raw (mc_frame m)) -> cbc_buf (f_raw peer) = [] ->
      readSeqNo peer = writeSeqNo (mc_frame m) -> avail (s_in (cbc_raw (f_raw peer))) = wire ++ rest ->
      exists peer', readPackets (length ps) peer = (Ok reqs, peer').
Proof.
  intros Hm Hi Hwe Hs Hiv Hp Hn Hc. destruct (upstream_requested m ps chunks partial) as (m' & Hw & Hin & wire & reqs & Hreq); [done|done| |].
  - rewrite Hc. by apply splits_packets.
  - by exists m', wire, reqs.
Qed.

(** ** Proofs: from the middle proxy *)

(** What the middle proxy sends, with the layouts of the RPC messages. *)
Inductive response :=
  | RAns (flags cid payload : list byte)
  | RAck (cid payload : list byte).

Definition respBytes (r : response) : list byte :=
  match r with
  | RAns flags cid payload => tagProxyAns ++ flags ++ cid ++ payload
  | RAck cid payload => tagSimpleAck ++ cid ++ payload
  end.

(** The bytes the client is meant to get for it. *)
Definition toClient (r : response) : list byte :=
  match r with
  | RAns _ _ payload => le_split 4 (uwrap 32 (Z.of_nat (length payload))) ++ payload
  | RAck _ payload => payload
  end.

Definition wf_response (r : response) : Prop :=
  sendable (respBytes r) /\
  match r with RAns flags cid _ => length flags = 4%nat /\ length cid = 8%nat | RAck cid _ => length cid = 8%nat end.

Lemma frameIntermediate_eq payload :
  frameIntermediate payload = le_split 4 (uwrap 32 (Z.of_nat (length payload))) ++ payload.
Proof.
  unfold frameIntermediate. rewrite replicate_add.
  rewrite <-(app_nil_l (replicate 4 Byte.x00 ++ _)), (copy_at_mid 0) by (by rewrite ?length_le_split).
  rewrite <-(app_nil_r (replicate (length payload) _)). cbn [app].
  rewrite (copy_at_mid 4) by (by rewrite ?length_le_split, ?length_replicate). by rewrite app_nil_r.
Qed.

(** The stream is: the rest of [outbuf], the responses [rs], a RPC_CLOSE_EXT. *)
Record pending (m : middleConn) (rs : list response) : Prop := {
  pd_wf : rw_wf (f_raw (mc_frame m));
  pd_seq : - 2 ^ 31 <= readSeqNo (mc_frame m) < 2 ^ 31;
  pd_resp : Forall wf_response rs;
  pd_view : exists k more, avail (rw_view (f_raw (mc_frame m))) =
    concat (replicate k framePadding) ++ packets (readSeqNo (mc_frame m)) (map respBytes rs ++ [tagCloseExt]) ++ more }.

Definition pendingBytes (m : middleConn) (rs : list response) : list byte := outbuf m ++ concat (map toClient rs).

Lemma pending_set_out m rs i o : pending m rs -> pending (set_io (mc_frame m) i o m) rs.
Proof. by intros []. Qed.

(** Taking the next packet. *)
Lemma pending_next m msg rs :
  rw_wf (f_raw (mc_frame m)) -> - 2 ^ 31 <= readSeqNo (mc_frame m) < 2 ^ 31 -> sendable msg ->
  (exists k more, avail (rw_view (f_raw (mc_frame m))) =
    concat (replicate k framePadding) ++ packets (readSeqNo (mc_frame m)) (msg :: rs) ++ more) ->
  exists f, readPacket (mc_frame m) = (Ok msg, f) /\ rw_wf (f_raw f) /\ - 2 ^ 31 <= readSeqNo f < 2 ^ 31 /\
    exists k more, avail (rw_view (f_raw f)) = concat (replicate k framePadding) ++ packets (readSeqNo f) rs ++ more.
Proof.
  intros Hw Hs Hm (k & more & Ha). destruct (mc_frame m) as [c seq ws]. cbn [f_raw readSeqNo] in *.
  destruct (readPackets_packets c seq ws [msg] k (packets (swrap 32 (seq + 1)) rs ++ more) Hw Hs) as (f & Hf & Hwf & Hseq & _ & k' & Hk').
  - by constructor.
  - rewrite Ha. cbn [packets]. by rewrite app_nil_r, <-!app_assoc.
  - cbn [length readPackets] in Hf. destruct (readPacket _) as [[m1|e] f1]; [|done]. cbn in Hf. simplify_eq.
    exists f. cbn in Hseq. rewrite Hseq. split_and!; eauto. all: apply (swrap_range 32); lia.
Qed.

Lemma parse_response r :
  wf_response r ->
  exists t payload, parseProxyResponse (respBytes r) = Ok (t, payload) /\
    toClient r = match t with respAns => frameIntermediate payload | _ => payload end /\ t <> respCloseExt.
Proof.
  intros [_ Hr]. destruct r as [flags cid payload|cid payload]; cbn [respBytes]; unfold parseProxyResponse.
  - destruct Hr as [Hf Hc]. rewrite !length_app, Hf, Hc. rewrite (proj2 (Nat.ltb_ge _ _)) by (simpl length; lia).
    rewrite take_app_length' by done. rewrite bool_decide_true by done.
    rewrite (proj2 (Nat.ltb_ge _ _)) by (simpl length; lia). exists respAns, payload. split_and!; [|by rewrite frameIntermediate_eq|done].
    do 2 f_equal. rewrite !app_assoc. apply drop_app_length'. by rewrite !length_app, Hf, Hc.
  - rewrite !length_app, Hr. rewrite (proj2 (Nat.ltb_ge _ _)) by (simpl length; lia).
    rewrite take_app_length' by done. rewrite bool_decide_false, bool_decide_true by done.
    rewrite (proj2 (Nat.ltb_ge _ _)) by (simpl length; lia). exists respSimpleAck, payload. split_and!; [|done|done].
    do 2 f_equal. rewrite !app_assoc. apply drop_app_length'. by rewrite !length_app, Hr.
Qed.

Lemma readLoop_pending fuel m rs :
  pending m rs -> (length rs < fuel)%nat ->
  if bool_decide (pendingBytes m rs = []) then exists m', readLoop fuel m = (Some EOF, m')
  else exists m' rs', readLoop fuel m = (None, m') /\ outbuf m' <> [] /\ pending m' rs' /\ pendingBytes m' rs' = pendingBytes m rs.
Proof.
  revert m rs. induction fuel as [|fuel IH]; intros m rs Hp Hl; [lia|].
  destruct (outbuf m) as [|b out] eqn:Eo.
  2:{ rewrite bool_decide_false by (unfold pendingBytes; by rewrite Eo). exists m, rs. cbn [readLoop]. by rewrite Eo. }
  cbn [readLoop]. rewrite Eo. destruct Hp as [Hw Hs Hr Hv]. destruct rs as [|r rs].
  { destruct (pending_next m tagCloseExt [] Hw Hs) as (f & -> & _); [done|exact Hv|].
    rewrite bool_decide_true by (unfold pendingBytes; by rewrite Eo). cbn. eauto. }
  inversion Hr as [|? ? Hr1 Hrs]; subst. destruct (pending_next m (respBytes r) (map respBytes rs ++ [tagCloseExt]) Hw Hs) as (f & -> & Hw' & Hs' & Hv');
    [apply Hr1|exact Hv|].
  destruct (parse_response r Hr1) as (t & payload & -> & Hc & Ht).
  assert (exists o, o = toClient r /\ readLoop fuel (set_io f (inbuf m) o m) = 
    match t with
    | respAns => readLoop fuel (set_io f (inbuf m) ([] ++ frameIntermediate payload) m)
    | respSimpleAck => readLoop fuel (set_io f (inbuf m) ([] ++ payload) m)
    | respCloseExt => readLoop fuel (set_io f (inbuf m) (toClient r) m)
    end) as (o & -> & Hrl).
  { exists (toClient r). split; [done|]. rewrite Hc. by destruct t. }
  assert (pending (set_io f (inbuf m) (toClient r) m) rs) as Hp' by done.
  specialize (IH _ _ Hp' ltac:(simpl in Hl; lia)).
  assert (pendingBytes (set_io f (inbuf m) (toClient r) m) rs = pendingBytes m (r :: rs)) as Hb
    by (unfold pendingBytes; by rewrite Eo).
  rewrite Hb in IH. cbn [set_io inbuf outbuf] in *. destruct t; [..|done]; rewrite Hrl in IH; exact IH.
Qed.

Lemma length_packets seq ms : (length ms <= length (packets seq ms))%nat.
Proof.
  revert seq. induction ms as [|m ms IH]; intros seq; [done|]. cbn [packets length]. rewrite length_app. specialize (IH (swrap 32 (seq + 1))).
  unfold packetBytes. rewrite length_app, length_packetBody. lia.
Qed.

(** One [Read]: the next bytes, at least one while there are any, then the end. *)
Lemma middle_Read_pending n m rs :
  pending m rs -> (0 < n)%nat ->
  match middle_Read n m with
  | (l, None, m') => l <> [] /\ exists rs', pending m' rs' /\ pendingBytes m rs = l ++ pendingBytes m' rs'
  | (l, Some e, _) => l = [] /\ e = EOF /\ pendingBytes m rs = []
  end.
Proof.
  intros Hp Hn. unfold middle_Read.
  pose proof (readLoop_pending (S (length (avail (rw_view (f_raw (mc_frame m)))))) m rs Hp) as Hr.
  destruct (pd_view m rs Hp) as (k & more & Ha). pose proof (length_packets (readSeqNo (mc_frame m)) (map respBytes rs ++ [tagCloseExt])) as Hl.
  rewrite length_app, length_map in Hl. specialize (Hr ltac:(rewrite Ha, !length_app; simpl length in Hl; lia)).
  case_bool_decide as Hb; [by destruct Hr as [m' ->]|].
  destruct Hr as (m' & rs' & -> & Ho & Hp' & <-). split; [destruct (outbuf m'), n; by try lia|].
  exists rs'. split; [by apply pending_set_out|]. unfold pendingBytes. cbn [set_io outbuf]. by rewrite app_assoc, take_drop.
Qed.

(** Successive reads into slices of the given lengths, up to the first error. *)
Fixpoint middle_Reads (ns : list nat) (m : middleConn) : list byte * option goerr * middleConn :=
  match ns with
  | [] => ([], None, m)
  | n :: ns =>
      match middle_Read n m with
      | (l, Some e, m) => (l, Some e, m)
      | (l, None, m) => let '(l', e, m) := middle_Reads ns m in (l ++ l', e, m)
      end
  end.

(** C19: from the middle proxy to the client.  When the middle proxy sends
    answers and quick-acks through the encrypted channel and then
    RPC_CLOSE_EXT, the connection, read with buffers of any sizes until it
    reports an error, yields exactly the rest of its buffer, the answers as
    intermediate packets and the acks verbatim, in order, and then [io.EOF];
    it never returns zero bytes without an error. *)
Theorem middle_downstream m rs ns :
  pending m rs -> Forall (fun n => 0 < n)%nat ns -> (length (pendingBytes m rs) < length ns)%nat ->
  exists m', middle_Reads ns m = (pendingBytes m rs, Some EOF, m').
Proof.
  intros Hp Hns. revert m rs Hp. induction Hns as [|n ns Hn _ IH]; intros m rs Hp Hl; [simpl in Hl; lia|].
  cbn [middle_Reads]. pose proof (middle_Read_pending n m rs Hp Hn) as Hr.
  destruct (middle_Read n m) as [[l [e|]] m1]; [destruct Hr as (-> & -> & ->); eauto|].
  destruct Hr as (Hne & rs' & Hp' & Hb). rewrite Hb in *. rewrite length_app in Hl.
  assert (0 < length l)%nat by (destruct l; [done|simpl; lia]).
  destruct (IH m1 rs' Hp') as (m2 & ->); [simpl in Hl; lia|]. eauto.
Qed.
End MiddleProofs.

(** ** Examples *)

#[local] Existing Instance demo_cipher.
#[local] Existing Instance demo_cipher_laws.

Definition demo_middle (input : list byte) : middleConn :=
  newMiddleConn (newFrameConn (newCBCConn (mkSocket (buffer input) [] None) demo_mode demo_mode) 0)
    (replicate 8 Byte.x01) (replicate 16 Byte.x02) None (Some (mkTCP [Byte.x7f; Byte.x00; Byte.x00; Byte.x01] 443)).

Lemma middle_upstream_witness :
  exists m' wire (reqs : list (list byte)), middle_Writes [[Byte.x09; Byte.x00]; [Byte.x00; Byte.x80] ++ replicate 8 Byte.x00; [Byte.xff; Byte.x01]] (demo_middle []) = (None, m') /\
    inbuf m' = [Byte.x01] /\ s_out (cbc_raw (f_raw (mc_frame m'))) = [] ++ wire /\ length reqs = 1%nat.
Proof.
  destruct (middle_upstream (demo_middle []) [(replicate 8 Byte.x00, true, [Byte.xff])]
    [[Byte.x09; Byte.x00]; [Byte.x00; Byte.x80] ++ replicate 8 Byte.x00; [Byte.xff; Byte.x01]] [Byte.x01])
    as (m' & wire & reqs & H1 & H2 & H3 & H4 & _); [done|done|done|cbn; lia|done| |done|vm_compute; reflexivity|].
  - apply (bool_decide_unpack _). vm_compute. exact I.
  - exists m', wire, reqs. split_and!; [exact H1|exact H2|exact H3|exact (Forall2_length _ _ _ H4)].
Defined.

Definition demo_responses : list response :=
  [RAns (replicate 4 Byte.x00) (replicate 8 Byte.x01) [Byte.x41; Byte.x42; Byte.x43; Byte.x44]; RAck (replicate 8 Byte.x01) [Byte.x45; Byte.x46; Byte.x47; Byte.x48]].

Definition demo_input : list byte := (cbc_wire demo_mode (packets 0 (map respBytes demo_responses ++ [tagCloseExt]))).1.

Lemma middle_downstream_witness :
  exists m', middle_Reads (replicate 13 1%nat) (demo_middle demo_input) =
    ([Byte.x04; Byte.x00; Byte.x00; Byte.x00; Byte.x41; Byte.x42; Byte.x43; Byte.x44; Byte.x45; Byte.x46; Byte.x47; Byte.x48], Some EOF, m').
Proof.
  apply (middle_downstream (demo_middle demo_input) demo_responses).
  - split; [done|cbn; lia| |].
    + repeat constructor; apply (bool_decide_unpack _); vm_compute; exact I.
    + exists 0%nat, []. vm_compute. reflexivity.
  - apply Forall_replicate. lia.
  - vm_compute. lia.
Defined.
