(* ===== verification/MiddleProxy.v ===== *)
(** * Dialling a middle proxy: mtglib/internal/middleproxy/cipher.go, handshake.go, manager.go

    The key schedule, the RPC handshake over a socket, and the manager that
    keeps Telegram's secret and address lists and opens streams.  MD5 and SHA-1
    are functions of an interface with their output lengths as laws; the
    outcomes of HTTP requests, dials and the random source are arguments. *)

From S2P Require Import Prelude GoIO GoStrings GoNet Frame MiddleStream.
From Stdlib Require Import Ascii String.
Open Scope string_scope.
Open Scope list_scope.
Open Scope Z_scope.
Notation length := List.length.

(** ** The key schedule: cipher.go *)

Class Digests := { md5 : list byte -> list byte; sha1 : list byte -> list byte }.

Class DigestsLaws `{Digests} := {
  length_md5 l : length (md5 l) = 16%nat;
  length_sha1 l : length (sha1 l) = 20%nat
}.

Inductive cipherPurpose := purposeClient | purposeServer.

Definition purposeBytes (p : cipherPurpose) : list byte :=
  match p with
  | purposeClient => [Byte.x43; Byte.x4c; Byte.x49; Byte.x45; Byte.x4e; Byte.x54]
  | purposeServer => [Byte.x53; Byte.x45; Byte.x52; Byte.x56; Byte.x45; Byte.x52]
  end.

Definition emptyIPv4 : list byte := replicate 4 Byte.x00.

Record nonceRequest := mkNonce { keySelector : list byte; cryptoTS : list byte; nonce : list byte }.

(** [reverseBytes] is [reverse].  The bytes that are hashed. *)
Definition keyMessage (purpose : cipherPurpose) (req : nonceRequest) (respNonce : list byte) (client remote : tcpAddr) (secret : list byte) : list byte :=
  let v4 := negb (bool_decide (To4 (IP client) = [])) in
  let clientIPv4 := if v4 then reverse (To4 (IP client)) else emptyIPv4 in
  let serverIPv4 := if v4 then reverse (To4 (IP remote)) else emptyIPv4 in
  respNonce ++ nonce req ++ cryptoTS req ++ serverIPv4 ++ le_split 2 (uwrap 16 (Port client)) ++ purposeBytes purpose ++
  clientIPv4 ++ le_split 2 (uwrap 16 (Port remote)) ++ secret ++ respNonce ++
  (if v4 then [] else To16 (IP client) ++ To16 (IP remote)) ++ nonce req.

Section Keys.
Context `{Digests}.

Definition deriveKey (purpose : cipherPurpose) (req : nonceRequest) (respNonce : list byte) (client remote : tcpAddr) (secret : list byte)
    : list byte * list byte :=
  let data := keyMessage purpose req respNonce client remote secret in
  (take 12 (md5 (drop 1 data)) ++ sha1 data, md5 (drop 2 data)).

Definition deriveCiphers (req : nonceRequest) (respNonce : list byte) (local remote : tcpAddr) (secret : list byte) : blockMode * blockMode :=
  let '(encKey, encIV) := deriveKey purposeClient req respNonce local remote secret in
  let '(decKey, decIV) := deriveKey purposeServer req respNonce local remote secret in
  (mkMode encKey encIV, mkMode decKey decIV).
End Keys.

(** ** The handshake: handshake.go *)

(** [newNonceRequest]; [rnd] is what the random source gives, [now] the Unix
    time. *)
Definition newNonceRequest (proxySecret : list byte) (rnd : res (list byte)) (now : Z) : res nonceRequest :=
  match rnd with
  | Fail e => Fail (Wrap "cannot generate nonce" e)
  | Ok nonce =>
      let keySelector := copy_at 0 proxySecret (replicate 4 Byte.x00) in
      let timestamp := Z.rem now 4294967296 in
      Ok (mkNonce keySelector (le_split 4 (uwrap 32 timestamp)) nonce)
  end.

Definition nonceRequest_bytes (r : nonceRequest) : list byte :=
  tagNonce ++ keySelector r ++ nonceCryptoAES ++ cryptoTS r ++ nonce r.

Definition parseNonceResponse (data : list byte) (req : nonceRequest) : res (list byte) :=
  if negb (length data =? 32)%nat then Fail (Errorf "unexpected nonce response length")
  else if negb (bool_decide (take 4 data = tagNonce)) then Fail (Errorf "unexpected nonce response tag")
  else if negb (bool_decide (slice 8 12 data = nonceCryptoAES)) then Fail (Errorf "unexpected crypto type")
  else if negb (bool_decide (slice 4 8 data = keySelector req)) then Fail (Errorf "unexpected key selector")
  else Ok (drop 16 data).

Definition handshakeRequestBytes : list byte := tagHandshake ++ handshakeFlags ++ handshakePID ++ handshakePID.

Definition validateHandshakeResponse (data : list byte) : option goerr :=
  if negb (length data =? 32)%nat then Some (Errorf "incorrect handshake response length")
  else if negb (bool_decide (take 4 data = tagHandshake)) then Some (Errorf "unexpected handshake tag")
  else if negb (bool_decide (drop 20 data = handshakePID)) then Some (Errorf "incorrect peer PID")
  else None.

Section Handshake.
Context `{BlockCipher, Digests}.

(** [doHandshake]: the connection carries the frame when it succeeds, and is
    given back as it is left when it fails. *)
Definition doHandshake (conn : socket) (secret : list byte) (local remote : tcpAddr) (rnd : res (list byte)) (now : Z)
    : res (frameConn cbcConn) * socket :=
  match newNonceRequest secret rnd now with
  | Fail e => (Fail e, conn)
  | Ok req =>
      let rawFrame := newFrameConn conn seqNoNonce in
      match writePacket (nonceRequest_bytes req) rawFrame with
      | (Some e, rawFrame) => (Fail (Wrap "cannot send nonce request" e), f_raw rawFrame)
      | (None, rawFrame) =>
          match readPacket rawFrame with
          | (Fail e, rawFrame) => (Fail (Wrap "cannot read nonce response" e), f_raw rawFrame)
          | (Ok respBytes, rawFrame) =>
              match parseNonceResponse respBytes req with
              | Fail e => (Fail e, f_raw rawFrame)
              | Ok respNonce =>
                  let '(enc, dec) := deriveCiphers req respNonce local remote secret in
                  let cbcFrame := newFrameConn (newCBCConn (f_raw rawFrame) enc dec) seqNoHandshake in
                  match writePacket handshakeRequestBytes cbcFrame with
                  | (Some e, cbcFrame) => (Fail (Wrap "cannot send handshake request" e), cbc_raw (f_raw cbcFrame))
                  | (None, cbcFrame) =>
                      match readPacket cbcFrame with
                      | (Fail e, cbcFrame) => (Fail (Wrap "cannot read handshake response" e), cbc_raw (f_raw cbcFrame))
                      | (Ok hsBytes, cbcFrame) =>
                          match validateHandshakeResponse hsBytes with
                          | Some e => (Fail e, cbc_raw (f_raw cbcFrame))
                          | None => (Ok cbcFrame, cbc_raw (f_raw cbcFrame))
                          end
                      end
                  end
              end
          end
      end
  end.
End Handshake.

(** ** The manager: manager.go *)

(** An HTTP exchange: an error, or a status code and the body (whose reading may
    fail). *)
Definition httpResult := res (Z * res (list byte)).

Definition fetchBytes (r : httpResult) : res (list byte) :=
  match r with
  | Fail e => Fail (Wrap "cannot GET" e)
  | Ok (status, body) => if 400 <=? status then Fail (Errorf "unexpected status") else body
  end.

Definition string_of_bytes (l : list byte) : string := string_of_list_byte l.

(** One line of [parseMiddleConfig]: the entry it adds. *)
Definition middleLine (line : string) : option (Z * string) :=
  let text := TrimSpace line in
  if negb (HasPrefix text "proxy_for") then None
  else
    match Fields text with
    | _ :: f1 :: f2 :: _ =>
        match ParseInt f1 with
        | None => None
        | Some dc =>
            let addr := TrimRight f2 ";" in
            match SplitHostPort addr with Fail _ => None | Ok _ => Some (dc, addr) end
        end
    | _ => None
    end.

Definition addMiddle (out : gmap Z (list string)) (line : string) : gmap Z (list string) :=
  match middleLine line with
  | None => out
  | Some (dc, addr) => <[dc := default [] (out !! dc) ++ [addr]]> out
  end.

Definition parseMiddleConfig (data : list byte) : res (gmap Z (list string)) :=
  let '(lines, tooLong) := scan_lines (lines_loop "" (string_of_bytes data)) in
  if tooLong : bool then Fail (Wrap "cannot parse proxy config" (Errorf "bufio.Scanner: token too long"))
  else Ok (fold_left addMiddle lines ∅).

Record Manager := mkManager {
  mg_preferIP : string;
  ready : bool;
  mg_secret : list byte;
  middleV4 : gmap Z (list string);
  middleV6 : gmap Z (list string);
  refreshing : bool
}.

Definition NewManager (preferIP : string) : Manager := mkManager preferIP false [] ∅ ∅ false.

(** [fetchConfig] of one family. *)
Definition fetchConfig (r : httpResult) : res (gmap Z (list string)) :=
  data ← fetchBytes r; parseMiddleConfig data.

(** The three exchanges of a [fetch]: secret, configuration v4 and v6. *)
Record fetches := mkFetches { h_secret : httpResult; h_v4 : httpResult; h_v6 : httpResult }.

Definition fetch (m : Manager) (h : fetches) : option goerr * Manager :=
  match fetchBytes (h_secret h) with
  | Fail e => (Some (Wrap "cannot fetch proxy secret" e), m)
  | Ok secret =>
      match fetchConfig (h_v4 h) with
      | Fail e => (Some (Wrap "cannot fetch proxy config v4" e), m)
      | Ok v4 =>
          let v6 := match fetchConfig (h_v6 h) with Ok v6 => v6 | Fail _ => ∅ end in
          let ready := (0 <? length secret)%nat && ((0 <? size v4)%nat || (0 <? size v6)%nat) in
          (None, mkManager (mg_preferIP m) ready secret v4 v6 (refreshing m))
      end
  end.

(** [startRefresh]: the loop is started once; a tick is one [fetch]. *)
Definition startRefresh (m : Manager) : Manager :=
  mkManager (mg_preferIP m) (ready m) (mg_secret m) (middleV4 m) (middleV6 m) true.

Definition refreshTick (m : Manager) (h : fetches) : Manager := if refreshing m then (fetch m h).2 else m.

Definition ensureReady (m : Manager) (h : fetches) : option goerr * Manager :=
  if ready m then (None, m)
  else match fetch m h with (Some e, m) => (Some e, m) | (None, m) => (None, startRefresh m) end.

Record middleAddress := mkMA { ma_network : string; ma_addr : string }.

Definition appendFamily (dc : Z) (table : gmap Z (list string)) (network : string) : list middleAddress :=
  List.concat (map (fun key => map (mkMA network) (default [] (table !! key))) [dc; - dc]).

Definition orderedAddresses (m : Manager) (dc : Z) : list middleAddress :=
  let v6First := Contains (mg_preferIP m) "ipv6" in
  let onlyV4 := bool_decide (mg_preferIP m = "only-ipv4") in
  let onlyV6 := bool_decide (mg_preferIP m = "only-ipv6") in
  let v4 := if onlyV6 then [] else appendFamily dc (middleV4 m) "tcp4" in
  let v6 := if onlyV4 then [] else appendFamily dc (middleV6 m) "tcp6" in
  if v6First then v6 ++ v4 else v4 ++ v6.

Record DialParams := mkParams {
  dp_DC : Z;
  dp_ClientAddr : option tcpAddr;
  PublicIPv4 : list byte;
  PublicIPv6 : list byte;
  AdvertisedPort : Z;
  dp_AdTag : list byte
}.

(** What the network and the random source give at each attempt. *)
Record dialEnv := mkDialEnv {
  de_dial : nat -> middleAddress -> res (socket * tcpAddr * tcpAddr);
  de_nonce : nat -> res (list byte);
  de_now : nat -> Z;
  de_connID : nat -> res (list byte)
}.

Section Dial.
Context `{BlockCipher, Digests}.

(** One attempt: a stream and the remote IP, or why there is none; after a
    failed handshake or connection id the connection is closed again. *)
Inductive attempt :=
  | NotDialled (e : goerr)
  | HandshakeFailed (e : goerr)
  | NoConnID (e : goerr)
  | Streaming (m : middleConn) (ip : list byte).

Definition dialOne (env : dialEnv) (params : DialParams) (secret : list byte) (i : nat) (a : middleAddress) : attempt :=
  match de_dial env i a with
  | Fail e => NotDialled e
  | Ok (conn, local, remote) =>
      let publicIP := if bool_decide (To4 (IP local) = []) then PublicIPv6 params else PublicIPv4 params in
      let keyLocal := if bool_decide (publicIP = []) then local else mkTCP publicIP (Port local) in
      match doHandshake conn secret keyLocal remote (de_nonce env i) (de_now env i) with
      | (Fail e, _) => HandshakeFailed e
      | (Ok frame, _) =>
          let rpcIP := if bool_decide (publicIP = []) then IP local else publicIP in
          match de_connID env i with
          | Fail e => NoConnID e
          | Ok connID =>
              Streaming (newMiddleConn frame connID (dp_AdTag params) (dp_ClientAddr params) (Some (mkTCP rpcIP (AdvertisedPort params))))
                (IP remote)
          end
      end
  end.

(** The loop: its result, and how many connections were opened and closed. *)
Fixpoint dialMiddle (env : dialEnv) (params : DialParams) (secret : list byte) (i : nat) (lastErr : option goerr) (l : list middleAddress)
    : res (middleConn * list byte) * nat * nat :=
  match l with
  | [] => (Fail (Wrap "cannot connect to any middle proxy" (default (Errorf "nil") lastErr)), 0%nat, 0%nat)
  | a :: l =>
      match dialOne env params secret i a with
      | NotDialled e => dialMiddle env params secret (S i) (Some e) l
      | HandshakeFailed e => let '(r, opened, closed) := dialMiddle env params secret (S i) (Some e) l in (r, S opened, S closed)
      | NoConnID e => (Fail e, 1%nat, 1%nat)
      | Streaming m ip => (Ok (m, ip), 1%nat, 0%nat)
      end
  end.

Definition DialProxyStream (m : Manager) (h : fetches) (env : dialEnv) (params : DialParams)
    : res (middleConn * list byte) * nat * nat * Manager :=
  match ensureReady m h with
  | (Some e, m) => (Fail e, 0%nat, 0%nat, m)
  | (None, m) =>
      let secret := mg_secret m in
      if (length secret =? 0)%nat then (Fail (Errorf "middle-proxy secret is not available"), 0%nat, 0%nat, m)
      else
        let addresses := orderedAddresses m (dp_DC params) in
        if (length addresses =? 0)%nat then (Fail (Errorf "no middle proxy address for dc"), 0%nat, 0%nat, m)
        else (dialMiddle env params secret 0 None addresses, m)
  end.
End Dial.

(** ** Proofs *)

Section HandshakeProofs.
Context `{BlockCipherLaws, DigestsLaws}.

Lemma length_keys purpose req respNonce client remote secret :
  length (deriveKey purpose req respNonce client remote secret).1 = 32%nat /\
  length (deriveKey purpose req respNonce client remote secret).2 = BlockSize.
Proof.
  unfold deriveKey. cbn [fst snd]. rewrite length_app, length_take, !length_md5, length_sha1. done.
Qed.

(** The packets of a middle proxy: its nonce, sent in clear, and its handshake. *)
Definition nonceAnswer (req : nonceRequest) (ts respNonce : list byte) : list byte :=
  tagNonce ++ keySelector req ++ nonceCryptoAES ++ ts ++ respNonce.

Definition handshakeAnswer (flags senderPID : list byte) : list byte := tagHandshake ++ flags ++ senderPID ++ handshakePID.

Lemma parseNonceResponse_ok data req respNonce :
  length (keySelector req) = 4%nat ->
  parseNonceResponse data req = Ok respNonce <->
  exists ts, data = nonceAnswer req ts respNonce /\ length ts = 4%nat /\ length respNonce = 16%nat.
Proof.
  intros Hk. unfold parseNonceResponse, nonceAnswer. split.
  - destruct (length data =? 32)%nat eqn:El; [|done]. apply Nat.eqb_eq in El. do 3 (case_bool_decide as Hb; [|done]; revert Hb).
    intros Hs Hc Ht [= <-]. cbn [negb] in *. exists (slice 12 16 data). rewrite <-Hs, <-Hc, <-Ht.
    rewrite length_slice, length_drop by lia. split_and!; [|done|lia].
    rewrite !drop_slice, take_drop by lia. done.
  - intros (ts & -> & Ht & Hn). rewrite !length_app, Hk, Ht, Hn. cbn [negb].
    rewrite take_app_length' by done. rewrite bool_decide_true by done.
    assert (slice 8 12 (tagNonce ++ keySelector req ++ nonceCryptoAES ++ ts ++ respNonce) = nonceCryptoAES) as ->.
    { rewrite app_assoc. apply slice_mid; by rewrite ?length_app, ?Hk. }
    rewrite slice_mid by (by rewrite ?Hk). rewrite !bool_decide_true by done. cbn [negb].
    f_equal. rewrite !app_assoc. apply drop_app_length'. by rewrite !length_app, Hk, Ht.
Qed.

Lemma validateHandshakeResponse_ok data :
  validateHandshakeResponse data = None <->
  exists flags pid, data = handshakeAnswer flags pid /\ length flags = 4%nat /\ length pid = 12%nat.
Proof.
  unfold validateHandshakeResponse, handshakeAnswer. split.
  - destruct (length data =? 32)%nat eqn:El; [|done]. apply Nat.eqb_eq in El. do 2 (case_bool_decide as Hb; [|done]; revert Hb).
    intros Hp Ht _. exists (slice 4 8 data), (slice 8 20 data). rewrite <-Ht, <-Hp, !length_slice by lia. split_and!; [|done..].
    rewrite !drop_slice, take_drop by lia. done.
  - intros (flags & pid & -> & Hf & Hp). rewrite !length_app, Hf, Hp. cbn [negb].
    rewrite take_app_length' by done. rewrite bool_decide_true by done.
    rewrite !app_assoc, drop_app_length' by (by rewrite !length_app, Hf, Hp). by rewrite bool_decide_true.
Qed.

(** The incoming side of a handshake that succeeds: after padding words the
    proxy's nonce in clear, then, decrypted, its handshake, then [rest]. *)
Definition handshakeWire (s : source) (req : nonceRequest) (respNonce : list byte) (dec : blockMode) (rest : list byte) : Prop :=
  exists ts k s1 flags pid k1,
    length ts = 4%nat /\ length respNonce = 16%nat /\ length flags = 4%nat /\ length pid = 12%nat /\
    avail s = List.concat (replicate k framePadding) ++ packetBody seqNoNonce (nonceAnswer req ts respNonce) ++ s1 /\
    avail (cbc_view (mkCBC (mkSocket (mkSource s1 (fin s)) [] None) dec dec [])) =
      List.concat (replicate k1 framePadding) ++ packetBody seqNoHandshake (handshakeAnswer flags pid) ++ rest.

Lemma length_keySelector secret rnd now req : newNonceRequest secret rnd now = Ok req -> length (keySelector req) = 4%nat.
Proof. unfold newNonceRequest. destruct rnd; [|done]. intros [= <-]. cbn [keySelector]. by rewrite length_copy_at. Qed.

Lemma nonceAnswer_sendable req ts respNonce :
  length (keySelector req) = 4%nat -> length ts = 4%nat -> length respNonce = 16%nat -> sendable (nonceAnswer req ts respNonce).
Proof. intros Hk Ht Hn. unfold sendable, nonceAnswer. rewrite !length_app, Hk, Ht, Hn. done. Qed.

Lemma handshakeAnswer_sendable flags pid : length flags = 4%nat -> length pid = 12%nat -> sendable (handshakeAnswer flags pid).
Proof. intros Hf Hp. unfold sendable, handshakeAnswer. rewrite !length_app, Hf, Hp. done. Qed.

(** The frame after the handshake: both sequence numbers restart at zero. *)
Record handshaken (conn : socket) (req : nonceRequest) (enc : blockMode) (rest : list byte) (f : frameConn cbcConn) : Prop := {
  hs_read : readSeqNo f = 0;
  hs_write : writeSeqNo f = 0;
  hs_rest : avail (rw_view (f_raw f)) = rest;
  hs_enc : cbc_enc (f_raw f) = (cbc_wire enc (packetBytes seqNoHandshake handshakeRequestBytes)).2;
  hs_out : s_out (cbc_raw (f_raw f)) = s_out conn ++ packetBytes seqNoNonce (nonceRequest_bytes req) ++
             (cbc_wire enc (packetBytes seqNoHandshake handshakeRequestBytes)).1 }.

(** The exchange after the request was sent: the nonce answer, then, with the
    derived ciphers, the handshake. *)
Lemma handshake_steps conn secret local remote rnd now req :
  s_werr conn = None -> newNonceRequest secret rnd now = Ok req ->
  let conn1 := mkSocket (s_in conn) (s_out conn ++ packetBytes seqNoNonce (nonceRequest_bytes req)) None in
  doHandshake conn secret local remote rnd now =
  match readPacket (mkFrame conn1 seqNoNonce seqNoHandshake) with
  | (Fail e, f) => (Fail (Wrap "cannot read nonce response" e), f_raw f)
  | (Ok respBytes, f) =>
      match parseNonceResponse respBytes req with
      | Fail e => (Fail e, f_raw f)
      | Ok respNonce =>
          match writePacket handshakeRequestBytes (mkFrame (newCBCConn (f_raw f) (deriveCiphers req respNonce local remote secret).1
                  (deriveCiphers req respNonce local remote secret).2) seqNoHandshake seqNoHandshake) with
          | (Some e, f) => (Fail (Wrap "cannot send handshake request" e), cbc_raw (f_raw f))
          | (None, f) =>
              match readPacket f with
              | (Fail e, f) => (Fail (Wrap "cannot read handshake response" e), cbc_raw (f_raw f))
              | (Ok hsBytes, f) =>
                  match validateHandshakeResponse hsBytes with
                  | Some e => (Fail e, cbc_raw (f_raw f))
                  | None => (Ok f, cbc_raw (f_raw f))
                  end
              end
          end
      end
  end.
Proof.
  intros Hw Hr conn1. unfold doHandshake. rewrite Hr. unfold writePacket at 1. cbn [newFrameConn f_raw writeSeqNo readSeqNo rw_write socket_rw].
  unfold s_write. rewrite Hw. fold conn1. change (swrap 32 (seqNoNonce + 1)) with seqNoHandshake.
  destruct (readPacket _) as [[b|e] f]; [|done]. destruct (parseNonceResponse b req); [|done].
  by destruct (deriveCiphers _ _ _ _ _).
Qed.

(** C20: the RPC handshake with a middle proxy.  With a connection that can be
    written to, [doHandshake] succeeds if and only if the middle proxy answers
    the nonce request with a nonce packet that repeats the key selector and the
    AES marker, and then, encrypted with the server keys derived from both
    nonces, addresses and the secret, with a handshake packet carrying our
    process id.  On success exactly the nonce request and the encrypted
    handshake were sent, whatever follows the answer is still to be read, and
    the sequence numbers of both directions are zero. *)
Theorem middle_handshake conn secret local remote rnd now req :
  s_werr conn = None -> newNonceRequest secret rnd now = Ok req ->
  (forall respNonce rest,
     handshakeWire (s_in conn) req respNonce (deriveCiphers req respNonce local remote secret).2 rest ->
     exists f s, doHandshake conn secret local remote rnd now = (Ok f, s) /\
       handshaken conn req (deriveCiphers req respNonce local remote secret).1 rest f) /\
  (forall f s, doHandshake conn secret local remote rnd now = (Ok f, s) ->
     exists respNonce, handshakeWire (s_in conn) req respNonce (deriveCiphers req respNonce local remote secret).2
       (avail (rw_view (f_raw f)))).
Proof.
  intros Hw Hr. pose proof (length_keySelector _ _ _ _ Hr) as Hk. rewrite (handshake_steps _ _ _ _ _ _ _ Hw Hr).
  set (conn1 := mkSocket (s_in conn) _ None). assert (rw_wf conn1) as Hw1 by exact I. split.
  - intros respNonce rest (ts & k & s1 & flags & pid & k1 & Lt & Ln & Lf & Lp & Ha & Hv).
    destruct (length_keys purposeServer req respNonce local remote secret) as [_ Hiv].
    destruct (readPacket_complete conn1 seqNoNonce seqNoHandshake _ k s1 Hw1 ltac:(unfold seqNoNonce; lia) (nonceAnswer_sendable req ts respNonce Hk Lt Ln) Ha)
      as (c2 & E2 & _ & Hs2).
    pose proof (readPacket_socket (mkFrame conn1 seqNoNonce seqNoHandshake)) as [Ho2 Hwe2]. rewrite E2 in Ho2, Hwe2 |- *.
    cbn [f_raw snd] in *. rewrite (proj2 (parseNonceResponse_ok _ req respNonce Hk)) by eauto.
    set (enc := (deriveCiphers req respNonce local remote secret).1) in *.
    set (dec := (deriveCiphers req respNonce local remote secret).2) in *.
    assert (length (bm_iv dec) = BlockSize) as Hivd by exact Hiv. clearbody enc dec.
    rewrite writePacket_cbc by done. cbn [newCBCConn cbc_raw cbc_enc cbc_dec cbc_buf s_in s_out].
    set (c3 := mkCBC _ _ dec []). set (seq3 := swrap 32 (seqNoHandshake + 1)).
    assert (rw_wf c3) as Hw3 by exact Hivd.
    destruct (readPacket_complete c3 seqNoHandshake seq3 _ k1 rest Hw3 ltac:(unfold seqNoHandshake; lia) (handshakeAnswer_sendable flags pid Lf Lp))
      as (c4 & E4 & _ & Hv4).
    { rewrite <-Hv. unfold c3. cbn [rw_view cbc_rw]. unfold cbc_view. cbn [cbc_raw cbc_dec cbc_buf s_in avail].
      change (s_in c2) with (rw_view c2). by rewrite Hs2. }
    pose proof (readPacket_cbc (mkFrame c3 seqNoHandshake seq3)) as [He4 Ho4]. rewrite E4 in He4, Ho4 |- *. cbn [snd f_raw] in He4, Ho4.
    rewrite (proj2 (validateHandshakeResponse_ok _)) by eauto. do 2 eexists. split; [done|].
    split; cbn [f_raw readSeqNo writeSeqNo]; [done|done|by rewrite Hv4|done|]. rewrite Ho4. cbn [c3 cbc_raw s_out].
    rewrite Ho2. cbn [conn1 s_out]. by rewrite <-app_assoc.
  - intros f s. destruct (readPacket (mkFrame conn1 seqNoNonce seqNoHandshake)) as [[b|e] f2] eqn:E2; [|done].
    destruct (parseNonceResponse b req) as [respNonce|e] eqn:Ep; [|done].
    apply parseNonceResponse_ok in Ep as (ts & -> & Lt & Ln); [|done].
    destruct (readPacket_sound _ _ _ _ _ Hw1 E2) as (_ & _ & k & Ha).
    pose proof (readPacket_socket (mkFrame conn1 seqNoNonce seqNoHandshake)) as [_ Hwe2]. rewrite E2 in Hwe2. cbn [snd f_raw s_werr conn1] in Hwe2.
    destruct (length_keys purposeServer req respNonce local remote secret) as [_ Hiv].
    rewrite writePacket_cbc by done. cbn [newCBCConn cbc_raw cbc_enc cbc_dec cbc_buf s_in s_out].
    set (c3 := mkCBC _ _ _ []). assert (rw_wf c3) as Hw3 by exact Hiv.
    destruct (readPacket (mkFrame c3 _ _)) as [[hb|e] f4] eqn:E4; [|done].
    destruct (validateHandshakeResponse hb) eqn:Eh; [done|]. intros [= <- <-].
    apply validateHandshakeResponse_ok in Eh as (flags & pid & -> & Lf & Lp).
    destruct (readPacket_sound _ _ _ _ _ Hw3 E4) as (_ & _ & k1 & Hv).
    exists respNonce, ts, k, (avail (s_in (f_raw f2))), flags, pid, k1. split_and!; done.
Qed.
End HandshakeProofs.

(** ** Proofs: the manager *)

(** The address table of a configuration: per number, the addresses of its
    lines in order. *)
Lemma fold_addMiddle lines table dc :
  default [] (fold_left addMiddle lines table !! dc) =
  default [] (table !! dc) ++ omap (fun l => '(d, a) ← middleLine l; if bool_decide (d = dc) then Some a else None) lines.
Proof.
  revert table. induction lines as [|l lines IH]; intros table; cbn [fold_left]; [by rewrite app_nil_r|].
  rewrite IH. cbn [omap list_omap]. unfold addMiddle. destruct (middleLine l) as [[d a]|]; cbn; [|done].
  case_bool_decide as Hd; [subst; rewrite lookup_insert_eq; cbn; by rewrite <-app_assoc|by rewrite lookup_insert_ne].
Qed.

Lemma parseMiddleConfig_lookup data table dc :
  parseMiddleConfig data = Ok table ->
  default [] (table !! dc) =
  omap (fun l => '(d, a) ← middleLine l; if bool_decide (d = dc) then Some a else None)
    (scan_lines (lines_loop "" (string_of_bytes data))).1.
Proof.
  unfold parseMiddleConfig. destruct (scan_lines _) as [lines []]; [done|]. intros [= <-]. rewrite fold_addMiddle. done.
Qed.

Example parseMiddleConfig_ex :
  default [] ((match parseMiddleConfig (list_byte_of_string
    "# force_probability 10
default 2;
proxy_for 1 149.154.175.50:8888;
proxy_for -1 149.154.175.50:8888;
proxy_for 4 91.108.4.166:8888;
proxy_for 4 nowhere;
proxy_for 4 [2001::1]:443;
") with Ok t => t | Fail _ => ∅ end) !! 4) = ["91.108.4.166:8888"; "[2001::1]:443"].
Proof. vm_compute. reflexivity. Qed.

(** The manager is ready only with a secret and an address, and stays as it was
    when a fetch fails. *)
Definition manager_ok (m : Manager) : Prop :=
  ready m = true -> mg_secret m <> [] /\ (middleV4 m <> ∅ \/ middleV6 m <> ∅).

Lemma fetch_ok m h : manager_ok m -> manager_ok (fetch m h).2 /\ ((fetch m h).1 <> None -> (fetch m h).2 = m).
Proof.
  intros Hm. unfold fetch. destruct (fetchBytes (h_secret h)) as [secret|e]; [|done].
  destruct (fetchConfig (h_v4 h)) as [v4|e]; [|done]. split; [|done].
  unfold manager_ok. cbn [snd ready mg_secret middleV4 middleV6]. intros [Hs Ht]%andb_true_iff. split.
  - intros ->. done.
  - apply orb_true_iff in Ht as [Ht|Ht]; [left|right]; intros Hz; rewrite Hz in Ht; by rewrite map_size_empty in Ht.
Qed.

Lemma elem_of_appendFamily a dc table network :
  a ∈ appendFamily dc table network <->
  ma_network a = network /\ (ma_addr a ∈ default [] (table !! dc) \/ ma_addr a ∈ default [] (table !! (- dc))).
Proof.
  unfold appendFamily. cbn [map List.concat]. rewrite app_nil_r, elem_of_app.
  assert (forall l, a ∈ map (mkMA network) l <-> ma_network a = network /\ ma_addr a ∈ l) as Hl.
  { intros l. rewrite (list_elem_of_fmap (mkMA network)). destruct a. cbn. naive_solver. }
  rewrite !Hl. naive_solver.
Qed.

Lemma elem_of_orderedAddresses m dc a :
  a ∈ orderedAddresses m dc <->
  exists table, (ma_addr a ∈ default [] (table !! dc) \/ ma_addr a ∈ default [] (table !! (- dc))) /\
    (ma_network a = "tcp4" /\ table = middleV4 m /\ mg_preferIP m <> "only-ipv6" \/
     ma_network a = "tcp6" /\ table = middleV6 m /\ mg_preferIP m <> "only-ipv4").
Proof.
  assert (a ∈ orderedAddresses m dc <->
    a ∈ (if bool_decide (mg_preferIP m = "only-ipv6") then [] else appendFamily dc (middleV4 m) "tcp4") \/
    a ∈ (if bool_decide (mg_preferIP m = "only-ipv4") then [] else appendFamily dc (middleV6 m) "tcp6")) as ->.
  { unfold orderedAddresses. destruct (Contains _ _); rewrite elem_of_app; tauto. }
  split.
  - intros [Ha|Ha]; case_bool_decide; try (by apply not_elem_of_nil in Ha); apply elem_of_appendFamily in Ha as [? ?]; eauto 10.
  - intros (table & Ht & [(Hn & -> & Hp)|(Hn & -> & Hp)]); [left|right]; rewrite bool_decide_false by done; by apply elem_of_appendFamily.
Qed.

Section DialProofs.
Context `{BlockCipher, Digests}.

(** An attempt after which the next address is tried. *)
Definition tryNext (r : attempt) : Prop :=
  match r with NotDialled _ | HandshakeFailed _ => True | NoConnID _ | Streaming _ _ => False end.

Lemma dialMiddle_spec env params secret addrs i lastErr :
  match dialMiddle env params secret i lastErr addrs with
  | (r, opened, closed) =>
      match r with
      | Ok (s, ip) => opened = S closed /\
          exists pre a post, addrs = pre ++ a :: post /\ dialOne env params secret (i + length pre) a = Streaming s ip /\
            forall j b, pre !! j = Some b -> tryNext (dialOne env params secret (i + j) b)
      | Fail _ => opened = closed /\
          ((forall j b, addrs !! j = Some b -> tryNext (dialOne env params secret (i + j) b)) \/
           exists j b e, addrs !! j = Some b /\ dialOne env params secret (i + j) b = NoConnID e)
      end
  end.
Proof.
  revert i lastErr. induction addrs as [|a addrs IH]; intros i lastErr; cbn [dialMiddle]; [split; [done|by left]|].
  assert (forall r lastErr', dialOne env params secret i a = r -> tryNext r ->
    match dialMiddle env params secret (S i) lastErr' addrs with
    | (r, opened, closed) =>
        match r with
        | Ok (s, ip) => opened = S closed /\
            exists pre b post, a :: addrs = pre ++ b :: post /\ dialOne env params secret (i + length pre) b = Streaming s ip /\
              forall j b, pre !! j = Some b -> tryNext (dialOne env params secret (i + j) b)
        | Fail _ => opened = closed /\
            ((forall j b, (a :: addrs) !! j = Some b -> tryNext (dialOne env params secret (i + j) b)) \/
             exists j b e, (a :: addrs) !! j = Some b /\ dialOne env params secret (i + j) b = NoConnID e)
        end
    end) as Hstep.
  { intros r lastErr' Hr Ht. specialize (IH (S i) lastErr').
    destruct (dialMiddle env params secret (S i) lastErr' addrs) as [[[[s ip]|e] opened] closed].
    - destruct IH as (Ho & pre & b & post & -> & Hb & Hpre). split; [done|]. exists (a :: pre), b, post. split_and!; [done| |].
      + cbn [length]. by rewrite Nat.add_succ_r.
      + intros [|j] c Hc; cbn in Hc; [simplify_eq; by rewrite Nat.add_0_r|]. rewrite Nat.add_succ_r. by apply (Hpre j).
    - destruct IH as (Ho & [Hall|(j & b & e' & Hj & Hb)]); (split; [done|]).
      + left. intros [|j] c Hc; cbn in Hc; [simplify_eq; by rewrite Nat.add_0_r|]. rewrite Nat.add_succ_r. by apply (Hall j).
      + right. exists (S j), b, e'. rewrite Nat.add_succ_r. done. }
  destruct (dialOne env params secret i a) as [e|e|e|s ip] eqn:E.
  - by apply (Hstep (NotDialled e)).
  - pose proof (Hstep (HandshakeFailed e) (Some e) eq_refl I) as Hs.
    destruct (dialMiddle env params secret (S i) (Some e) addrs) as [[[[s ip]|e'] opened] closed]; destruct Hs as [-> Hs]; done.
  - split; [done|]. right. exists 0%nat, a, e. by rewrite Nat.add_0_r.
  - split; [done|]. exists [], a, addrs. by rewrite Nat.add_0_r.
Qed.

(** Choosing a middle proxy.  A stream comes from the first of the listed
    addresses (those of the number and of its negation, in the families the
    preference allows) whose dial and handshake succeed, all earlier ones having
    failed; every connection that was opened and is not that stream has been
    closed, and when there is no stream every opened connection has been
    closed. *)
Theorem middle_dial m h env params r opened closed m' :
  DialProxyStream m h env params = (r, opened, closed, m') ->
  m' = (ensureReady m h).2 /\
  match r with
  | Ok (s, ip) => opened = S closed /\
      exists pre a post table, orderedAddresses m' (dp_DC params) = pre ++ a :: post /\
        (ma_addr a ∈ default [] (table !! dp_DC params) \/ ma_addr a ∈ default [] (table !! (- dp_DC params))) /\
        (ma_network a = "tcp4" /\ table = middleV4 m' /\ mg_preferIP m' <> "only-ipv6" \/
         ma_network a = "tcp6" /\ table = middleV6 m' /\ mg_preferIP m' <> "only-ipv4") /\
        dialOne env params (mg_secret m') (length pre) a = Streaming s ip /\
        forall j b, pre !! j = Some b -> tryNext (dialOne env params (mg_secret m') j b)
  | Fail _ => opened = closed
  end.
Proof.
  unfold DialProxyStream. destruct (ensureReady m h) as [[e|] m1]; [intros; by simplify_eq|].
  case_match; [intros; by simplify_eq|]. case_match; [intros; by simplify_eq|].
  pose proof (dialMiddle_spec env params (mg_secret m1) (orderedAddresses m1 (dp_DC params)) 0 None) as Hs.
  destruct (dialMiddle _ _ _ _ _ _) as [[r1 o1] c1]. intros E. simplify_eq. split; [done|].
  destruct r as [[s ip]|e]; [|by destruct Hs]. destruct Hs as (Ho & pre & a & post & Ha & Hd & Hpre). split; [done|].
  assert (a ∈ orderedAddresses m' (dp_DC params)) as (table & Ht & Hn)%elem_of_orderedAddresses by (rewrite Ha; set_solver).
  exists pre, a, post, table. split_and!; done.
Qed.
End DialProofs.

(** ** Examples *)

#[local] Existing Instance demo_cipher.
#[local] Existing Instance demo_cipher_laws.

#[local] Instance demo_digests : Digests := {
  md5 l := take 16 (reverse l ++ replicate 16 Byte.x00);
  sha1 l := take 20 (l ++ replicate 20 Byte.x00)
}.

#[local] Program Instance demo_digests_laws : DigestsLaws.
Next Obligation. intros l. cbn [md5 demo_digests]. rewrite length_take, length_app, length_replicate. lia. Qed.
Next Obligation. intros l. cbn [sha1 demo_digests]. rewrite length_take, length_app, length_replicate. lia. Qed.

Definition demo_secret : list byte := replicate 128 Byte.x55.
Definition demo_local : tcpAddr := mkTCP [Byte.x0a; Byte.x00; Byte.x00; Byte.x01] 40000.
Definition demo_remote : tcpAddr := mkTCP [Byte.x95; Byte.x9a; Byte.xaf; Byte.x32] 8888.
Definition demo_req : nonceRequest := mkNonce (replicate 4 Byte.x55) (le_split 4 1700000000) (replicate 16 Byte.x11).
Definition demo_respNonce : list byte := replicate 16 Byte.x22.

(** The bytes of a middle proxy that accepts [demo_req]. *)
Definition demo_answers : list byte :=
  packetBody seqNoNonce (nonceAnswer demo_req (replicate 4 Byte.x00) demo_respNonce) ++
  (cbc_wire (deriveCiphers demo_req demo_respNonce demo_local demo_remote demo_secret).2
     (packetBytes seqNoHandshake (handshakeAnswer handshakeFlags (replicate 12 Byte.x33)))).1.

Definition demo_conn : socket := mkSocket (buffer demo_answers) [] None.

Lemma middle_handshake_witness :
  exists f s, doHandshake demo_conn demo_secret demo_local demo_remote (Ok (replicate 16 Byte.x11)) 1700000000 = (Ok f, s) /\
    readSeqNo f = 0 /\ writeSeqNo f = 0.
Proof.
  destruct (middle_handshake demo_conn demo_secret demo_local demo_remote (Ok (replicate 16 Byte.x11)) 1700000000 demo_req eq_refl)
    as [Hs _]; [vm_compute; reflexivity|].
  destruct (Hs demo_respNonce framePadding) as (f & s & Hf & Hh).
  - exists (replicate 4 Byte.x00), 0%nat,
      (cbc_wire (deriveCiphers demo_req demo_respNonce demo_local demo_remote demo_secret).2
         (packetBytes seqNoHandshake (handshakeAnswer handshakeFlags (replicate 12 Byte.x33)))).1,
      handshakeFlags, (replicate 12 Byte.x33), 0%nat. split_and!; vm_compute; reflexivity.
  - exists f, s. split_and!; [exact Hf|apply Hh|apply Hh].
Defined.

Definition demo_manager : Manager :=
  mkManager "prefer-ipv4" true demo_secret {[ -2 := ["149.154.161.144:8888"]; 2 := ["149.154.162.39:80"] ]} ∅ true.

Definition demo_env : dialEnv := {|
  de_dial i a := Ok (if (i =? 0)%nat then mkSocket (buffer []) [] None else demo_conn, demo_local, demo_remote);
  de_nonce i := Ok (replicate 16 Byte.x11);
  de_now i := 1700000000;
  de_connID i := Ok (replicate 8 Byte.x01) |}.

Lemma middle_dial_witness :
  exists r opened closed m', DialProxyStream demo_manager (mkFetches (Fail EOF) (Fail EOF) (Fail EOF)) demo_env
    (mkParams (-2) None [] [] 443 (replicate 16 Byte.x02)) = (r, opened, closed, m') /\
    is_ok r = true /\ opened = 2%nat /\ closed = 1%nat /\ m' = demo_manager.
Proof.
  set (x := DialProxyStream demo_manager _ demo_env _).
  assert ((is_ok x.1.1.1, x.1.1.2, x.1.2) = (true, 2%nat, 1%nat)) as Hx by (vm_compute; reflexivity).
  destruct x as [[[r opened] closed] m'] eqn:E. destruct (middle_dial _ _ _ _ _ _ _ _ E) as [Hm _].
  exists r, opened, closed, m'. injection Hx as H1 H2 H3.
  exact (conj eq_refl (conj H1 (conj H2 (conj H3 Hm)))).
Defined.
