(* ===== verification/MiddleShared.v ===== *)
(** * The middle-proxy manager under concurrent use: mtglib/internal/middleproxy/manager.go

    One manager serves every stream with a tag.  [Warm] starts a fetch at
    start-up, each stream runs [ensureReady] and then reads the secret and the
    addresses under separate locks, and the refresh loop replaces both once an
    hour.  [MiddleProxy] models each operation alone; here they interleave.  A
    [fetch] holds [fetchMu] and publishes its result under [mu] at once, so it is
    one step, as is each read. *)

From S2P Require Import Prelude GoStrings Frame MiddleStream MiddleProxy.
From Stdlib Require Import String.
Open Scope string_scope.
Open Scope list_scope.
Open Scope nat_scope.

(** ** Threads *)

(** Where a goroutine stands: [Ready] of [ensureReady], its [fetch], its
    [startRefresh]; then, for a stream, the two reads and the dial loop. *)
Inductive point :=
  | AtReady
  | AtFetch
  | AtStart
  | AtSecret
  | AtAddresses (secret : list byte)
  | AtDial (secret : list byte) (addresses : list middleAddress)
  | Done (err : option goerr).

(** [Warm], or [DialProxyStream] for a data centre. *)
Inductive job := Warm | Dial (dc : Z).

Record thread := mkThread { th_job : job; th_point : point }.

(** [published] are the managers after each successful fetch, the last one
    first; [loops] is the number of refresh goroutines. *)
Record shared := mkShared {
  sh_manager : Manager;
  published : list Manager;
  loops : nat;
  threads : gmap nat thread
}.

Definition shared_New (preferIP : string) : shared := mkShared (NewManager preferIP) [] 0 ∅.

(** A fetch by anyone: its error, and the manager and the list of published
    ones afterwards. *)
Definition do_fetch (h : fetches) (s : shared) : option goerr * shared :=
  match fetch (sh_manager s) h with
  | (None, m) => (None, mkShared m (m :: published s) (loops s) (threads s))
  | (Some e, m) => (Some e, mkShared m (published s) (loops s) (threads s))
  end.

(** [refreshOnce]: only the first call starts the goroutine. *)
Definition do_startRefresh (s : shared) : shared :=
  mkShared (startRefresh (sh_manager s)) (published s) (if refreshing (sh_manager s) then loops s else S (loops s)) (threads s).

Definition set_thread (id : nat) (t : thread) (s : shared) : shared :=
  mkShared (sh_manager s) (published s) (loops s) (<[id := t]> (threads s)).

(** After [ensureReady]: [Warm] is over, a stream reads on. *)
Definition after_ensure (j : job) : point := match j with Warm => Done None | Dial _ => AtSecret end.

(** The next step of a goroutine; [h] is what the servers answer, if it fetches.
    The dial loop, which needs nothing of the manager, is [MiddleProxy]'s. *)
Definition thread_step (h : fetches) (t : thread) (s : shared) : option (point * shared) :=
  match th_point t with
  | AtReady => Some (if ready (sh_manager s) then after_ensure (th_job t) else AtFetch, s)
  | AtFetch =>
      match do_fetch h s with
      | (Some e, s) => Some (Done (Some e), s)
      | (None, s) => Some (AtStart, s)
      end
  | AtStart => Some (after_ensure (th_job t), do_startRefresh s)
  | AtSecret =>
      let secret := mg_secret (sh_manager s) in
      Some (if List.length secret =? 0 then Done (Some (Errorf "middle-proxy secret is not available")) else AtAddresses secret, s)
  | AtAddresses secret =>
      match th_job t with
      | Warm => None
      | Dial dc =>
          let addresses := orderedAddresses (sh_manager s) dc in
          Some (if List.length addresses =? 0 then Done (Some (Errorf "no middle proxy address for dc")) else AtDial secret addresses, s)
      end
  | AtDial _ _ | Done _ => None
  end.

Inductive shared_act := Spawn (id : nat) (j : job) | Run (id : nat) (h : fetches) | Tick (h : fetches).

Definition shared_do (a : shared_act) (s : shared) : option shared :=
  match a with
  | Spawn id j =>
      match threads s !! id with
      | Some _ => None
      | None => Some (set_thread id (mkThread j AtReady) s)
      end
  | Run id h =>
      t ← threads s !! id;
      '(p, s) ← thread_step h t s;
      Some (set_thread id (mkThread (th_job t) p) s)
  | Tick h => if loops s =? 0 then None else Some (do_fetch h s).2
  end.

Definition shared_step (s s' : shared) : Prop := exists a, shared_do a s = Some s'.

Definition shared_reach (preferIP : string) (s : shared) : Prop := rtc shared_step (shared_New preferIP) s.

Fixpoint shared_run (l : list shared_act) (s : shared) : option shared :=
  match l with [] => Some s | a :: l => s ← shared_do a s; shared_run l s end.

(** ** The invariant *)

(** Addresses come from a fetch that is not older than the secret's. *)
Definition from_published (p : list Manager) (secret : list byte) (addresses : list middleAddress) (dc : Z) : Prop :=
  exists i j mi mj, p !! i = Some mi /\ p !! j = Some mj /\ j <= i /\ mg_secret mi = secret /\ orderedAddresses mj dc = addresses.

Definition thread_ok (p : list Manager) (t : thread) : Prop :=
  match th_point t with
  | AtAddresses secret => secret <> [] /\ exists m, m ∈ p /\ mg_secret m = secret
  | AtDial secret addresses => secret <> [] /\ addresses <> [] /\
      match th_job t with Warm => False | Dial dc => from_published p secret addresses dc end
  | AtStart | AtSecret => p <> []
  | _ => True
  end.

(** The data of a manager, without the flag of the refresh goroutine. *)
Definition same_data (m m' : Manager) : Prop :=
  mg_preferIP m = mg_preferIP m' /\ ready m = ready m' /\ mg_secret m = mg_secret m' /\
  middleV4 m = middleV4 m' /\ middleV6 m = middleV6 m'.

Record shared_inv (preferIP : string) (s : shared) : Prop := {
  si_ok : manager_ok (sh_manager s);
  si_data : same_data (sh_manager s) (default (NewManager preferIP) (head (published s)));
  si_loops : loops s = if refreshing (sh_manager s) then 1 else 0;
  si_refresh : published s <> [] -> loops s = 1 \/ exists id t, threads s !! id = Some t /\ th_point t = AtStart;
  si_threads : map_Forall (fun _ t => thread_ok (published s) t) (threads s)
}.

(** ** Proofs *)

Lemma same_data_refl m : same_data m m.
Proof. by split_and!. Qed.

Lemma same_data_addresses m m' dc : same_data m m' -> orderedAddresses m dc = orderedAddresses m' dc.
Proof. intros (H1 & _ & _ & H4 & H5). unfold orderedAddresses. by rewrite H1, H4, H5. Qed.

(** Publishing more keeps what a goroutine has read. *)
Lemma thread_ok_publish p m t : thread_ok p t -> thread_ok (m :: p) t.
Proof.
  unfold thread_ok. destruct (th_point t) as [| | | |secret|secret l|]; try done.
  - intros (Hs & m' & Hm & <-). split; [done|]. exists m'. split; [by right|done].
  - intros (Hs & Hl & Hj). split_and!; [done..|]. destruct (th_job t) as [|dc]; [done|].
    destruct Hj as (i & j & mi & mj & Hi & Hj & Hle & H1 & H2). exists (S i), (S j), mi, mj. split_and!; try done. lia.
Qed.

Lemma do_fetch_inv pr h s : shared_inv pr s ->
  let r := do_fetch h s in
  manager_ok (sh_manager r.2) /\ same_data (sh_manager r.2) (default (NewManager pr) (head (published r.2))) /\
  loops r.2 = loops s /\ refreshing (sh_manager r.2) = refreshing (sh_manager s) /\ threads r.2 = threads s /\
  map_Forall (fun _ t => thread_ok (published r.2) t) (threads s) /\
  match r.1 with None => published r.2 <> [] | Some _ => published r.2 = published s end.
Proof.
  intros [Hok Hd Hl Hr Ht]. unfold do_fetch. destruct (fetch_ok (sh_manager s) h Hok) as [Hok' Hsame].
  assert (refreshing (fetch (sh_manager s) h).2 = refreshing (sh_manager s)) as Href.
  { unfold fetch. by repeat case_match. }
  destruct (fetch (sh_manager s) h) as [[e|] m]; cbn [fst snd sh_manager published loops threads head default] in *.
  - rewrite (Hsame ltac:(done)). by split_and!.
  - split_and!; [done|apply same_data_refl|done..| |done].
    intros id t Hid. apply thread_ok_publish. by apply (Ht id).
Qed.

(** A goroutine that has moved: it must be the one that starts the refresh, or
    have started it, or not have been about to. *)
Lemma set_thread_inv pr id old t s :
  manager_ok (sh_manager s) -> same_data (sh_manager s) (default (NewManager pr) (head (published s))) ->
  loops s = (if refreshing (sh_manager s) then 1 else 0) ->
  map_Forall (fun _ t => thread_ok (published s) t) (threads s) ->
  (published s <> [] -> loops s = 1 \/ th_point t = AtStart \/
     old <> AtStart /\ exists id t, threads s !! id = Some t /\ th_point t = AtStart) ->
  match threads s !! id with Some t => th_point t = old | None => True end ->
  thread_ok (published s) t -> shared_inv pr (set_thread id t s).
Proof.
  intros Hok Hd Hl Ht Hr Hold Hnew. split; cbn [set_thread sh_manager published loops threads]; try done.
  - intros Hp. destruct (Hr Hp) as [?|[?|(Hne & id' & t' & Hid & Hs)]]; [by left|right..].
    + exists id, t. by rewrite lookup_insert_eq.
    + exists id', t'. rewrite lookup_insert_ne; [done|]. intros <-. rewrite Hid in Hold. congruence.
  - by apply map_Forall_insert_2.
Qed.

Lemma ready_published pr s : shared_inv pr s -> ready (sh_manager s) = true -> published s <> [].
Proof. intros [_ (_ & Hr & _) _ _ _] Hm Hp. by rewrite Hp, Hm in Hr. Qed.

Lemma after_ensure_ok p j : p <> [] -> thread_ok p (mkThread j (after_ensure j)).
Proof. by destruct j. Qed.

Lemma thread_step_inv pr h id t s p s' :
  shared_inv pr s -> threads s !! id = Some t -> thread_step h t s = Some (p, s') ->
  shared_inv pr (set_thread id (mkThread (th_job t) p) s').
Proof.
  intros Hinv Hid Hstep. pose proof Hinv as [Hok Hd Hl Hr Ht]. pose proof (Ht id t Hid) as Htok.
  assert (forall q, thread_ok (published s) (mkThread (th_job t) q) -> th_point t <> AtStart ->
    shared_inv pr (set_thread id (mkThread (th_job t) q) s)) as Hkeep.
  { intros q Hq Hne. apply (set_thread_inv pr id (th_point t)); try done; [|by rewrite Hid].
    intros Hp. destruct (Hr Hp) as [?|?]; [by left|right; right; done]. }
  unfold thread_step in Hstep. unfold thread_ok in Htok. destruct (th_point t) as [| | | |secret|secret l|e] eqn:Hpt; simplify_eq/=.
  - apply Hkeep; [|done]. destruct (ready _) eqn:Hrd; [|done]. apply after_ensure_ok. by apply (ready_published pr).
  - destruct (do_fetch_inv pr h s Hinv) as (H1 & H2 & H3 & H4 & H5 & H6 & H7).
    destruct (do_fetch h s) as [[e|] s1]; simplify_eq; cbn [fst snd] in *.
    + apply (set_thread_inv pr id AtFetch); rewrite ?H3, ?H4, ?H5, ?Hid; try done.
      rewrite H7. intros Hp. destruct (Hr Hp) as [?|?]; [by left|right; right; done].
    + apply (set_thread_inv pr id AtFetch); rewrite ?H3, ?H4, ?H5, ?Hid; try done. intros _. right. by left.
  - apply (set_thread_inv pr id AtStart); cbn [do_startRefresh sh_manager published loops threads startRefresh ready mg_secret middleV4 middleV6 refreshing]; try done.
    + by destruct (refreshing (sh_manager s)); rewrite Hl.
    + left. by destruct (refreshing (sh_manager s)); rewrite Hl.
    + by rewrite Hid.
    + by apply after_ensure_ok.
  - apply Hkeep; [|done]. destruct (List.length _ =? 0) eqn:Hlen; [done|]. apply Nat.eqb_neq in Hlen. unfold thread_ok. cbn [th_point].
    split; [by intros Hz; rewrite Hz in Hlen|]. destruct (published s') as [|m ms]; [done|]. exists m. split; [by left|].
    by destruct Hd as (_ & _ & -> & _).
  - destruct (th_job t) as [|dc] eqn:Hj; simplify_eq. apply Hkeep; [|done].
    destruct (List.length _ =? 0) eqn:Hlen; [done|]. apply Nat.eqb_neq in Hlen. destruct Htok as (Hs & m & Hm & <-).
    unfold thread_ok. cbn [th_point th_job]. split_and!; [done|by intros Hz; rewrite Hz in Hlen|].
    apply list_elem_of_lookup in Hm as [i Hi]. destruct (published s') as [|m0 ms]; [done|].
    exists i, 0, m, m0. split_and!; [done..|lia|done|]. symmetry. by apply same_data_addresses.
Qed.

Lemma shared_inv_step pr s s' : shared_inv pr s -> shared_step s s' -> shared_inv pr s'.
Proof.
  intros Hinv [[id j|id h|h] Hdo]; cbn [shared_do] in Hdo.
  - destruct (threads s !! id) eqn:Hid; simplify_eq. pose proof Hinv as [Hok Hd Hl Hr Ht].
    apply (set_thread_inv pr id AtReady); rewrite ?Hid; try done.
    intros Hp. destruct (Hr Hp) as [?|?]; [by left|right; right; done].
  - destruct (threads s !! id) as [t|] eqn:Hid; [|done]. cbn in Hdo.
    destruct (thread_step h t s) as [[p s1]|] eqn:Hs; simplify_eq/=. by eapply thread_step_inv.
  - destruct (loops s =? 0) eqn:Hz; simplify_eq. apply Nat.eqb_neq in Hz. pose proof Hinv as [_ _ Hl _ _].
    destruct (do_fetch_inv pr h s Hinv) as (H1 & H2 & H3 & H4 & H5 & H6 & _).
    split; rewrite ?H3, ?H4, ?H5; try done. intros _. left. destruct (refreshing (sh_manager s)); lia.
Qed.

Lemma shared_inv_reach pr s : shared_reach pr s -> shared_inv pr s.
Proof.
  unfold shared_reach. intros Hr. remember (shared_New pr) as s0 eqn:E. assert (shared_inv pr s0) as H0.
  { subst. split; try done. }
  clear E. induction Hr; eauto using shared_inv_step.
Qed.

(** C22: in every interleaving of [Warm], of any number of streams that dial and of
    the hourly refresh: the manager is ready only with a secret and an address;
    at most one refresh loop is started, and after a first fetch it is running
    or a goroutine is about to start it; a stream begins to dial only with a
    secret and addresses that are not empty and that were published, the
    addresses by a fetch not older than the one of the secret. *)
Theorem manager_interleaved pr s :
  shared_reach pr s ->
  manager_ok (sh_manager s) /\ loops s <= 1 /\
  (published s <> [] -> loops s = 1 \/ exists id t, threads s !! id = Some t /\ th_point t = AtStart) /\
  forall id dc secret addresses, threads s !! id = Some (mkThread (Dial dc) (AtDial secret addresses)) ->
    secret <> [] /\ addresses <> [] /\ from_published (published s) secret addresses dc.
Proof.
  intros [Hok Hd Hl Hr Ht]%shared_inv_reach. split_and!; [done|rewrite Hl; case_match; lia|done|].
  intros id dc secret addresses Hid. exact (Ht id _ Hid).
Qed.

(** One more step of a goroutine. *)
Lemma run_S id h t s p s1 n s' :
  threads s !! id = Some t -> thread_step h t s = Some (p, s1) ->
  shared_run (replicate n (Run id h)) (set_thread id (mkThread (th_job t) p) s1) = Some s' ->
  shared_run (replicate (S n) (Run id h)) s = Some s'.
Proof. intros Hid Hs Hr. cbn [replicate shared_run shared_do mbind option_bind]. by rewrite Hid; cbn [mbind option_bind]; rewrite Hs. Qed.

Lemma thread_set id t s : threads (set_thread id t s) !! id = Some t.
Proof. apply lookup_insert_eq. Qed.

(** What a stream reads after [ensureReady]. *)
Definition reads (m : Manager) (dc : Z) : point :=
  if List.length (mg_secret m) =? 0 then Done (Some (Errorf "middle-proxy secret is not available"))
  else if List.length (orderedAddresses m dc) =? 0 then Done (Some (Errorf "no middle proxy address for dc"))
  else AtDial (mg_secret m) (orderedAddresses m dc).

Lemma reads_alone h id dc s :
  threads s !! id = Some (mkThread (Dial dc) AtSecret) ->
  exists n s', shared_run (replicate n (Run id h)) s = Some s' /\ sh_manager s' = sh_manager s /\
    threads s' !! id = Some (mkThread (Dial dc) (reads (sh_manager s) dc)).
Proof.
  intros H0. unfold reads. destruct (List.length (mg_secret (sh_manager s)) =? 0) eqn:E1.
  - exists 1. eexists. split_and!; [eapply run_S; [done| |done]; cbn [thread_step th_point]; by rewrite E1|done|apply thread_set].
  - exists 2. eexists. split_and!.
    + eapply run_S; [done|cbn [thread_step th_point]; by rewrite E1|]. eapply run_S; [apply thread_set|done|done].
    + done.
    + rewrite thread_set. done.
Qed.

(** A stream that is not disturbed reads what [DialProxyStream] dials with. *)
Theorem dial_alone h s id dc :
  threads s !! id = Some (mkThread (Dial dc) AtReady) ->
  let m := (ensureReady (sh_manager s) h).2 in
  exists n s', shared_run (replicate n (Run id h)) s = Some s' /\ sh_manager s' = m /\
    threads s' !! id = Some (mkThread (Dial dc)
      match (ensureReady (sh_manager s) h).1 with Some e => Done (Some e) | None => reads m dc end).
Proof.
  intros Hid. cbn zeta. unfold ensureReady. destruct (ready (sh_manager s)) eqn:Hrd; cbn [fst snd].
  - destruct (reads_alone h id dc (set_thread id (mkThread (Dial dc) AtSecret) s)) as (n & s' & H1 & H2 & H3); [apply thread_set|].
    exists (S n), s'. split_and!; [|done..]. eapply run_S; [done| |exact H1]. cbn [thread_step th_point]. by rewrite Hrd.
  - set (s1 := set_thread id (mkThread (Dial dc) AtFetch) s).
    assert (thread_step h (mkThread (Dial dc) AtReady) s = Some (AtFetch, s)) as Hstep by (cbn [thread_step th_point]; by rewrite Hrd).
    destruct (fetch (sh_manager s) h) as [[e|] m] eqn:Hf; cbn [fst snd].
    + exists 2. eexists. split_and!.
      * eapply run_S; [done..|]. eapply (run_S _ _ (mkThread (Dial dc) AtFetch)); [apply thread_set| |done].
        cbn [thread_step th_point]. unfold do_fetch. cbn [set_thread sh_manager]. by rewrite Hf.
      * done.
      * apply thread_set.
    + set (s2 := mkShared m (m :: published s) (loops s) (threads s1)). set (t2 := mkThread (Dial dc) AtStart).
      set (s3 := set_thread id (mkThread (Dial dc) AtSecret) (do_startRefresh (set_thread id t2 s2))).
      destruct (reads_alone h id dc s3) as (n & s' & H1 & H2 & H3); [apply thread_set|]. exists (S (S (S n))), s'.
      split_and!; [|done..]. eapply run_S; [done..|]. eapply (run_S _ _ (mkThread (Dial dc) AtFetch) s1 AtStart s2); [apply thread_set| |].
      * cbn [thread_step th_point]. unfold do_fetch. cbn [s1 set_thread sh_manager]. by rewrite Hf.
      * eapply run_S; [apply thread_set|done|exact H1].
Qed.

(** ** An example *)

Definition answers (secret : byte) (config : string) : fetches :=
  mkFetches (Ok (200%Z, Ok (replicate 16 secret))) (Ok (200%Z, Ok (list_byte_of_string config))) (Fail EOF).

Definition old_answers : fetches := answers Byte.x11 "proxy_for 2 10.0.0.1:8888;".
Definition new_answers : fetches := answers Byte.x22 "proxy_for 2 10.0.0.2:8888;".

(** A refresh between the two reads: the stream dials the new addresses with the
    old secret. *)
Definition refresh_between : list shared_act :=
  [Spawn 0 Warm; Spawn 1 (Dial 2); Run 0 old_answers; Run 0 old_answers; Run 1 new_answers; Run 0 old_answers;
   Run 1 new_answers; Tick new_answers; Run 1 new_answers].

Example secret_before_refresh :
  (fun s => th_point <$> threads s !! 1) <$> shared_run refresh_between (shared_New "prefer-ipv4") =
  Some (Some (AtDial (replicate 16 Byte.x11) [mkMA "tcp4" "10.0.0.2:8888"])).
Proof. vm_compute. reflexivity. Qed.

Lemma manager_interleaved_witness : exists s, shared_reach "prefer-ipv4" s /\ loops s = 1 /\
  from_published (published s) (replicate 16 Byte.x11) [mkMA "tcp4" "10.0.0.2:8888"] 2.
Proof.
  destruct (shared_run refresh_between (shared_New "prefer-ipv4")) as [s|] eqn:E; [|exfalso; revert E; vm_compute; congruence].
  assert (shared_reach "prefer-ipv4" s) as Hr.
  { unfold shared_reach. revert E. generalize (shared_New "prefer-ipv4"), refresh_between. intros s0 l. revert s0.
    induction l as [|a l IH]; intros s0; cbn [shared_run]; [intros [= ->]; apply rtc_refl|].
    destruct (shared_do a s0) as [s1|] eqn:Ha; [|done]. intros Hs. eapply rtc_l; [by exists a|by apply IH]. }
  exists s. destruct (manager_interleaved "prefer-ipv4" s Hr) as (_ & _ & _ & H).
  assert ((threads s !! 1, loops s) = (Some (mkThread (Dial 2) (AtDial (replicate 16 Byte.x11) [mkMA "tcp4" "10.0.0.2:8888"])), 1)) as Hs.
  { revert E. vm_compute. intros E. injection E as <-. reflexivity. }
  injection Hs as H1 H2. destruct (H 1 2%Z _ _ H1) as (_ & _ & Hf). exact (conj Hr (conj H2 Hf)).
Defined.
