(* ===== verification/Call.v ===== *)
(** * The call of a stream as a whole: [doTelegramCall], [doMiddleProxyCall] and
    [wrapTraffic] of mtglib/proxy.go, [Close] of mtglib/stream_context.go

    [DC] takes the outcome of the middle proxy as an input, [MiddleProxy] does
    not know for whom it dials.  Here the two are put together: what is dialled
    first, with whose tag and addresses, what happens to the connections when
    the middle proxy fails and the stream is sent to a data centre after all,
    and what closing the stream leaves open. *)

From S2P Require Import Prelude GoStrings GoNet Frame MiddleStream MiddleProxy DC.
From Stdlib Require Import String.
Open Scope string_scope.
Open Scope list_scope.
Open Scope Z_scope.

(** ** The state *)

(** A connection to Telegram: over a middle proxy, or the obfuscated one to an
    address of a data centre. *)
Inductive upstream :=
  | Middle (s : middleConn)
  | ToDC (addr : Addr) (dc : Z).

(** [Traffic]: inside a [connTraffic]. *)
Inductive wrapped := Bare (c : upstream) | Traffic (c : upstream).

Definition inner (w : wrapped) : upstream := match w with Bare c | Traffic c => c end.

(** The fields of the proxy that the call reads. *)
Record callSettings := mkSettings {
  emitTraffic : bool;
  ourIPv4 : list byte;
  ourIPv6 : list byte;
  advertisedPort : Z;
  allowFallbackOnUnknownDC : bool
}.

(** The fields of the stream that the call reads and writes; [sc_clientAddr] is
    nil for a client that is not connected by TCP. *)
Record streamContext := mkStream {
  sc_dc : Z;
  sc_adTag : option (list byte);
  sc_clientAddr : option tcpAddr;
  sc_telegramConn : option wrapped
}.

Definition set_telegramConn (c : option wrapped) (st : streamContext) : streamContext :=
  mkStream (sc_dc st) (sc_adTag st) (sc_clientAddr st) c.

Definition set_dc (dc : Z) (st : streamContext) : streamContext :=
  mkStream dc (sc_adTag st) (sc_clientAddr st) (sc_telegramConn st).

(** What the system answers: to the middle-proxy manager, to each dial of a data
    centre and to the handshake with it. *)
Record callInputs := mkInputs {
  in_fetches : fetches;
  in_middle : dialEnv;
  in_dial : Addr -> option goerr;
  in_handshake : Addr -> option goerr
}.

(** The result: the stream, the manager, how many connections to middle proxies
    were opened and closed, the connections that are open afterwards, the
    [EventConnectedToDC] that were sent (address and number) and the error. *)
Record called := mkCalled {
  cl_stream : streamContext;
  cl_manager : Manager;
  cl_middle : nat * nat;
  cl_open : list upstream;
  cl_events : list (list byte * Z);
  cl_err : option goerr
}.

(** ** The operations *)

Definition wrapTraffic (cfg : callSettings) (c : upstream) : wrapped :=
  if negb (emitTraffic cfg) then Bare c else Traffic c.

Section Calls.
Context `{BlockCipher, Digests}.
Context (shuffle : list Addr -> list Addr).

Definition dialParams (cfg : callSettings) (tag : list byte) (st : streamContext) : DialParams :=
  mkParams (sc_dc st) (sc_clientAddr st) (ourIPv4 cfg) (ourIPv6 cfg) (advertisedPort cfg) tag.

Definition doMiddleProxyCall (cfg : callSettings) (m : Manager) (i : callInputs) (tag : list byte) (st : streamContext) : called :=
  match DialProxyStream m (in_fetches i) (in_middle i) (dialParams cfg tag st) with
  | (Fail e, opened, closed, m) => mkCalled st m (opened, closed) [] [] (Some (Wrap "cannot dial middle proxy" e))
  | (Ok (stream, middleIP), opened, closed, m) =>
      mkCalled (set_telegramConn (Some (wrapTraffic cfg (Middle stream))) st) m (opened, closed)
        [Middle stream] [(middleIP, sc_dc st)] None
  end.

(** The direct path of [doTelegramCall] is [DC.directCall]; here it is given the
    program's own [net.SplitHostPort] and acts on the stream. *)
Definition directEnv (i : callInputs) (middle : res (list byte)) : callEnv :=
  mkCallEnv middle (in_dial i) (in_handshake i) (fun s => '(host, _) ← SplitHostPort s; Ok host).

Definition eventIP (address : string) : list byte :=
  match SplitHostPort address with Ok (host, _) => default [] (ParseIP host) | Fail _ => [] end.

Definition upstream_of (c : telegramConn) : option upstream :=
  match c with Direct a dc => Some (ToDC a dc) | ViaMiddleProxy _ _ => None end.

Definition directly (cfg : callSettings) (t : Telegram) (m : Manager) (i : callInputs) (counts : nat * nat) (st : streamContext) : called :=
  let r := directCall shuffle t (allowFallbackOnUnknownDC cfg) (directEnv i (Fail EOF)) (sc_dc st) in
  let conn := cr_conn r ≫= upstream_of in
  let st := set_dc (cr_dc r) st in
  let st := match conn with Some c => set_telegramConn (Some (wrapTraffic cfg c)) st | None => st end in
  mkCalled st m counts (map (fun a => ToDC a (cr_dc r)) (cr_open r))
    (match cr_event r, conn with Some dc, Some (ToDC a _) => [(eventIP (Address a), dc)] | _, _ => [] end) (cr_err r).

(** [p.middleProxy] is always set by [NewProxy]. *)
Definition doTelegramCall (cfg : callSettings) (t : Telegram) (m : Manager) (i : callInputs) (st : streamContext) : called :=
  match sc_adTag st with
  | Some tag =>
      let r := doMiddleProxyCall cfg m i tag st in
      match cl_err r with
      | Some _ => directly cfg t (cl_manager r) i (cl_middle r) (cl_stream r)
      | None => r
      end
  | None => directly cfg t m i (0%nat, 0%nat) st
  end.

(** [Close] of the stream: the connections that are closed, after the context is
    cancelled. *)
Inductive endpoint := Client | Telegrams (c : upstream).

Definition Close (st : streamContext) : list endpoint :=
  Client :: match sc_telegramConn st with Some w => [Telegrams (inner w)] | None => [] end.

(** ** Proofs *)

(** The view of [DC]: the same call with the middle proxy's outcome given. *)
Definition middleOutcome (cfg : callSettings) (m : Manager) (i : callInputs) (st : streamContext) : res (list byte) :=
  match sc_adTag st with
  | Some tag => '(_, ip) ← (DialProxyStream m (in_fetches i) (in_middle i) (dialParams cfg tag st)).1.1.1; Ok ip
  | None => Fail EOF
  end.

Lemma dialOne_stream env params secret k a s ip :
  dialOne env params secret k a = Streaming s ip ->
  adTag s = dp_AdTag params /\ clientAddr s = dp_ClientAddr params /\
  (exists our, ourAddr s = Some our /\ Port our = AdvertisedPort params) /\
  exists conn local remote, de_dial env k a = Ok (conn, local, remote) /\ ip = IP remote.
Proof.
  unfold dialOne. destruct (de_dial env k a) as [[[conn local] remote]|e]; [|done].
  destruct (doHandshake _ _ _ _ _ _) as [[f|e] ?]; [|done]. destruct (de_connID env k); [|done].
  intros E. injection E as <- <-. cbn. split_and!; [done..| |]; eauto 6.
Qed.

(** The direct path: what it leaves open is the stream's connection. *)
Lemma directly_spec cfg t m i counts st :
  let r := directly cfg t m i counts st in
  cl_manager r = m /\ cl_middle r = counts /\
  (cl_err r = None -> exists a, cl_open r = [ToDC a (sc_dc (cl_stream r))] /\
     sc_telegramConn (cl_stream r) = Some (wrapTraffic cfg (ToDC a (sc_dc (cl_stream r)))) /\
     cl_events r = [(eventIP (Address a), sc_dc (cl_stream r))]) /\
  (is_Some (cl_err r) -> cl_open r = [] /\ cl_events r = []).
Proof.
  unfold directly. set (d := directCall _ _ _ _ _).
  destruct (directCall_cases shuffle t (allowFallbackOnUnknownDC cfg) (directEnv i (Fail EOF)) (sc_dc st)) as (Hok & Hfail & _).
  fold d in Hok, Hfail. cbn [cl_manager cl_middle cl_err cl_open cl_stream cl_events]. split_and!; [done..| |].
  - intros He. destruct (Hok He) as (a & -> & -> & -> & _). exists a. done.
  - intros He. destruct (Hfail He) as [-> ->]. done.
Qed.

Lemma doMiddle_spec cfg m i tag st :
  let r := doMiddleProxyCall cfg m i tag st in
  cl_manager r = (ensureReady m (in_fetches i)).2 /\
  match cl_err r with
  | Some _ => cl_stream r = st /\ cl_open r = [] /\ cl_events r = [] /\ (cl_middle r).1 = (cl_middle r).2
  | None => (cl_middle r).1 = S (cl_middle r).2 /\ exists s our k a conn local remote,
      cl_open r = [Middle s] /\ cl_stream r = set_telegramConn (Some (wrapTraffic cfg (Middle s))) st /\
      cl_events r = [(IP remote, sc_dc st)] /\ adTag s = tag /\ clientAddr s = sc_clientAddr st /\
      ourAddr s = Some our /\ Port our = advertisedPort cfg /\
      orderedAddresses (cl_manager r) (sc_dc st) !! k = Some a /\ de_dial (in_middle i) k a = Ok (conn, local, remote)
  end.
Proof.
  unfold doMiddleProxyCall. destruct (DialProxyStream _ _ _ _) as [[[o opened] closed] m'] eqn:E.
  destruct (middle_dial _ _ _ _ _ _ _ _ E) as [Hm Hr].
  destruct o as [[s ip]|e]; cbn [cl_manager cl_err cl_stream cl_open cl_events cl_middle fst snd]; [|done].
  split; [done|]. destruct Hr as (Ho & pre & a & post & table & Ha & _ & _ & Hd & _). split; [done|].
  destruct (dialOne_stream _ _ _ _ _ _ _ Hd) as (Ht & Hc & (our & Hour & Hp) & conn & local & remote & Hdial & ->).
  exists s, our, (List.length pre), a, conn, local, remote. split_and!; try done.
  change (sc_dc st) with (dp_DC (dialParams cfg tag st)). rewrite Ha. by rewrite lookup_app_r, Nat.sub_diag by done.
Qed.

Lemma inner_wrapTraffic cfg c : inner (wrapTraffic cfg c) = c.
Proof. unfold wrapTraffic. by destruct (emitTraffic cfg). Qed.

Lemma call_middle cfg m i tag st :
  sc_adTag st = Some tag ->
  match cl_err (doMiddleProxyCall cfg m i tag st), middleOutcome cfg m i st with
  | Some _, Fail _ => True
  | None, Ok ip => cl_events (doMiddleProxyCall cfg m i tag st) = [(ip, sc_dc st)]
  | _, _ => False
  end.
Proof.
  intros Ht. unfold doMiddleProxyCall, middleOutcome. rewrite Ht.
  by destruct (DialProxyStream _ _ _ _) as [[[[[s ip]|e] opened] closed] m'].
Qed.

(** The call is the one of [DC] with the outcome of the middle proxy that the
    manager computes. *)
Lemma call_refines cfg t m i st :
  let r := doTelegramCall cfg t m i st in
  let d := DC.doTelegramCall shuffle t (allowFallbackOnUnknownDC cfg) (directEnv i (middleOutcome cfg m i st))
             (bool_decide (is_Some (sc_adTag st))) (sc_dc st) in
  sc_dc (cl_stream r) = cr_dc d /\ cl_err r = cr_err d /\ snd <$> cl_events r = option_list (cr_event d).
Proof.
  assert (forall mgr counts mid, let r := directly cfg t mgr i counts st in
    let d := directCall shuffle t (allowFallbackOnUnknownDC cfg) (directEnv i mid) (sc_dc st) in
    sc_dc (cl_stream r) = cr_dc d /\ cl_err r = cr_err d /\ snd <$> cl_events r = option_list (cr_event d)) as Hd.
  { intros mgr counts mid. destruct (directly_spec cfg t mgr i counts st) as (_ & _ & Hok & Hfail).
    assert (sc_dc (cl_stream (directly cfg t mgr i counts st)) =
            cr_dc (directCall shuffle t (allowFallbackOnUnknownDC cfg) (directEnv i mid) (sc_dc st))) as Hdc
      by (unfold directly; cbn [cl_stream]; by case_match).
    assert (cl_err (directly cfg t mgr i counts st) =
            cr_err (directCall shuffle t (allowFallbackOnUnknownDC cfg) (directEnv i mid) (sc_dc st))) as He by done.
    cbn zeta. split_and!; [done..|].
    destruct (directCall_cases shuffle t (allowFallbackOnUnknownDC cfg) (directEnv i mid) (sc_dc st)) as (Hok' & Hfail' & _).
    rewrite He in Hok, Hfail. destruct (cr_err (directCall _ _ _ _ _)) as [e|].
    - destruct (Hfail ltac:(eauto)) as [_ ->]. by destruct (Hfail' ltac:(eauto)) as [_ ->].
    - destruct (Hok eq_refl) as (a & _ & _ & ->). destruct (Hok' eq_refl) as (b & _ & _ & -> & _). change ([sc_dc (cl_stream (directly cfg t mgr i counts st))] = [cr_dc (directCall shuffle t (allowFallbackOnUnknownDC cfg) (directEnv i mid) (sc_dc st))]). by rewrite Hdc. }
  unfold doTelegramCall, DC.doTelegramCall. destruct (sc_adTag st) as [tag|] eqn:Ht.
  - rewrite bool_decide_true by eauto. pose proof (call_middle cfg m i tag st Ht) as Hm.
    destruct (doMiddle_spec cfg m i tag st) as [_ Hs].
    destruct (cl_err (doMiddleProxyCall cfg m i tag st)) as [e|] eqn:He.
    + destruct (middleOutcome cfg m i st) as [?|e']; [done|]. cbn [ce_middle directEnv]. destruct Hs as (-> & _). apply Hd.
    + destruct (middleOutcome cfg m i st) as [ip|e']; [|done]. cbn [ce_middle directEnv cr_dc cr_err cr_event].
      rewrite Hm, He. destruct Hs as (_ & s & our & k & a & conn & local & remote & _ & -> & _). done.
  - rewrite bool_decide_false by (by intros [? ?]). apply Hd.
Qed.
End Calls.

(** C21: a call to Telegram, from the tag of the stream to the end of the stream.
    It is the call of the data-centre model with the middle proxy's outcome that
    the manager computes.  After an error nothing is open and nothing was
    announced.  After a success exactly one connection is open, it is the
    stream's, wrapped for the metrics iff they are on, and one event announces
    its number; over a middle proxy it carries the stream's own tag and client
    address and the advertised port, and is the connection to an address that
    the manager lists for the number.  A middle proxy is
    used only for a stream with a tag; the connections to middle proxies that
    failed are closed, also when the stream falls back to a data centre.
    Closing the stream closes everything that is left. *)
Theorem telegram_call `{BlockCipher, Digests} shuffle cfg t m i st :
  let r := doTelegramCall shuffle cfg t m i st in
  let st' := cl_stream r in
  let d := DC.doTelegramCall shuffle t (allowFallbackOnUnknownDC cfg) (directEnv i (middleOutcome cfg m i st))
             (bool_decide (is_Some (sc_adTag st))) (sc_dc st) in
  (sc_dc st' = cr_dc d /\ cl_err r = cr_err d /\ snd <$> cl_events r = option_list (cr_event d)) /\
  (is_Some (cl_err r) -> cl_open r = [] /\ cl_events r = []) /\
  (cl_err r = None -> exists c ip, cl_open r = [c] /\ sc_telegramConn st' = Some (wrapTraffic cfg c) /\
     cl_events r = [(ip, sc_dc st')] /\
     match c with
     | ToDC a dc => dc = sc_dc st' /\ ip = eventIP (Address a) /\ (cl_middle r).1 = (cl_middle r).2
     | Middle s => (cl_middle r).1 = S (cl_middle r).2 /\ sc_adTag st = Some (adTag s) /\ clientAddr s = sc_clientAddr st /\
         (exists our, ourAddr s = Some our /\ Port our = advertisedPort cfg) /\
         exists k a conn local remote, orderedAddresses (cl_manager r) (sc_dc st) !! k = Some a /\
           de_dial (in_middle i) k a = Ok (conn, local, remote) /\ ip = IP remote
     end) /\
  (sc_adTag st = None -> cl_manager r = m /\ cl_middle r = (0%nat, 0%nat)) /\
  (is_Some (cl_err r) -> (cl_middle r).1 = (cl_middle r).2) /\
  Forall (fun c => Telegrams c ∈ Close st') (cl_open r).
Proof.
  intros r st' d. split; [apply call_refines|]. assert (Hclose : forall c, sc_telegramConn st' = Some (wrapTraffic cfg c) ->
    Forall (fun c => Telegrams c ∈ Close st') [c]).
  { intros c Hc. constructor; [|done]. unfold Close. rewrite Hc, inner_wrapTraffic. set_solver. }
  assert (forall mgr counts, r = directly shuffle cfg t mgr i counts st -> counts.1 = counts.2 ->
    (is_Some (cl_err r) -> cl_open r = [] /\ cl_events r = []) /\
    (cl_err r = None -> exists a, cl_open r = [ToDC a (sc_dc st')] /\ sc_telegramConn st' = Some (wrapTraffic cfg (ToDC a (sc_dc st'))) /\
       cl_events r = [(eventIP (Address a), sc_dc st')]) /\
    (cl_middle r).1 = (cl_middle r).2 /\ Forall (fun c => Telegrams c ∈ Close st') (cl_open r)) as Hdirect.
  { intros mgr counts Hr Hc. destruct (directly_spec shuffle cfg t mgr i counts st) as (_ & Hm & Hok & Hfail).
    rewrite <-Hr in Hm, Hok, Hfail. rewrite Hm. split_and!; [done..|].
    destruct (cl_err r) as [e|] eqn:He; [destruct (Hfail ltac:(eauto)) as [-> _]; constructor|].
    destruct (Hok eq_refl) as (a & Ho & Ht & _). rewrite Ho. by apply Hclose. }
  unfold doTelegramCall in r. destruct (sc_adTag st) as [tag|] eqn:Htag.
  - destruct (doMiddle_spec cfg m i tag st) as [Hmgr Hm].
    destruct (cl_err (doMiddleProxyCall cfg m i tag st)) as [e|] eqn:He.
    + destruct Hm as (Hs & _ & _ & Hc). destruct (Hdirect _ _ ltac:(unfold r; by rewrite Hs) Hc) as (H1 & H2 & H3 & H4).
      split_and!; [done| |done..]. intros Hn. destruct (H2 Hn) as (a & Ho & Ht & Hev). eexists _, _. split_and!; done.
    + destruct Hm as (Hc & s & our & k & a & conn & local & remote & Ho & Hs & Hev & Htg & Hcl & Hour & Hp & Hk & Hd).
      fold r in Hmgr, He, Hc, Ho, Hs, Hev, Hk. fold st' in Hs.
      assert (sc_telegramConn st' = Some (wrapTraffic cfg (Middle s))) as Hconn by (rewrite Hs; done).
      split_and!; [rewrite He; by intros [? ?]| |done|rewrite He; by intros [? ?]|rewrite Ho; by apply Hclose].
      intros _. exists (Middle s), (IP remote). rewrite Htg. replace (sc_dc st') with (sc_dc st) by (by rewrite Hs).
      split_and!; [done..|by exists our|]. by exists k, a, conn, local, remote.
  - destruct (Hdirect m (0%nat, 0%nat) eq_refl eq_refl) as (H1 & H2 & H3 & H4).
    split_and!; [done| |done..]. intros Hn. destruct (H2 Hn) as (a & Ho & Ht & Hev). eexists _, _. split_and!; done.
Qed.

(** ** Examples *)

#[local] Existing Instance demo_cipher.
#[local] Existing Instance demo_digests.

Definition demo_settings : callSettings := mkSettings true [] [] 443 true.

Definition demo_stream : streamContext := mkStream (-2) (Some (replicate 16 Byte.x02)) None None.

Definition demo_telegram : Telegram := mkTelegram (mkAddrSet None None) preferIPPreferIPv4.

(** No data centre answers but the first middle proxy's handshake fails and the
    second one's succeeds. *)
Definition demo_inputs : callInputs :=
  mkInputs (mkFetches (Fail EOF) (Fail EOF) (Fail EOF)) demo_env (fun _ => Some EOF) (fun _ => None).

(** Every middle proxy is down and the data centres are up. *)
Definition down_inputs : callInputs :=
  mkInputs (mkFetches (Fail EOF) (Fail EOF) (Fail EOF))
    (mkDialEnv (fun _ _ => Fail EOF) (de_nonce demo_env) (de_now demo_env) (de_connID demo_env)) (fun _ => None) (fun _ => None).

Example call_through_middle :
  let r := doTelegramCall id demo_settings demo_telegram demo_manager demo_inputs demo_stream in
  (cl_err r, cl_middle r, List.length (cl_open r), cl_events r) = (None, (2%nat, 1%nat), 1%nat, [(IP demo_remote, -2)]).
Proof. vm_compute. reflexivity. Qed.

Example call_falls_back :
  let r := doTelegramCall id demo_settings demo_telegram demo_manager down_inputs demo_stream in
  (cl_err r, cl_middle r, cl_open r, List.length (cl_events r)) =
  (None, (0%nat, 0%nat), [ToDC (mkAddr "tcp4" "149.154.167.51:443") (-2)], 1%nat).
Proof. vm_compute. reflexivity. Qed.

Example call_nothing_answers :
  let r := doTelegramCall id demo_settings demo_telegram demo_manager
             (mkInputs (in_fetches down_inputs) (in_middle down_inputs) (fun _ => Some EOF) (fun _ => None)) demo_stream in
  (cl_err r, cl_open r, sc_telegramConn (cl_stream r)) = (Some (Wrap "no addresses to call" EOF), [], None).
Proof. vm_compute. reflexivity. Qed.
