(* ===== verification/Conns.v ===== *)
(** * Connection wrappers: mtglib/conns.go

    [connRewind] replays what was read of a connection that turns out not to be
    ours, so that the fronting host sees the client's bytes from the first one;
    [idleTracker] keeps both directions of a relay alive by the activity of
    either.  A blocking read may deliver any non-empty part of what is there: how
    much is an argument of the read. *)

From S2P Require Import Prelude GoTime GoIO.

(** A read into [n] bytes that delivers at most [k] of them, at least one. *)
Definition conn_Read (n k : nat) (s : source) : list byte * option goerr * source :=
  match avail s with
  | [] => ([], if (n =? 0)%nat then None else Some (fin s), s)
  | l => let m := Nat.min n (Nat.max 1 k) in (take m l, None, mkSource (drop m l) (fin s))
  end.

(** ** connTraffic *)

(** The events are the sizes and directions that [NewEventTraffic] gets; the
    read outcome is passed through. *)
Definition traffic_Read (r : list byte * option goerr) : (list byte * option goerr) * list (nat * bool) :=
  (r, if (0 <? length r.1)%nat then [(length r.1, true)] else []).

(** [Write]: [n] and [err] of the connection below. *)
Definition traffic_Write (n : nat) (err : option goerr) : (nat * option goerr) * list (nat * bool) :=
  ((n, err), if (0 <? n)%nat then [(n, false)] else []).

(** ** connRewind *)

(** [active] is the tee reader, or after [Rewind] the buffer followed by the
    connection. *)
Inductive activeReader := Tee | Multi.

Record connRewind := mkRewind { rw_conn : source; rw_buf : list byte; rw_active : activeReader }.

Definition newConnRewind (conn : source) : connRewind := mkRewind conn [] Tee.

Definition Rewind (c : connRewind) : connRewind := mkRewind (rw_conn c) (rw_buf c) Multi.

Definition rewind_Read (n k : nat) (c : connRewind) : list byte * option goerr * connRewind :=
  match rw_active c, rw_buf c with
  | Multi, (_ :: _) as buf => (take n buf, None, mkRewind (rw_conn c) (drop n buf) Multi)
  | Multi, [] => let '(l, err, s) := conn_Read n k (rw_conn c) in (l, err, mkRewind s [] Multi)
  | Tee, buf => let '(l, err, s) := conn_Read n k (rw_conn c) in (l, err, mkRewind s (buf ++ l) Tee)
  end.

(** Successive reads, up to the first error: the bytes, the error and the
    connection. *)
Fixpoint rewind_reads (ns : list (nat * nat)) (c : connRewind) : list byte * option goerr * connRewind :=
  match ns with
  | [] => ([], None, c)
  | (n, k) :: ns =>
      match rewind_Read n k c with
      | (l, Some e, c) => (l, Some e, c)
      | (l, None, c) => let '(l', e, c) := rewind_reads ns c in (l ++ l', e, c)
      end
  end.

(** ** connProxyProtocol *)

(** [Write]: the connection below gets the header once, before the first
    bytes; [header] is what the proxy-protocol package formats, [werr] the error
    of writing it. *)
Record connProxyProtocol := mkPP { pp_out : list byte; headersWritten : bool }.

Definition pp_Write (header : list byte) (werr : option goerr) (p : list byte) (c : connProxyProtocol) : option goerr * connProxyProtocol :=
  if headersWritten c then (None, mkPP (pp_out c ++ p) true)
  else
    match werr with
    | Some e => (Some (Wrap "cannot send proxy protocol header" e), c)
    | None => (None, mkPP (pp_out c ++ header ++ p) true)
    end.

(** ** idleTracker *)

Record idleTracker := mkTracker { lastActive : Z; idle_timeout : Z }.

Definition touch (now : Z) (t : idleTracker) : idleTracker := mkTracker (UnixNano now) (idle_timeout t).

Definition newIdleTracker (now timeout : Z) : idleTracker := touch now (mkTracker 0 timeout).

Definition isIdle (now : Z) (t : idleTracker) : bool := idle_timeout t <=? int64 (UnixNano now - lastActive t).

(** What the connection below returns. *)
Inductive readOutcome :=
  | ROk (l : list byte)
  | RErr (timeout : bool) (l : list byte) (e : goerr).

(** One round of the loop of [connIdleTimeout.Read]: [None] is another round. *)
Definition idle_Read (now : Z) (o : readOutcome) (t : idleTracker) : option (list byte * option goerr) * idleTracker :=
  match o with
  | ROk l => (Some (l, None), touch now t)
  | RErr timeout l e => if timeout && negb (isIdle now t) then (None, t) else (Some (l, Some e), t)
  end.

Definition idle_Write (now : Z) (n : nat) (err : option goerr) (t : idleTracker) : (nat * option goerr) * idleTracker :=
  ((n, err), if (0 <? n)%nat then touch now t else t).

(** ** The two connections of a relay *)

Inductive side := Telegram | Client.

#[export] Instance side_eq_dec : EqDecision side.
Proof. solve_decision. Defined.

Definition other (s : side) : side := match s with Telegram => Client | Client => Telegram end.

(** A connection of a relay: what its peer will still send, what its peer got,
    and which halves are closed. *)
Record endpoint := mkEnd { e_in : list byte; e_out : list byte; closedRead : bool; closedWrite : bool }.

Definition upd {A} (f : side -> A) (s : side) (a : A) : side -> A := fun x => if decide (x = s) then a else f x.

Definition CloseRead (e : endpoint) : endpoint := mkEnd (e_in e) (e_out e) true (closedWrite e).
Definition CloseWrite (e : endpoint) : endpoint := mkEnd (e_in e) (e_out e) (closedRead e) true.
Definition Close (e : endpoint) : endpoint := mkEnd (e_in e) (e_out e) true true.

(** ** Proofs: rewinding *)

Lemma conn_Read_prefix n k s :
  match conn_Read n k s with
  | (l, err, s') => avail s = l ++ avail s' /\ fin s' = fin s /\ (err <> None -> avail s = [] /\ err = Some (fin s))
  end.
Proof.
  unfold conn_Read. destruct (avail s) as [|b l] eqn:E.
  - split_and!; [done|done|]. destruct (n =? 0)%nat; done.
  - cbn [avail fin]. rewrite take_drop. done.
Qed.

(** What a reader of the connection will still see. *)
Definition upcoming (c : connRewind) : list byte :=
  match rw_active c with Tee => avail (rw_conn c) | Multi => rw_buf c ++ avail (rw_conn c) end.

Lemma rewind_Read_prefix n k c :
  match rewind_Read n k c with
  | (l, err, c') => upcoming c = l ++ upcoming c' /\ rw_active c' = rw_active c /\ fin (rw_conn c') = fin (rw_conn c) /\
      (rw_active c = Tee -> rw_buf c' ++ avail (rw_conn c') = rw_buf c ++ avail (rw_conn c)) /\
      (err <> None -> upcoming c = [] /\ err = Some (fin (rw_conn c)))
  end.
Proof.
  destruct c as [s buf a]. unfold rewind_Read, upcoming. cbn [rw_active rw_buf rw_conn].
  pose proof (conn_Read_prefix n k s) as Hs. destruct a, buf as [|b buf];
    try (destruct (conn_Read n k s) as [[l err] s']; destruct Hs as (Ha & Hf & He); cbn [rw_active rw_buf rw_conn app] in *;
         split_and!; [done|done|done|by rewrite Ha, <-?app_assoc|done]).
  cbn [rw_active rw_buf rw_conn]. rewrite app_assoc, take_drop. split_and!; done.
Qed.

Lemma rewind_reads_prefix ns c :
  match rewind_reads ns c with
  | (l, err, c') => upcoming c = l ++ upcoming c' /\ rw_active c' = rw_active c /\ fin (rw_conn c') = fin (rw_conn c) /\
      (rw_active c = Tee -> rw_buf c' ++ avail (rw_conn c') = rw_buf c ++ avail (rw_conn c)) /\
      (err <> None -> upcoming c' = [] /\ err = Some (fin (rw_conn c)))
  end.
Proof.
  revert c. induction ns as [|[n k] ns IH]; intros c; cbn [rewind_reads]; [done|].
  pose proof (rewind_Read_prefix n k c) as Hr. destruct (rewind_Read n k c) as [[l [e|]] c1].
  - destruct Hr as (H1 & H2 & H3 & H4 & H5). destruct (H5 ltac:(done)) as [Hu He]. split_and!; try done.
    intros _. rewrite Hu in H1. symmetry in H1. apply app_eq_nil in H1 as [_ ->]. done.
  - destruct Hr as (H1 & H2 & H3 & H4 & _). specialize (IH c1). destruct (rewind_reads ns c1) as [[l' e] c2].
    destruct IH as (I1 & I2 & I3 & I4 & I5). rewrite H2, H3 in *. split_and!; [by rewrite H1, I1, app_assoc|done|done| |done].
    intros Ha. by rewrite (I4 Ha), (H4 Ha).
Qed.

Lemma rewind_Read_progress n k c l c' : (0 < n)%nat -> rewind_Read n k c = (l, None, c') -> l <> [].
Proof.
  intros Hn. destruct c as [s buf a]. unfold rewind_Read, conn_Read. cbn [rw_active rw_buf rw_conn].
  assert (forall m (b : byte) x, (0 < m)%nat -> take m (b :: x) <> []) as Ht by (intros [|m] b x Hm; [lia|done]).
  destruct a, buf as [|b buf], (avail s) as [|c l0]; rewrite ?(proj2 (Nat.eqb_neq n 0)) by lia; intros [= <- <-]; apply Ht; lia.
Qed.

Lemma rewind_reads_ends ns c :
  Forall (fun p => 0 < p.1)%nat ns -> (length (upcoming c) < length ns)%nat -> (rewind_reads ns c).1.2 <> None.
Proof.
  intros Hns. revert c. induction Hns as [|[n k] ns Hn _ IH]; intros c Hl; [simpl in Hl; lia|]. cbn [rewind_reads].
  pose proof (rewind_Read_prefix n k c) as Hp. destruct (rewind_Read n k c) as [[l [e|]] c1] eqn:E; [done|].
  apply rewind_Read_progress in E; [|done]. destruct Hp as (Hu & _).
  specialize (IH c1). destruct (rewind_reads ns c1) as [[l' e] c2]. apply IH.
  rewrite Hu, length_app in Hl. destruct l; [done|simpl in Hl; lia].
Qed.

(** Domain fronting is transparent.  Whatever was read through the rewinding
    connection before [Rewind] (in any pieces, up to an error or not) was the
    beginning of the client's stream; after [Rewind] the reader sees the
    client's stream again from its first byte, in order, without loss or
    repetition, and an error only at its end, the connection's own; with enough
    reads it gets there. *)
Theorem rewind_transparent conn before after :
  let '(l1, _, c1) := rewind_reads before (newConnRewind conn) in
  let '(l2, err, c2) := rewind_reads after (Rewind c1) in
  l1 `prefix_of` avail conn /\ l2 `prefix_of` avail conn /\
  (err <> None -> l2 = avail conn /\ err = Some (fin conn)) /\
  (Forall (fun p => 0 < p.1)%nat after -> (length (avail conn) < length after)%nat -> err <> None).
Proof.
  pose proof (rewind_reads_prefix before (newConnRewind conn)) as H1.
  destruct (rewind_reads before (newConnRewind conn)) as [[l1 e1] c1]. destruct H1 as (Hu & Ha & Hf & Hb & _).
  specialize (Hb eq_refl). cbn in Hu, Hb, Hf. pose proof (rewind_reads_prefix after (Rewind c1)) as H2.
  pose proof (rewind_reads_ends after (Rewind c1)) as H3.
  destruct (rewind_reads after (Rewind c1)) as [[l2 e2] c2]. destruct H2 as (Hu2 & _ & _ & _ & He).
  cbn in Hu2, H3. unfold upcoming in H3. cbn in H3. rewrite Hb in Hu2, H3. split_and!; [by eexists|by eexists| |done].
  intros Hne. destruct (He Hne) as [Hn ->]. rewrite Hn, app_nil_r in Hu2. cbn. by rewrite Hu2, Hf.
Qed.

Lemma rewind_transparent_witness :
  (rewind_reads (replicate 5 (2%nat, 1%nat)) (Rewind (rewind_reads [(3%nat, 2%nat)] (newConnRewind (buffer [Byte.x41; Byte.x42; Byte.x43]))).2)).1 =
  ([Byte.x41; Byte.x42; Byte.x43], Some EOF).
Proof.
  pose proof (rewind_transparent (buffer [Byte.x41; Byte.x42; Byte.x43]) [(3%nat, 2%nat)] (replicate 5 (2%nat, 1%nat))) as H.
  destruct (rewind_reads [(3%nat, 2%nat)] _) as [[l1 e1] c1]. cbn [snd].
  destruct (rewind_reads (replicate 5 _) _) as [[l2 err] c2]. destruct H as (_ & _ & He & Hp).
  destruct He as [-> ->]; [apply Hp; [apply Forall_replicate; simpl; lia|simpl; lia]|]. reflexivity.
Defined.

(** ** Proofs: idle timeouts *)

(** A relay direction gives up on a timeout only when neither direction has
    moved a byte for the whole period. *)
Lemma idle_Read_timeout now l e t r t' :
  idle_Read now (RErr true l e) t = (Some r, t') -> idle_timeout t <= int64 (UnixNano now - lastActive t).
Proof. unfold idle_Read, isIdle. destruct (idle_timeout t <=? _) eqn:E; [|done]. intros _. by apply Z.leb_le. Qed.

(** The proxy-protocol header is sent once, before everything else. *)
Lemma pp_Write_header header ps :
  snd (foldl (fun c p => pp_Write header None p c.2) (None, mkPP [] false) ps) =
  match ps with [] => mkPP [] false | _ => mkPP (header ++ concat ps) true end.
Proof.
  destruct ps as [|p ps]; [done|]. cbn. enough (forall out e, (foldl (fun c p => pp_Write header None p c.2) (e, mkPP out true) ps).2 = mkPP (out ++ concat ps) true) as Hx.
  { rewrite Hx. by rewrite <-app_assoc. }
  induction ps as [|q ps IH]; intros out e; cbn; [by rewrite app_nil_r|]. rewrite IH. by rewrite <-app_assoc.
Qed.
