(* ===== verification/Doppel.v ===== *)
(** * Traffic shaping: mtglib/internal/doppel/conn.go, and the sizes of stats.go and ganger.go

    [Conn] queues what is written and sends it from a goroutine of its own as
    TLS records whose sizes and delays imitate a web server.  The goroutine and
    its callers are interleaved at their locks and blocking calls; a section under
    the lock of the condition variable is one step, and so is every [Signal],
    [Broadcast] and wake-up, so that a wake-up that is missed would be a reachable
    state.  Delays only decide when a step happens and are not part of the state.
    The goroutine that fits the delays and hands out connections is in
    Ganger.v. *)

From S2P Require Import Prelude GoTime GoIO TLS.

(** ** Record sizes: init.go, stats.go *)

Definition TLSRecordSizeStart : Z := 1450.
Definition TLSRecordSizeAccel : Z := 4096.
Definition TLSRecordSizeMax : Z := 16384 - Z.of_nat SizeHeader.
Definition TLSCounterAccelAfter : Z := 40.
Definition TLSCounterMaxAfter : Z := TLSCounterAccelAfter + 20.
Definition TLSRecordSizeResetAfter : Z := Second.
Definition DRSNoise : Z := 100.

Record Stats := mkStats { sizeLastRequested : Z; sizeCounter : Z; drs : bool }.

(** [Size]; [rnd] is what [rand.IntN(DRSNoise)] gives. *)
Definition Size (now rnd : Z) (d : Stats) : Z * Stats :=
  let counter := if TLSRecordSizeResetAfter <? Sub now (sizeLastRequested d) then 0 else sizeCounter d in
  if negb (drs d) then (TLSRecordSizeMax, mkStats (sizeLastRequested d) counter (drs d))
  else
    let counter := counter + 1 in
    (if counter <=? TLSCounterAccelAfter then TLSRecordSizeStart - rnd
     else if counter <=? TLSCounterMaxAfter then TLSRecordSizeAccel - rnd
     else TLSRecordSizeMax, mkStats now counter (drs d)).

(** ** The connection: conn.go *)

(** Where the goroutine of [start] is: at its select, before the lock with the
    size of the next record (also when it was woken), asleep in [Wait], with a
    record to write, or returned. *)
Inductive writerPC :=
  | PTimer
  | PCheck (size : nat)
  | PSleep (size : nat)
  | PWrite (n : nat)
  | PDone.

(** How far [Stop] is: not called, the context cancelled, [done] set, the
    sleepers woken and [wg.Wait] entered, returned. *)
Inductive stopPC := NotStopped | StCancelled | StMarked | StWaiting | StReturned.

#[export] Instance stopPC_eq_dec : EqDecision stopPC.
Proof. solve_decision. Defined.

(** [d_signals] are the calls of [Write] that have put their bytes into the
    queue and have not called [Signal] yet. *)
Record connPayload := mkPayload {
  cause : option goerr;
  d_stats : Stats;
  writeStream : list byte;
  done : bool;
  d_buf : list byte;
  d_pc : writerPC;
  d_out : list byte;
  d_signals : nat;
  d_stop : stopPC
}.

Definition Canceled : goerr := Errorf "context canceled".

Definition NewConn (stats : Stats) (poolBuf : list byte) : connPayload := mkPayload None stats [] false poolBuf PTimer [] 0 NotStopped.

(** [ctxCancel]: the first cause stays. *)
Definition ctxCancel (e : goerr) (c : connPayload) : connPayload :=
  mkPayload (match cause c with Some e' => Some e' | None => Some e end) (d_stats c) (writeStream c) (done c) (d_buf c) (d_pc c) (d_out c)
    (d_signals c) (d_stop c).

Definition set_pc (pc : writerPC) (c : connPayload) : connPayload :=
  mkPayload (cause c) (d_stats c) (writeStream c) (done c) (d_buf c) pc (d_out c) (d_signals c) (d_stop c).

Definition set_stop (pc : stopPC) (c : connPayload) : connPayload :=
  mkPayload (cause c) (d_stats c) (writeStream c) (done c) (d_buf c) (d_pc c) (d_out c) (d_signals c) pc.

(** A sleeper is woken: it takes the lock and looks again. *)
Definition wake (c : connPayload) : connPayload := match d_pc c with PSleep size => set_pc (PCheck size) c | _ => c end.

(** The locked section of [Write]; an empty slice does not reach it. *)
Definition doppel_Write (p : list byte) (c : connPayload) : connPayload :=
  match p with
  | [] => c
  | _ => mkPayload (cause c) (d_stats c) (writeStream c ++ p) (done c) (d_buf c) (d_pc c) (d_out c) (S (d_signals c)) (d_stop c)
  end.

(** [writtenCond.Signal()] of one of the calls; at most one goroutine waits. *)
Definition doppel_Signal (c : connPayload) : option connPayload :=
  match d_signals c with
  | O => None
  | S n => Some (wake (mkPayload (cause c) (d_stats c) (writeStream c) (done c) (d_buf c) (d_pc c) (d_out c) n (d_stop c)))
  end.

(** What [Write] returns, in the end. *)
Definition Write_result (p : list byte) (c : connPayload) : nat * option goerr := (length p, cause c).

(** The next call of [Stop]. *)
Definition Stop_step (c : connPayload) : option connPayload :=
  match d_stop c with
  | NotStopped => Some (set_stop StCancelled (ctxCancel Canceled c))
  | StCancelled =>
      Some (mkPayload (cause c) (d_stats c) (writeStream c) true (d_buf c) (d_pc c) (d_out c) (d_signals c) StMarked)
  | StMarked => Some (wake (set_stop StWaiting c))
  | StWaiting => match d_pc c with PDone => Some (set_stop StReturned c) | _ => None end
  | StReturned => None
  end.

(** One step of [start]; [now] and [rnd] are read by [Size], [ready] says
    whether the select takes the timer although the context is done, [werr] is
    the error of the connection below with the number of bytes it had taken.
    [None] is a step that has to wait. *)
Definition start_step (now rnd : Z) (ready : bool) (werr : option (nat * goerr)) (c : connPayload) : option connPayload :=
  match d_pc c with
  | PTimer =>
      match cause c, ready with
      | Some _, false => Some (set_pc PDone c)
      | _, _ =>
          let '(size, stats) := Size now rnd (d_stats c) in
          Some (mkPayload (cause c) stats (writeStream c) (done c) (d_buf c) (PCheck (Z.to_nat size)) (d_out c) (d_signals c) (d_stop c))
      end
  | PCheck size =>
      if (length (writeStream c) =? 0)%nat && negb (done c) then Some (set_pc (PSleep size) c)
      else
        let l := take size (writeStream c) in
        let buf := copy_at SizeHeader l (d_buf c) in
        if (length l =? 0)%nat then Some (set_pc PTimer c)
        else Some (mkPayload (cause c) (d_stats c) (drop size (writeStream c)) (done c) buf (PWrite (length l)) (d_out c) (d_signals c) (d_stop c))
  | PSleep _ => None
  | PWrite n =>
      match WriteRecordInPlace (d_buf c) n, werr with
      | Fail e, _ => Some (set_pc PDone (ctxCancel e c))
      | Ok rec, Some (k, e) =>
          Some (set_pc PDone (ctxCancel e (mkPayload (cause c) (d_stats c) (writeStream c) (done c) (d_buf c) (d_pc c) (d_out c ++ take k rec)
                                             (d_signals c) (d_stop c))))
      | Ok rec, None =>
          Some (mkPayload (cause c) (d_stats c) (writeStream c) (done c) (d_buf c) PTimer (d_out c ++ rec) (d_signals c) (d_stop c))
      end
  | PDone => None
  end.

(** ** Noise calibration: ganger.go *)

Definition DoppelGangerMaxDurations : nat := 4096.
Definition MinCertSizesToCalculate : nat := 3.

(** The last [DoppelGangerMaxDurations] of old and new measurements. *)
Definition trimmed {A} (l : list A) : list A :=
  if (DoppelGangerMaxDurations <? length l)%nat then drop (length l - DoppelGangerMaxDurations) l else l.

(** [updateNoiseParams]: mean and jitter; [None] when nothing was measured. *)
Definition updateNoiseParams (certSizes : list Z) : option (Z * Z) :=
  match certSizes with
  | [] => None
  | _ =>
      let sum := foldl Z.add 0 certSizes in
      let mean := Z.quot sum (Z.of_nat (length certSizes)) in
      let maxDev := foldl (fun m s => Z.max m (Z.abs (s - mean))) 0 certSizes in
      Some (mean, if maxDev <? 100 then 100 else maxDev)
  end.

(** The part of [run] that takes a raid's result: the sizes kept, and the new
    parameters if there are enough of them. *)
Definition takeCertSizes (certSizes collected : list Z) (params : option (Z * Z)) : list Z * option (Z * Z) :=
  let certSizes := trimmed (certSizes ++ collected) in
  (certSizes, if (MinCertSizesToCalculate <=? length certSizes)%nat
              then match updateNoiseParams certSizes with Some p => Some p | None => params end
              else params).

(** ** Runs *)

(** A connection and everything its callers have written so far. *)
Inductive dstep : connPayload * list byte -> connPayload * list byte -> Prop :=
  | dstep_write c acc p : dstep (c, acc) (doppel_Write p c, acc ++ p)
  | dstep_signal c acc c' : doppel_Signal c = Some c' -> dstep (c, acc) (c', acc)
  | dstep_cancel c acc e : dstep (c, acc) (ctxCancel e c, acc)
  | dstep_stop c acc c' : Stop_step c = Some c' -> dstep (c, acc) (c', acc)
  | dstep_start c acc now rnd ready werr c' :
      0 <= rnd < DRSNoise -> start_step now rnd ready werr c = Some c' -> dstep (c, acc) (c', acc).

(** [n] steps of the goroutine when its context is done and its writes
    succeed. *)
Fixpoint start_run (n : nat) (now : Z) (c : connPayload) : option connPayload :=
  match n with O => Some c | S n => c' ← start_step now 0 false None c; start_run n now c' end.

(** ** Proofs *)

Lemma Size_bounds now rnd d : 0 <= rnd < DRSNoise -> 1351 <= (Size now rnd d).1 <= Z.of_nat MaxRecordPayloadSize.
Proof.
  intros Hr. unfold DRSNoise in Hr. unfold Size. change (Z.of_nat MaxRecordPayloadSize) with 16379. change TLSRecordSizeMax with 16379.
  unfold TLSRecordSizeStart, TLSRecordSizeAccel. destruct (negb (drs d)); cbn [fst]; [lia|].
  destruct (_ <=? TLSCounterAccelAfter); [lia|]. destruct (_ <=? TLSCounterMaxAfter); lia.
Qed.

(** A record written from a reused buffer, whatever the buffer held before. *)
Lemma WriteRecordInPlace_record buf l :
  length buf = MaxRecordSize -> (length l <= MaxRecordPayloadSize)%nat ->
  WriteRecordInPlace (copy_at SizeHeader l buf) (length l) = Ok (record TypeApplicationData l).
Proof.
  intros Hb Hl. assert (5 + length l <= length buf)%nat as H5 by (unfold MaxRecordPayloadSize, MaxRecordSize, SizeHeader in *; lia).
  assert (Z.of_nat (length l) < 2 ^ 16) as H16 by (unfold MaxRecordPayloadSize, MaxRecordSize, SizeHeader in Hl; lia). clear Hb.
  unfold WriteRecordInPlace. rewrite (proj2 (Nat.ltb_ge _ _)) by done. rewrite uwrap_small by lia. f_equal.
  assert (exists T, copy_at SizeHeader l buf = take 5 buf ++ l ++ T) as [T ->].
  { unfold copy_at, SizeHeader. rewrite (take_ge l) by lia. by eexists. }
  assert (length (take 5 buf) = 5%nat) as Ht by (rewrite length_take; lia).
  destruct (take 5 buf) as [|a [|b [|c [|d [|e [|]]]]]]; try done.
  pose proof (length_be_split 2 (Z.of_nat (length l))) as Hs. unfold record.
  destruct (be_split 2 _) as [|x [|y [|]]]; try done. unfold slice, copy_at, TLSVersion. simpl.
  rewrite !firstn_nil, !drop_0. simpl. by rewrite take_app_length.
Qed.

(** The bytes taken from the queue and not yet written. *)
Definition inflight (c : connPayload) : list byte :=
  match d_pc c with PWrite n => slice SizeHeader (SizeHeader + n) (d_buf c) | _ => [] end.

Definition records (ps : list (list byte)) : list (byte * list byte) := map (pair TypeApplicationData) ps.

(** A beginning of a record that is not all of it; nothing is one. *)
Definition truncated (part : list byte) : Prop :=
  exists t p k, rec_ok (t, p) /\ part = take k (record t p) /\ (k < length (record t p))%nat.

Record doppel_inv (c : connPayload) (acc : list byte) (ps : list (list byte)) (part : list byte) : Prop := {
  di_out : d_out c = wire (records ps) ++ part;
  di_sizes : Forall (fun p => 1 <= length p <= MaxRecordPayloadSize)%nat ps;
  di_buf : length (d_buf c) = MaxRecordSize;
  di_pc : match d_pc c with
          | PCheck size | PSleep size => (1 <= size <= MaxRecordPayloadSize)%nat
          | PWrite n => exists l buf, (1 <= length l <= MaxRecordPayloadSize)%nat /\ length buf = MaxRecordSize /\ n = length l /\
                          d_buf c = copy_at SizeHeader l buf
          | _ => True
          end;
  di_acc : exists lost, concat ps ++ lost ++ writeStream c = acc /\ (d_pc c <> PDone -> lost = inflight c) /\
             part `prefix_of` record TypeApplicationData lost;
  di_part : truncated part /\ (d_pc c <> PDone -> part = []) }.

Lemma inflight_copy c l buf :
  d_pc c = PWrite (length l) -> (length l <= MaxRecordPayloadSize)%nat -> length buf = MaxRecordSize ->
  d_buf c = copy_at SizeHeader l buf -> inflight c = l.
Proof.
  intros Hpc Hl Hb He. unfold inflight. rewrite Hpc, He. unfold copy_at.
  assert (5 + length l <= length buf)%nat by (unfold MaxRecordPayloadSize, MaxRecordSize, SizeHeader in *; lia).
  rewrite (take_ge l) by (unfold SizeHeader; lia).
  apply slice_mid; [rewrite length_take; unfold SizeHeader; lia|done].
Qed.

Lemma wire_app a b : wire (a ++ b) = wire a ++ wire b.
Proof. unfold wire. by rewrite map_app, concat_app. Qed.

#[local] Ltac dcbn :=
  cbn [set_pc set_stop ctxCancel doppel_Write cause d_stats d_out d_buf d_pc writeStream done d_signals d_stop] in *.

Lemma truncated_nil : truncated [].
Proof. exists Byte.x00, [], 0%nat. split_and!; [done|done|]. rewrite length_record. lia. Qed.

Lemma wire_records_snoc ps l : wire (records (ps ++ [l])) = wire (records ps) ++ record TypeApplicationData l.
Proof. unfold records. rewrite map_app, wire_app. cbn [map]. unfold wire at 2. cbn. by rewrite app_nil_r. Qed.

(** Steps that only move the goroutine or the callers. *)
Lemma doppel_inv_same c c' acc ps part :
  doppel_inv c acc ps part -> d_out c' = d_out c -> d_buf c' = d_buf c -> writeStream c' = writeStream c ->
  (d_pc c' = d_pc c \/ (exists size, d_pc c = PSleep size /\ d_pc c' = PCheck size)) -> doppel_inv c' acc ps part.
Proof.
  intros [Ho Hs Hb Hpc (lost & Ha & Hl & Hp) [Ht Hn]] H1 H2 H3 H4. destruct H4 as [H4|(size & H4 & H5)].
  - constructor; rewrite ?H1, ?H2, ?H4; try done. exists lost. rewrite H3. unfold inflight. by rewrite H2, H4.
  - rewrite H4 in *. unfold inflight in Hl. rewrite H4 in Hl.
    constructor; rewrite ?H1, ?H2, ?H3, ?H5; try done; [|by split; [|intros _; apply Hn]].
    exists lost. unfold inflight. rewrite H5. split_and!; [done| |done]. intros _. by apply Hl.
Qed.

Lemma wake_pc c : d_pc (wake c) = d_pc c \/ exists size, d_pc c = PSleep size /\ d_pc (wake c) = PCheck size.
Proof. unfold wake. destruct (d_pc c) eqn:E; rewrite ?E; auto. right. by exists size. Qed.

Lemma wake_same c :
  d_out (wake c) = d_out c /\ d_buf (wake c) = d_buf c /\ writeStream (wake c) = writeStream c /\ done (wake c) = done c /\
  d_signals (wake c) = d_signals c /\ d_stop (wake c) = d_stop c /\ cause (wake c) = cause c /\ forall size, d_pc (wake c) <> PSleep size.
Proof. unfold wake. destruct (d_pc c) eqn:E; split_and!; try done; by rewrite ?E. Qed.

Lemma signal_inv c c' acc ps part : doppel_inv c acc ps part -> doppel_Signal c = Some c' -> doppel_inv c' acc ps part.
Proof.
  intros Hi Hs. unfold doppel_Signal in Hs. destruct (d_signals c) as [|n]; [done|]. injection Hs as <-.
  match goal with |- doppel_inv (wake ?x) _ _ _ => destruct (wake_same x) as (H1 & H2 & H3 & _); pose proof (wake_pc x) as H4 end.
  eapply doppel_inv_same; [exact Hi|done..].
Qed.

Lemma stop_inv c c' acc ps part : doppel_inv c acc ps part -> Stop_step c = Some c' -> doppel_inv c' acc ps part.
Proof.
  intros Hi Hs. unfold Stop_step in Hs. destruct (d_stop c); simplify_eq.
  - eapply doppel_inv_same; [exact Hi|done..|by left].
  - eapply doppel_inv_same; [exact Hi|done..|by left].
  - destruct (wake_same (set_stop StWaiting c)) as (H1 & H2 & H3 & _). eapply doppel_inv_same; [exact Hi|done..|apply (wake_pc (set_stop StWaiting c))].
  - destruct (d_pc c) eqn:E; simplify_eq. eapply doppel_inv_same; [exact Hi|done..|by left].
Qed.

(** The goroutine at its select and at the lock. *)
Lemma timer_inv now rnd ready werr c c' acc ps part :
  0 <= rnd < DRSNoise -> doppel_inv c acc ps part -> d_pc c = PTimer -> start_step now rnd ready werr c = Some c' -> doppel_inv c' acc ps part.
Proof.
  intros Hr [Ho Hs Hb Hpc (lost & Ha & Hl & Hp) [Ht Hn]] Epc Hst. unfold start_step in Hst. unfold inflight in Hl. rewrite Epc in *.
  rewrite (Hl ltac:(done)), (Hn ltac:(done)) in *. pose proof (Size_bounds now rnd (d_stats c) Hr) as Hsz.
  destruct (Size now rnd (d_stats c)) as [size st]. cbn in Hsz.
  destruct (cause c), ready; simplify_eq; constructor; dcbn; try done; try (by exists []); lia.
Qed.

Lemma check_inv now rnd ready werr c c' acc ps part size :
  doppel_inv c acc ps part -> d_pc c = PCheck size -> start_step now rnd ready werr c = Some c' -> doppel_inv c' acc ps part.
Proof.
  intros [Ho Hs Hb Hpc (lost & Ha & Hl & Hp) [Ht Hn]] Epc Hst. unfold start_step in Hst. unfold inflight in Hl. rewrite Epc in *.
  rewrite (Hl ltac:(done)), (Hn ltac:(done)) in *. cbn [app] in Ha.
  destruct (_ && _); [injection Hst as <-; constructor; dcbn; try done; by exists []|].
  destruct (length (take size (writeStream c)) =? 0)%nat eqn:E0; simplify_eq.
  - constructor; dcbn; try done. by exists [].
  - apply Nat.eqb_neq in E0. set (l := take size (writeStream c)) in *.
    assert (1 <= length l <= MaxRecordPayloadSize)%nat as Hln by (split; [lia|]; unfold l; rewrite length_take; lia).
    constructor; dcbn; try done.
    + by rewrite length_copy_at.
    + by exists l, (d_buf c).
    + exists l. split_and!; [unfold l; by rewrite take_drop| |apply prefix_nil]. intros _. symmetry.
      apply (inflight_copy _ l (d_buf c)); dcbn; (done || lia).
Qed.

(** A record is written, or a beginning of it before an error. *)
Lemma write_inv now rnd ready werr c c' acc ps part n :
  doppel_inv c acc ps part -> d_pc c = PWrite n -> start_step now rnd ready werr c = Some c' -> exists ps' part', doppel_inv c' acc ps' part'.
Proof.
  intros [Ho Hs Hb Hpc (lost & Ha & Hl & Hp) [Ht Hn]] Epc Hst. unfold start_step in Hst. rewrite Epc in *.
  destruct Hpc as (l & buf & Hln & Hbl & -> & He). rewrite (Hn ltac:(done)) in *. rewrite app_nil_r in Ho.
  assert (lost = l) as -> by (rewrite Hl by done; apply (inflight_copy c l buf); [done|lia|done..]).
  rewrite He, WriteRecordInPlace_record in Hst by (done || lia).
  assert (rec_ok (TypeApplicationData, l)) as Hrec by (unfold rec_ok, MaxRecordPayloadSize, MaxRecordSize in *; cbn [snd]; lia).
  assert (forall d, d_pc d <> PWrite (length l) -> d_out d = d_out c ++ record TypeApplicationData l -> writeStream d = writeStream c ->
    length (d_buf d) = MaxRecordSize -> (d_pc d = PTimer \/ d_pc d = PDone) -> doppel_inv d acc (ps ++ [l]) []) as Hfull.
  { intros d _ Hd1 Hd2 Hd3 Hd4. constructor; rewrite ?Hd1, ?Hd2, ?Hd3.
    - by rewrite Ho, app_nil_r, wire_records_snoc.
    - apply Forall_app. split; [done|]. by apply Forall_singleton.
    - done.
    - by destruct Hd4 as [-> | ->].
    - exists []. rewrite concat_app. cbn. rewrite app_nil_r, <-!app_assoc. unfold inflight.
      split_and!; [done|by destruct Hd4 as [-> | ->]|apply prefix_nil].
    - split; [apply truncated_nil|done]. }
  destruct werr as [[k e]|]; injection Hst as <-.
  - destruct (decide (k < length (record TypeApplicationData l))%nat) as [Hk|Hk].
    + exists ps, (take k (record TypeApplicationData l)). constructor; dcbn; try done.
      * by rewrite Ho.
      * by rewrite length_copy_at.
      * exists l. split_and!; [done|done|]. exists (drop k (record TypeApplicationData l)). by rewrite take_drop.
      * split; [|done]. by exists TypeApplicationData, l, k.
    + exists (ps ++ [l]), []. apply Hfull; dcbn; [done|by rewrite take_ge by lia|done|by rewrite length_copy_at|by right].
  - exists (ps ++ [l]), []. apply Hfull; dcbn; [done|done|done|by rewrite length_copy_at|by left].
Qed.

Lemma doppel_inv_step c acc ps part c' acc' :
  doppel_inv c acc ps part -> dstep (c, acc) (c', acc') -> exists ps' part', doppel_inv c' acc' ps' part'.
Proof.
  intros Hi Hstep. inversion Hstep as [? ? p|? ? ? Hsg|? ? e|? ? ? Hsp|? ? now rnd ready werr ? Hr Hst]; subst; clear Hstep.
  - exists ps, part. destruct p as [|b p]; [by rewrite app_nil_r|]. destruct Hi as [Ho Hs Hb Hpc (lost & Ha & Hl & Hp) Ht].
    constructor; dcbn; try done. exists lost. split_and!; [by rewrite <-Ha, <-!app_assoc|done|done].
  - exists ps, part. by eapply signal_inv.
  - exists ps, part. eapply doppel_inv_same; [exact Hi|done..|by left].
  - exists ps, part. by eapply stop_inv.
  - destruct (d_pc c) as [|size|size|n|] eqn:Epc.
    + exists ps, part. by eapply timer_inv.
    + exists ps, part. by eapply check_inv.
    + unfold start_step in Hst. by rewrite Epc in Hst.
    + by eapply write_inv.
    + unfold start_step in Hst. by rewrite Epc in Hst.
Qed.

Lemma doppel_inv_start stats buf : length buf = MaxRecordSize -> doppel_inv (NewConn stats buf) [] [] [].
Proof. intros Hb. constructor; try done; [exists []; split_and!; [done|done|apply prefix_nil]|split; [apply truncated_nil|done]]. Qed.

Lemma doppel_inv_reach x y : rtc dstep x y -> (exists ps part, doppel_inv x.1 x.2 ps part) -> exists ps part, doppel_inv y.1 y.2 ps part.
Proof.
  induction 1 as [|[c acc] [c' acc'] z Hs _ IH]; [done|]. intros (ps & part & Hi). apply IH. by apply (doppel_inv_step _ _ _ _ _ _ Hi).
Qed.

(** *** Wake-ups *)

(** A sleeper has nothing to do, or whoever gave it something has still to wake
    it; and how far [Stop] is. *)
Record sync_ok (c : connPayload) : Prop := {
  sync_sleep : forall size, d_pc c = PSleep size ->
    (writeStream c = [] \/ (0 < d_signals c)%nat) /\ (done c = false \/ d_stop c = StMarked);
  sync_done : done c = true <-> d_stop c <> NotStopped /\ d_stop c <> StCancelled;
  sync_cause : d_stop c <> NotStopped -> cause c <> None
}.

Lemma sync_ok_step c acc c' acc' : sync_ok c -> dstep (c, acc) (c', acc') -> sync_ok c'.
Proof.
  intros [Hsl Hdn Hca] Hstep. inversion Hstep as [? ? p|? ? ? Hsg|? ? e|? ? ? Hsp|? ? now rnd ready werr ? Hr Hst]; subst; clear Hstep.
  - destruct p as [|b p]; [done|]. constructor; dcbn; try done. intros size Hpc. destruct (Hsl size Hpc). split; [right; lia|done].
  - unfold doppel_Signal in Hsg. destruct (d_signals c) as [|n]; [done|]. injection Hsg as <-.
    match goal with |- sync_ok (wake ?x) => destruct (wake_same x) as (_ & _ & _ & H4 & _ & H6 & H7 & H8) end.
    constructor; rewrite ?H4, ?H6, ?H7; dcbn; try done. intros size Hpc. by destruct (H8 size).
  - constructor; dcbn; try done. intros H. apply Hca in H. by destruct (cause c).
  - unfold Stop_step in Hsp. destruct (d_stop c) eqn:Es; simplify_eq.
    + constructor; dcbn; try done.
      * intros size Hpc. destruct (Hsl size Hpc) as [? [?|?]]; [|done]. split; [done|by left].
      * rewrite Hdn. naive_solver.
      * intros _. by destruct (cause c).
    + constructor; dcbn; try done.
      * intros size Hpc. destruct (Hsl size Hpc) as [? _]. split; [done|by right].
      * intros _. by apply Hca.
    + destruct (wake_same (set_stop StWaiting c)) as (_ & _ & _ & H4 & _ & H6 & H7 & H8).
      constructor; rewrite ?H4, ?H6, ?H7; dcbn; try done; [intros size Hpc; by destruct (H8 size)|rewrite Hdn; naive_solver|].
      intros _. by apply Hca.
    + destruct (d_pc c) eqn:E; simplify_eq. constructor; dcbn; rewrite ?E; try done; [rewrite Hdn; naive_solver|]. intros _. by apply Hca.
  - unfold start_step in Hst. destruct (d_pc c) as [|size|size|n|] eqn:Epc; try done.
    + destruct (Size now rnd (d_stats c)). destruct (cause c) eqn:Ec, ready; simplify_eq; constructor; dcbn; rewrite ?Ec in *; try done.
    + destruct ((length (writeStream c) =? 0)%nat && negb (done c)) eqn:E; simplify_eq.
      * constructor; dcbn; try done. intros sz _. apply andb_true_iff in E as [E1%Nat.eqb_eq E2%negb_true_iff].
        split; left; [by apply nil_length_inv|done].
      * destruct (length (take _ _) =? 0)%nat; simplify_eq; constructor; dcbn; try done.
    + destruct (WriteRecordInPlace _ _) as [rec|e0]; [destruct werr as [[k e]|]|]; simplify_eq; constructor; dcbn; try done;
        intros Hns; apply Hca in Hns; by destruct (cause c).
Qed.

Lemma sync_ok_reach x y : rtc dstep x y -> sync_ok x.1 -> sync_ok y.1.
Proof. induction 1 as [|[c acc] [c' acc'] z Hs _ IH]; [done|]. intros Hi. apply IH. by eapply sync_ok_step. Qed.

Lemma sync_ok_start stats buf : sync_ok (NewConn stats buf).
Proof. constructor; dcbn; try done. naive_solver. Qed.

(** Only a sleeper and a goroutine that has returned cannot go on. *)
Lemma start_step_enabled now rnd ready werr c :
  d_pc c <> PDone -> (forall size, d_pc c <> PSleep size) -> is_Some (start_step now rnd ready werr c).
Proof.
  intros Hpc Hsl. unfold start_step. destruct (d_pc c) as [|size|size|n|]; [| |by destruct (Hsl size)| |done].
  - destruct (Size _ _ _). destruct (cause c), ready; eauto.
  - destruct (_ && _); [by eexists|]. case_match; eauto.
  - destruct (WriteRecordInPlace _ _), werr as [[? ?]|]; eauto.
Qed.

(** A sleeper with something to do is woken by a call that is still to be
    made. *)
Lemma sleeper_woken c size :
  sync_ok c -> d_pc c = PSleep size -> writeStream c <> [] \/ done c = true ->
  exists c', (doppel_Signal c = Some c' \/ d_stop c = StMarked /\ Stop_step c = Some c') /\ d_pc c' = PCheck size.
Proof.
  intros Hok Hpc Hwork. destruct (sync_sleep _ Hok size Hpc) as [H1 H2]. destruct Hwork as [Hw|Hd].
  - destruct H1 as [?|H1]; [done|]. unfold doppel_Signal. destruct (d_signals c); [lia|]. eexists.
    split; [left; reflexivity|]. unfold wake. dcbn. by rewrite Hpc.
  - destruct H2 as [?|H2]; [congruence|]. eexists. unfold Stop_step. rewrite H2. split; [right; split; reflexivity|]. unfold wake. dcbn. by rewrite Hpc.
Qed.

(** Once [Stop] waits, the goroutine returns after at most three steps of its
    own. *)
Lemma stop_ends now c acc ps part :
  doppel_inv c acc ps part -> sync_ok c -> d_stop c = StWaiting ->
  exists n c', (n <= 3)%nat /\ start_run n now c = Some c' /\ d_pc c' = PDone.
Proof.
  intros Hi Hok Hs. pose proof (sync_cause _ Hok) as Hc. pose proof (proj2 (sync_done _ Hok)) as Hd. rewrite Hs in Hc, Hd.
  specialize (Hc ltac:(done)). specialize (Hd ltac:(done)). destruct (cause c) as [e|] eqn:Ec; [|done].
  assert (forall d, d_pc d = PTimer -> cause d <> None -> exists d', start_run 1 now d = Some d' /\ d_pc d' = PDone) as Ht.
  { intros d Hpc Hcd. simpl. unfold start_step. rewrite Hpc. destruct (cause d); [|done]. simpl. by eexists. }
  assert (forall d, (exists n, d_pc d = PWrite n) -> cause d <> None -> exists n d', (n <= 2)%nat /\ start_run n now d = Some d' /\ d_pc d' = PDone) as Hw.
  { intros d [n Hpc] Hcd. destruct (WriteRecordInPlace (d_buf d) n) as [rec|e'] eqn:E.
    - assert (exists d1, start_step now 0 false None d = Some d1 /\ d_pc d1 = PTimer /\ cause d1 = cause d) as (d1 & H1 & H2 & H3)
        by (unfold start_step; rewrite Hpc, E; by eexists).
      destruct (Ht d1 H2 ltac:(by rewrite H3)) as (d2 & H4 & H5). exists 2%nat, d2. split; [lia|].
      change (start_run 2 now d) with (c' ← start_step now 0 false None d; start_run 1 now c'). by rewrite H1.
    - exists 1%nat. simpl. unfold start_step. rewrite Hpc, E. simpl. eexists. split_and!; [lia|done|done]. }
  destruct (d_pc c) as [|size|size|n|] eqn:Epc.
  - destruct (Ht c Epc ltac:(by rewrite Ec)) as (d & H1 & H2). exists 1%nat, d. split; [lia|done].
  - assert (exists d1, start_step now 0 false None c = Some d1 /\ cause d1 = cause c /\ (d_pc d1 = PTimer \/ exists n, d_pc d1 = PWrite n)) as (d1 & H1 & H2 & H3).
    { unfold start_step. rewrite Epc, Hd, andb_false_r. destruct (length (take _ _) =? 0)%nat; eexists; (split; [done|]); dcbn; eauto. }
    destruct H3 as [H3|H3].
    + destruct (Ht d1 H3 ltac:(by rewrite H2, Ec)) as (d2 & H4 & H5). exists 2%nat, d2. split; [lia|].
      change (start_run 2 now c) with (c' ← start_step now 0 false None c; start_run 1 now c'). by rewrite H1.
    + destruct (Hw d1 H3 ltac:(by rewrite H2, Ec)) as (n & d2 & Hn & H4 & H5). exists (S n), d2. split; [lia|].
      simpl. by rewrite H1.
  - destruct (sync_sleep _ Hok size Epc) as [_ [?|?]]; congruence.
  - destruct (Hw c ltac:(by eexists) ltac:(by rewrite Ec)) as (k & d & Hk & H1 & H2). exists k, d. split; [lia|done].
  - exists 0%nat, c. split; [lia|done].
Qed.

(** *** Reading records of which the last is cut off *)

Lemma ReadRecord_truncated part e : truncated part -> exists e' w s, ReadRecord (mkSource part e) = (Fail e', w, s) /\ (part = [] -> e' = e).
Proof.
  intros (t & p & k & Hok & -> & Hk). rewrite length_record in Hk. unfold rec_ok in Hok. cbn [snd] in Hok.
  unfold ReadRecord, read_full. change SizeHeader with 5%nat. cbn [avail fin]. rewrite length_take, length_record.
  destruct (5 <=? Nat.min k (5 + length p))%nat eqn:E.
  - apply Nat.leb_le in E. pose proof (length_be_split 2 (Z.of_nat (length p))) as Hl.
    assert (be_combine (be_split 2 (Z.of_nat (length p))) = Z.of_nat (length p)) as Hv by (apply be_combine_split; lia).
    assert (exists x y, record t p = [t; Byte.x03; Byte.x03; x; y] ++ p /\ be_split 2 (Z.of_nat (length p)) = [x; y]) as (x & y & Hrec & Hxy).
    { unfold record, TLSVersion. destruct (be_split 2 _) as [|x [|y [|]]]; try done. by exists x, y. }
    rewrite take_take, Hrec. replace (Nat.min 5 k) with 5%nat by lia.
    change (take 5 ([t; Byte.x03; Byte.x03; x; y] ++ p)) with [t; Byte.x03; Byte.x03; x; y].
    change (slice 1 3 [t; Byte.x03; Byte.x03; x; y]) with TLSVersion. rewrite bool_decide_true by done. cbv zeta.
    change (slice 3 5 [t; Byte.x03; Byte.x03; x; y]) with [x; y]. rewrite <- Hxy, Hv, Nat2Z.id. unfold copy_n. cbn [avail fin].
    rewrite length_drop, length_take, length_app. cbn [length]. rewrite (proj2 (Nat.leb_gt _ _)) by lia.
    eexists _, _, _. split; [reflexivity|]. intros Hn. apply (f_equal length) in Hn. rewrite length_take, length_app in Hn. simpl in Hn. lia.
  - eexists _, _, _. split; [reflexivity|]. intros Hn. apply (f_equal length) in Hn. rewrite length_take, length_record in Hn. simpl in Hn.
    assert (k = 0%nat) as -> by lia. done.
Qed.

Lemma Conn_Read_truncated rs fuel p part e :
  Forall rec_ok rs -> truncated part -> (length rs < fuel)%nat -> app_data rs = [] ->
  exists e' c, Conn_Read fuel p (mkTLS [] (mkSource (wire rs ++ part) e)) = Some (Fail e', c) /\ (part = [] -> e' = e).
Proof.
  intros Hok Htr. revert fuel. induction Hok as [|[t q] rs Hr Hok IH]; intros fuel Hf He; (destruct fuel as [|fuel]; [simpl in Hf; lia|]).
  - destruct (ReadRecord_truncated part e Htr) as (e' & w & s & Hrd & Hn). cbn [Conn_Read readBuf conn_src]. change (wire [] ++ part) with part.
    rewrite Hrd. by eexists _, _.
  - cbn [app_data map concat fst snd] in He. apply app_eq_nil in He as [Hq He].
    cbn [Conn_Read readBuf conn_src]. rewrite wire_cons, <-app_assoc, ReadRecord_record by done.
    rewrite Hq. apply IH; [simpl in Hf; lia|done].
Qed.

(** Reads of a stream of records with a cut-off one behind it. *)
Lemma read_many_truncated ps rs buf part e :
  Forall rec_ok rs -> truncated part -> Forall (fun p => 0 < p)%nat ps ->
  exists l err c, read_many ps (mkTLS buf (mkSource (wire rs ++ part) e)) = Some (l, err, c) /\
    (err = None -> (length ps <= length l)%nat /\ exists rest, buf ++ app_data rs = l ++ rest) /\
    (forall e', err = Some e' -> l = buf ++ app_data rs /\ (part = [] -> e' = e)).
Proof.
  intros Hok Htr Hps. revert rs buf Hok. induction Hps as [|p ps Hp _ IH]; intros rs buf Hok.
  { exists [], None. eexists. split; [done|]. split; [eauto with lia|done]. }
  cbn [read_many]. pose proof (wire_fuel rs Hok) as Hf.
  assert (length rs < read_fuel (mkTLS buf (mkSource (wire rs ++ part) e)))%nat as Hlt by (unfold read_fuel; simpl; rewrite length_app; lia).
  destruct (decide (buf ++ app_data rs = [])) as [Hnil|Hne].
  - apply app_eq_nil in Hnil as [-> Hnil]. destruct (Conn_Read_truncated rs _ p part e Hok Htr Hlt Hnil) as (e' & c & -> & Hn). simpl.
    exists [], (Some e'), c. rewrite Hnil. split; [done|]. split; [done|]. by intros e'' [= <-].
  - destruct (Conn_Read_stream rs _ p buf part e Hok Hp Hlt Hne) as (l & buf' & rs' & H1 & H2 & _ & H4 & H5 & _).
    rewrite H1. simpl. destruct (IH rs' buf' H5) as (l' & err & c & -> & Hn & He). simpl. exists (l ++ l'), err, c. split; [done|].
    rewrite H4. split.
    + intros Hnone. destruct (Hn Hnone) as (Hlen & rest & ->). rewrite length_app.
      split; [destruct l; [done|simpl; lia]|]. exists rest. by rewrite app_assoc.
    + intros e' Hs. destruct (He e' Hs) as [-> He']. done.
Qed.

Lemma app_data_records ps : app_data (records ps) = concat ps.
Proof.
  unfold app_data, records. rewrite map_map. cbn [fst snd]. rewrite bool_decide_true by done. by rewrite map_id.
Qed.

(** What a reader of the shaped connection gets. *)
Lemma doppel_read c acc ps part ns e :
  doppel_inv c acc ps part -> Forall (fun p => 0 < p)%nat ns ->
  exists l err c', read_many ns (mkTLS [] (mkSource (d_out c) e)) = Some (l, err, c') /\ l `prefix_of` acc /\ (err <> None -> l = concat ps).
Proof.
  intros [Ho Hs _ _ (lost & Ha & _) [Htr _]] Hns.
  assert (Forall rec_ok (records ps)) as Hok.
  { unfold records. apply Forall_map. eapply Forall_impl; [exact Hs|]. intros p Hp. unfold rec_ok. cbn [snd].
    unfold MaxRecordPayloadSize, MaxRecordSize in Hp. lia. }
  destruct (read_many_truncated ns (records ps) [] part e Hok Htr Hns) as (l & err & c' & Hread & H1 & H2). rewrite app_data_records in *.
  exists l, err, c'. rewrite Ho. split_and!; [done| |].
  - destruct err as [e'|]; [destruct (H2 e' eq_refl) as [-> _]; by eexists|].
    destruct (H1 eq_refl) as [_ [rest Hrest]]. cbn in Hrest. exists (rest ++ lost ++ writeStream c). rewrite <-Ha, Hrest. by rewrite <-app_assoc.
  - intros He. destruct err as [e'|]; [|done]. by destruct (H2 e' eq_refl) as [-> _].
Qed.


(** ** Examples *)

Definition demo_start : connPayload := NewConn (mkStats 0 0 true) (replicate MaxRecordSize Byte.xff).

(** The goroutine falls asleep, two bytes wake it and are sent, one more is
    queued. *)
Definition demo_run : option (connPayload * list byte) :=
  c ← start_step 0 7 true None demo_start; c ← start_step 0 7 true None c;
  c ← doppel_Signal (doppel_Write [Byte.x41; Byte.x42] c);
  c ← start_step 0 7 true None c; c ← start_step 0 7 true None c;
  Some (doppel_Write [Byte.x43] c, [Byte.x41; Byte.x42; Byte.x43]).

Lemma demo_run_reach c acc : demo_run = Some (c, acc) -> rtc dstep (demo_start, []) (c, acc).
Proof.
  unfold demo_run. intros H. apply bind_Some in H as (c1 & H1 & H). apply bind_Some in H as (c2 & H2 & H).
  apply bind_Some in H as (c3 & H3 & H). apply bind_Some in H as (c4 & H4 & H). apply bind_Some in H as (c5 & H5 & H). simplify_eq.
  eapply rtc_l; [eapply (dstep_start _ _ 0 7 true None); [unfold DRSNoise; lia|exact H1]|].
  eapply rtc_l; [eapply (dstep_start _ _ 0 7 true None); [unfold DRSNoise; lia|exact H2]|].
  eapply rtc_l; [apply (dstep_write _ [] [Byte.x41; Byte.x42])|]. cbn [app].
  eapply rtc_l; [eapply dstep_signal; exact H3|].
  eapply rtc_l; [eapply (dstep_start _ _ 0 7 true None); [unfold DRSNoise; lia|exact H4]|].
  eapply rtc_l; [eapply (dstep_start _ _ 0 7 true None); [unfold DRSNoise; lia|exact H5]|].
  eapply rtc_l; [apply (dstep_write _ _ [Byte.x43])|]. constructor.
Qed.


(** What is queued when [Stop] ends the goroutine is never sent, although its
    [Write] reported no error. *)
Lemma stop_drops_queue :
  exists c acc, rtc dstep (demo_start, []) (c, acc) /\ d_pc c = PDone /\ writeStream c = [Byte.x41] /\ acc = [Byte.x41] /\ d_out c = [] /\
    Write_result [Byte.x41] (doppel_Write [Byte.x41] demo_start) = (1%nat, None).
Proof.
  eexists _, _. split.
  - eapply rtc_l; [apply (dstep_write _ [] [Byte.x41])|]. cbn [app]. eapply rtc_l; [by apply dstep_signal|].
    eapply rtc_l; [by apply dstep_stop|]. eapply rtc_l; [by apply dstep_stop|].
    eapply rtc_l; [eapply (dstep_start _ _ 0 0 false None); [unfold DRSNoise; lia|reflexivity]|]. constructor.
  - done.
Qed.

(** ** Noise parameters *)

Lemma foldl_max_dev mean l m :
  m <= foldl (fun m s => Z.max m (Z.abs (s - mean))) m l /\
  Forall (fun s => Z.abs (s - mean) <= foldl (fun m s => Z.max m (Z.abs (s - mean))) m l) l.
Proof.
  revert m. induction l as [|s l IH]; intros m; cbn [foldl]; [split; [lia|constructor]|].
  destruct (IH (Z.max m (Z.abs (s - mean)))) as [H1 H2]. split; [lia|]. constructor; [lia|done].
Qed.

(** Every measured size lies within the jitter of the mean. *)
Lemma updateNoiseParams_bounds sizes mean jitter :
  updateNoiseParams sizes = Some (mean, jitter) -> 100 <= jitter /\ Forall (fun s => mean - jitter <= s <= mean + jitter) sizes.
Proof.
  destruct (decide (sizes = [])) as [->|Hne]; [done|].
  assert (updateNoiseParams sizes = let mean := Z.quot (foldl Z.add 0 sizes) (Z.of_nat (length sizes)) in
    let dev := foldl (fun m s => Z.max m (Z.abs (s - mean))) 0 sizes in Some (mean, if dev <? 100 then 100 else dev)) as -> by (by destruct sizes).
  cbv zeta. intros [= -> <-]. destruct (foldl_max_dev mean sizes 0) as [_ Hd].
  set (dev := foldl _ 0 sizes) in *. clearbody dev. destruct (dev <? 100) eqn:E; zbool; (split; [lia|]);
    (eapply Forall_impl; [exact Hd|]; intros s Hs; cbn beta in Hs; lia).
Qed.
