(* ===== verification/Scout.v ===== *)
(** * Scouting: mtglib/internal/doppel/scout.go, scout_conn.go, scout_conn_collected.go

    A scout fetches a web page over a connection that notes the type, length and
    time of every TLS record it reads, and derives from the notes the pauses of
    the server and the size of its certificate messages.  The HTTP and TLS client
    above the connection is any sequence of reads and writes. *)

From S2P Require Import Prelude GoTime GoStrings GoIO TLS.

(** ** The notes: scout_conn_collected.go *)

Record ScoutConnResult := mkResult { timestamp : Z; recordType : byte; payloadLen : Z }.

Record ScoutConnCollected := mkCollected { sc_data : list ScoutConnResult; writeIndex : Z }.

Definition NewScoutConnCollected : ScoutConnCollected := mkCollected [] (-1).

Definition Add (now : Z) (record : byte) (len : Z) (s : ScoutConnCollected) : ScoutConnCollected :=
  mkCollected (sc_data s ++ [mkResult now record len]) (writeIndex s).

Definition MarkWrite (s : ScoutConnCollected) : ScoutConnCollected :=
  if writeIndex s <? 0 then mkCollected (sc_data s) (Z.of_nat (length (sc_data s))) else s.

Definition Snapshot (s : ScoutConnCollected) : list ScoutConnResult * Z := (sc_data s, writeIndex s).

(** ** The connection: scout_conn.go *)

(** [sc_src] is what the server still sends, [sc_sent] what was written to it. *)
Record ScoutConn := mkScoutConn { rawBuf : list byte; seenCCS : bool; sc_src : source; sc_sent : list byte }.

Definition NewScoutConn (src : source) : ScoutConn := mkScoutConn [] false src [].

(** [Read] of at most [p] bytes, at a time: a round of the loop gives what is
    buffered or reads a record.  The copy of the header always has room for the
    length, which was read from two bytes. *)
Fixpoint scout_Read (fuel p : nat) (now : Z) (c : ScoutConn) (r : ScoutConnCollected) :
    option (res (list byte) * ScoutConn * ScoutConnCollected) :=
  match fuel with
  | O => None
  | S fuel =>
      match rawBuf c with
      | _ :: _ => Some (Ok (take p (rawBuf c)), mkScoutConn (drop p (rawBuf c)) (seenCCS c) (sc_src c) (sc_sent c), r)
      | [] =>
          if (p =? 0)%nat then Some (Ok [], c, r) else
          match ReadRecord (sc_src c) with
          | (Fail e, _, s) => Some (Fail e, mkScoutConn [] (seenCCS c) s (sc_sent c), r)
          | (Ok typ, buf, s) =>
              let len := Z.of_nat (length buf) in
              let seen := if bool_decide (typ = TypeChangeCipherSpec) then true else seenCCS c in
              let raw := [typ] ++ TLSVersion ++ be_split 2 (uwrap 16 len) ++ buf in
              scout_Read fuel p now (mkScoutConn raw seen s (sc_sent c)) (Add now typ len r)
          end
      end
  end.

Definition scout_Write (p : list byte) (c : ScoutConn) (r : ScoutConnCollected) : ScoutConn * ScoutConnCollected :=
  (mkScoutConn (rawBuf c) (seenCCS c) (sc_src c) (sc_sent c ++ p), if seenCCS c then MarkWrite r else r).

(** ** Measuring: scout.go *)

Record ScoutResult := mkScoutResult { Durations : list Z; CertSize : Z }.

Definition zeroResult : ScoutResult := mkScoutResult [] 0.

(** The first loop of [learn]: [prev] is the record before, [last] is
    [lastTimestamp]. *)
Fixpoint recordDurations (prev : option ScoutConnResult) (last : Z) (data : list ScoutConnResult) : list Z :=
  match data with
  | [] => []
  | v :: data =>
      if negb (bool_decide (recordType v = TypeApplicationData)) then recordDurations (Some v) last data
      else
        let last := if IsZeroTime last then timestamp (default v prev) else last in
        Sub (timestamp v) last :: recordDurations (Some v) (timestamp v) data
  end.

(** The second loop, over the records before the boundary. *)
Fixpoint certSizeLoop (seen : bool) (size : Z) (data : list ScoutConnResult) : Z :=
  match data with
  | [] => size
  | v :: data =>
      if bool_decide (recordType v = TypeChangeCipherSpec) then certSizeLoop true size data
      else certSizeLoop seen (if seen && bool_decide (recordType v = TypeApplicationData) then size + payloadLen v else size) data
  end.

Definition measure (collected : ScoutConnCollected) : ScoutResult :=
  let '(data, index) := Snapshot collected in
  match data with
  | [] => zeroResult
  | _ =>
      let boundary := if index <? 0 then length data else Z.to_nat index in
      mkScoutResult (recordDurations None zeroTime data) (certSizeLoop false 0 (take boundary data))
  end.

(** [learn]: [fetched] is the outcome of the request, with the notes of its
    connections. *)
Definition learn (url : string) (fetched : res ScoutConnCollected) : res ScoutResult :=
  if negb (HasPrefix url "https://") then Fail (Errorf "url must be https")
  else results ← fetched; Ok (measure results).

(** [Learn]: each URL with the outcome of its request; an error drops what was
    learned before it. *)
Fixpoint learnLoop (combined : ScoutResult) (urls : list (string * res ScoutConnCollected)) : res ScoutResult :=
  match urls with
  | [] => Ok combined
  | (url, fetched) :: urls =>
      learned ← learn url fetched;
      learnLoop (mkScoutResult (Durations combined ++ Durations learned)
                   (if (0 <? CertSize learned) && (CertSize combined =? 0) then CertSize learned else CertSize combined)) urls
  end.

Definition Learn (urls : list (string * res ScoutConnCollected)) : res ScoutResult := learnLoop zeroResult urls.

(** ** Runs *)

Inductive scout_op := SRead (p : nat) (now : Z) | SWrite (l : list byte).

(** The bytes that were read, and the error that ended the run. *)
Fixpoint scout_run (ops : list scout_op) (c : ScoutConn) (r : ScoutConnCollected) :
    option (list byte * option goerr * ScoutConn * ScoutConnCollected) :=
  match ops with
  | [] => Some ([], None, c, r)
  | SWrite l :: ops => let '(c, r) := scout_Write l c r in scout_run ops c r
  | SRead p now :: ops =>
      '(x, c, r) ← scout_Read 2 p now c r;
      match x with
      | Fail e => Some ([], Some e, c, r)
      | Ok l => '(l', e, c, r) ← scout_run ops c r; Some (l ++ l', e, c, r)
      end
  end.

Definition writes (ops : list scout_op) : list byte := concat (map (fun o => match o with SWrite l => l | SRead _ _ => [] end) ops).

(** The payload of the ApplicationData records after the first change of cipher. *)
Fixpoint after_ccs (rs : list (byte * list byte)) : list byte :=
  match rs with
  | [] => []
  | (t, _) :: rs => if bool_decide (t = TypeChangeCipherSpec) then app_data rs else after_ccs rs
  end.

Definition has_ccs (rs : list (byte * list byte)) : bool := existsb (fun r => bool_decide (r.1 = TypeChangeCipherSpec)) rs.

(** ** Proofs *)

Lemma ReadRecord_ok s t w s' :
  ReadRecord s = (Ok t, w, s') -> avail s = record t w ++ avail s' /\ rec_ok (t, w) /\ fin s' = fin s.
Proof.
  unfold ReadRecord. destruct (read_full SizeHeader s) as [[buf|e] s1] eqn:Hr; [|done].
  apply read_full_ok in Hr as (Ha & Hl & Hf). unfold SizeHeader in Hl.
  destruct buf as [|t' [|v1 [|v2 [|x [|y [|]]]]]]; try done. case_bool_decide as Hv; simpl; [|done].
  unfold copy_n. set (n := Z.to_nat (be_combine (slice 3 5 [t'; v1; v2; x; y]))).
  destruct (n <=? length (avail s1))%nat eqn:E; simpl; intros [= <- <- <-]; zbool.
  change (slice 1 3 [t'; v1; v2; x; y]) with [v1; v2] in Hv. unfold TLSVersion in Hv. injection Hv as -> ->.
  change (slice 3 5 [t'; Byte.x03; Byte.x03; x; y]) with [x; y] in n.
  pose proof (be_combine_bound [x; y]) as Hb. simpl length in Hb.
  assert (length (take n (avail s1)) = n) as Hn by (rewrite length_take; lia).
  split_and!; [|unfold rec_ok; simpl snd; rewrite Hn; unfold n; lia|done].
  rewrite Ha. unfold record. rewrite Hn. unfold n. rewrite Z2Nat.id by lia.
  assert (be_split 2 (be_combine [x; y]) = [x; y]) as Hxy by exact (be_split_combine [x; y]).
  cbn in Hxy. injection Hxy as Hx Hy. simpl. by rewrite Hx, Hy, take_drop.
Qed.

(** Two rounds of the loop are enough. *)
Lemma scout_Read_cases p now c r :
  (0 < p)%nat ->
  (exists l buf, rawBuf c = l ++ buf /\ l <> [] /\ (length l <= p)%nat /\
     scout_Read 2 p now c r = Some (Ok l, mkScoutConn buf (seenCCS c) (sc_src c) (sc_sent c), r)) \/
  (rawBuf c = [] /\ exists t w s l buf, avail (sc_src c) = record t w ++ avail s /\ rec_ok (t, w) /\ fin s = fin (sc_src c) /\
     record t w = l ++ buf /\ l <> [] /\ (length l <= p)%nat /\
     scout_Read 2 p now c r =
       Some (Ok l, mkScoutConn buf (bool_decide (t = TypeChangeCipherSpec) || seenCCS c) s (sc_sent c), Add now t (Z.of_nat (length w)) r)) \/
  (rawBuf c = [] /\ exists e s, (ReadRecord (sc_src c)).1.1 = Fail e /\
     scout_Read 2 p now c r = Some (Fail e, mkScoutConn [] (seenCCS c) s (sc_sent c), r)).
Proof.
  intros Hp. assert (forall l : list byte, l <> [] -> take p l <> []) as Hne by (intros [|b l] Hl; [done|]; by destruct p; [lia|]).
  cbn [scout_Read]. destruct (rawBuf c) as [|b raw] eqn:Hraw.
  - right. rewrite (proj2 (Nat.eqb_neq p 0)) by lia. destruct (ReadRecord (sc_src c)) as [[[t|e] w] s] eqn:Hr; [left|right]; (split; [done|]).
    + apply ReadRecord_ok in Hr as (Ha & Hok & Hf). unfold rec_ok in Hok. simpl in Hok. exists t, w, s, (take p (record t w)), (drop p (record t w)).
      split_and!; [done..|by rewrite take_drop|by apply Hne|rewrite length_take; lia|].
      rewrite uwrap_small by lia. cbn [rawBuf]. by case_bool_decide.
    + by exists e, s.
  - left. exists (take p (b :: raw)), (drop p (b :: raw)).
    split_and!; [by rewrite take_drop|by apply Hne|rewrite length_take; lia|done].
Qed.

(** What a run has done: the records that were read, the bytes given to the
    client, the notes. *)
Record scouted (s0 : source) (given : list byte) (sent : list byte) (rs : list (byte * list byte)) (c : ScoutConn) (r : ScoutConnCollected) : Prop := {
  sd_avail : avail s0 = wire rs ++ avail (sc_src c);
  sd_given : given ++ rawBuf c = wire rs;
  sd_sent : sc_sent c = sent;
  sd_ok : Forall rec_ok rs;
  sd_fin : fin (sc_src c) = fin s0;
  sd_ccs : seenCCS c = has_ccs rs;
  sd_data : map (fun v => (recordType v, payloadLen v)) (sc_data r) = map (fun x => (x.1, Z.of_nat (length x.2))) rs }.

Lemma scouted_start s : scouted s [] [] [] (NewScoutConn s) NewScoutConnCollected.
Proof. by split. Qed.

Lemma has_ccs_snoc rs t w : has_ccs (rs ++ [(t, w)]) = bool_decide (t = TypeChangeCipherSpec) || has_ccs rs.
Proof. unfold has_ccs. rewrite existsb_app. simpl. rewrite orb_false_r. apply orb_comm. Qed.

Lemma wire_snoc rs t w : wire (rs ++ [(t, w)]) = wire rs ++ record t w.
Proof. unfold wire. rewrite map_app, concat_app. simpl. by rewrite app_nil_r. Qed.

Lemma scouted_write s0 given sent rs c r l :
  scouted s0 given sent rs c r -> scouted s0 given (sent ++ l) rs (scout_Write l c r).1 (scout_Write l c r).2.
Proof.
  intros [Ha Hg Hs Hok Hf Hc Hd]. split; simpl; try done; [by rewrite Hs|].
  destruct (seenCCS c); [|done]. unfold MarkWrite. by case_match.
Qed.

(** Reading: either the client is given more of the stream, or the error of a
    record that is not whole. *)
Lemma scouted_read s0 given sent rs c r p now :
  (0 < p)%nat -> scouted s0 given sent rs c r ->
  exists x c' r' rs', scout_Read 2 p now c r = Some (x, c', r') /\ writeIndex r' = writeIndex r /\ (rs' = rs \/ exists y, rs' = rs ++ [y]) /\
    match x with
    | Ok l => l <> [] /\ (length l <= p)%nat /\ scouted s0 (given ++ l) sent rs' c' r'
    | Fail e => given = wire rs /\ rs' = rs /\ r' = r /\ seenCCS c' = seenCCS c /\ sc_sent c' = sent /\ (ReadRecord (sc_src c)).1.1 = Fail e
    end.
Proof.
  intros Hp [Ha Hg Hs Hok Hf Hc Hd].
  destruct (scout_Read_cases p now c r Hp) as [(l & buf & Hraw & Hl & Hn & ->)|[(Hraw & t & w & s & l & buf & Hav & Hrec & Hfin & Hlb & Hl & Hn & ->)|
    (Hraw & e & s & He & ->)]].
  - exists (Ok l), (mkScoutConn buf (seenCCS c) (sc_src c) (sc_sent c)), r, rs. split_and!; [done|done|by left|done|done|].
    split; simpl; try done. by rewrite <-Hg, Hraw, app_assoc.
  - eexists (Ok l), _, _, (rs ++ [(t, w)]). split_and!; [done|done|right; by eexists|done|done|]. rewrite Hraw, app_nil_r in Hg. split; simpl.
    + by rewrite wire_snoc, Ha, Hav, app_assoc.
    + by rewrite wire_snoc, <-app_assoc, <-Hlb, Hg.
    + done.
    + apply Forall_app. split; [done|]. by apply Forall_singleton.
    + by rewrite Hfin.
    + by rewrite has_ccs_snoc, Hc.
    + rewrite !map_app. by rewrite Hd.
  - rewrite Hraw, app_nil_r in Hg. eexists (Fail e), _, r, rs. split_and!; try done. by left.
Qed.

(** A run of reads and writes, seen through what it leaves behind. *)
Lemma scouted_run ops s0 given sent rs c r :
  Forall (fun o => match o with SRead p _ => (0 < p)%nat | SWrite _ => True end) ops -> scouted s0 given sent rs c r ->
  exists l e c' r' rs', scout_run ops c r = Some (l, e, c', r') /\ rs `prefix_of` rs' /\ wire rs' `prefix_of` avail s0 /\
    seenCCS c' = has_ccs rs' /\
    map (fun v => (recordType v, payloadLen v)) (sc_data r') = map (fun x => (x.1, Z.of_nat (length x.2))) rs' /\
    (0 <= writeIndex r -> writeIndex r' = writeIndex r) /\
    match e with
    | None => scouted s0 (given ++ l) (sent ++ writes ops) rs' c' r'
    | Some _ => given ++ l = wire rs' /\ sc_sent c' `prefix_of` sent ++ writes ops
    end.
Proof.
  intros Hops. revert given sent rs c r. induction Hops as [|[p now|w] ops Hp _ IH]; intros given sent rs c r Hsc; cbn [scout_run writes map concat].
  - exists [], None, c, r, rs. rewrite !app_nil_r. split_and!; try done; [|apply Hsc..]. rewrite (sd_avail _ _ _ _ _ _ Hsc). by eexists.
  - destruct (scouted_read s0 given sent rs c r p now Hp Hsc) as (x & c1 & r1 & rs1 & -> & Hw & Hrs & Hx). cbn [mbind option_bind].
    destruct x as [l1|e].
    + destruct Hx as (Hl1 & _ & Hsc1). destruct (IH _ _ _ _ _ Hsc1) as (l & e & c' & r' & rs' & -> & Hpre & Hwire & Hccs & Hd & Hi & He).
      cbn [mbind option_bind]. exists (l1 ++ l), e, c', r', rs'. rewrite Hw in Hi. rewrite app_assoc.
      split_and!; try done. destruct Hrs as [->|[y ->]]; [done|]. etrans; [|exact Hpre]. by eexists.
    + destruct Hx as (Hg & -> & -> & Hc & Hs & _). exists [], (Some e), c1, r, rs. rewrite app_nil_r.
      split_and!; try done; [|rewrite Hc; apply Hsc|apply Hsc|].
      * rewrite (sd_avail _ _ _ _ _ _ Hsc). by eexists.
      * rewrite Hs. by eexists.
  - pose proof (scouted_write _ _ _ _ _ _ w Hsc) as Hsc1. destruct (scout_Write w c r) as [c1 r1] eqn:Hwr. simpl in Hsc1.
    destruct (IH _ _ _ _ _ Hsc1) as (l & e & c' & r' & rs' & -> & Hpre & Hwire & Hccs & Hd & Hi & He).
    exists l, e, c', r', rs'. rewrite <-app_assoc in He. split_and!; try done.
    intros Hr. rewrite Hi; injection Hwr as _ <-; (destruct (seenCCS c); [|done]); unfold MarkWrite; rewrite (proj2 (Z.ltb_ge _ _)) by done; done.
Qed.

Lemma certSizeLoop_seen size data rs :
  map (fun v => (recordType v, payloadLen v)) data = map (fun x => (x.1, Z.of_nat (length x.2))) rs ->
  certSizeLoop true size data = size + Z.of_nat (length (app_data rs)).
Proof.
  revert size rs. induction data as [|v data IH]; intros size [|[t w] rs] Hd; try done; [simpl; lia|].
  injection Hd as Ht' Hlen Hd. simpl in Ht', Hlen. subst t. cbn [certSizeLoop].
  unfold app_data in *. cbn [map concat fst snd]. rewrite length_app.
  destruct (decide (recordType v = TypeApplicationData)) as [Ht|Ht].
  - rewrite Ht, (bool_decide_false (TypeApplicationData = _)), bool_decide_true by done. simpl. rewrite (IH _ rs) by done. rewrite Hlen. lia.
  - rewrite (bool_decide_false (recordType v = TypeApplicationData)) by done. simpl.
    case_bool_decide; (rewrite (IH _ rs) by done); lia.
Qed.

Lemma certSizeLoop_after data rs :
  map (fun v => (recordType v, payloadLen v)) data = map (fun x => (x.1, Z.of_nat (length x.2))) rs ->
  certSizeLoop false 0 data = Z.of_nat (length (after_ccs rs)).
Proof.
  revert rs. induction data as [|v data IH]; intros [|[t w] rs] Hd; try done.
  injection Hd as Ht' Hlen Hd. simpl in Ht', Hlen. subst t. cbn [certSizeLoop after_ccs].
  case_bool_decide; [by rewrite (certSizeLoop_seen _ _ rs)|by apply IH].
Qed.

Lemma scout_run_app ops1 ops2 c r l1 c1 r1 :
  scout_run ops1 c r = Some (l1, None, c1, r1) ->
  scout_run (ops1 ++ ops2) c r = '(l2, e, c2, r2) ← scout_run ops2 c1 r1; Some (l1 ++ l2, e, c2, r2).
Proof.
  revert c r l1. induction ops1 as [|[p now|w] ops1 IH]; intros c r l1; cbn [scout_run app].
  - intros [= <- <- <-]. by destruct (scout_run ops2 c r) as [[[[l2 e] c2] r2]|].
  - destruct (scout_Read 2 p now c r) as [[[[l|e] c'] r']|]; cbn [mbind option_bind]; [|done..].
    destruct (scout_run ops1 c' r') as [[[[l' e'] c''] r'']|] eqn:Hr; cbn [mbind option_bind]; [|done].
    intros [= <- -> -> ->]. rewrite (IH _ _ _ Hr). destruct (scout_run ops2 c1 r1) as [[[[l2 e2] c2] r2]|]; [|done].
    cbn [mbind option_bind]. by rewrite app_assoc.
  - destruct (scout_Write w c r). apply IH.
Qed.

Definition is_app (v : ScoutConnResult) : bool := bool_decide (recordType v = TypeApplicationData).

Lemma length_durations prev last data : length (recordDurations prev last data) = length (List.filter is_app data).
Proof.
  revert prev last. induction data as [|v data IH]; intros prev last; [done|]. cbn [recordDurations List.filter]. unfold is_app at 1.
  case_bool_decide; simpl; by rewrite IH.
Qed.

(** Consecutive differences, from a start. *)
Definition pauses (start : Z) (times : list Z) : list Z := zip_with Sub times (start :: times).

Definition app_times (data : list ScoutConnResult) : list Z := map timestamp (List.filter is_app data).

(** The time of the record before the first data record, or of that record if
    it is the first of all. *)
Fixpoint start_time (prev : option ScoutConnResult) (data : list ScoutConnResult) : Z :=
  match data with
  | [] => zeroTime
  | v :: data => if is_app v then timestamp (default v prev) else start_time (Some v) data
  end.

Lemma durations_last prev last data :
  IsZeroTime last = false -> Forall (fun v => IsZeroTime (timestamp v) = false) data ->
  recordDurations prev last data = pauses last (app_times data).
Proof.
  intros Hl Hd. revert prev last Hl. induction Hd as [|v data Hv _ IH]; intros prev last Hl; [done|].
  cbn [recordDurations]. unfold app_times in *. cbn [List.filter]. unfold is_app at 1. case_bool_decide; simpl; [|by apply IH].
  rewrite Hl, IH by done. done.
Qed.

Lemma durations_pauses prev data :
  Forall (fun v => IsZeroTime (timestamp v) = false) data ->
  recordDurations prev zeroTime data = pauses (start_time prev data) (app_times data).
Proof.
  intros Hd. revert prev. induction Hd as [|v data Hv Hd IH]; intros prev; [done|].
  cbn [recordDurations start_time]. unfold app_times in *. cbn [List.filter].
  change (bool_decide (recordType v = TypeApplicationData)) with (is_app v). destruct (is_app v); simpl; [|by apply IH].
  by rewrite durations_last by done.
Qed.

(** ** Claims *)

(** Scouting does not disturb, and measures.  A client reads and writes in
    any pieces; at some point it writes for the first time after the server's
    change of cipher.  Whatever follows: the client is given exactly the
    server's bytes, whole records, up to the first record that is cut short or
    of another version, where it gets the error; what it writes is sent
    unchanged; the certificate size is the number of ApplicationData bytes after
    the change of cipher and before that write; and there is one pause for each
    ApplicationData record. *)
Theorem scout_calibration s ops1 w ops2 g1 c1 r1 :
  Forall (fun o => match o with SRead p _ => (0 < p)%nat | SWrite _ => True end) (ops1 ++ SWrite w :: ops2) ->
  scout_run ops1 (NewScoutConn s) NewScoutConnCollected = Some (g1, None, c1, r1) -> seenCCS c1 = true -> writeIndex r1 < 0 ->
  exists given e c r rs rs2,
    scout_run (ops1 ++ SWrite w :: ops2) (NewScoutConn s) NewScoutConnCollected = Some (given, e, c, r) /\
    given `prefix_of` wire (rs ++ rs2) /\ wire (rs ++ rs2) `prefix_of` avail s /\ (e <> None -> given = wire (rs ++ rs2)) /\
    (e = None -> sc_sent c = writes (ops1 ++ SWrite w :: ops2)) /\ g1 ++ rawBuf c1 = wire rs /\
    CertSize (measure r) = Z.of_nat (length (after_ccs rs)) /\
    length (Durations (measure r)) = length (List.filter (fun x => bool_decide (x.1 = TypeApplicationData)) (rs ++ rs2)).
Proof.
  intros Hops H1 Hccs Hw. apply Forall_app in Hops as [Hops1 [_ Hops2]%Forall_cons].
  destruct (scouted_run ops1 s [] [] [] _ _ Hops1 (scouted_start s)) as (g & e0 & c0 & r0 & rs & Hr & _ & _ & _ & _ & _ & Hsc).
  rewrite H1 in Hr. injection Hr as <- <- <- <-. simpl in Hsc.
  assert (r1.(sc_data) = (MarkWrite r1).(sc_data) /\ writeIndex (MarkWrite r1) = Z.of_nat (length rs)) as [Hd1 Hw1].
  { unfold MarkWrite. rewrite (proj2 (Z.ltb_lt _ _)) by done. split; [done|]. simpl.
    pose proof (f_equal length (sd_data _ _ _ _ _ _ Hsc)) as Hl. rewrite !length_map in Hl. by rewrite Hl. }
  pose proof (scouted_write _ _ _ _ _ _ w Hsc) as Hsc1.
  rewrite (scout_run_app _ _ _ _ _ _ _ H1). cbn [scout_run]. unfold scout_Write in *. rewrite Hccs in *. cbn [fst snd] in *.
  destruct (scouted_run ops2 _ _ _ _ _ _ Hops2 Hsc1) as (l & e & c' & r' & rs' & -> & [rs2 ->] & Hwire & _ & Hd & Hi & He).
  cbn [mbind option_bind]. exists (g1 ++ l), e, c', r', rs, rs2. rewrite Hw1 in Hi. specialize (Hi ltac:(lia)).
  assert (length (sc_data r') = length (rs ++ rs2)) as Hlen by (pose proof (f_equal length Hd) as Hl; by rewrite !length_map in Hl).
  split_and!; [done| |done| | |by apply Hsc| |].
  - destruct e as [e|]; [destruct He as [-> _]; done|]. rewrite <-(sd_given _ _ _ _ _ _ He). by eexists.
  - intros Hne. destruct e as [e|]; [by destruct He|done].
  - intros ->. rewrite (sd_sent _ _ _ _ _ _ He). unfold writes. rewrite map_app, concat_app. simpl. by rewrite app_assoc.
  - unfold measure. simpl. destruct (sc_data r') as [|v data] eqn:Hdata; simpl.
    + destruct rs as [|]; [|done]. by destruct rs2.
    + rewrite <-Hdata in *. rewrite Hi, (proj2 (Z.ltb_ge _ _)), Nat2Z.id by lia. apply certSizeLoop_after.
      rewrite <-(take_app_length (map (fun x => (x.1, Z.of_nat (length x.2))) rs) (map (fun x => (x.1, Z.of_nat (length x.2))) rs2)).
      rewrite <-map_app, <-Hd, length_map. by rewrite firstn_map.
  - unfold measure, Snapshot. destruct (sc_data r') as [|v data] eqn:Hdata; cbn [Durations zeroResult length].
    + destruct rs as [|]; [|done]. by destruct rs2.
    + rewrite <-Hdata in *. rewrite length_durations. clear -Hd. revert Hd. generalize (rs ++ rs2) (sc_data r').
      intros l. induction l as [|[t x] l IH]; intros [|u d] Hd; try done. injection Hd as Ht _ Hd. simpl in Ht. simpl.
      unfold is_app at 1. rewrite Ht. case_bool_decide; simpl; by rewrite (IH d Hd).
Qed.

(** ** Witnesses *)

(** A change of cipher and three data records; the client writes after the
    second of them. *)
Definition demo_records : list (byte * list byte) :=
  [(TypeHandshake, [Byte.x02]); (TypeChangeCipherSpec, [Byte.x01]); (TypeApplicationData, [Byte.x0a; Byte.x0b]);
   (TypeApplicationData, [Byte.x0c]); (TypeApplicationData, [Byte.x0d])].

Definition demo_before : list scout_op :=
  [SWrite [Byte.x16]; SRead 100 1000; SRead 4 2000; SRead 4 2500; SRead 100 3000; SRead 100 4500].

Lemma scout_calibration_witness :
  exists given e c r,
    scout_run (demo_before ++ [SWrite [Byte.x17]; SRead 100 9000]) (NewScoutConn (mkSource (wire demo_records) EOF)) NewScoutConnCollected =
      Some (given, e, c, r) /\
    measure r = mkScoutResult [1000; 1500; 4500] 3 /\ given `prefix_of` wire demo_records.
Proof.
  destruct (scout_calibration (mkSource (wire demo_records) EOF) demo_before [Byte.x17] [SRead 100 9000]
    (wire (take 4 demo_records)) (mkScoutConn [] true (mkSource (wire (drop 4 demo_records)) EOF) [Byte.x16])
    (mkCollected [mkResult 1000 TypeHandshake 1; mkResult 2000 TypeChangeCipherSpec 1; mkResult 3000 TypeApplicationData 2;
                  mkResult 4500 TypeApplicationData 1] (-1)))
    as (given & e & c & r & rs & rs2 & Hrun & Hp & Hw & _ & _ & _ & _ & _).
  - repeat constructor; lia.
  - vm_compute. reflexivity.
  - reflexivity.
  - simpl. lia.
  - exists given, e, c, r. split; [exact Hrun|]. split; [|etrans; [exact Hp|exact Hw]].
    vm_compute in Hrun. injection Hrun as _ _ _ <-. reflexivity.
Defined.
