(* ===== verification/Ganger.v ===== *)
(** * Calibration: mtglib/internal/doppel/stats.go, ganger.go

    The [Ganger] owns the statistics of the shaper.  Its goroutine [run] starts
    raids of the scout, keeps the last measurements, has a Weibull distribution
    fitted to them by another goroutine and hands out shaped connections.  The
    goroutines and the callers of [NewConn] are interleaved at their channel
    operations; slices are kept in a heap, since the fitting goroutine shares the
    array of the durations with [run].

    Floating point is the Standard Library's [SpecFloat], without fused
    multiply-add; [math.Log] and [math.Pow] are parameters. *)

From S2P Require Import Prelude GoTime GoDuration Doppel Scout.
From Stdlib Require Import SpecFloat.

(** ** The distribution: stats.go *)

Definition fadd : float64 -> float64 -> float64 := SFadd 53 1024.
Definition fsub : float64 -> float64 -> float64 := SFsub 53 1024.

(** A decimal literal, as a quotient of integers that is rounded once. *)
Definition literal (num den : positive) : float64 := SFdiv 53 1024 (S754_finite false num 0) (S754_finite false den 0).

Definition StatsBisectTimes : nat := 70.
Definition StatsLowK : float64 := literal 1 100.
Definition StatsHighK : float64 := literal 10 1.
Definition MinDurationsToCalculate : nat := 100.
Definition StatsDefaultK : float64 := literal 37846373895785335 100000000000000000.
Definition StatsDefaultLambda : float64 := literal 173177086015485 100000000000000.

(** [math.Log] and [math.Pow], with the special cases of their documentation
    that the fit depends on. *)
Class Math := {
  math_Log : float64 -> float64;
  math_Pow : float64 -> float64 -> float64;
  Log_zero s : math_Log (S754_zero s) = S754_infinity true;
  Pow_zero m e : math_Pow (S754_zero false) (S754_finite false m e) = S754_zero false
}.

(** The fields of [Stats] besides those of Doppel.v. *)
Record shape := mkShape { st_k : float64; st_lambda : float64; st_drs : bool }.

Section fit.
Context `{Math}.

(** [Delay]: [rnd] is [rand.Float64()]; [None] is a value that is not a
    duration, whose conversion Go leaves open. *)
Definition Delay (rnd : float64) (d : shape) : option Z :=
  let u := fsub (float_of 1) rnd in
  let generated := fmul (st_lambda d) (math_Pow (SFopp (math_Log u)) (fdiv (float_of 1) (st_k d))) in
  match fmul generated (float_of Millisecond) with
  | S754_zero _ => Some 0
  | S754_finite s m e =>
      let n := float_trunc (S754_finite false m e) in
      let n := if s then - n else n in
      if (min_int64 <=? n) && (n <=? max_int64) then Some n else None
  | _ => None
  end.

(** A duration in milliseconds. *)
Definition durFloat (v : Z) : float64 := fdiv (float_of (Z.quot v Microsecond)) (float_of 1000).

Definition fsum (f : float64 -> float64) (l : list float64) : float64 := foldl (fun s v => fadd s (f v)) (float_of 0) l.

Definition midpoint (lowK highK : float64) : float64 := fdiv (fadd lowK highK) (float_of 2).

(** A round of the bisection. *)
Definition bisect (durFloats : list float64) (ks : float64 * float64) : float64 * float64 :=
  let '(lowK, highK) := ks in
  let midK := midpoint lowK highK in
  let sumXK := fsum (fun v => math_Pow v midK) durFloats in
  let sumXKLog := fsum (fun v => fmul (math_Pow v midK) (math_Log v)) durFloats in
  let n := float_of (Z.of_nat (length durFloats)) in
  let f := fsub (fadd (fdiv (float_of 1) midK) (fdiv (fsum math_Log durFloats) n)) (fdiv sumXKLog sumXK) in
  if SFltb (float_of 0) f then (midK, highK) else (lowK, midK).

Definition NewStats (durations : list Z) (drs : bool) : shape :=
  let durFloats := map durFloat durations in
  let n := float_of (Z.of_nat (length durations)) in
  let '(lowK, highK) := Nat.iter StatsBisectTimes (bisect durFloats) (StatsLowK, StatsHighK) in
  let k := midpoint lowK highK in
  let sumXK := fsum (fun v => math_Pow v k) durFloats in
  mkShape k (math_Pow (fdiv sumXK n) (fdiv (float_of 1) k)) drs.

Definition defaultShape (drs : bool) : shape := mkShape StatsDefaultK StatsDefaultLambda drs.
End fit.

(** ** Raids *)

Record scoutRaidResult := mkRaid { rr_durations : list Z; rr_certSizes : list Z }.

Definition DoppelGangerScoutRaidEach : Z := 6 * Hour.
Definition DoppelGangerScoutRepeats : Z := 10.

(** How often raids start and how many requests a raid makes: zero stands for the
    defaults. *)
Definition raidSettings (scoutEach scoutRepeats : Z) : Z * Z :=
  (if scoutEach =? 0 then DoppelGangerScoutRaidEach else scoutEach, if scoutRepeats =? 0 then DoppelGangerScoutRepeats else scoutRepeats).

(** [runScoutRaid] up to the sending: the outcomes of the calls of [Learn], one
    for each repetition. *)
Definition runScoutRaid (learned : list (res ScoutResult)) : scoutRaidResult :=
  foldl (fun r x => match x with
                    | Fail _ => r
                    | Ok l => mkRaid (rr_durations r ++ Durations l) (if 0 <? CertSize l then rr_certSizes r ++ [CertSize l] else rr_certSizes r)
                    end) (mkRaid [] []) learned.

(** ** Slices *)

Record slice_ref := mkSlice { sl_ptr : nat; sl_len : nat }.

Notation heap := (gmap nat (list Z)).

Definition array (h : heap) (p : nat) : list Z := default [] (h !! p).

Definition contents (h : heap) (s : slice_ref) : list Z := take (sl_len s) (array h (sl_ptr s)).

(** [append]: in place when the capacity is enough, else in a new array whose
    spare capacity ([spare] zeroes) is the runtime's choice. *)
Definition go_append (h : heap) (s : slice_ref) (l : list Z) (spare : nat) : heap * slice_ref :=
  let a := array h (sl_ptr s) in
  let n := (sl_len s + length l)%nat in
  if (n <=? length a)%nat then (<[sl_ptr s := take (sl_len s) a ++ l ++ drop n a]> h, mkSlice (sl_ptr s) n)
  else let p := fresh (dom h) in (<[p := take (sl_len s) a ++ l ++ replicate spare 0]> h, mkSlice p n).

(** [copy(s, s[len(s)-max:]); s = s[:max]]: the array is overwritten. *)
Definition trim_in_place (h : heap) (s : slice_ref) : heap * slice_ref :=
  if (DoppelGangerMaxDurations <? sl_len s)%nat then
    (<[sl_ptr s := copy_at 0 (drop (sl_len s - DoppelGangerMaxDurations) (contents h s)) (array h (sl_ptr s))]> h,
     mkSlice (sl_ptr s) DoppelGangerMaxDurations)
  else (h, s).

(** ** The goroutines: ganger.go *)

(** A raid learns, then offers its result; the fitting goroutine holds the slice
    it was started with, then offers the fitted statistics. *)
Inductive raidPC := RLearning | ROffer (r : scoutRaidResult) | RDone.
Inductive fitPC := FFitting (s : slice_ref) | FOffer (st : shape) | FDone.

(** [run]: at its select, about to answer a request, returned, or ended by the
    panic of a send on a closed channel. *)
Inductive runPC := LSelect | LReply (caller : nat) (conn : shape) | LReturned | LPanicked.

(** A caller of [NewConn]: offering its request, waiting for the answer, or
    returned (its deferred call has then closed the channel of the answer). *)
Inductive callerPC := CAsking | CWaiting | CGot (conn : shape) | CFailed.

Record Ganger := mkGanger {
  g_cancelled : bool;
  g_drs : bool;
  g_heap : heap;
  g_durations : slice_ref;
  g_certSizes : list Z;
  g_noiseParams : option (Z * Z);
  g_stats : shape;
  g_collecting : bool;              (* [currentScoutCollectedChan] is not nil *)
  g_run : runPC;
  g_raids : list raidPC;
  g_fits : list fitPC;
  g_callers : gmap nat callerPC
}.

(** [NewGanger], then [Run]: the first raid is on its way. *)
Definition NewGanger (drs : bool) : Ganger :=
  mkGanger false drs {[0%nat := []]} (mkSlice 0 0) [] None (defaultShape drs) true LSelect [RLearning] [] ∅.

(** The measured parameters, zero while there are none. *)
Definition NoiseParams (g : Ganger) : Z * Z := default (0, 0) (g_noiseParams g).

Definition set_run (pc : runPC) (g : Ganger) : Ganger :=
  mkGanger (g_cancelled g) (g_drs g) (g_heap g) (g_durations g) (g_certSizes g) (g_noiseParams g) (g_stats g) (g_collecting g)
    pc (g_raids g) (g_fits g) (g_callers g).
Definition set_raids (l : list raidPC) (g : Ganger) : Ganger :=
  mkGanger (g_cancelled g) (g_drs g) (g_heap g) (g_durations g) (g_certSizes g) (g_noiseParams g) (g_stats g) (g_collecting g)
    (g_run g) l (g_fits g) (g_callers g).
Definition set_fits (l : list fitPC) (g : Ganger) : Ganger :=
  mkGanger (g_cancelled g) (g_drs g) (g_heap g) (g_durations g) (g_certSizes g) (g_noiseParams g) (g_stats g) (g_collecting g)
    (g_run g) (g_raids g) l (g_callers g).
Definition set_caller (i : nat) (pc : callerPC) (g : Ganger) : Ganger :=
  mkGanger (g_cancelled g) (g_drs g) (g_heap g) (g_durations g) (g_certSizes g) (g_noiseParams g) (g_stats g) (g_collecting g)
    (g_run g) (g_raids g) (g_fits g) (<[i := pc]> (g_callers g)).
Definition set_cancelled (g : Ganger) : Ganger :=
  mkGanger true (g_drs g) (g_heap g) (g_durations g) (g_certSizes g) (g_noiseParams g) (g_stats g) (g_collecting g)
    (g_run g) (g_raids g) (g_fits g) (g_callers g).

Section run.
Context `{Math}.

(** The case of a raid's result. *)
Definition collect (result : scoutRaidResult) (spare : nat) (g : Ganger) : Ganger :=
  let '(h, s) := go_append (g_heap g) (g_durations g) (rr_durations result) spare in
  let '(h, s) := trim_in_place h s in
  let '(certs, noise) := takeCertSizes (g_certSizes g) (rr_certSizes result) (g_noiseParams g) in
  if (sl_len s <? MinDurationsToCalculate)%nat
  then mkGanger (g_cancelled g) (g_drs g) h s certs noise (g_stats g) (g_collecting g) (g_run g) (g_raids g) (g_fits g) (g_callers g)
  else mkGanger (g_cancelled g) (g_drs g) h s certs noise (g_stats g) false (g_run g) (g_raids g) (g_fits g ++ [FFitting s]) (g_callers g).

Inductive gact :=
  | GCancel                          (* [Shutdown], or the context above *)
  | GTick                            (* the ticker starts a raid *)
  | GLearned (i : nat) (l : list (res ScoutResult))
  | GCollect (i : nat) (spare : nat)
  | GFit (i : nat)                   (* [NewStats] returns *)
  | GUpdate (i : nat)
  | GAsk (c : nat)                   (* a call of [NewConn] *)
  | GRequest (c : nat)
  | GAnswer
  | GGiveUp (c : nat)                (* [NewConn] sees the end of the context *)
  | GDone                            (* [run] sees it *)
  | GRaidDone (i : nat)
  | GFitDone (i : nat).

Definition gdo (a : gact) (g : Ganger) : option Ganger :=
  match a with
  | GCancel => Some (set_cancelled g)
  | GTick => match g_run g with LSelect => Some (set_raids (g_raids g ++ [RLearning]) g) | _ => None end
  | GLearned i l =>
      match g_raids g !! i with
      | Some RLearning => Some (set_raids (<[i := ROffer (runScoutRaid l)]> (g_raids g)) g)
      | _ => None
      end
  | GCollect i spare =>
      match g_run g, g_collecting g, g_raids g !! i with
      | LSelect, true, Some (ROffer r) => Some (collect r spare (set_raids (<[i := RDone]> (g_raids g)) g))
      | _, _, _ => None
      end
  | GFit i =>
      match g_fits g !! i with
      | Some (FFitting s) => Some (set_fits (<[i := FOffer (NewStats (contents (g_heap g) s) (g_drs g))]> (g_fits g)) g)
      | _ => None
      end
  | GUpdate i =>
      match g_run g, g_fits g !! i with
      | LSelect, Some (FOffer st) =>
          Some (mkGanger (g_cancelled g) (g_drs g) (g_heap g) (g_durations g) (g_certSizes g) (g_noiseParams g) st true (g_run g) (g_raids g)
                  (<[i := FDone]> (g_fits g)) (g_callers g))
      | _, _ => None
      end
  | GAsk c => match g_callers g !! c with None => Some (set_caller c CAsking g) | Some _ => None end
  | GRequest c =>
      match g_run g, g_callers g !! c with
      | LSelect, Some CAsking => Some (set_run (LReply c (g_stats g)) (set_caller c CWaiting g))
      | _, _ => None
      end
  | GAnswer =>
      match g_run g with
      | LReply c conn =>
          match g_callers g !! c with
          | Some CWaiting => Some (set_run LSelect (set_caller c (CGot conn) g))
          | _ => Some (set_run LPanicked g)
          end
      | _ => None
      end
  | GGiveUp c =>
      match g_cancelled g, g_callers g !! c with
      | true, Some CAsking | true, Some CWaiting => Some (set_caller c CFailed g)
      | _, _ => None
      end
  | GDone =>
      match g_cancelled g, g_run g with
      | true, LSelect => Some (set_run LReturned g)
      | true, LReply _ _ => Some (set_run LSelect g)
      | _, _ => None
      end
  | GRaidDone i =>
      match g_cancelled g, g_raids g !! i with
      | true, Some (ROffer _) => Some (set_raids (<[i := RDone]> (g_raids g)) g)
      | _, _ => None
      end
  | GFitDone i =>
      match g_cancelled g, g_fits g !! i with
      | true, Some (FOffer _) => Some (set_fits (<[i := FDone]> (g_fits g)) g)
      | _, _ => None
      end
  end.

(** What a step takes from the raids. *)
Definition received (a : gact) (g : Ganger) : list Z * list Z :=
  match a with
  | GCollect i _ => match g_raids g !! i with Some (ROffer r) => (rr_durations r, rr_certSizes r) | _ => ([], []) end
  | _ => ([], [])
  end.

(** The ganger with everything its raids have brought home. *)
Definition gstep (x y : Ganger * (list Z * list Z)) : Prop :=
  exists a, gdo a x.1 = Some y.1 /\ y.2 = (x.2.1 ++ (received a x.1).1, x.2.2 ++ (received a x.1).2).

Fixpoint grun (l : list gact) (g : Ganger) : option Ganger :=
  match l with [] => Some g | a :: l => g' ← gdo a g; grun l g' end.
End run.

(** ** Proofs *)

#[local] Opaque DoppelGangerMaxDurations MinDurationsToCalculate.

Lemma length_trimmed {A} (l : list A) : (length (trimmed l) <= DoppelGangerMaxDurations)%nat.
Proof. unfold trimmed. case_match; zbool; rewrite ?length_drop; lia. Qed.

(** Trimming early does not change what is kept. *)
Lemma trimmed_app {A} (l k : list A) : trimmed (trimmed l ++ k) = trimmed (l ++ k).
Proof.
  unfold trimmed. destruct (DoppelGangerMaxDurations <? length l)%nat eqn:E; [|done]. zbool.
  rewrite !length_app, length_drop. rewrite (proj2 (Nat.ltb_lt _ (length l + length k))) by lia.
  destruct (_ <? _)%nat eqn:E2; zbool.
  - rewrite !drop_app, drop_drop, length_drop. f_equal; f_equal; lia.
  - assert (length k = 0%nat) as Hk by lia. apply nil_length_inv in Hk as ->. rewrite !app_nil_r. f_equal. simpl. lia.
Qed.

Lemma trimmed_mono {A} (l k : list A) n : (n <= DoppelGangerMaxDurations)%nat -> (n <= length (trimmed l))%nat -> (n <= length (trimmed (l ++ k)))%nat.
Proof. intros Hn. unfold trimmed. rewrite length_app. repeat case_match; zbool; rewrite ?length_drop, ?length_app; lia. Qed.

Definition slice_wf (h : heap) (s : slice_ref) : Prop := (sl_len s <= length (array h (sl_ptr s)))%nat.

Lemma array_insert h p l : array (<[p := l]> h) p = l.
Proof. unfold array. by rewrite lookup_insert_eq. Qed.

Lemma length_contents h s : slice_wf h s -> length (contents h s) = sl_len s.
Proof. intros. unfold contents. rewrite length_take. unfold slice_wf in *. lia. Qed.

Lemma go_append_spec h s l spare :
  slice_wf h s -> let '(h', s') := go_append h s l spare in slice_wf h' s' /\ contents h' s' = contents h s ++ l.
Proof.
  unfold slice_wf, go_append, contents. intros Hwf. destruct (_ <=? _)%nat eqn:E; zbool; cbn [sl_ptr sl_len]; rewrite array_insert.
  - rewrite !length_app, length_take, length_drop. split; [lia|]. rewrite app_assoc, take_app_length'; [done|].
    rewrite length_app, length_take. lia.
  - rewrite !length_app, length_take. split; [lia|]. rewrite app_assoc, take_app_length'; [done|]. rewrite length_app, length_take. lia.
Qed.

Lemma trim_in_place_spec h s :
  slice_wf h s -> let '(h', s') := trim_in_place h s in slice_wf h' s' /\ contents h' s' = trimmed (contents h s).
Proof.
  intros Hwf. pose proof (length_contents h s Hwf) as Hl. unfold trim_in_place, trimmed. rewrite Hl.
  destruct (_ <? _)%nat eqn:E; zbool; [|by split]. unfold slice_wf in *. cbn [sl_ptr sl_len].
  set (new := drop _ (contents h s)). assert (length new = DoppelGangerMaxDurations) as Hn by (unfold new; rewrite length_drop; lia).
  unfold contents. cbn [sl_ptr sl_len]. rewrite array_insert, length_copy_at. split; [lia|]. unfold copy_at.
  rewrite (take_ge new) by lia. rewrite take_0. cbn [app]. by rewrite take_app_length'.
Qed.

Lemma take_certs certs hc new noise :
  certs = trimmed hc -> noise = (if (MinCertSizesToCalculate <=? length certs)%nat then updateNoiseParams certs else None) ->
  takeCertSizes certs new noise =
    (trimmed (hc ++ new), if (MinCertSizesToCalculate <=? length (trimmed (hc ++ new)))%nat then updateNoiseParams (trimmed (hc ++ new)) else None).
Proof.
  intros -> ->. unfold takeCertSizes. rewrite trimmed_app. f_equal.
  destruct (MinCertSizesToCalculate <=? length (trimmed (hc ++ new)))%nat eqn:E; zbool.
  - unfold updateNoiseParams at 1. by destruct (trimmed (hc ++ new)) eqn:Ht; [unfold MinCertSizesToCalculate in E; simpl in E; lia|].
  - rewrite (proj2 (Nat.leb_gt _ _)); [done|]. apply Nat.lt_nge. intros Hle.
    apply (trimmed_mono hc new) in Hle; [lia|]. unfold MinCertSizesToCalculate. apply Nat.leb_le. vm_compute. reflexivity.
Qed.

Section proofs.
Context `{Math}.

(** Statistics that were fitted to some window of the measurements, or are the
    built-in ones. *)
Definition fitted (hd : list Z) (drs : bool) (st : shape) : Prop :=
  st = defaultShape drs \/
  exists h, h `prefix_of` hd /\ (MinDurationsToCalculate <= length (trimmed h))%nat /\ st = NewStats (trimmed h) drs.

Lemma fitted_app hd k drs st : fitted hd drs st -> fitted (hd ++ k) drs st.
Proof. intros [->|(h & Hh & Hn & ->)]; [by left|]. right. exists h. split_and!; [by apply prefix_app_r|done|done]. Qed.

Definition active (f : fitPC) : bool := match f with FDone => false | _ => true end.

Definition fit_ok (hd : list Z) (g : Ganger) (f : fitPC) : Prop :=
  (active f = true -> g_collecting g = false) /\
  match f with
  | FFitting s => s = g_durations g /\ (MinDurationsToCalculate <= length (trimmed hd))%nat
  | FOffer st => st = NewStats (trimmed hd) (g_drs g) /\ (MinDurationsToCalculate <= length (trimmed hd))%nat
  | FDone => True
  end.

Definition caller_ok (hd : list Z) (g : Ganger) (c : nat) (pc : callerPC) : Prop :=
  match pc with
  | CAsking => True
  | CWaiting => g_cancelled g = true \/ exists st, g_run g = LReply c st
  | CGot st => fitted hd (g_drs g) st
  | CFailed => g_cancelled g = true
  end.

Definition run_ok (hd : list Z) (g : Ganger) : Prop :=
  match g_run g with
  | LSelect => True
  | LReply c st => fitted hd (g_drs g) st /\ (g_callers g !! c = Some CWaiting \/ g_callers g !! c = Some CFailed)
  | LReturned | LPanicked => g_cancelled g = true
  end.

Record ganger_ok (g : Ganger) (hd hc : list Z) : Prop := {
  go_wf : slice_wf (g_heap g) (g_durations g);
  go_dur : contents (g_heap g) (g_durations g) = trimmed hd;
  go_cert : g_certSizes g = trimmed hc;
  go_noise : g_noiseParams g = if (MinCertSizesToCalculate <=? length (g_certSizes g))%nat then updateNoiseParams (g_certSizes g) else None;
  go_stats : fitted hd (g_drs g) (g_stats g);
  go_fits : Forall (fit_ok hd g) (g_fits g);
  go_one : (length (List.filter active (g_fits g)) <= 1)%nat;
  go_callers : map_Forall (caller_ok hd g) (g_callers g);
  go_run : run_ok hd g }.

Lemma ganger_ok_start drs : ganger_ok (NewGanger drs) [] [].
Proof. split; try done; [unfold slice_wf; simpl; lia|by left|simpl; lia]. Qed.

#[local] Ltac gcbn := cbn [set_run set_raids set_fits set_caller set_cancelled g_cancelled g_drs g_heap g_durations g_certSizes g_noiseParams g_stats
  g_collecting g_run g_raids g_fits g_callers] in *.

Lemma active_insert l i f f' :
  l !! i = Some f -> active f = true -> length (List.filter active (<[i := f']> l)) =
    if active f' then length (List.filter active l) else pred (length (List.filter active l)).
Proof.
  revert i. induction l as [|x l IH]; intros [|i] Hl Hf; simplify_eq/=.
  - rewrite Hf. destruct (active f'); done.
  - assert (0 < length (List.filter active l))%nat.
    { clear IH. revert i Hl. induction l as [|y l IH]; intros [|i] Hl; simplify_eq/=; [rewrite Hf; simpl; lia|].
      case_match; simpl; [lia|by eapply IH]. }
    destruct (active x); simpl; rewrite (IH _ Hl Hf); destruct (active f'); lia.
Qed.

(** An active fit is the only one. *)
Lemma active_unique l i j f f' :
  (length (List.filter active l) <= 1)%nat -> l !! i = Some f -> l !! j = Some f' -> active f = true -> active f' = true -> i = j.
Proof.
  revert i j. induction l as [|x l IH]; intros [|i] [|j] Hl Hi Hj Hf Hf'; simplify_eq/=; try done.
  - rewrite Hf in Hl. simpl in Hl. exfalso. pose proof (active_insert _ _ _ FDone Hj Hf') as Hlen. simpl in Hlen.
    assert (f' ∈ List.filter active l) as Hin by (apply list_elem_of_In, filter_In; split; [by apply list_elem_of_In, list_elem_of_lookup_2 with j|done]).
    destruct (List.filter active l); [by apply not_elem_of_nil in Hin|simpl in Hl; lia].
  - rewrite Hf' in Hl. simpl in Hl. exfalso.
    assert (f ∈ List.filter active l) as Hin by (apply list_elem_of_In, filter_In; split; [by apply list_elem_of_In, list_elem_of_lookup_2 with i|done]).
    destruct (List.filter active l); [by apply not_elem_of_nil in Hin|simpl in Hl; lia].
  - f_equal. apply IH; try done. destruct (active x); simpl in Hl; lia.
Qed.

(** Taking a result while no fit is active. *)
Lemma ganger_ok_collect g hd hc r spare :
  ganger_ok g hd hc -> g_collecting g = true -> g_run g = LSelect -> ganger_ok (collect r spare g) (hd ++ rr_durations r) (hc ++ rr_certSizes r).
Proof.
  intros [Hwf Hd Hc Hn Hs Hf H1 Hcl Hr] Hcoll Hsel. unfold collect.
  pose proof (go_append_spec _ _ (rr_durations r) spare Hwf) as Ha. destruct (go_append _ _ _ _) as [h1 s1]. destruct Ha as [Hwf1 Hc1].
  pose proof (trim_in_place_spec h1 s1 Hwf1) as Ht. destruct (trim_in_place h1 s1) as [h2 s2]. destruct Ht as [Hwf2 Hc2].
  rewrite Hc1, Hd, trimmed_app in Hc2. rewrite (take_certs _ hc) by done. rewrite <-(length_contents _ _ Hwf2), Hc2.
  assert (forall g', g_cancelled g' = g_cancelled g -> g_drs g' = g_drs g -> g_run g' = g_run g ->
    map_Forall (caller_ok (hd ++ rr_durations r) g') (g_callers g)) as Hcl'.
  { intros g' E1 E2 E3 c pc Hpc. specialize (Hcl c pc Hpc). unfold caller_ok in *. rewrite E1, E2, E3. destruct pc; try done. by apply fitted_app. }
  assert (Forall (fun f => f = FDone) (g_fits g)) as Hdone.
  { eapply Forall_impl; [exact Hf|]. intros f [Hact _]. destruct f; [by rewrite Hact in Hcoll..|done]. }
  assert (List.filter active (g_fits g) = []) as Hnone by (clear -Hdone; induction Hdone as [|f l -> _ IH]; [done|exact IH]).
  assert (forall g', Forall (fit_ok (hd ++ rr_durations r) g') (g_fits g)) as Hf'.
  { intros g'. eapply Forall_impl; [exact Hdone|]. by intros f ->. }
  destruct (_ <? _)%nat eqn:E; zbool; split; gcbn; try done; try apply Hf'; try (by apply Hcl'); try (by apply fitted_app); try (unfold run_ok; gcbn; by rewrite Hsel).
  - apply Forall_app. split; [apply Hf'|]. apply Forall_singleton. by split.
  - rewrite List.filter_app, Hnone. simpl. lia.
Qed.


(** Steps that only touch raids, or only cancel, change nothing of this. *)
Lemma ganger_ok_raids g hd hc l : ganger_ok g hd hc -> ganger_ok (set_raids l g) hd hc.
Proof. intros []. by split. Qed.

Lemma ganger_ok_cancel g hd hc : ganger_ok g hd hc -> ganger_ok (set_cancelled g) hd hc.
Proof.
  intros [Hwf Hd Hc Hn Hs Hf H1 Hcl Hr]. split; try done.
  - intros c pc Hpc. specialize (Hcl c pc Hpc). destruct pc; try done. by left.
  - unfold run_ok in *. gcbn. by case_match.
Qed.

Lemma ganger_ok_caller g hd hc c pc :
  ganger_ok g hd hc -> caller_ok hd (set_caller c pc g) c pc ->
  (forall st, g_run g = LReply c st -> pc = CWaiting \/ pc = CFailed) -> ganger_ok (set_caller c pc g) hd hc.
Proof.
  intros [Hwf Hd Hc Hn Hs Hf H1 Hcl Hr] Hpc Hrun. split; try done.
  - intros c' pc'. gcbn. destruct (decide (c' = c)) as [->|]; [rewrite lookup_insert_eq; by intros [= <-]|].
    rewrite lookup_insert_ne by done. apply Hcl.
  - unfold run_ok in *. gcbn. destruct (g_run g) as [|c' st| |] eqn:E; try done. destruct Hr as [Hst Hc']. split; [done|].
    destruct (decide (c' = c)) as [->|]; [|by rewrite lookup_insert_ne]. rewrite lookup_insert_eq.
    destruct (Hrun st eq_refl) as [->| ->]; [by left|by right].
Qed.

Lemma ganger_ok_fit g hd hc i f f' :
  ganger_ok g hd hc -> g_fits g !! i = Some f -> active f = true -> fit_ok hd g f' -> ganger_ok (set_fits (<[i := f']> (g_fits g)) g) hd hc.
Proof.
  intros [Hwf Hd Hc Hn Hs Hf H1 Hcl Hr] Hi Ha Hf'. split; try done; gcbn.
  - apply Forall_insert; [|done]. eapply Forall_impl; [exact Hf|]. intros x [Hx Hx']. split; [exact Hx|]. by destruct x.
  - rewrite (active_insert _ _ f) by done. destruct (active f'); lia.
Qed.

Lemma ganger_ok_do a g g' hd hc :
  ganger_ok g hd hc -> gdo a g = Some g' -> ganger_ok g' (hd ++ (received a g).1) (hc ++ (received a g).2).
Proof.
  intros Hok Hdo. destruct a as [| |i l|i spare|i|i|c|c| |c| |i|i]; cbn [gdo received fst snd] in *;
    [..|idtac] ; try (rewrite !app_nil_r).
  - injection Hdo as <-. by apply ganger_ok_cancel.
  - destruct (g_run g); simplify_eq. by apply ganger_ok_raids.
  - destruct (g_raids g !! i) as [[]|]; simplify_eq. by apply ganger_ok_raids.
  - destruct (g_run g) eqn:Hrun; try done. destruct (g_collecting g) eqn:Hc; [|done].
    destruct (g_raids g !! i) as [[| r|]|]; simplify_eq. by apply ganger_ok_collect; [apply ganger_ok_raids| |].
  - destruct (g_fits g !! i) as [[s| |]|] eqn:Hi; simplify_eq. eapply ganger_ok_fit; [done|done|done|].
    destruct (Forall_lookup_1 _ _ _ _ (go_fits _ _ _ Hok) Hi) as [Hact [-> Hlen]]. split; [by intros _; apply Hact|].
    by rewrite (go_dur _ _ _ Hok).
  - destruct (g_run g) eqn:Hrun; try done. destruct (g_fits g !! i) as [[|st|]|] eqn:Hi; simplify_eq.
    destruct (Forall_lookup_1 _ _ _ _ (go_fits _ _ _ Hok) Hi) as [Hact [-> Hlen]].
    pose proof (go_one _ _ _ Hok) as H1. destruct Hok as [Hwf Hd Hc Hn Hs Hf _ Hcl Hr]. split; gcbn; try done.
    + right. exists hd. by split_and!.
    + apply Forall_lookup. intros j f Hj. destruct (decide (j = i)) as [->|Hne].
      * rewrite list_lookup_insert_eq in Hj by (by eapply lookup_lt_Some). by injection Hj as <-.
      * rewrite list_lookup_insert_ne in Hj by done. destruct (active f) eqn:Ha; [|by destruct f].
        by destruct Hne; apply (active_unique _ _ _ _ _ H1 Hj Hi).
    + rewrite (active_insert _ _ _ _ Hi eq_refl). simpl. lia.
    + intros c pc Hpc. specialize (Hcl c pc Hpc). unfold caller_ok in *. gcbn. by rewrite Hrun in Hcl.
  - destruct (g_callers g !! c) eqn:Hc; simplify_eq. apply ganger_ok_caller; [done|done|]. intros st Hst.
    pose proof (go_run _ _ _ Hok) as Hr. unfold run_ok in Hr. rewrite Hst, Hc in Hr. by destruct Hr as [_ [|]].
  - destruct (g_run g) eqn:Hrun; try done. destruct (g_callers g !! c) as [[]|] eqn:Hc; simplify_eq.
    destruct Hok as [Hwf Hd Hce Hn Hs Hf H1 Hcl Hr]. split; gcbn; try done.
    + intros c' pc' Hpc. gcbn. destruct (decide (c' = c)) as [->|].
      * rewrite lookup_insert_eq in Hpc. injection Hpc as <-. right. by eexists.
      * rewrite lookup_insert_ne in Hpc by done. specialize (Hcl c' pc' Hpc). unfold caller_ok in *. gcbn. rewrite Hrun in Hcl.
        destruct pc'; try done. destruct Hcl as [?|[? [=]]]. by left.
    + unfold run_ok. gcbn. split; [done|]. left. by rewrite lookup_insert_eq.
  - destruct (g_run g) as [|c conn| |] eqn:Hrun; try done. pose proof (go_run _ _ _ Hok) as Hr. unfold run_ok in Hr. rewrite Hrun in Hr.
    destruct Hr as [Hfit Hc]. destruct Hok as [Hwf Hd Hce Hn Hs Hf H1 Hcl _].
    assert (forall c' pc', c' <> c -> g_callers g !! c' = Some pc' -> caller_ok hd (set_run LSelect g) c' pc') as Hother.
    { intros c' pc' Hne Hpc. specialize (Hcl c' pc' Hpc). unfold caller_ok in *. gcbn. rewrite Hrun in Hcl. destruct pc'; try done.
      destruct Hcl as [?|[? [=]]]; [by left|done]. }
    destruct Hc as [Hc|Hc]; rewrite Hc in Hdo; injection Hdo as <-; split; gcbn; try done.
    + intros c' pc' Hpc. gcbn. destruct (decide (c' = c)) as [->|].
      * rewrite lookup_insert_eq in Hpc. by injection Hpc as <-.
      * rewrite lookup_insert_ne in Hpc by done. by apply (Hother c' pc').
    + intros c' pc' Hpc. destruct (decide (c' = c)) as [->|]; [simplify_eq; apply (Hcl c CFailed Hc)|].
      specialize (Hother c' pc' ltac:(done) Hpc). unfold caller_ok in *. gcbn. destruct pc'; try done. destruct Hother as [?|[? [=]]]. by left.
    + exact (Hcl c CFailed Hc).
  - destruct (g_cancelled g) eqn:Hcan; [|done]. destruct (g_callers g !! c) as [[]|] eqn:Hc; simplify_eq;
      (apply ganger_ok_caller; [done|exact Hcan|by intros; right]).
  - destruct (g_cancelled g) eqn:Hcan; [|done]. destruct Hok as [Hwf Hd Hce Hn Hs Hf H1 Hcl Hr].
    assert (forall pc, map_Forall (caller_ok hd (set_run pc g)) (g_callers g)) as Hcl'.
    { intros pc c' pc' Hpc. specialize (Hcl c' pc' Hpc). unfold caller_ok in *. gcbn. destruct pc'; try done. by left. }
    destruct (g_run g) eqn:Hrun; simplify_eq; split; gcbn; try done; apply Hcl'.
  - destruct (g_cancelled g); [|done]. destruct (g_raids g !! i) as [[]|]; simplify_eq. by apply ganger_ok_raids.
  - destruct (g_cancelled g); [|done]. destruct (g_fits g !! i) as [[]|] eqn:Hi; simplify_eq. by eapply ganger_ok_fit.
Qed.

Lemma ganger_reach drs x : rtc gstep (NewGanger drs, ([], [])) x -> ganger_ok x.1 x.2.1 x.2.2.
Proof.
  intros Hr. remember (NewGanger drs, ([] : list Z, [] : list Z)) as x0 eqn:E0.
  assert (ganger_ok x0.1 x0.2.1 x0.2.2) as H0 by (subst; apply ganger_ok_start). clear E0.
  induction Hr as [|x y z (a & Ha & He) _ IH]; [done|]. apply IH. destruct x as [g [hd hc]], y as [g' [hd' hc']]. simpl in *.
  injection He as -> ->. by apply ganger_ok_do.
Qed.

Lemma gdo_drs a g g' : gdo a g = Some g' -> g_drs g' = g_drs g.
Proof.
  destruct a; simpl; intros Hdo; repeat (case_match; try done); simplify_eq; try done. unfold collect. repeat case_match; by simplify_eq/=.
Qed.

Lemma reach_drs x y : rtc gstep x y -> g_drs y.1 = g_drs x.1.
Proof. induction 1 as [|x y z (a & Ha & _) _ IH]; [done|]. rewrite IH. by eapply gdo_drs. Qed.

Lemma grun_steps l g g' hist : grun l g = Some g' -> exists hist', rtc gstep (g, hist) (g', hist').
Proof.
  revert g hist. induction l as [|a l IH]; intros g hist; simpl.
  - intros [= ->]. by exists hist.
  - destruct (gdo a g) as [g1|] eqn:Ha; simpl; [|done]. intros Hr.
    destruct (IH g1 (hist.1 ++ (received a g).1, hist.2 ++ (received a g).2) Hr) as [h' Hr']. exists h'. eapply rtc_l; [|exact Hr']. by exists a.
Qed.

(** *** The fit *)

Lemma fsum_nan_acc (f : float64 -> float64) l : foldl (fun s v => fadd s (f v)) S754_nan l = S754_nan.
Proof. induction l as [|v l IH]; [done|]. simpl. by rewrite IH. Qed.

Lemma fsum_nan f l x : x ∈ l -> f x = S754_nan -> fsum f l = S754_nan.
Proof.
  intros Hx Hf. unfold fsum. generalize (float_of 0). induction l as [|v l IH]; intros acc; [by apply not_elem_of_nil in Hx|].
  apply elem_of_cons in Hx as [->|Hx]; simpl; [|by apply IH]. rewrite Hf. replace (fadd acc S754_nan) with S754_nan by (by destruct acc).
  apply fsum_nan_acc.
Qed.

Definition positive_finite (x : float64) : bool := match x with S754_finite false _ _ => true | _ => false end.

(** With a pause of zero the sum of the logarithms is not a number, and the
    bisection always goes down. *)
Lemma bisect_down l low high :
  S754_zero false ∈ l -> positive_finite (midpoint low high) = true -> bisect l (low, high) = (low, midpoint low high).
Proof.
  intros Hz Hp. unfold bisect. destruct (midpoint low high) as [| | |[] m e] eqn:Hm; try done.
  rewrite (fsum_nan (fun v => fmul _ (math_Log v)) l (S754_zero false)) by (done || by rewrite Pow_zero, Log_zero).
  replace (fdiv S754_nan (fsum (fun v => math_Pow v (S754_finite false m e)) l)) with S754_nan by (by destruct (fsum _ _)).
  assert (forall x, fsub x S754_nan = S754_nan) as -> by (by intros []). done.
Qed.

Definition down (ks : float64 * float64) : float64 * float64 := (ks.1, midpoint ks.1 ks.2).

Lemma bisect_iter_down l n ks :
  S754_zero false ∈ l -> forallb (fun i => positive_finite (midpoint (Nat.iter i down ks).1 (Nat.iter i down ks).2)) (seq 0 n) = true ->
  Nat.iter n (bisect l) ks = Nat.iter n down ks.
Proof.
  intros Hz Hall. induction n as [|n IH]; [done|]. rewrite seq_S, forallb_app in Hall. apply andb_true_iff in Hall as [Hall Hn].
  simpl in Hn. rewrite andb_true_r in Hn. simpl. rewrite IH by done. destruct (Nat.iter n down ks) as [low high]. by apply bisect_down.
Qed.

Lemma durFloat_zero v : 0 <= v < Microsecond -> durFloat v = S754_zero false.
Proof. intros Hv. unfold durFloat. rewrite Z.quot_small by done. done. Qed.

(** One pause of less than a microsecond fixes the shape of the distribution at
    the lower end of the search, whatever the other pauses are: the exponent of
    [Delay] is then 100. *)
Lemma zero_pause_degenerates durations drs v :
  v ∈ durations -> 0 <= v < Microsecond ->
  st_k (NewStats durations drs) = S754_finite false 5764607523034236 (-59) /\
  SFltb (float_of 99) (fdiv (float_of 1) (st_k (NewStats durations drs))) = true.
Proof.
  intros Hv Hz. assert (S754_zero false ∈ map durFloat durations) as Hin.
  { apply list_elem_of_In, in_map_iff. exists v. split; [by apply durFloat_zero|by apply list_elem_of_In]. }
  assert (st_k (NewStats durations drs) = S754_finite false 5764607523034236 (-59)) as ->.
  { unfold NewStats. rewrite (bisect_iter_down _ StatsBisectTimes) by (done || by vm_compute).
    assert (Nat.iter StatsBisectTimes down (StatsLowK, StatsHighK) =
      (S754_finite false 5764607523034235 (-59), S754_finite false 5764607523034236 (-59))) as -> by (vm_compute; reflexivity).
    vm_compute. reflexivity. }
  split; [done|]. vm_compute. reflexivity.
Qed.

(** Shutting down can crash the process: [NewConn] closes the channel of the
    answer when it sees the end of the context, and [run], which has the request,
    may then choose to send on it. *)
Lemma shutdown_panics drs : exists g hist, rtc gstep (NewGanger drs, ([], [])) (g, hist) /\ g_run g = LPanicked.
Proof.
  destruct (grun_steps [GAsk 0; GRequest 0; GCancel; GGiveUp 0; GAnswer] (NewGanger drs)
    (set_run LPanicked (mkGanger true drs {[0%nat := []]} (mkSlice 0 0) [] None (defaultShape drs) true LSelect [RLearning] [] {[0%nat := CFailed]}))
    ([], [])) as [hist Hr]; [reflexivity|]. by eexists _, hist.
Qed.
End proofs.

(** ** Claims *)

(** C25: calibration is exact and free of races.  In every interleaving of the
    raids, the ticker, the fitting goroutine, the callers of [NewConn] and the end
    of the context: the durations and the certificate sizes that are kept are the
    last 4096 that the raids delivered; the noise parameters are those of the
    kept sizes, or zero before there are three; the statistics in use, and those
    of every connection handed out, are the built-in ones or were fitted to the
    last 4096 durations as they were when a result arrived, although the fitting
    goroutine shares their array, of which at most one is active; and until the
    context ends no call of [NewConn] fails, the goroutine neither returns nor
    panics, and a caller that waits is about to be answered. *)
Theorem ganger_refines `{Math} drs g hd hc :
  rtc gstep (NewGanger drs, ([], [])) (g, (hd, hc)) ->
  contents (g_heap g) (g_durations g) = trimmed hd /\ g_certSizes g = trimmed hc /\
  (length (trimmed hd) <= 4096)%nat /\ (length (trimmed hc) <= 4096)%nat /\
  NoiseParams g = (if (length (trimmed hc) <? 3)%nat then (0, 0) else default (0, 0) (updateNoiseParams (trimmed hc))) /\
  fitted hd drs (g_stats g) /\ (forall c st, g_callers g !! c = Some (CGot st) -> fitted hd drs st) /\
  (length (List.filter active (g_fits g)) <= 1)%nat /\
  (g_cancelled g = false ->
     (forall c, g_callers g !! c <> Some CFailed) /\ g_run g <> LReturned /\ g_run g <> LPanicked /\
     forall c, g_callers g !! c = Some CWaiting -> exists g' st, gdo GAnswer g = Some g' /\ g_callers g' !! c = Some (CGot st)).
Proof.
  intros Hr. assert (g_drs g = drs) as Hdrs.
  { exact (reach_drs _ _ Hr). }
  apply ganger_reach in Hr as [Hwf Hd Hc Hn Hs Hf H1 Hcl Hr]. simpl in *. rewrite Hdrs in *. unfold caller_ok, run_ok in *. rewrite Hdrs in *.
  split_and!; [done|done|apply length_trimmed..| |done| |done|].
  - unfold NoiseParams. rewrite Hn, Hc.
    by destruct (trimmed hc) as [|? [|? [|? ?]]].
  - intros c st Hst. exact (Hcl c _ Hst).
  - intros Hcan. split_and!.
    + intros c Hfail. specialize (Hcl c _ Hfail). simpl in Hcl. congruence.
    + intros E. rewrite E in Hr. congruence.
    + intros E. rewrite E in Hr. congruence.
    + intros c Hw. destruct (Hcl c _ Hw) as [?|[st Hst]]; [congruence|]. simpl. rewrite Hst, Hw. eexists _, st. split; [done|].
      simpl. by rewrite lookup_insert_eq.
Qed.

(** ** Witnesses *)

Definition demo_math : Math := {|
  math_Log x := match x with S754_zero _ => S754_infinity true | _ => S754_zero false end;
  math_Pow x y := match x with S754_zero _ => S754_zero false | _ => float_of 1 end;
  Log_zero _ := eq_refl; Pow_zero _ _ := eq_refl
|}.

Definition demo_raid : list gact :=
  [GLearned 0 [Ok (mkScoutResult [1000000; 2000000] 3000); Fail EOF; Ok (mkScoutResult [500000] 3200); Ok (mkScoutResult [] 2900)]; GCollect 0 7; GTick; GAsk 4; GRequest 4].

Lemma ganger_refines_witness :
  exists g hist, @grun demo_math demo_raid (NewGanger true) = Some g /\ rtc (@gstep demo_math) (NewGanger true, ([], [])) (g, hist) /\
    NoiseParams g = (3033, 167) /\
    exists g' st, @gdo demo_math GAnswer g = Some g' /\ g_callers g' !! 4%nat = Some (CGot st).
Proof.
  destruct (@grun demo_math demo_raid (NewGanger true)) as [g|] eqn:Hg; [|discriminate Hg].
  destruct (@grun_steps demo_math _ _ _ ([], []) Hg) as [[hd hc] Hr]. exists g, (hd, hc). split; [reflexivity|]. split; [exact Hr|].
  pose proof (@ganger_refines demo_math true g hd hc Hr) as (_ & _ & _ & _ & _ & _ & _ & _ & Hlive).
  assert (g_cancelled g = false /\ g_callers g !! 4%nat = Some CWaiting /\ NoiseParams g = (3033, 167)) as (Hc & Hw & Hnp)
    by (vm_compute in Hg; injection Hg as <-; split; [reflexivity|split; reflexivity]).
  split; [exact Hnp|]. exact (proj2 (proj2 (proj2 (Hlive Hc))) 4%nat Hw).
Defined.
