(* ===== verification/Adapters.v ===== *)
(** * Adapters and buffers: essentials/conns.go, internal/proxyprotocol, mtglib/internal/relay/pools.go

    [WrapNetConn] gives any connection the two half-closes that a relay needs;
    the adapter of the PROXY protocol reaches through to the TCP connection below
    it; the pumps of a relay take their buffers from a pool that all relays
    share. *)

From S2P Require Import Prelude GoIO TLS Conns.

(** ** essentials/conns.go *)

(** A [net.Conn]: its state, and which of [CloseableReader] and
    [CloseableWriter] it implements. *)
Record netConn := mkNetConn { nc_end : endpoint; nc_closeRead : bool; nc_closeWrite : bool }.

Definition on_end (f : endpoint -> endpoint) (c : netConn) : netConn := mkNetConn (f (nc_end c)) (nc_closeRead c) (nc_closeWrite c).

Definition wrapper_CloseRead (c : netConn) : netConn := if nc_closeRead c then on_end CloseRead c else on_end Close c.
Definition wrapper_CloseWrite (c : netConn) : netConn := if nc_closeWrite c then on_end CloseWrite c else on_end Close c.

(** The wrapper implements both. *)
Definition WrapNetConn (c : netConn) : netConn := mkNetConn (nc_end c) true true.

(** ** internal/proxyprotocol *)

(** A [proxyproto.Conn] and what lies below it. *)
Inductive below := TCPConn | OtherConn.

Record connWrapper := mkWrapper { cw_end : endpoint; cw_below : below }.

(** [None] is the panic for a connection that is not TCP. *)
Definition pp_CloseRead (c : connWrapper) : option connWrapper :=
  match cw_below c with TCPConn => Some (mkWrapper (CloseRead (cw_end c)) TCPConn) | OtherConn => None end.
Definition pp_CloseWrite (c : connWrapper) : option connWrapper :=
  match cw_below c with TCPConn => Some (mkWrapper (CloseWrite (cw_end c)) TCPConn) | OtherConn => None end.

(** [ListenerAdapter.Accept]: the error of the listener, or its connection. *)
Definition adapter_Accept {E} (accepted : endpoint * below + E) : connWrapper + E :=
  match accepted with inl (e, b) => inl (mkWrapper e b) | inr e => inr e end.

(** A relay over wrapped connections makes the half-closes of [Conns.pump_end];
    over a connection that has none, the end of one pump closes both directions. *)
Lemma wrapped_half_closes c :
  nc_end (wrapper_CloseRead c) = (if nc_closeRead c then CloseRead (nc_end c) else Close (nc_end c)) /\
  nc_end (wrapper_CloseWrite c) = (if nc_closeWrite c then CloseWrite (nc_end c) else Close (nc_end c)) /\
  (nc_closeRead c = false -> closedWrite (nc_end (wrapper_CloseRead c)) = true) /\
  (forall e w, @adapter_Accept goerr (inl (e, TCPConn)) = inl w ->
     cw_end <$> pp_CloseRead w = Some (nc_end (wrapper_CloseRead (mkNetConn e true true))) /\
     cw_end <$> pp_CloseWrite w = Some (nc_end (wrapper_CloseWrite (mkNetConn e true true)))).
Proof.
  unfold wrapper_CloseRead, wrapper_CloseWrite. split_and!; [by destruct (nc_closeRead c)|by destruct (nc_closeWrite c)|by intros ->|].
  by intros e w [= <-].
Qed.

(** ** Buffers *)

(** A buffer holds a whole record; on MIPS half of one. *)
Definition bufPoolSize (mips : bool) : nat := if mips then Nat.div MaxRecordPayloadSize 2 else MaxRecordPayloadSize.

(** The pool: the free buffers, the goroutines that hold one, the next buffer to
    be made.  The runtime may drop free buffers. *)
Record bufPool := mkPool { bp_free : gset nat; bp_held : gmap nat nat; bp_next : nat }.

Inductive pool_act :=
  | PAcquire (g : nat) (from : option nat)  (* a free buffer, or a new one *)
  | PRelease (g : nat)
  | PCollect (b : nat).

Definition pool_do (a : pool_act) (p : bufPool) : option bufPool :=
  match a with
  | PAcquire g from =>
      match bp_held p !! g, from with
      | Some _, _ => None
      | None, Some b => if bool_decide (b ∈ bp_free p) then Some (mkPool (bp_free p ∖ {[b]}) (<[g := b]> (bp_held p)) (bp_next p)) else None
      | None, None => Some (mkPool (bp_free p) (<[g := bp_next p]> (bp_held p)) (S (bp_next p)))
      end
  | PRelease g => b ← bp_held p !! g; Some (mkPool ({[b]} ∪ bp_free p) (delete g (bp_held p)) (bp_next p))
  | PCollect b => Some (mkPool (bp_free p ∖ {[b]}) (bp_held p) (bp_next p))
  end.

Definition pool_step (p p' : bufPool) : Prop := exists a, pool_do a p = Some p'.

Definition pool_start : bufPool := mkPool ∅ ∅ 0.

Record pool_ok (p : bufPool) : Prop := {
  po_distinct : forall g h b, bp_held p !! g = Some b -> bp_held p !! h = Some b -> g = h;
  po_free : forall g b, bp_held p !! g = Some b -> b ∉ bp_free p;
  po_next : forall b, b ∈ bp_free p \/ (exists g, bp_held p !! g = Some b) -> (b < bp_next p)%nat
}.

Lemma pool_do_ok a p p' : pool_ok p -> pool_do a p = Some p' -> pool_ok p'.
Proof.
  intros [Hd Hf Hn] Hdo. destruct a as [g [b|]|g|b]; simpl in Hdo.
  - destruct (bp_held p !! g) eqn:Hg; [done|]. case_bool_decide as Hb; [|done]. injection Hdo as <-. split; simpl.
    + intros g1 h1 x. rewrite !lookup_insert_Some. intros [[<- <-]|[? H1]] [[<- E]|[? H2]]; try done.
      * by destruct (Hf h1 b H2).
      * subst. by destruct (Hf g1 x H1).
      * by apply (Hd _ _ x).
    + intros g1 x. rewrite lookup_insert_Some. intros [[_ <-]|[_ H1]]; [set_solver|]. pose proof (Hf _ _ H1). set_solver.
    + intros x [Hx|[g1 Hx]]; [apply Hn; set_solver|]. rewrite lookup_insert_Some in Hx. destruct Hx as [[_ <-]|[_ Hx]]; apply Hn; eauto.
  - destruct (bp_held p !! g) eqn:Hg; [done|]. injection Hdo as <-.
    assert (forall h, bp_held p !! h = Some (bp_next p) -> False) as Hnew by (intros h Hh; specialize (Hn (bp_next p)); assert (bp_next p < bp_next p)%nat by (apply Hn; eauto); lia).
    split; simpl.
    + intros g1 h1 x. rewrite !lookup_insert_Some. intros [[<- <-]|[? H1]] [[<- E]|[? H2]]; try done.
      * by destruct (Hnew h1).
      * subst. by destruct (Hnew g1).
      * by apply (Hd _ _ x).
    + intros g1 x. rewrite lookup_insert_Some. intros [[_ <-]|[_ H1]]; [|by eapply Hf]. intros Hx.
      assert (bp_next p < bp_next p)%nat by (apply Hn; eauto). lia.
    + intros x [Hx|[g1 Hx]]; [assert (x < bp_next p)%nat by (apply Hn; eauto); lia|]. rewrite lookup_insert_Some in Hx.
      destruct Hx as [[_ <-]|[_ Hx]]; [lia|]. assert (x < bp_next p)%nat by (apply Hn; eauto). lia.
  - destruct (bp_held p !! g) as [b|] eqn:Hg; [|done]. injection Hdo as <-. split; simpl.
    + intros g1 h1 x. rewrite !lookup_delete_Some. intros [_ H1] [_ H2]. by apply (Hd _ _ x).
    + intros g1 x. rewrite lookup_delete_Some. intros [Hne H1]. pose proof (Hf _ _ H1). assert (x <> b) by (intros ->; by destruct Hne; apply (Hd _ _ b)). set_solver.
    + intros x [Hx|[g1 Hx]]; apply Hn.
      * apply elem_of_union in Hx as [->%elem_of_singleton|Hx]; [eauto|by left].
      * rewrite lookup_delete_Some in Hx. destruct Hx. eauto.
  - injection Hdo as <-. split; simpl; [done| |].
    + intros g1 x H1. pose proof (Hf _ _ H1). set_solver.
    + intros x [Hx|Hx]; apply Hn; [left; set_solver|by right].
Qed.

(** No two pumps ever share a buffer, and a buffer in the pool is in nobody's
    hands. *)
Theorem buffers_exclusive p :
  rtc pool_step pool_start p ->
  (forall g h b, bp_held p !! g = Some b -> bp_held p !! h = Some b -> g = h) /\ (forall g b, bp_held p !! g = Some b -> b ∉ bp_free p).
Proof.
  intros Hr. enough (pool_ok p) as [? ? _] by done. assert (pool_ok pool_start) as H0.
  { split; simpl; [intros ? ? ? []%lookup_empty_Some|intros ? ? []%lookup_empty_Some|]. intros b [Hb|[g Hb]]; [set_solver|by apply lookup_empty_Some in Hb]. }
  revert H0. induction Hr as [|x y z [a Ha] _ IH]; [done|]. intros Hx. apply IH. by eapply pool_do_ok.
Qed.
