(* ===== verification/Relay.v ===== *)
(** * The relay: mtglib/internal/relay/relay.go

    [Relay] copies between two connections with two pumps, one in a goroutine of
    its own and one in the caller's, and returns when both have ended.  A pump is
    the loop of [io.CopyBuffer] (a read into the pump's buffer, a write of what
    was read) followed by its deferred calls.  Every read, write, deferred call
    and close is a step, so that an execution is any interleaving of the two
    pumps, of the goroutine that [context.AfterFunc] starts, and of the end of
    the context.

    What a read or a write returns is part of its step: any number of bytes up to
    the buffer and what the peer has sent, with or without an error, a write that
    took only a part included. *)

From S2P Require Import Prelude GoIO TLS Conns Adapters.

(** ** State *)

Definition ErrShortWrite : goerr := Errorf "short write".

(** Where a pump is: before [acquireBuffer], in [Read], in [Write] of [nr] bytes
    with the error that came with them, and before each of its deferred calls, in
    the order in which they run. *)
Inductive pumpPC :=
  | PAcquire
  | PRead
  | PWrite (nr : nat) (er : option goerr)
  | PCloseWrite
  | PCloseRead
  | PRelease
  | PDone.

#[export] Instance pumpPC_eq_dec : EqDecision pumpPC.
Proof. solve_decision. Defined.

(** [pm_written] and [pm_err] are what [io.CopyBuffer] returns. *)
Record pumpState := mkPump { pm_pc : pumpPC; pm_buf : list byte; pm_written : Z; pm_err : option goerr }.

(** The caller: in its own pump, at [<-closeChan], and before each deferred call
    of [Relay]. *)
Inductive mainPC := MPump | MWait | MStop | MCancel | MCloseClient | MCloseTelegram | MReturned.

#[export] Instance mainPC_eq_dec : EqDecision mainPC.
Proof. solve_decision. Defined.

(** The function given to [context.AfterFunc]: waiting, stopped, and its two
    calls. *)
Inductive afterPC := AfWaiting | AfStopped | AfTelegram | AfClient | AfDone.

#[export] Instance afterPC_eq_dec : EqDecision afterPC.
Proof. solve_decision. Defined.

(** A pump is named by the side it reads from: [Client] is client -> telegram. *)
Record relayState := mkRelay {
  ends : side -> endpoint;
  pumps : side -> pumpState;
  r_main : mainPC;
  r_ctx : bool;
  r_after : afterPC
}.

Definition set_end (s : side) (e : endpoint) (r : relayState) : relayState :=
  mkRelay (upd (ends r) s e) (pumps r) (r_main r) (r_ctx r) (r_after r).
Definition set_pump (s : side) (p : pumpState) (r : relayState) : relayState :=
  mkRelay (ends r) (upd (pumps r) s p) (r_main r) (r_ctx r) (r_after r).
Definition set_main (m : mainPC) (r : relayState) : relayState :=
  mkRelay (ends r) (pumps r) m (r_ctx r) (r_after r).
Definition set_after (a : afterPC) (r : relayState) : relayState :=
  mkRelay (ends r) (pumps r) (r_main r) (r_ctx r) a.

Definition at_pc (pc : pumpPC) (p : pumpState) : pumpState := mkPump pc (pm_buf p) (pm_written p) (pm_err p).

(** The end of [io.CopyBuffer]; the end of the stream is not an error. *)
Definition copy_end (err : option goerr) (p : pumpState) : pumpState :=
  mkPump PCloseWrite (pm_buf p) (pm_written p) (if bool_decide (err = Some EOF) then None else err).

(** ** Steps *)

(** [Read] returned [n] bytes and [er].  A closed half gives an error and nothing
    else; the end of the stream is reported when the peer's bytes are used up, or
    behind a [CloseRead]. *)
Definition read_ok (n : nat) (er : option goerr) (e : endpoint) (p : pumpState) : bool :=
  (n <=? length (pm_buf p))%nat && (n <=? length (e_in e))%nat &&
  (negb (closedRead e) || ((n =? 0)%nat && bool_decide (er <> None))) &&
  (negb (bool_decide (er = Some EOF)) || bool_decide (drop n (e_in e) = []) || closedRead e).

(** The part of the loop of [io.CopyBuffer] after the read. *)
Definition do_read (from : side) (n : nat) (er : option goerr) (r : relayState) : option relayState :=
  let e := ends r from in
  let p := pumps r from in
  if bool_decide (pm_pc p = PRead) && read_ok n er e p then
    let p := mkPump (pm_pc p) (copy_at 0 (take n (e_in e)) (pm_buf p)) (pm_written p) (pm_err p) in
    let p := if (0 <? n)%nat then at_pc (PWrite n er) p
             else match er with Some _ => copy_end er p | None => p end in
    Some (set_pump from p (set_end from (mkEnd (drop n (e_in e)) (e_out e) (closedRead e) (closedWrite e)) r))
  else None.

(** [Write] of [buf[0:nr]] took [nw] bytes and returned [ew]. *)
Definition do_write (from : side) (nw : nat) (ew : option goerr) (r : relayState) : option relayState :=
  let e := ends r (other from) in
  let p := pumps r from in
  match pm_pc p with
  | PWrite nr er =>
      if (nw <=? nr)%nat && (negb (closedWrite e) || ((nw =? 0)%nat && bool_decide (ew <> None))) then
        let p' := mkPump PRead (pm_buf p) (pm_written p + Z.of_nat nw) (pm_err p) in
        let p' := match ew with
                  | Some _ => mkPump PCloseWrite (pm_buf p') (pm_written p') ew
                  | None => if negb (nr =? nw)%nat then copy_end (Some ErrShortWrite) p'
                            else match er with Some _ => copy_end er p' | None => p' end
                  end in
        Some (set_pump from p' (set_end (other from)
                (mkEnd (e_in e) (e_out e ++ take nw (take nr (pm_buf p))) (closedRead e) (closedWrite e)) r))
      else None
  | _ => None
  end.

(** The next deferred call of [pump(src, dst)], in which [io.CopyBuffer] reads
    from [dst] and writes to [src]. *)
Definition do_defer (from : side) (r : relayState) : option relayState :=
  let dst := from in
  let src := other from in
  let p := pumps r from in
  match pm_pc p with
  | PCloseWrite => Some (set_pump from (at_pc PCloseRead p) (set_end dst (CloseWrite (ends r dst)) r))
  | PCloseRead => Some (set_pump from (at_pc PRelease p) (set_end src (CloseRead (ends r src)) r))
  | PRelease => Some (set_pump from (at_pc PDone p) r)
  | _ => None
  end.

(** The end of the context starts the function of [AfterFunc] unless it was
    stopped. *)
Definition end_ctx (r : relayState) : relayState :=
  mkRelay (ends r) (pumps r) (r_main r) true (if bool_decide (r_after r = AfWaiting) then AfTelegram else r_after r).

(** [Relay] behind the start of its goroutine: its own pump copies from telegram
    to the client, [closeChan] is closed when the other one has returned; then
    [stop], [cancel] and the two [Close], deferred in the opposite order. *)
Definition do_main (r : relayState) : option relayState :=
  match r_main r with
  | MPump => if bool_decide (pm_pc (pumps r Telegram) = PDone) then Some (set_main MWait r) else None
  | MWait => if bool_decide (pm_pc (pumps r Client) = PDone) then Some (set_main MStop r) else None
  | MStop => Some (set_main MCancel (if bool_decide (r_after r = AfWaiting) then set_after AfStopped r else r))
  | MCancel => Some (set_main MCloseClient (end_ctx r))
  | MCloseClient => Some (set_main MCloseTelegram (set_end Client (Close (ends r Client)) r))
  | MCloseTelegram => Some (set_main MReturned (set_end Telegram (Close (ends r Telegram)) r))
  | MReturned => None
  end.

(** The goroutine of [AfterFunc]. *)
Definition do_after (r : relayState) : option relayState :=
  match r_after r with
  | AfTelegram => Some (set_after AfClient (set_end Telegram (Close (ends r Telegram)) r))
  | AfClient => Some (set_after AfDone (set_end Client (Close (ends r Client)) r))
  | _ => None
  end.

Inductive relay_act :=
  | RAcquire (from : side) (buf : list byte)
  | RRead (from : side) (n : nat) (er : option goerr)
  | RWrite (from : side) (nw : nat) (ew : option goerr)
  | RDefer (from : side)
  | RMain
  | RAfter
  | RCancel.              (* the context of the caller ends *)

Section relay.
Context (mips : bool).

(** A buffer of the pool holds whatever its last user left in it. *)
Definition do_acquire (from : side) (buf : list byte) (r : relayState) : option relayState :=
  let p := pumps r from in
  if bool_decide (pm_pc p = PAcquire) && (length buf =? bufPoolSize mips)%nat
  then Some (set_pump from (mkPump PRead buf (pm_written p) (pm_err p)) r) else None.

Definition relay_do (a : relay_act) (r : relayState) : option relayState :=
  match a with
  | RAcquire from buf => do_acquire from buf r
  | RRead from n er => do_read from n er r
  | RWrite from nw ew => do_write from nw ew r
  | RDefer from => do_defer from r
  | RMain => do_main r
  | RAfter => do_after r
  | RCancel => if r_ctx r then None else Some (end_ctx r)
  end.

Definition relay_step (r r' : relayState) : Prop := exists a, relay_do a r = Some r'.

Fixpoint relay_run (l : list relay_act) (r : relayState) : option relayState :=
  match l with [] => Some r | a :: l => r' ← relay_do a r; relay_run l r' end.
End relay.

(** Both connections as [Relay] gets them: open, nothing copied; [sent] is what
    each peer sends. *)
Definition relay_start (sent : side -> list byte) : relayState :=
  mkRelay (fun s => mkEnd (sent s) [] false false) (fun _ => mkPump PAcquire [] 0 None) MPump false AfWaiting.

(** ** Proofs *)

Lemma upd_eq {A} (f : side -> A) s a : upd f s a s = a.
Proof. unfold upd. by destruct (decide (s = s)). Qed.

Lemma upd_other {A} (f : side -> A) s a : upd f s a (other s) = f (other s).
Proof. by destruct s. Qed.

Lemma upd_from_other {A} (f : side -> A) s a : upd f (other s) a s = f s.
Proof. by destruct s. Qed.

Lemma other_other s : other (other s) = s.
Proof. by destruct s. Qed.

Lemma side_cases (P : side -> Prop) from : P from -> P (other from) -> forall s, P s.
Proof. by destruct from; intros ? ? []. Qed.

#[local] Hint Rewrite @upd_eq @upd_other @upd_from_other other_other : relaydb.

Ltac rcbn := cbn [negb ends pumps r_main r_ctx r_after set_end set_pump set_main set_after end_ctx at_pc copy_end
                  pm_pc pm_buf pm_written pm_err e_in e_out closedRead closedWrite CloseRead CloseWrite Close] in *.

Ltac rsimpl := rcbn; autorewrite with relaydb in *; rcbn.

(** The copying has ended. *)
Definition copied (pc : pumpPC) : bool := match pc with PAcquire | PRead | PWrite _ _ => false | _ => true end.

(** The deferred [CloseWrite], and [CloseRead], have run. *)
Definition wrote_off (pc : pumpPC) : bool := match pc with PCloseRead | PRelease | PDone => true | _ => false end.
Definition read_off (pc : pumpPC) : bool := match pc with PRelease | PDone => true | _ => false end.

(** The bytes that were read and are not written yet. *)
Definition inflight (p : pumpState) : list byte := match pm_pc p with PWrite nr _ => take nr (pm_buf p) | _ => [] end.

(** What a direction has done with what its side sent. *)
Record dir_ok (sent : side -> list byte) (r : relayState) (s : side) : Prop := {
  dir_bytes : exists lost,
    sent s = e_out (ends r (other s)) ++ inflight (pumps r s) ++ lost ++ e_in (ends r s) /\
    (copied (pm_pc (pumps r s)) = false -> lost = []) /\
    (copied (pm_pc (pumps r s)) = true -> pm_err (pumps r s) = None ->
       lost = [] /\ (e_in (ends r s) = [] \/ closedRead (ends r s) = true));
  dir_written : pm_written (pumps r s) = Z.of_nat (length (e_out (ends r (other s))));
  dir_pending : match pm_pc (pumps r s) with
                | PWrite nr er => (nr <= length (pm_buf (pumps r s)))%nat /\
                    (er = Some EOF -> e_in (ends r s) = [] \/ closedRead (ends r s) = true)
                | _ => True
                end;
  dir_closeWrite : wrote_off (pm_pc (pumps r s)) = true -> closedWrite (ends r s) = true;
  dir_closeRead : read_off (pm_pc (pumps r s)) = true -> closedRead (ends r (other s)) = true
}.

(** A connection after some closes. *)
Definition closes (e e' : endpoint) : Prop :=
  (closedRead e = true -> closedRead e' = true) /\ (closedWrite e = true -> closedWrite e' = true).

Lemma dir_frame sent r r' s :
  dir_ok sent r s -> pumps r' s = pumps r s -> e_in (ends r' s) = e_in (ends r s) ->
  e_out (ends r' (other s)) = e_out (ends r (other s)) -> closes (ends r s) (ends r' s) -> closes (ends r (other s)) (ends r' (other s)) ->
  dir_ok sent r' s.
Proof.
  intros [Hb Hw Hp Hcw Hcr] H1 H2 H3 [H4 H5] [H6 H7]. constructor; rewrite ?H1, ?H2, ?H3; auto.
  - destruct Hb as (lost & ? & ? & Hc). exists lost. split_and!; [done|done|]. intros Hx Hy. destruct (Hc Hx Hy) as [? [?|?]]; auto.
  - destruct (pm_pc (pumps r s)); try done. destruct Hp as [? Hp]. split; [done|]. intros He. destruct (Hp He); auto.
Qed.

Lemma closes_refl e : closes e e.
Proof. by split. Qed.

Lemma closes_close e : closes e (Close e).
Proof. by split. Qed.

#[local] Hint Resolve closes_refl closes_close : core.

Lemma acquire_dir mips sent from buf r r' s :
  do_acquire mips from buf r = Some r' -> (forall s, dir_ok sent r s) -> dir_ok sent r' s.
Proof.
  unfold do_acquire. intros Hs Hd. case_bool_decide as Hpc; [|done]. simpl in Hs. destruct (length buf =? _)%nat; simplify_eq.
  revert s. refine (side_cases _ from _ _).
  - destruct (Hd from) as [(lost & Hl & H1 & H2) Hw Hp Hcw Hcr]. unfold inflight in Hl. rewrite Hpc in *. simpl in *. rewrite (H1 eq_refl) in Hl.
    constructor; rsimpl; try done.
    exists []. split_and!; [done|done|done].
  - eapply dir_frame; [apply Hd|rsimpl; by auto..].
Qed.

Lemma read_dir sent from n er r r' s :
  do_read from n er r = Some r' -> (forall s, dir_ok sent r s) -> dir_ok sent r' s.
Proof.
  unfold do_read. intros Hs Hd. case_bool_decide as Hpc; [|done]. simpl in Hs. destruct (read_ok _ _ _ _) eqn:Hok; [|done].
  unfold read_ok in Hok. apply andb_true_iff in Hok as [[[Hn1 Hn2]%andb_true_iff Hcl]%andb_true_iff Heof]. apply Nat.leb_le in Hn1, Hn2.
  assert (er = Some EOF -> drop n (e_in (ends r from)) = [] \/ closedRead (ends r from) = true) as HE.
  { intros He. rewrite bool_decide_true in Heof by done. simpl in Heof. apply orb_true_iff in Heof as [H%bool_decide_eq_true|H]; auto. }
  revert s. refine (side_cases _ from _ _).
  - destruct (Hd from) as [(lost & Hl & H1 & H2) Hw Hp Hcw Hcr]. unfold inflight in Hl. rewrite Hpc in Hl, H1. simpl in H1. rewrite (H1 eq_refl) in Hl.
    assert (take n (copy_at 0 (take n (e_in (ends r from))) (pm_buf (pumps r from))) = take n (e_in (ends r from))) as Hbuf.
    { unfold copy_at. rewrite take_0. cbn [app]. rewrite take_app_le by (rewrite !length_take; lia). rewrite !take_take. f_equal. lia. }
    destruct (0 <? n)%nat eqn:H0n; zbool.
    + simplify_eq. constructor; rsimpl; try done; [|by rewrite length_copy_at].
      exists []. unfold inflight. rsimpl. rewrite Hbuf. split_and!; [|done|done]. simpl in *. by rewrite Hl, take_drop.
    + assert (n = 0%nat) as -> by lia. destruct er as [e|]; simplify_eq; constructor; rsimpl; try done.
      * exists []. unfold inflight. rsimpl. simpl in *. rewrite drop_0 in *. split_and!; [done|done|]. intros _ He. split; [done|].
        apply HE. case_bool_decide as Hx; [by simplify_eq|done].
      * exists []. unfold inflight. rsimpl. rewrite Hpc. simpl in *. rewrite drop_0 in *. by split_and!.
      * by rewrite Hpc.
  - eapply dir_frame; [apply Hd| | | | |]; destruct (0 <? n)%nat, er; simplify_eq; rsimpl; auto; by split.
Qed.

Lemma write_dir sent from nw ew r r' s :
  do_write from nw ew r = Some r' -> (forall s, dir_ok sent r s) -> dir_ok sent r' s.
Proof.
  unfold do_write. intros Hs Hd. destruct (pm_pc (pumps r from)) as [| |nr er| | | |] eqn:Hpc; try done.
  destruct ((nw <=? nr)%nat && _) eqn:Hok; [|done]. apply andb_true_iff in Hok as [Hle _]. apply Nat.leb_le in Hle.
  injection Hs as <-. revert s. refine (side_cases _ from _ _).
  - destruct (Hd from) as [(lost & Hl & H1 & H2) Hw Hp Hcw Hcr]. unfold inflight in Hl. rewrite Hpc in *. simpl in H1, Hp.
    rewrite (H1 eq_refl) in Hl. destruct Hp as [Hbuf HE]. cbn [app] in Hl.
    assert (sent from = (e_out (ends r (other from)) ++ take nw (take nr (pm_buf (pumps r from)))) ++
              drop nw (take nr (pm_buf (pumps r from))) ++ e_in (ends r from)) as Hsplit.
    { rewrite Hl, <- app_assoc. f_equal. by rewrite app_assoc, take_drop. }
    assert (pm_written (pumps r from) + Z.of_nat nw =
              Z.of_nat (length (e_out (ends r (other from)) ++ take nw (take nr (pm_buf (pumps r from)))))) as Hlen.
    { rewrite length_app, !length_take. lia. }
    destruct ew as [e|]; [|destruct (nr =? nw)%nat eqn:Heq; [zbool; subst nw; destruct er as [e|]|]];
      constructor; rsimpl; try done; unfold inflight; rsimpl.
    + exists (drop nw (take nr (pm_buf (pumps r from)))). by split_and!.
    + exists []. rewrite drop_ge in Hsplit by (rewrite length_take; lia). split_and!; [done|done|]. intros _ He. split; [done|].
      apply HE. case_bool_decide as Hx; [by simplify_eq|done].
    + exists []. rewrite drop_ge in Hsplit by (rewrite length_take; lia). by split_and!.
    + exists (drop nw (take nr (pm_buf (pumps r from)))). by split_and!.
  - eapply dir_frame; [apply Hd| | | | |]; rsimpl; auto; by split.
Qed.

Lemma defer_dir sent from r r' s :
  do_defer from r = Some r' -> (forall s, dir_ok sent r s) -> dir_ok sent r' s.
Proof.
  unfold do_defer. intros Hs Hd. revert s. refine (side_cases _ from _ _).
  - destruct (Hd from) as [(lost & Hl & H1 & H2) Hw Hp Hcw Hcr]. unfold inflight in Hl.
    destruct (pm_pc (pumps r from)) eqn:Hpc; simplify_eq/=; constructor; rsimpl; try done; auto; exists lost; unfold inflight; rsimpl;
      by split_and!.
  - destruct (pm_pc (pumps r from)) eqn:Hpc; simplify_eq/=; (eapply dir_frame; [apply Hd| | | | |]; rsimpl; auto; by split).
Qed.

Lemma main_dir sent r r' s : do_main r = Some r' -> dir_ok sent r s -> dir_ok sent r' s.
Proof.
  unfold do_main. intros Hs Hd. destruct (r_main r); repeat case_bool_decide; simplify_eq; (eapply dir_frame; [exact Hd|..]);
    rcbn; try done; auto; destruct s; rcbn; unfold upd; simpl; auto; by split.
Qed.

Lemma after_dir sent r r' s : do_after r = Some r' -> dir_ok sent r s -> dir_ok sent r' s.
Proof.
  unfold do_after. intros Hs Hd. destruct (r_after r); simplify_eq; (eapply dir_frame; [exact Hd|..]);
    rcbn; try done; auto; destruct s; rcbn; unfold upd; simpl; auto; by split.
Qed.

Lemma dir_step mips sent r r' : (forall s, dir_ok sent r s) -> relay_step mips r r' -> forall s, dir_ok sent r' s.
Proof.
  intros Hd [a Ha] s. destruct a as [from buf|from n er|from nw ew|from| | |]; simpl in Ha.
  - by eapply acquire_dir.
  - by eapply read_dir.
  - by eapply write_dir.
  - by eapply defer_dir.
  - by eapply main_dir.
  - by eapply after_dir.
  - destruct (r_ctx r); simplify_eq. by eapply dir_frame; [apply Hd|..]; rcbn.
Qed.

Lemma dir_start sent s : dir_ok sent (relay_start sent) s.
Proof. constructor; rcbn; try done. by exists []. Qed.

Lemma dir_reach mips sent r : rtc (relay_step mips) (relay_start sent) r -> forall s, dir_ok sent r s.
Proof.
  intros Hr. generalize (dir_start sent). induction Hr as [|x y z Hs _ IH]; [done|]. intros Hd. apply IH. by eapply dir_step.
Qed.

(** A step closes halves and opens none, and leaves a pump that has returned. *)
Lemma step_mono mips r r' s :
  relay_step mips r r' -> closes (ends r s) (ends r' s) /\ (pm_pc (pumps r s) = PDone -> pumps r' s = pumps r s).
Proof.
  intros [a Ha]. destruct a as [from buf|from n er|from nw ew|from| | |]; simpl in Ha;
    unfold do_acquire, do_read, do_write, do_defer, do_main, do_after in Ha.
  - case_bool_decide as Hpc; [|done]. simpl in Ha. destruct (length buf =? _)%nat; simplify_eq. rcbn.
    split; [done|]. unfold upd. case_decide; [subst; by rewrite Hpc|done].
  - case_bool_decide as Hpc; [|done]. simpl in Ha. destruct (read_ok _ _ _ _); simplify_eq. rcbn. unfold upd. case_decide; [subst|done].
    split; [by split|]. by rewrite Hpc.
  - destruct (pm_pc (pumps r from)) eqn:Hpc; try done. destruct (_ && _); simplify_eq. rcbn. unfold upd. split.
    + case_decide; [subst; by split|done].
    + case_decide; [subst; by rewrite Hpc|done].
  - destruct (pm_pc (pumps r from)) eqn:Hpc; simplify_eq; rcbn; unfold upd; (split; [case_decide; [subst; by split|done]|case_decide; [subst; by rewrite Hpc|done]]) ||
      (split; [done|case_decide; [subst; by rewrite Hpc|done]]).
  - destruct (r_main r); repeat case_bool_decide; simplify_eq; rcbn; try done; unfold upd; split; try done; case_decide; by subst.
  - destruct (r_after r); simplify_eq; rcbn; unfold upd; split; try done; case_decide; by subst.
  - destruct (r_ctx r); by simplify_eq.
Qed.

(** How far the caller is tells which pumps have returned and which connections
    it has closed. *)
Record main_ok (r : relayState) : Prop := {
  main_own : r_main r <> MPump -> pm_pc (pumps r Telegram) = PDone;
  main_chan : r_main r <> MPump -> r_main r <> MWait -> pm_pc (pumps r Client) = PDone;
  main_client : r_main r = MCloseTelegram \/ r_main r = MReturned -> closes (Close (ends r Client)) (ends r Client);
  main_telegram : r_main r = MReturned -> closes (Close (ends r Telegram)) (ends r Telegram)
}.

Lemma closes_step mips r r' s : relay_step mips r r' -> closes (Close (ends r s)) (ends r s) -> closes (Close (ends r' s)) (ends r' s).
Proof. intros Hs [H1 H2]. destruct (step_mono mips r r' s Hs) as [[H3 H4] _]. split; intros _; [apply H3, H1|apply H4, H2]; done. Qed.

Lemma main_step mips r r' : main_ok r -> relay_step mips r r' -> main_ok r'.
Proof.
  intros [H1 H2 H3 H4] Hs. pose proof (fun s => proj2 (step_mono mips r r' s Hs)) as Hdone.
  pose proof (fun s => closes_step mips r r' s Hs) as Hcl.
  assert (r_main r' = r_main r -> main_ok r') as Hsame.
  { intros E. constructor; rewrite E; intros; [rewrite Hdone; auto..| |]; apply Hcl; auto. }
  destruct Hs as [a Ha]. destruct a as [from buf|from n er|from nw ew|from| | |]; simpl in Ha.
  - apply Hsame. unfold do_acquire in Ha. by destruct (_ && _); simplify_eq.
  - apply Hsame. unfold do_read in Ha. by destruct (_ && _); simplify_eq.
  - apply Hsame. unfold do_write in Ha. destruct (pm_pc (pumps r from)); try done. destruct ((nw <=? nr)%nat && _); by simplify_eq.
  - apply Hsame. unfold do_defer in Ha. by destruct (pm_pc (pumps r from)); simplify_eq.
  - unfold do_main in Ha. destruct (r_main r) eqn:Hm; repeat case_bool_decide; simplify_eq;
      (constructor; rcbn; try done; intros; try (by apply H1); try (by apply H2); try naive_solver); unfold upd; simpl; try (by split); by apply H3; auto.
  - apply Hsame. unfold do_after in Ha. by destruct (r_after r); simplify_eq.
  - apply Hsame. by destruct (r_ctx r); simplify_eq.
Qed.

Lemma main_reach mips sent r : rtc (relay_step mips) (relay_start sent) r -> main_ok r.
Proof.
  intros Hr. assert (main_ok (relay_start sent)) as H0 by (constructor; rcbn; try done; by intros [?|?]).
  revert H0. induction Hr as [|x y z Hs _ IH]; [done|]. intros H. apply IH. by eapply main_step.
Qed.

(** ** Claims *)

(** C23: the relay delivers what it reads, and ends cleanly.  In every
    interleaving of the two pumps with the end of the context, whatever the reads
    and writes return (short writes and errors that come with bytes included):
    what a side has received is the beginning of what the other side sent, in
    order, and its length is the count that the pump returns; while a direction
    is being copied nothing of it is lost, what was sent being what was
    delivered, what is in the pump's buffer and what is still to be read; a
    direction whose copying has ended without an error has delivered all it
    read, and read all that was sent unless its read half was closed under it.
    [Relay] returns only when both pumps have returned, and both connections are
    then closed in both directions. *)
Theorem relay_delivers mips sent r s :
  rtc (relay_step mips) (relay_start sent) r ->
  e_out (ends r (other s)) `prefix_of` sent s /\
  pm_written (pumps r s) = Z.of_nat (length (e_out (ends r (other s)))) /\
  (copied (pm_pc (pumps r s)) = false ->
     sent s = e_out (ends r (other s)) ++ inflight (pumps r s) ++ e_in (ends r s)) /\
  (copied (pm_pc (pumps r s)) = true -> pm_err (pumps r s) = None ->
     sent s = e_out (ends r (other s)) ++ e_in (ends r s) /\ (e_in (ends r s) = [] \/ closedRead (ends r s) = true)) /\
  (r_main r = MReturned ->
     pm_pc (pumps r s) = PDone /\ closedRead (ends r s) = true /\ closedWrite (ends r s) = true).
Proof.
  intros Hr. destruct (dir_reach mips sent r Hr s) as [(lost & Hl & H1 & H2) Hw _ _ _].
  destruct (main_reach mips sent r Hr) as [M1 M2 M3 M4]. split_and!.
  - rewrite Hl. by eexists.
  - done.
  - intros Hc. by rewrite Hl, (H1 Hc).
  - intros Hc He. destruct (H2 Hc He) as [-> Hrd]. split; [|done]. rewrite Hl. unfold inflight. by destruct (pm_pc (pumps r s)).
  - intros Hm. rewrite Hm in *. destruct s; [destruct M4 as [? ?]|destruct M3 as [? ?]]; auto; split_and!; auto; (by apply M1) || (by apply M2).
Qed.

(** *** The relay ends *)

(** The steps of the relay itself, that is all but the end of the caller's
    context. *)
Definition own (a : relay_act) : bool := match a with RCancel => false | _ => true end.

Definition pump_rank (pc : pumpPC) : nat :=
  match pc with PAcquire => 6 | PRead => 5 | PWrite _ _ => 4 | PCloseWrite => 3 | PCloseRead => 2 | PRelease => 1 | PDone => 0 end.

Definition main_rank (m : mainPC) : nat :=
  match m with MPump => 6 | MWait => 5 | MStop => 4 | MCancel => 3 | MCloseClient => 2 | MCloseTelegram => 1 | MReturned => 0 end.

Definition after_rank (a : afterPC) : nat := match a with AfWaiting => 3 | AfTelegram => 2 | AfClient => 1 | _ => 0 end.

Definition rank (r : relayState) : nat :=
  pump_rank (pm_pc (pumps r Telegram)) + pump_rank (pm_pc (pumps r Client)) + main_rank (r_main r) + after_rank (r_after r).

(** Both connections are closed, as they are after the end of the context. *)
Definition all_closed (r : relayState) : Prop := forall s, closedRead (ends r s) = true /\ closedWrite (ends r s) = true.

Lemma rank_pump r from p (r' : relayState) :
  pumps r' = upd (pumps r) from p -> r_main r' = r_main r -> r_after r' = r_after r ->
  (pump_rank (pm_pc p) < pump_rank (pm_pc (pumps r from)))%nat -> (rank r' < rank r)%nat.
Proof. intros Hp Hm Ha Hlt. unfold rank. rewrite Hp, Hm, Ha. destruct from; unfold upd; simpl; lia. Qed.

Lemma rank_step mips a r r' : all_closed r -> own a = true -> relay_do mips a r = Some r' -> (rank r' < rank r)%nat.
Proof.
  intros Hc Ho Ha. destruct a as [from buf|from n er|from nw ew|from| | |]; simpl in Ha; try done.
  - unfold do_acquire in Ha. case_bool_decide as Hpc; [|done]. simpl in Ha. destruct (length buf =? _)%nat; simplify_eq.
    eapply rank_pump; [done..|]. rcbn. rewrite Hpc. simpl. lia.
  - unfold do_read in Ha. case_bool_decide as Hpc; [|done]. simpl in Ha. destruct (read_ok _ _ _ _) eqn:Hok; simplify_eq.
    unfold read_ok in Hok. rewrite (proj1 (Hc from)) in Hok. simpl in Hok.
    apply andb_true_iff in Hok as [[_ [Hn He%bool_decide_eq_true]%andb_true_iff]%andb_true_iff _]. apply Nat.eqb_eq in Hn as ->.
    destruct er as [e|]; [|done]. eapply rank_pump; [done..|]. rcbn. simpl. rewrite Hpc. simpl. lia.
  - unfold do_write in Ha. destruct (pm_pc (pumps r from)) eqn:Hpc; try done. rewrite (proj2 (Hc (other from))) in Ha. simpl in Ha.
    destruct ew as [e|]; [|by rewrite andb_false_r in Ha; rewrite andb_false_r in Ha]. destruct (_ && _); simplify_eq.
    eapply rank_pump; [done..|]. rcbn. rewrite Hpc. simpl. lia.
  - unfold do_defer in Ha. destruct (pm_pc (pumps r from)) eqn:Hpc; simplify_eq; (eapply rank_pump; [done..|]; rcbn; rewrite Hpc; simpl; lia).
  - unfold do_main in Ha. destruct (r_main r) eqn:Hm; repeat case_bool_decide; simplify_eq; unfold rank; rcbn; rewrite Hm; simpl; try lia;
      repeat case_bool_decide; rcbn; simplify_eq; simpl; try lia;
      match goal with H : r_after r = _ |- _ => rewrite H end; simpl; lia.
  - unfold do_after in Ha. destruct (r_after r) eqn:Hm; simplify_eq; unfold rank; rcbn; rewrite Hm; simpl; lia.
Qed.

(** Reads and writes that fail, deferred calls: a pump that has not returned can
    go on. *)
Lemma pump_enabled mips r from :
  pm_pc (pumps r from) <> PDone -> exists a, own a = true /\ is_Some (relay_do mips a r).
Proof.
  intros Hd. destruct (pm_pc (pumps r from)) as [| |nr er| | | |] eqn:Hpc; [| | | | | |done].
  - exists (RAcquire from (replicate (bufPoolSize mips) Byte.x00)). split; [done|]. simpl. unfold do_acquire.
    rewrite Hpc, length_replicate, Nat.eqb_refl. by eexists.
  - exists (RRead from 0 (Some ErrUnexpectedEOF)). split; [done|]. simpl. unfold do_read, read_ok. rewrite Hpc. simpl.
    rewrite orb_true_r. simpl. by eexists.
  - exists (RWrite from 0 (Some ErrUnexpectedEOF)). split; [done|]. simpl. unfold do_write. rewrite Hpc. simpl.
    rewrite orb_true_r. simpl. by eexists.
  - exists (RDefer from). split; [done|]. simpl. unfold do_defer. rewrite Hpc. by eexists.
  - exists (RDefer from). split; [done|]. simpl. unfold do_defer. rewrite Hpc. by eexists.
  - exists (RDefer from). split; [done|]. simpl. unfold do_defer. rewrite Hpc. by eexists.
Qed.

(** Once the end of the context has closed both connections, [Relay] returns:
    until it has, some step of its own can be made, and every such step lowers
    [rank], which is at most 21 at the start. *)
Theorem relay_ends mips r :
  all_closed r -> r_main r <> MReturned ->
  (exists a, own a = true /\ is_Some (relay_do mips a r)) /\
  (forall a r', own a = true -> relay_do mips a r = Some r' -> (rank r' < rank r)%nat /\ all_closed r').
Proof.
  intros Hc Hm. split.
  - destruct (decide (pm_pc (pumps r Telegram) = PDone)) as [HT|HT]; [|by apply (pump_enabled mips r Telegram)].
    destruct (decide (pm_pc (pumps r Client) = PDone)) as [HC|HC]; [|by apply (pump_enabled mips r Client)].
    exists RMain. split; [done|]. simpl. unfold do_main. destruct (r_main r); try done; rewrite ?bool_decide_true by done; by eexists.
  - intros a r' Ho Ha. split; [by eapply rank_step|]. intros s. destruct (Hc s) as [H1 H2].
    destruct (step_mono mips r r' s ltac:(by exists a)) as [[H3 H4] _]. auto.
Qed.

(** *** Half-closes *)

Lemma no_write_step mips r r' s :
  closedWrite (ends r s) = true -> relay_step mips r r' -> e_out (ends r' s) = e_out (ends r s).
Proof.
  intros Hw [a Ha]. destruct a as [from buf|from n er|from nw ew|from| | |]; simpl in Ha;
    unfold do_acquire, do_read, do_write, do_defer, do_main, do_after in Ha.
  - by destruct (_ && _); simplify_eq.
  - destruct (_ && _); simplify_eq. rcbn. unfold upd. by case_decide; subst.
  - destruct (pm_pc (pumps r from)) eqn:Hpc; try done. rcbn. destruct (decide (s = other from)) as [->|Hne].
    + rewrite Hw in Ha. destruct (nw =? 0)%nat eqn:Hn; [|by rewrite !andb_false_r in Ha]. apply Nat.eqb_eq in Hn as ->.
      destruct (_ && _); simplify_eq. rcbn. rewrite upd_eq. rcbn. by rewrite take_0, app_nil_r.
    + destruct (_ && _); simplify_eq. rcbn. unfold upd. by case_decide.
  - destruct (pm_pc (pumps r from)); simplify_eq; rcbn; unfold upd; try done; by case_decide; subst.
  - destruct (r_main r); repeat case_bool_decide; simplify_eq; rcbn; try done; unfold upd; by case_decide; subst.
  - destruct (r_after r); simplify_eq; rcbn; unfold upd; by case_decide; subst.
  - by destruct (r_ctx r); simplify_eq.
Qed.

(** A half-closed side is cut off in both directions.  As soon as the pump that
    copies from a side has run its deferred calls, the side's write half and the
    other side's read half are closed ([pump] closes the halves of the opposite
    direction), so in every continuation the side receives nothing more, however
    much the other side still sends. *)
Theorem relay_half_close mips sent r r' s :
  rtc (relay_step mips) (relay_start sent) r -> read_off (pm_pc (pumps r s)) = true -> rtc (relay_step mips) r r' ->
  closedWrite (ends r s) = true /\ closedRead (ends r (other s)) = true /\ e_out (ends r' s) = e_out (ends r s).
Proof.
  intros Hr Hoff Hr'. destruct (dir_reach mips sent r Hr s) as [_ _ _ Hcw Hcr].
  assert (closedWrite (ends r s) = true) as Hw by (apply Hcw; by destruct (pm_pc (pumps r s))).
  split_and!; [done|by apply Hcr|]. clear Hr Hoff Hcw Hcr. induction Hr' as [|x y z Hs _ IH]; [done|].
  rewrite IH; [by eapply no_write_step|]. by apply (step_mono mips x y s Hs).
Qed.

(** ** Witnesses *)

Lemma relay_run_steps mips l r r' : relay_run mips l r = Some r' -> rtc (relay_step mips) r r'.
Proof.
  revert r. induction l as [|a l IH]; intros r Hl; simplify_eq/=; [apply rtc_refl|].
  destruct (relay_do mips a r) as [r1|] eqn:Ha; simplify_eq/=. eapply rtc_l; [by exists a|by apply IH].
Qed.

(** A client that sends a request and half-closes: the answer of three bytes is
    never delivered. *)
Definition demo_sent (s : side) : list byte :=
  match s with Client => [Byte.x41; Byte.x42] | Telegram => [Byte.x01; Byte.x02; Byte.x03] end.

Definition demo_request : list relay_act :=
  [RAcquire Client (replicate (bufPoolSize true) Byte.x55); RRead Client 2 None; RWrite Client 2 None; RRead Client 0 (Some EOF)].

Definition demo_closed : list relay_act := demo_request ++ [RDefer Client; RDefer Client].

Definition demo_at (l : list relay_act) : relayState := default (relay_start demo_sent) (relay_run true l (relay_start demo_sent)).

Lemma relay_demo_reach l :
  bool_decide (is_Some (relay_run true l (relay_start demo_sent))) = true -> rtc (relay_step true) (relay_start demo_sent) (demo_at l).
Proof.
  intros H%bool_decide_eq_true. unfold demo_at. destruct H as [r Hr]. rewrite Hr. by eapply relay_run_steps.
Qed.

Lemma relay_delivers_witness :
  e_out (ends (demo_at demo_request) Telegram) = [Byte.x41; Byte.x42] /\ e_in (ends (demo_at demo_request) Client) = [] /\
  demo_sent Client = e_out (ends (demo_at demo_request) Telegram) ++ e_in (ends (demo_at demo_request) Client).
Proof.
  split; [vm_compute; reflexivity|]. split; [vm_compute; reflexivity|].
  destruct (relay_delivers true demo_sent (demo_at demo_request) Client (relay_demo_reach demo_request ltac:(vm_compute; reflexivity)))
    as (_ & _ & _ & H & _).
  apply H; vm_compute; reflexivity.
Defined.

Lemma relay_half_close_witness :
  e_in (ends (demo_at demo_closed) Telegram) = [Byte.x01; Byte.x02; Byte.x03] /\
  forall r', rtc (relay_step true) (demo_at demo_closed) r' -> e_out (ends r' Client) = [].
Proof.
  split; [vm_compute; reflexivity|]. intros r' Hr'.
  apply (relay_half_close true demo_sent (demo_at demo_closed) r' Client (relay_demo_reach demo_closed ltac:(vm_compute; reflexivity)));
    [vm_compute; reflexivity|exact Hr'].
Defined.
