(* ===== verification/Tunnel.v ===== *)
(** * The tunnel: the layers of a served stream, composed

    After the FakeTLS handshake, [ServeConn] of mtglib/proxy.go stacks the layers
    of a stream: the client's socket under [tls.New(conn, true, false)], under the
    shaping connection of the doppelganger, under the obfuscated connection that
    [doObfuscatedHandshake] returns; on the other side the obfuscated connection
    to a data centre.  [relay.Relay] copies between the two.  This file composes
    the models of these layers and shows what the client and the data centre
    see of each other. *)

From S2P Require Import Prelude GoTime GoIO TLS Obfuscation Frame MiddleStream Doppel.

Section tunnel.
Context {crypto : Crypto} {cipher : BlockCipher} {laws : BlockCipherLaws}.

(** ** The handshake *)

(** [io.ReadFull] over the record connection; every read gives a byte, so [n] is
    enough fuel. *)
Fixpoint conn_read_full (fuel n : nat) (acc : list byte) (c : tlsConn) : option (res (list byte) * tlsConn) :=
  if (n =? 0)%nat then Some (Ok acc, c) else
  match fuel with
  | O => None
  | S fuel =>
      '(r, c) ← Conn_Read (read_fuel c) n c;
      match r with
      | Fail e => Some (Fail (if bool_decide (acc = []) then e else if bool_decide (e = EOF) then ErrUnexpectedEOF else e), c)
      | Ok l => conn_read_full fuel (n - length l) (acc ++ l) c
      end
  end.

(** [doObfuscatedHandshake]: [ReadHandshake] with the key that was matched, over
    the record connection (the shaping layer reads it directly). *)
Definition doObfuscatedHandshake (matchedSecretKey : list byte) (c : tlsConn) : option (res (Z * obfConn) * tlsConn) :=
  '(r, c) ← conn_read_full hfLen hfLen [] c;
  Some (wrap_err "cannot process client handshake"
          match r with
          | Fail e => Fail (Wrap "cannot read frame" e)
          | Ok frame => (ReadHandshake (Some matchedSecretKey) (buffer frame)).1
          end, c).

(** ** The relay *)

(** The rounds of [io.CopyBuffer] from the client to the data centre, with the
    sizes of the buffers: the plain pieces, the bytes written to the data
    centre's socket, and the error that ended the copying. *)
Fixpoint upload (ns : list nat) (c : tlsConn) (client telegram : obfConn) : option (list (list byte) * list byte * option goerr) :=
  match ns with
  | [] => Some ([], [], None)
  | n :: ns =>
      '(x, c) ← Conn_Read (read_fuel c) n c;
      match x with
      | Fail e => Some ([], [], Some e)
      | Ok l =>
          let '(p, _, client) := obf_Read client l None in
          let '(q, telegram) := obf_Write telegram p in
          '(ps, qs, e) ← upload ns c client telegram; Some (p :: ps, q ++ qs, e)
      end
  end.

(** The other direction: the pieces that are read from the data centre's socket
    are decrypted and written to the client's connection, which hands them to
    the shaping layer: the pieces that it gets. *)
Fixpoint download (ws : list (list byte)) (telegram client : obfConn) : list (list byte) :=
  match ws with
  | [] => []
  | w :: ws =>
      let '(p, _, telegram) := obf_Read telegram w None in
      let '(q, client) := obf_Write client p in
      q :: download ws telegram client
  end.

(** The same for a stream with a tag, whose other side is the connection to a
    middle proxy: the connection after the copying and the error that ended it. *)
Fixpoint upload_tagged (ns : list nat) (c : tlsConn) (client : obfConn) (m : middleConn) : option (middleConn * option goerr) :=
  match ns with
  | [] => Some (m, None)
  | n :: ns =>
      '(x, c) ← Conn_Read (read_fuel c) n c;
      match x with
      | Fail e => Some (m, Some e)
      | Ok l =>
          let '(p, _, client) := obf_Read client l None in
          match middle_Write p m with
          | (Fail e, m) => Some (m, Some e)
          | (Ok _, m) => upload_tagged ns c client m
          end
      end
  end.

(** And back: the pieces that the shaping layer gets. *)
Fixpoint download_tagged (ns : list nat) (m : middleConn) (client : obfConn) : list (list byte) :=
  match ns with
  | [] => []
  | n :: ns =>
      let '(p, e, m) := middle_Read n m in
      let '(q, client) := obf_Write client p in
      match e with
      | Some _ => if bool_decide (p = []) then [] else [q]
      | None => q :: download_tagged ns m client
      end
  end.

(** The shaping layer with the writes of the relay: what was handed to it is
    [acc]. *)
Definition shaped (stats : Stats) (buf : list byte) (pieces : list (list byte)) (c : connPayload) : Prop :=
  rtc dstep (NewConn stats buf, []) (c, concat pieces).

(** ** Proofs *)

(** Reading a number of bytes that the records carry. *)
Lemma conn_read_full_stream fuel n acc rs buf e :
  Forall rec_ok rs -> (n <= fuel)%nat -> (n <= length (buf ++ app_data rs))%nat ->
  exists buf' rs', conn_read_full fuel n acc (mkTLS buf (mkSource (wire rs) e)) =
      Some (Ok (acc ++ take n (buf ++ app_data rs)), mkTLS buf' (mkSource (wire rs') e)) /\
    buf' ++ app_data rs' = drop n (buf ++ app_data rs) /\ Forall rec_ok rs'.
Proof.
  revert n acc rs buf. induction fuel as [|fuel IH]; intros n acc rs buf Hok Hf Hn; cbn [conn_read_full]; destruct (n =? 0)%nat eqn:E; zbool.
  1, 3: subst n; exists buf, rs; rewrite take_0, app_nil_r, drop_0; by split_and!.
  { lia. }
  assert (buf ++ app_data rs <> []) as Hne by (intros Hnil; rewrite Hnil in Hn; simpl in Hn; lia).
  destruct (Conn_Read_stream rs (read_fuel (mkTLS buf (mkSource (wire rs) e))) n buf [] e Hok) as (l & buf1 & rs1 & Hr & Hl & Hln & Hsplit & Hok1 & _);
    [lia|unfold read_fuel; simpl; pose proof (wire_fuel rs Hok); lia|done|].
  rewrite !app_nil_r in Hr. rewrite Hr. cbn [mbind option_bind].
  destruct (IH (n - length l)%nat (acc ++ l) rs1 buf1 Hok1) as (buf2 & rs2 & Hr2 & Hs2 & Hok2).
  { destruct l; [done|]. simpl. lia. }
  { rewrite Hsplit, length_app in Hn. lia. }
  exists buf2, rs2. rewrite Hr2, Hs2, Hsplit. split_and!; [|by rewrite (drop_app_ge l) by lia|done].
  by rewrite (take_app_ge l), <-app_assoc by lia.
Qed.

(** The handshake of a client that wrote one. *)
Lemma doObfuscatedHandshake_ok key rnd dc frame hs w rs data e :
  Forall (fun f => length f = hfLen) rnd -> generateHandshake rnd dc = Some frame -> -32768 <= dc < 32768 ->
  SendHandshake (Some key) frame None = (hs, Ok w) -> Forall rec_ok rs -> app_data rs = hs ++ data ->
  exists r buf rs', doObfuscatedHandshake key (mkTLS [] (mkSource (wire rs) e)) =
      Some (Ok (if dc =? 0 then defaultDC else dc, r), mkTLS buf (mkSource (wire rs') e)) /\
    buf ++ app_data rs' = data /\ Forall rec_ok rs' /\ recvCipher r = sendCipher w /\ recvCipher w = sendCipher r.
Proof.
  intros Hr Hg Hdc Hsend Hok Happ. destruct (handshake_pair (Some key) rnd dc frame Hr Hg Hdc) as (hs' & w' & r & Hs & Hl & Hrd & H1 & H2).
  rewrite Hs in Hsend. injection Hsend as -> ->.
  destruct (conn_read_full_stream hfLen hfLen [] rs [] e Hok) as (buf & rs' & Hread & Hrest & Hok'); [lia|simpl; rewrite Happ, length_app; lia|].
  simpl app in Hread, Hrest. rewrite Happ, take_app_length' in Hread by done. rewrite Happ, drop_app_length' in Hrest by done.
  exists r, buf, rs'. unfold doObfuscatedHandshake. rewrite Hread. cbn [mbind option_bind]. specialize (Hrd [] EOF). rewrite app_nil_r in Hrd.
  unfold buffer. rewrite Hrd. by split_and!.
Qed.

(** What the copying reads and writes, seen at once. *)
Lemma upload_spec ns c client telegram l err c' :
  read_many ns c = Some (l, err, c') ->
  exists ps, upload ns c client telegram = Some (ps, (write_all telegram ps).1, err) /\
    concat ps = (XORKeyStream (recvCipher client) l).1.
Proof.
  revert c client telegram l err c'. induction ns as [|n ns IH]; intros c client telegram l err c' Hr; cbn [read_many upload] in *.
  - injection Hr as <- <- <-. by exists [].
  - destruct (Conn_Read (read_fuel c) n c) as [[[l1|e1] c1]|]; cbn [mbind option_bind] in *; [|injection Hr as <- <- <-; by exists []|done].
    destruct (read_many ns c1) as [[[l2 e2] c2]|] eqn:Hr2; cbn [mbind option_bind] in *; [|done]. injection Hr as <- <- <-.
    destruct (IH c1 (mkObf (sendCipher client) (XORKeyStream (recvCipher client) l1).2)
                (mkObf (XORKeyStream (sendCipher telegram) (XORKeyStream (recvCipher client) l1).1).2 (recvCipher telegram)) l2 e2 c2 Hr2)
      as (ps & Hu & Hps).
    unfold obf_Read, obf_Write. destruct (XORKeyStream (recvCipher client) l1) as [p1 r1] eqn:E1. cbn [fst snd] in *.
    destruct (XORKeyStream (sendCipher telegram) p1) as [q1 s1] eqn:E2. cbn [fst snd] in *. rewrite Hu. cbn [mbind option_bind].
    exists (p1 :: ps). cbn [write_all concat]. unfold obf_Write. rewrite E2.
    destruct (write_all (mkObf s1 (recvCipher telegram)) ps) as [w' c''] eqn:E3. split; [done|]. rewrite Hps.
    pose proof (read_all_spec client [l1; l2]) as Ha. cbn [read_all concat] in Ha. rewrite app_nil_r in Ha.
    unfold obf_Read in Ha. rewrite E1 in Ha. cbn [recvCipher sendCipher] in Ha.
    destruct (XORKeyStream r1 l2) as [p2 r2] eqn:E4. cbn [fst snd recvCipher] in *. apply (f_equal fst) in Ha. change (p1 ++ p2 ++ [] = (XORKeyStream (recvCipher client) (l1 ++ l2)).1) in Ha. rewrite <-Ha, app_nil_r. by rewrite E4.
Qed.

Lemma download_spec ws telegram client :
  concat (download ws telegram client) = (XORKeyStream (sendCipher client) (XORKeyStream (recvCipher telegram) (concat ws)).1).1.
Proof.
  enough (concat (download ws telegram client) = (write_all client [(read_all telegram ws).1]).1) as ->.
  { rewrite write_all_spec, read_all_spec. cbn [fst concat]. by rewrite app_nil_r. }
  revert telegram client. induction ws as [|w ws IH]; intros telegram client.
  { cbn. unfold obf_Write. cbn. done. }
  cbn [download read_all]. unfold obf_Read. destruct (XORKeyStream (recvCipher telegram) w) as [p r] eqn:E1.
  unfold obf_Write. destruct (XORKeyStream (sendCipher client) p) as [q s] eqn:E2. cbn [concat]. rewrite IH.
  destruct (read_all (mkObf (sendCipher telegram) r) ws) as [p' c'] eqn:E3. cbn [fst].
  rewrite !write_all_spec. cbn [fst concat sendCipher]. rewrite !app_nil_r.
  pose proof (write_all_spec client [p; p']) as Ha. cbn [write_all concat] in Ha. unfold obf_Write in Ha. rewrite E2 in Ha. cbn [sendCipher] in Ha.
  rewrite app_nil_r in Ha. destruct (XORKeyStream s p') as [q' s'] eqn:E4. apply (f_equal fst) in Ha. change (q ++ q' ++ [] = (XORKeyStream (sendCipher client) (p ++ p')).1) in Ha. by rewrite <-Ha, app_nil_r.
Qed.

(** A reader takes a beginning of what the shaper was given. *)
Lemma shaped_prefix stats buf pieces c ns e l err t :
  length buf = MaxRecordSize -> shaped stats buf pieces c -> Forall (fun p => 0 < p)%nat ns ->
  read_many ns (mkTLS [] (mkSource (d_out c) e)) = Some (l, err, t) -> l `prefix_of` concat pieces.
Proof.
  intros Hb Hr Hns Hread. destruct (doppel_inv_reach _ _ Hr) as (ps & part & Hi); [exists [], []; by apply doppel_inv_start|].
  destruct (doppel_read _ _ _ _ ns e Hi Hns) as (l' & err' & t' & Hread' & Hp & _). cbn [fst snd] in *. by simplify_eq.
Qed.

(** Copying to a middle proxy reads what copying to a data centre reads. *)
Lemma upload_tagged_spec ns c client telegram m pieces up err m' :
  upload ns c client telegram = Some (pieces, up, err) -> middle_Writes pieces m = (None, m') ->
  upload_tagged ns c client m = Some (m', err).
Proof.
  revert c client telegram m pieces up err. induction ns as [|n ns IH]; intros c client telegram m pieces up err Hu Hw; cbn [upload upload_tagged] in *.
  - injection Hu as <- <- <-. by injection Hw as ->.
  - destruct (Conn_Read (read_fuel c) n c) as [[[l|e1] c1]|]; cbn [mbind option_bind] in *; [|injection Hu as <- <- <-; by injection Hw as ->|done].
    destruct (obf_Read client l None) as [[p pe] client1]. destruct (obf_Write telegram p) as [q telegram1].
    destruct (upload ns c1 client1 telegram1) as [[[ps qs] e]|] eqn:Hu1; cbn [mbind option_bind] in Hu; [|done]. injection Hu as <- <- <-.
    cbn [middle_Writes] in Hw. destruct (middle_Write p m) as [[k|e1] m1]; [|done]. by eapply IH.
Qed.

(** What is copied from a middle proxy encrypts a beginning of what it sent. *)
Lemma download_tagged_spec ns m rs client :
  pending m rs -> Forall (fun n => 0 < n)%nat ns ->
  exists plain, plain `prefix_of` pendingBytes m rs /\ concat (download_tagged ns m client) = (XORKeyStream (sendCipher client) plain).1.
Proof.
  intros Hp Hns. revert m rs client Hp. induction Hns as [|n ns Hn _ IH]; intros m rs client Hp; cbn [download_tagged].
  { exists []. split; [apply prefix_nil|done]. }
  pose proof (middle_Read_pending n m rs Hp Hn) as Hr. destruct (middle_Read n m) as [[p [e|]] m1].
  { destruct Hr as (-> & -> & _). exists []. split; [apply prefix_nil|]. by destruct (obf_Write client []). }
  destruct Hr as (_ & rs' & Hp' & Hb). unfold obf_Write. destruct (XORKeyStream (sendCipher client) p) as [q s] eqn:E. cbn [concat].
  destruct (IH m1 rs' (mkObf s (recvCipher client)) Hp') as (plain & Hpre & ->). cbn [sendCipher].
  exists (p ++ plain). rewrite Hb. split; [by apply prefix_app|].
  pose proof (write_all_spec client [p; plain]) as Ha. cbn [write_all concat] in Ha. unfold obf_Write in Ha. rewrite E in Ha. cbn [sendCipher] in Ha.
  rewrite app_nil_r in Ha. destruct (XORKeyStream s plain) as [q' s'] eqn:E4. apply (f_equal fst) in Ha.
  change (q ++ q' ++ [] = (XORKeyStream (sendCipher client) (p ++ plain)).1) in Ha. by rewrite <-Ha, app_nil_r.
Qed.

(** A stream with a tag: the middle proxy gets the client's packets. *)
Lemma tagged_upstream ns c client telegram pieces up err m ps pkts partial :
  upload ns c client telegram = Some (pieces, up, err) -> concat pieces `prefix_of` concat ps -> (err <> None -> concat pieces = concat ps) ->
  ready m -> Forall clientPacket pkts -> nextInner partial = None -> concat ps = concat (map interBytes pkts) ++ partial ->
  exists m' k, upload_tagged ns c client m = Some (m', err) /\ requested m m' (take k pkts) /\
    (err <> None -> take k pkts = pkts /\ inbuf m' = partial).
Proof.
  intros Hu [rest Hrest] Hall Hm Hp Hn Hps. rewrite Hps in Hrest. destruct (splits_beginning pkts partial (concat pieces) rest Hp Hn (eq_sym Hrest)) as (k & r & Hk & Hend).
  destruct (upstream_requested m (take k pkts) pieces r Hm) as (m' & Hw & Hin & Hreq); [by apply Forall_take|done|].
  exists m', k. split; [by eapply upload_tagged_spec|]. split; [done|]. intros He. rewrite Hin. apply Hend.
  rewrite <-Hps, <-(Hall He) in Hrest. rewrite <-(app_nil_r (concat pieces)) in Hrest at 1. by apply app_inv_head in Hrest.
Qed.

(** And the client what the middle proxy sent. *)
Lemma tagged_downstream w r m rs ms stats buf sc ns e l err t :
  recvCipher w = sendCipher r -> pending m rs -> Forall (fun n => 0 < n)%nat ms -> length buf = MaxRecordSize -> Forall (fun n => 0 < n)%nat ns ->
  shaped stats buf (download_tagged ms m r) sc -> read_many ns (mkTLS [] (mkSource (d_out sc) e)) = Some (l, err, t) ->
  (read_all w [l]).1 `prefix_of` pendingBytes m rs.
Proof.
  intros Hwr Hp Hms Hb Hns Hsh Hread. pose proof (shaped_prefix _ _ _ _ _ _ _ _ _ Hb Hsh Hns Hread) as Hl.
  destruct (download_tagged_spec ms m rs r Hp Hms) as (plain & Hpre & Heq). rewrite Heq in Hl.
  assert (concat [l] `prefix_of` (write_all r [plain]).1) as Hp2 by (rewrite write_all_spec; simpl; by rewrite !app_nil_r).
  rewrite (streams_prefix r w _ [l] Hwr Hp2). simpl. rewrite !app_nil_r. etrans; [apply prefix_take|exact Hpre].
Qed.
End tunnel.

(** ** Claims *)

(** The tunnel, end to end.  A client that knows a secret sends the
    obfuscated2 handshake for a data centre and then any data, inside TLS records
    cut and interleaved as it likes; the proxy opens a connection to a data
    centre.  Then the handshake of the proxy with the client succeeds and gives
    the data centre's number; whatever the sizes of the relay's buffers, the data
    centre accepts the proxy's handshake and reads, in any pieces, a beginning of
    the client's data, and all of it when the client's stream was read to its
    end; and what the data centre writes, in whatever pieces the proxy receives,
    shapes and cuts it into records at any pace, the client decrypts to a
    beginning of it. *)
Theorem tunnel_end_to_end `{Crypto} key rnd dc frame hs w rs ps e tgSecret rnd2 dc2 frame2 hs2 w2 ns :
  Forall (fun f => length f = hfLen) rnd -> generateHandshake rnd dc = Some frame -> -32768 <= dc < 32768 ->
  SendHandshake (Some key) frame None = (hs, Ok w) -> Forall rec_ok rs -> app_data rs = hs ++ (write_all w ps).1 ->
  Forall (fun f => length f = hfLen) rnd2 -> generateHandshake rnd2 dc2 = Some frame2 -> -32768 <= dc2 < 32768 ->
  SendHandshake tgSecret frame2 None = (hs2, Ok w2) -> Forall (fun n => 0 < n)%nat ns ->
  exists r c, doObfuscatedHandshake key (mkTLS [] (mkSource (wire rs) e)) = Some (Ok (if dc =? 0 then defaultDC else dc, r), c) /\
    recvCipher w = sendCipher r /\
    exists pieces up err t, upload ns c r w2 = Some (pieces, up, err) /\ concat pieces `prefix_of` concat ps /\ (err <> None -> concat pieces = concat ps) /\
      ReadHandshake tgSecret (mkSource (hs2 ++ up) e) = (Ok (if dc2 =? 0 then defaultDC else dc2, t), mkSource up e) /\
      (forall ws, concat ws = up ->
         (read_all t ws).1 `prefix_of` concat ps /\ (err <> None -> (read_all t ws).1 = concat ps) /\ (err = None -> length ns <= length up)%nat) /\
      (forall qs ws stats buf sc ns' l err' tc,
         concat ws `prefix_of` (write_all t qs).1 -> length buf = MaxRecordSize -> Forall (fun n => 0 < n)%nat ns' ->
         shaped stats buf (download ws w2 r) sc -> read_many ns' (mkTLS [] (mkSource (d_out sc) e)) = Some (l, err', tc) ->
         (read_all w [l]).1 `prefix_of` concat qs).
Proof.
  intros Hr Hg Hdc Hsend Hok Happ Hr2 Hg2 Hdc2 Hsend2 Hns.
  destruct (doObfuscatedHandshake_ok key rnd dc frame hs w rs _ e Hr Hg Hdc Hsend Hok Happ) as (r & buf & rs' & Hdo & Hrest & Hok' & Hrw & Hwr).
  exists r, (mkTLS buf (mkSource (wire rs') e)). split; [done|]. split; [done|].
  destruct (read_many_stream ns rs' buf e Hok' Hns) as (l & err & c' & Hread & Hnone & Hsome). rewrite Hrest in Hnone, Hsome.
  destruct (upload_spec ns _ r w2 l err c' Hread) as (pieces & Hup & Hpieces).
  destruct (handshake_pair tgSecret rnd2 dc2 frame2 Hr2 Hg2 Hdc2) as (hs2' & w2' & t & Hs2 & _ & Hrd2 & H21 & H22).
  rewrite Hs2 in Hsend2. injection Hsend2 as -> ->.
  assert (concat [l] `prefix_of` (write_all w ps).1) as Hpre.
  { simpl. rewrite app_nil_r. destruct err as [e'|]; [destruct (Hsome e' eq_refl) as [_ ->]; done|]. destruct (Hnone eq_refl) as (_ & rest & ->). by eexists. }
  pose proof (streams_prefix w r ps [l] Hrw Hpre) as Hplain. rewrite read_all_spec in Hplain. cbn [fst concat] in Hplain. rewrite app_nil_r in Hplain.
  rewrite <-Hpieces in Hplain.
  assert (length (concat pieces) = length l) as Hlen by (rewrite Hpieces; cbn; by rewrite length_xor_bytes, length_pad, Nat.min_id).
  assert (concat pieces `prefix_of` concat ps) as Hbegin by (rewrite Hplain; apply prefix_take).
  assert (err <> None -> concat pieces = concat ps) as Hend.
  { intros Hne. destruct err as [e'|]; [|done]. destruct (Hsome e' eq_refl) as [_ ->]. rewrite Hplain, write_all_spec. cbn.
    rewrite length_xor_bytes, length_pad, Nat.min_id. apply firstn_all. }
  exists pieces, (write_all w2 pieces).1, err, t. split; [done|]. split; [done|]. split; [done|]. split; [apply Hrd2|]. split.
  - intros ws Hws. rewrite (streams_agree w2 t pieces ws H21 Hws). split_and!; [done|done|].
    + intros Hn. destruct (Hnone Hn) as (Hle & _). rewrite write_all_spec. cbn. rewrite length_xor_bytes, length_pad, Nat.min_id. lia.
  - intros qs ws stats dbuf sc ns' l' err' tc Hws Hb Hns' Hsh Hread'.
    pose proof (shaped_prefix _ _ _ _ _ _ _ _ _ Hb Hsh Hns' Hread') as Hp'. rewrite download_spec in Hp'.
    pose proof (streams_prefix t w2 qs ws H22 Hws) as Hpl. rewrite read_all_spec in Hpl. cbn [fst] in Hpl. rewrite Hpl in Hp'.
    assert (concat [l'] `prefix_of` (write_all r [take (length (concat ws)) (concat qs)]).1) as Hp2.
    { rewrite write_all_spec. simpl. by rewrite !app_nil_r. }
    rewrite (streams_prefix r w _ [l'] Hwr Hp2). simpl. rewrite !app_nil_r. etrans; apply prefix_take.
Qed.

(** ** Witnesses *)

Definition demo_key : list byte := [Byte.x01; Byte.x02].

Definition the_conn (x : list byte * res obfConn) : obfConn := match x.2 with Ok c => c | Fail _ => mkObf (mkCtr [] [] 0) (mkCtr [] [] 0) end.

Definition hello_frame : list byte := default [] (generateHandshake [replicate 64 Byte.xef; demo_frame] (-2)).
Definition client_hello : list byte * res obfConn := @SendHandshake demo_crypto (Some demo_key) hello_frame None.
Definition telegram_hello : list byte * res obfConn := @SendHandshake demo_crypto None hello_frame None.
Definition client_data : list (list byte) := [[Byte.x41; Byte.x42]; [Byte.x43]].

(** The client's bytes in two records with a change of cipher between them. *)
Definition client_bytes : list byte := client_hello.1 ++ (@write_all demo_crypto (the_conn client_hello) client_data).1.
Definition client_records : list (byte * list byte) :=
  [(TypeApplicationData, take 50 client_bytes); (TypeChangeCipherSpec, [Byte.x01]); (TypeApplicationData, drop 50 client_bytes)].

Lemma tunnel_end_to_end_witness :
  let H := demo_crypto in
  exists r c pieces up t,
    doObfuscatedHandshake demo_key (mkTLS [] (mkSource (wire client_records) EOF)) = Some (Ok (-2, r), c) /\
    upload [2; 2; 2]%nat c r (the_conn telegram_hello) = Some (pieces, up, Some EOF) /\ pieces = client_data /\
    ReadHandshake None (mkSource (telegram_hello.1 ++ up) EOF) = (Ok (-2, t), mkSource up EOF) /\ (read_all t [up]).1 = concat client_data.
Proof.
  intros H. assert (Forall (fun f => length f = hfLen) [replicate 64 Byte.xef; demo_frame]) as Hf by (apply (bool_decide_unpack _); vm_compute; exact I).
  destruct (@tunnel_end_to_end H demo_key [replicate 64 Byte.xef; demo_frame] (-2) hello_frame client_hello.1 (the_conn client_hello) client_records
    client_data EOF None [replicate 64 Byte.xef; demo_frame] (-2) hello_frame telegram_hello.1 (the_conn telegram_hello) [2; 2; 2]%nat)
    as (r & c & Hdo & _ & pieces & up & err & t & Hup & _ & _ & Hrd & Hread & _); [exact Hf|vm_compute; reflexivity|lia|vm_compute; reflexivity| | |exact Hf|
    vm_compute; reflexivity|lia|vm_compute; reflexivity|repeat constructor; lia|].
  - repeat constructor.
  - vm_compute. reflexivity.
  - exists r, c, pieces, up, t. assert (err = Some EOF /\ pieces = client_data) as [-> Hp].
    { vm_compute in Hdo. injection Hdo as <- <-. vm_compute in Hup. injection Hup as <- _ <-. split; reflexivity. }
    split; [exact Hdo|]. split; [exact Hup|]. split; [exact Hp|]. split; [exact Hrd|].
    apply (Hread [up]); [apply app_nil_r|discriminate].
Defined.
