(* ===== verification/Admission.v ===== *)
(** * The handshake as a whole: doFakeTLSHandshake, doDomainFrontingForHost of
    mtglib/proxy.go

    The client hello ([FakeTLS]), the snapshot of the secrets ([SecretSet]), the
    anti-replay cache, the limits ([Proxy], [Stats]), the answer and the rewinding
    connection ([Conns]) put together: from the bytes of a client to the decision
    about it, and what a host behind which the proxy hides gets of them.

    HMAC, the filter of the anti-replay cache and the random source are
    parameters. *)

From S2P Require Import Prelude Secret GoTime Limits Stats SecretSet Proxy Pending DC ServeConn GoIO TLS FakeTLS Conns.
From Stdlib Require Import String.
Open Scope string_scope.
Open Scope list_scope.
Open Scope Z_scope.

(** ** The handshake *)

(** Why a client is sent to the fronting host. *)
Inductive cause :=
  | BadHello (e : goerr)
  | Replayed
  | Denied (reason : DenyReason).

(** The end of the handshake; [Greeted] has the fields of the stream that are
    set, the bytes that were sent and the client's connection behind the
    hello. *)
Inductive handshakeEnd :=
  | Fronted (host : string) (why : cause)
  | NotSent (e : goerr)
  | Greeted (name : string) (key : list byte) (tag : option (list byte)) (hello : ClientHello) (answer : list byte) (rest : source).

(** The random parts of the answer, the noise, and the error of writing it. *)
Record greeting := mkGreeting {
  gr_rnd : Z -> Z;
  gr_data : nat -> list byte;
  gr_curve : list byte;
  gr_noise : NoiseParams;
  gr_send : option goerr
}.

Section admission.
Context (hmac : list byte -> list byte -> list byte).
Context {F : Type} (SeenBefore : F -> list byte -> F * bool).
Context (localOffset : Z -> Z).

(** The state of the proxy that a handshake changes. *)
Record gate := mkGate { gt_stats : ProxyStats; gt_cache : F }.

(** [now] is the time of the hello's check, [now'] the time of the limits'.
    [None] is an index out of range. *)
Definition doFakeTLSHandshake (now now' tolerance : Z) (gr : greeting) (set : secretSet) (client : source) (g : gate)
    : option (handshakeEnd * gate) :=
  let secretKeys := Key <$> secrets set in
  match ReadClientHelloMulti hmac now tolerance client secretKeys (hostnames set) with
  | ReadFailed e => first ← secrets set !! 0%nat; Some (Fronted (Host first) (BadHello e), g)
  | ReadPartial matchedHost e =>
      first ← secrets set !! 0%nat;
      Some (Fronted (if bool_decide (matchedHost = "") then Host first else matchedHost) (BadHello e), g)
  | ReadMatched hello i matchedHost =>
      let '(cache, seen) := SeenBefore (gt_cache g) (SessionID hello) in
      let g := mkGate (gt_stats g) cache in
      if seen then Some (Fronted matchedHost Replayed, g) else
      matchedSecret ← secrets set !! i;
      name ← names set !! i;
      lim ← limits set !! i;
      let '(st, (allowed, reason)) := checkLimits localOffset now' (gt_stats g) name lim in
      let g := mkGate st (gt_cache g) in
      if negb allowed then Some (Fronted matchedHost (Denied reason), g) else
      match gr_send gr with
      | Some e => Some (NotSent e, g)
      | None =>
          Some (Greeted name (Key matchedSecret) (effectiveAdTag set i) hello
                  (SendServerHello hmac (gr_rnd gr) (gr_data gr) (gr_curve gr) (Key matchedSecret) hello (gr_noise gr))
                  (parseClientHello_conn client).2, g)
      end
  end.
End admission.
Arguments gate F : clear implicits.

(** ** Domain fronting *)

(** The connection to the fronting host, inside a [connProxyProtocol] or not. *)
Definition frontConn (proxyProtocol : bool) : connProxyProtocol := mkPP [] (negb proxyProtocol).

(** The rounds of the relay from the client to the host, each a read of the
    rewound connection; [header] is the PROXY header. *)
Fixpoint front_copy (header : list byte) (reads : list (nat * nat)) (c : connRewind) (host : connProxyProtocol) : connProxyProtocol :=
  match reads with
  | [] => host
  | (n, k) :: reads =>
      match rewind_Read n k c with
      | (l, err, c) =>
          let host := if (0 <? List.length l)%nat then (pp_Write header None l host).2 else host in
          match err with Some _ => host | None => front_copy header reads c host end
      end
  end.

(** [doDomainFrontingForHost] after a successful dial: [before] are the reads of
    the handshake, [after] those of the relay. *)
Definition doDomainFrontingForHost (proxyProtocol : bool) (header : list byte) (before after : list (nat * nat)) (client : source) : list byte :=
  pp_out (front_copy header after (Rewind (rewind_reads before (newConnRewind client)).2) (frontConn proxyProtocol)).

(** ** What an observer may learn *)

(** The host a client is sent to, as a function of its bytes, of the host names
    and of the first secret's host: no secret, limit, time or cache has a part
    in it. *)
Definition frontHost (hosts : list string) (first : string) (client : source) : string :=
  match ('(_, body) ← parseClientHello client; '(_, rest) ← parseHandshake body; parseSNI rest) with
  | Ok sni => let h := findHost hosts sni in if bool_decide (h = "") then first else h
  | Fail _ => first
  end.

(** ** Proofs *)

(** The outcome of the hello and the host, for each result. *)
Lemma hello_host hmac now tol client secrets hosts first :
  match ReadClientHelloMulti hmac now tol client secrets hosts with
  | ReadFailed _ => frontHost hosts first client = first
  | ReadPartial h _ | ReadMatched _ _ h => h <> "" /\ frontHost hosts first client = h
  end.
Proof.
  unfold ReadClientHelloMulti, frontHost. destruct (parseClientHello client) as [[bytes body]|]; [|done].
  cbn [mbind res_bind]. destruct (parseHandshake body) as [[hello rest]|]; [|done]. cbn [mbind res_bind].
  destruct (parseSNI rest) as [sni|]; [|done]. case_bool_decide as Hh; [done|].
  by destruct (secretLoop _ _ _ _ _ _ _).
Qed.

Lemma front_copy_spec header ns c host :
  let l := (rewind_reads ns c).1.1 in
  pp_out (front_copy header ns c host) =
  pp_out host ++ (if bool_decide (l = []) || headersWritten host then [] else header) ++ l.
Proof.
  revert c host. induction ns as [|[n k] ns IH]; intros c host; cbn [front_copy rewind_reads].
  { cbn. by rewrite app_nil_r. }
  destruct (rewind_Read n k c) as [[l err] c1].
  assert (forall l' : list byte, let h' := if (0 <? List.length l)%nat then (pp_Write header None l host).2 else host in
    pp_out h' ++ (if bool_decide (l' = []) || headersWritten h' then [] else header) ++ l' =
    pp_out host ++ (if bool_decide (l ++ l' = []) || headersWritten host then [] else header) ++ l ++ l') as Hstep.
  { intros l'. destruct l as [|x l]; [done|]. cbn zeta. rewrite (bool_decide_false ((x :: l) ++ l' = [])) by done.
    cbn [List.length Nat.ltb Nat.leb pp_Write orb]. unfold pp_Write. destruct (headersWritten host) eqn:Hw; cbn [snd pp_out headersWritten]; rewrite ?Hw, ?orb_true_r; cbn [app]; by rewrite <-?app_assoc. }
  destruct err as [e|].
  - cbn [fst]. pose proof (Hstep []) as H. cbn [app] in H. cbn zeta in *. rewrite bool_decide_true in H by done. cbn [orb app] in H.
    rewrite app_nil_r in H. rewrite H. by rewrite app_nil_r.
  - cbn zeta in *. rewrite IH. cbn zeta. destruct (rewind_reads ns c1) as [[l' e'] c2]. cbn [fst]. apply Hstep.
Qed.

(** What the fronting host gets. *)
Lemma front_bytes pp header before after client :
  let got := doDomainFrontingForHost pp header before after client in
  exists l, l `prefix_of` avail client /\ got = (if bool_decide (l = []) || negb pp then [] else header) ++ l /\
    (Forall (fun p => 0 < p.1)%nat after -> (List.length (avail client) < List.length after)%nat -> l = avail client).
Proof.
  unfold doDomainFrontingForHost. pose proof (rewind_transparent client before after) as H.
  destruct (rewind_reads before (newConnRewind client)) as [[l1 e1] c1]. cbn [snd].
  cbn zeta. rewrite front_copy_spec. cbn zeta. destruct (rewind_reads after (Rewind c1)) as [[l2 err] c2].
  destruct H as (_ & Hp & He & Hends). exists l2. cbn [fst pp_out frontConn headersWritten app]. split_and!; [done|done|].
  intros H1 H2. apply He. by apply Hends.
Qed.

Section proofs.
Context (hmac : list byte -> list byte -> list byte) (hmac_length : forall k d, List.length (hmac k d) = RandomLen).
Context {F : Type} (SeenBefore : F -> list byte -> F * bool).
Context (localOffset : Z -> Z).

Lemma fronted_host now now' tol gr set client (g : gate F) host why g' first :
  doFakeTLSHandshake hmac SeenBefore localOffset now now' tol gr set client g = Some (Fronted host why, g') ->
  secrets set !! 0%nat = Some first -> host = frontHost (hostnames set) (Host first) client.
Proof.
  intros H Hf. unfold doFakeTLSHandshake in H. rewrite Hf in H.
  pose proof (hello_host hmac now tol client (Key <$> secrets set) (hostnames set) (Host first)) as Hh.
  destruct (ReadClientHelloMulti _ _ _ _ _ _) as [e|h e|hello i h]; cbn [mbind option_bind] in H.
  - by injection H as <- _ _.
  - destruct Hh as [Hne Hh]. rewrite bool_decide_false in H by done. by injection H as <- _ _.
  - destruct Hh as [_ Hh]. destruct (SeenBefore _ _) as [cache []]; [by injection H as <- _ _|].
    destruct (secrets set !! i); [|done]. destruct (names set !! i); [|done]. destruct (limits set !! i); [|done]. cbn in H.
    destruct (checkLimits _ _ _ _ _) as [st [[] reason]]; cbn in H; [by destruct (gr_send gr)|by injection H as <- _ _].
Qed.

(** The view of [ServeConn]: the result of the hello without its bytes. *)
Definition hello_view (r : readResult) : helloResult :=
  match r with
  | ReadFailed _ => HelloErr None
  | ReadPartial h _ => HelloErr (Some h)
  | ReadMatched _ i h => HelloOk i h
  end.

Definition seen_view (g : gate F) (r : readResult) : bool :=
  match r with ReadMatched hello _ _ => (SeenBefore (gt_cache g) (SessionID hello)).2 | _ => false end.

(** The handshake does to the proxy and to the stream what the step of
    [ServeConn] with its outcome does. *)
Lemma handshake_refines cfg now now' tol gr set client p pd c g r e g' :
  s_localOffset cfg = localOffset -> r = ReadClientHelloMulti hmac now tol client (Key <$> secrets set) (hostnames set) ->
  gt_stats g = p_stats p -> doFakeTLSHandshake hmac SeenBefore localOffset now now' tol gr set client g = Some (e, g') ->
  exists o, afterHello cfg p pd c set (hello_view r) (seen_view g r) now' = Some o /\
    p_stats (o_proxy o) = gt_stats g' /\
    match e with
    | Fronted _ why => c_pc (o_conn o) = PFront /\ o_pending o = finishPendingHandshake pd c /\
        o_events o = (if why is Replayed then [EventReplayAttack] else []) ++ [EventDomainFronting]
    | NotSent _ => c_pc (o_conn o) = PServerHello /\ o_events o = []
    | Greeted name key tag _ _ _ => c_pc (o_conn o) = PServerHello /\ o_events o = [] /\
        c_secretName (o_conn o) = name /\ c_key (o_conn o) = key /\ c_adTag (o_conn o) = tag
    end.
Proof.
  intros Hlo Hr Hst H. unfold doFakeTLSHandshake in H. rewrite <-Hr in H. unfold afterHello, hello_view, seen_view. rewrite Hlo, <-Hst.
  destruct r as [err|h err|hello i h].
  1, 2: destruct (secrets set !! 0%nat); [|done]; injection H as <- <-; eexists; split_and!; done.
  destruct (SeenBefore _ _) as [cache []]; cbn [snd]; [injection H as <- <-; eexists; split_and!; done|].
  destruct (secrets set !! i) as [s|]; [|done]. destruct (names set !! i) as [name|]; [|done].
  destruct (limits set !! i) as [lim|]; [|done]. cbn [mbind option_bind gt_stats] in *.
  destruct (checkLimits _ _ _ _ _) as [st [[] reason]]; cbn [negb] in *.
  - destruct (gr_send gr); injection H as <- <-; eexists; split_and!; done.
  - injection H as <- <-. eexists. split_and!; done.
Qed.
End proofs.

(** ** The snapshot of a configuration *)

Lemma build_at c i name :
  names (buildConfig c) !! i = Some name ->
  exists s, Secrets c !! name = Some s /\ secrets (buildConfig c) !! i = Some s /\
    limits (buildConfig c) !! i = Some (default noLimits (Limits c !! name)) /\
    effectiveAdTag (buildConfig c) i = match SecretAdTags c !! name with Some t => Some t | None => GlobalAdTag c end.
Proof.
  intros Hi. assert (is_Some (Secrets c !! name)) as [s Hs] by (eapply names_elem, list_elem_of_lookup_2, Hi).
  exists s. unfold buildConfig in *. cbn [names buildSecretSet secrets limits] in *. unfold effectiveAdTag. cbn [adTags buildSecretSet globalAdTag].
  rewrite !list_lookup_fmap, Hi. cbn. by rewrite Hs.
Qed.

Lemma build_secret_at c i s : secrets (buildConfig c) !! i = Some s -> exists name, names (buildConfig c) !! i = Some name.
Proof.
  unfold buildConfig. cbn [names buildSecretSet secrets]. rewrite list_lookup_fmap.
  destruct (sort_Strings _ !! i); [by eexists|done].
Qed.

Lemma build_first c : Secrets c <> ∅ -> exists first, secrets (buildConfig c) !! 0%nat = Some first.
Proof.
  intros Hne. apply map_choose in Hne as (n & s & Hn).
  assert (n ∈ names (buildConfig c)) as Hin by (apply names_elem; by eexists).
  destruct (names (buildConfig c)) as [|x l] eqn:E; [by apply not_elem_of_nil in Hin|].
  destruct (build_at c 0 x) as (s0 & _ & H0 & _); [by rewrite E|]. by exists s0.
Qed.

(** The host names and the first host depend on the hosts alone. *)
Lemma build_hosts c c' :
  Host <$> Secrets c = Host <$> Secrets c' ->
  hostnames (buildConfig c) = hostnames (buildConfig c') /\
  Host <$> secrets (buildConfig c) = Host <$> secrets (buildConfig c').
Proof.
  intros H. assert (dom (Secrets c) = dom (Secrets c')) as Hd by (by rewrite <-(dom_fmap_L Host), H, dom_fmap_L).
  assert (Host <$> secrets (buildConfig c) = Host <$> secrets (buildConfig c')) as Hl.
  { unfold buildConfig. cbn [secrets buildSecretSet]. rewrite <-Hd, <-!list_fmap_compose. apply list_fmap_ext. intros _ n _. cbn.
    apply (f_equal (.!! n)) in H. rewrite !lookup_fmap in H. destruct (Secrets c !! n), (Secrets c' !! n); by simplify_eq/=. }
  split; [|done]. unfold buildConfig in *. cbn [hostnames secrets buildSecretSet] in *. by rewrite Hl.
Qed.

Section claims.
Context (hmac : list byte -> list byte -> list byte).
Context {F : Type} (SeenBefore : F -> list byte -> F * bool).
Context (localOffset : Z -> Z).

(** The handshake never panics. *)
Lemma handshake_total now now' tol gr c client (g : gate F) :
  Secrets c <> ∅ -> is_Some (doFakeTLSHandshake hmac SeenBefore localOffset now now' tol gr (buildConfig c) client g).
Proof.
  intros Hne. destruct (build_first c Hne) as [first Hf]. unfold doFakeTLSHandshake. rewrite Hf. cbn [mbind option_bind].
  destruct (ReadClientHelloMulti _ _ _ _ _ _) as [e|h e|hello i h] eqn:Hr; [by eexists..|].
  destruct (SeenBefore _ _) as [cache []]; [by eexists|].
  assert (exists s, secrets (buildConfig c) !! i = Some s) as [s Hs].
  { unfold ReadClientHelloMulti in Hr. destruct (parseClientHello client) as [[b bd]|]; [|done].
    destruct (parseHandshake bd) as [[hl rs]|]; [|done]. destruct (parseSNI rs); [|done]. case_bool_decide; [done|].
    destruct (secretLoop _ _ _ _ _ _ _) as [n|] eqn:Hl; [|done]. injection Hr as <- <- <-.
    destruct (secretLoop_some _ _ _ _ _ _ _ _ Hl) as (j & k & -> & Hj & _). change (0 + j)%nat with j.
    apply list_lookup_fmap_Some in Hj as (s & _ & Hs). by exists s. }
  destruct (build_secret_at c i s Hs) as [name Hn]. destruct (build_at c i name Hn) as (_ & _ & _ & Hl & _).
  rewrite Hs, Hn, Hl. cbn [mbind option_bind]. destruct (checkLimits _ _ _ _ _) as [st [[] reason]]; cbn [negb]; [|by eexists].
  destruct (gr_send gr); by eexists.
Qed.

(** A session that the cache knows is not greeted. *)
Lemma replay_fronted now now' tol gr set client (g : gate F) hello i h e g' :
  (exists now0 tol0 hmac0 keys hosts, ReadClientHelloMulti hmac0 now0 tol0 client keys hosts = ReadMatched hello i h) ->
  (SeenBefore (gt_cache g) (SessionID hello)).2 = true ->
  doFakeTLSHandshake hmac SeenBefore localOffset now now' tol gr set client g = Some (e, g') -> exists host why, e = Fronted host why.
Proof.
  intros (now0 & tol0 & hmac0 & keys & hosts & H0) Hs H. unfold doFakeTLSHandshake in H.
  assert (forall hm nw tl ks hs hello' i' h', ReadClientHelloMulti hm nw tl client ks hs = ReadMatched hello' i' h' ->
    exists b body rest, parseClientHello client = Ok (b, body) /\ parseHandshake body = Ok (hello', rest)) as Hparse.
  { intros hm nw tl ks hs hello' i' h'. unfold ReadClientHelloMulti. destruct (parseClientHello client) as [[b body]|]; [|done].
    destruct (parseHandshake body) as [[hl rest]|] eqn:E; [|done]. destruct (parseSNI rest); [|done]. case_bool_decide; [done|].
    destruct (secretLoop _ _ _ _ _ _ _); [|done]. intros [= <- _ _]. by exists b, body, rest. }
  destruct (ReadClientHelloMulti hmac now tol client _ _) as [er|hh er|hello' i' h'] eqn:Hr.
  1, 2: destruct (secrets set !! 0%nat); [|done]; injection H as <- _; eauto.
  destruct (Hparse _ _ _ _ _ _ _ _ H0) as (b & body & rest & Hp & Hh). destruct (Hparse _ _ _ _ _ _ _ _ Hr) as (b' & body' & rest' & Hp' & Hh').
  rewrite Hp in Hp'. injection Hp' as <- <-. rewrite Hh in Hh'. injection Hh' as <- <-. destruct (SeenBefore (gt_cache g) (SessionID hello)) as [cache seen]. cbn in Hs. subst seen. injection H as <- _. eauto.
Qed.
End claims.

(** ** Claims *)

(** C3: only a client that knows a secret is greeted, from its bytes to the
    decision.  A client that is greeted as a name sent a hello whose random
    carries the digest of that very hello under the key that the configuration
    has for the name, made within the tolerated time, for a session the cache
    had not seen and a host of the configuration, while the limits of the name
    allowed it; the stream gets the name's key and its own tag or the global
    one, and the answer is made with that key.  The same bytes, sent again
    while the cache knows the session, are greeted by no configuration at any
    time. *)
Theorem admission_sound hmac {F} (SeenBefore : F -> list byte -> F * bool) localOffset
    now now' tol gr c client g name key tag hello answer rest g' :
  (forall k d, List.length (hmac k d) = RandomLen) ->
  doFakeTLSHandshake hmac SeenBefore localOffset now now' tol gr (buildConfig c) client g =
    Some (Greeted name key tag hello answer rest, g') ->
  (exists s reason bytes body, Secrets c !! name = Some s /\ key = Key s /\
    tag = match SecretAdTags c !! name with Some t => Some t | None => GlobalAdTag c end /\
    parseClientHello client = Ok (bytes, body) /\
    take 28 (Random hello) = take 28 (hmac key (take RandomOffset bytes ++ emptyRandom ++ drop (RandomOffset + RandomLen) bytes)) /\
    DurationAbs (Sub now (Unix (le_combine (drop 28 (helloDigest hmac key bytes (Random hello)))) 0)) <= tol /\
    SeenBefore (gt_cache g) (SessionID hello) = (gt_cache g', false) /\
    checkLimits localOffset now' (gt_stats g) name (default noLimits (Limits c !! name)) = (gt_stats g', (true, reason)) /\
    (exists n s', Secrets c !! n = Some s' /\ forall first, frontHost (hostnames (buildConfig c)) first client = Host s') /\
    answer = SendServerHello hmac (gr_rnd gr) (gr_data gr) (gr_curve gr) key hello (gr_noise gr) /\
    rest = (parseClientHello_conn client).2) /\
  (forall now1 now1' tol1 gr1 set1 g1 e1 g1', (SeenBefore (gt_cache g1) (SessionID hello)).2 = true ->
     doFakeTLSHandshake hmac SeenBefore localOffset now1 now1' tol1 gr1 set1 client g1 = Some (e1, g1') ->
     exists host why, e1 = Fronted host why).
Proof.
  intros Hh H. unfold doFakeTLSHandshake in H.
  pose proof (fun first => hello_host hmac now tol client (Key <$> secrets (buildConfig c)) (hostnames (buildConfig c)) first) as Hhost.
  destruct (ReadClientHelloMulti _ _ _ _ _ _) as [e|h e|hello0 i h] eqn:Hr.
  1, 2: by destruct (secrets (buildConfig c) !! 0%nat).
  destruct (SeenBefore (gt_cache g) (SessionID hello0)) as [cache []] eqn:Hseen; [done|].
  destruct (secrets (buildConfig c) !! i) as [s|] eqn:Hs; [|done]. destruct (build_secret_at c i s Hs) as [name0 Hn].
  destruct (build_at c i name0 Hn) as (s' & Hc & Hs' & Hl & Ht). rewrite Hs in Hs'. injection Hs' as <-. rewrite Hn, Hl in H. cbn [mbind option_bind gt_stats gt_cache] in H.
  destruct (checkLimits _ _ _ _ _) as [st [[] reason]] eqn:Hlim; [|done]. destruct (gr_send gr); [done|]. cbn [negb] in H.
  injection H as <- <- <- <- <- <- <-. split.
  - destruct (client_hello_sound hmac Hh _ _ _ _ _ _ _ _ Hr) as (_ & Hhn & secret & bytes & body & Hk & Hp & H28 & Htm & _).
    rewrite list_lookup_fmap, Hs in Hk. injection Hk as <-. apply hostnames_spec in Hhn as (n & s1 & Hn1 & Hh1).
    exists s, reason, bytes, body. split_and!; try done. exists n, s1. split; [done|]. intros first. rewrite Hh1. apply (Hhost first).
  - intros now1 now1' tol1 gr1 set1 g1 e1 g1' Hs1 H1. eapply replay_fronted; [|exact Hs1|exact H1].
    eexists _, _, _, _, _. exact Hr.
Qed.

(** C5: where a prober ends up tells it nothing.  Take two proxies with the same names
    and hosts that may differ in everything else: keys, tags, limits, usage, clocks,
    tolerance and what their caches have seen.  Each always comes to a
    decision, and if neither greets a client (a wrong or a missing digest, an
    old hello, a replay, a disabled, expired or exhausted user, or no hello at
    all), both send it to the same host; with enough reads the host gets from
    both exactly the client's bytes from the first to the last, behind the PROXY
    header if that is switched on, however the hello was read before. *)
Theorem prober_blind {F} (SeenBefore : F -> list byte -> F * bool) localOffset hmac c1 c2 now1 now1' tol1 gr1 g1 now2 now2' tol2 gr2 g2 client :
  Host <$> Secrets c1 = Host <$> Secrets c2 -> Secrets c1 <> ∅ ->
  exists e1 g1' e2 g2',
    doFakeTLSHandshake hmac SeenBefore localOffset now1 now1' tol1 gr1 (buildConfig c1) client g1 = Some (e1, g1') /\
    doFakeTLSHandshake hmac SeenBefore localOffset now2 now2' tol2 gr2 (buildConfig c2) client g2 = Some (e2, g2') /\
    forall h1 why1 h2 why2, e1 = Fronted h1 why1 -> e2 = Fronted h2 why2 ->
      h1 = h2 /\
      forall pp header before1 before2 after1 after2,
        Forall (fun p => 0 < p.1)%nat after1 -> Forall (fun p => 0 < p.1)%nat after2 ->
        (List.length (avail client) < List.length after1)%nat -> (List.length (avail client) < List.length after2)%nat ->
        doDomainFrontingForHost pp header before1 after1 client = doDomainFrontingForHost pp header before2 after2 client /\
        (avail client <> [] -> doDomainFrontingForHost pp header before1 after1 client = (if pp then header else []) ++ avail client).
Proof.
  intros Hhosts Hne. assert (Secrets c2 <> ∅) as Hne2.
  { intros H2. apply Hne. rewrite H2, fmap_empty in Hhosts. by apply fmap_empty_inv in Hhosts. }
  destruct (build_hosts c1 c2 Hhosts) as [Hn Hs].
  destruct (handshake_total hmac SeenBefore localOffset now1 now1' tol1 gr1 c1 client g1 Hne) as [[e1 g1'] H1].
  destruct (handshake_total hmac SeenBefore localOffset now2 now2' tol2 gr2 c2 client g2 Hne2) as [[e2 g2'] H2].
  exists e1, g1', e2, g2'. split; [exact H1|]. split; [exact H2|]. intros h1 why1 h2 why2 -> ->.
  destruct (build_first c1 Hne) as [f1 Hf1]. destruct (build_first c2 Hne2) as [f2 Hf2].
  split.
  - rewrite (fronted_host _ _ _ _ _ _ _ _ _ _ _ _ _ _ H1 Hf1), (fronted_host _ _ _ _ _ _ _ _ _ _ _ _ _ _ H2 Hf2), Hn. f_equal.
    apply (f_equal (.!! 0%nat)) in Hs. rewrite !list_lookup_fmap, Hf1, Hf2 in Hs. by injection Hs.
  - intros pp header b1 b2 a1 a2 Ha1 Ha2 Hl1 Hl2.
    destruct (front_bytes pp header b1 a1 client) as (l1 & _ & -> & E1). destruct (front_bytes pp header b2 a2 client) as (l2 & _ & -> & E2).
    rewrite (E1 Ha1 Hl1), (E2 Ha2 Hl2). split; [done|]. intros Hne'. rewrite bool_decide_false by done. by destruct pp.
Qed.

(** ** Examples *)

(** A cache that forgets nothing. *)
Definition demo_seen (l : list (list byte)) (d : list byte) : list (list byte) * bool := (d :: l, bool_decide (d ∈ l)).

Definition demo_config : SecretConfig :=
  mkConfig {[ "alice" := mkSecret FakeTLS.demo_secret "a.com"; "bob" := mkSecret (replicate 16 Byte.x01) "b.com" ]} ∅ (Some [Byte.x05]) ∅.

(** Other keys, no tags, and alice is disabled. *)
Definition other_config : SecretConfig :=
  mkConfig {[ "alice" := mkSecret (replicate 16 Byte.x02) "a.com"; "bob" := mkSecret (replicate 16 Byte.x03) "b.com" ]} ∅ None
    {[ "alice" := mkLimits 0 QuotaResetNone 0 true ]}.

Definition demo_greeting : greeting :=
  mkGreeting (fun _ => 0) (fun n => replicate n Byte.x00) (replicate 32 Byte.x0c) (mkNoise 1000 1) None.

(** The hello, and the first byte of what follows it. *)
Definition demo_client : source := mkSource (List.concat (map hsrec demo_frags) ++ [Byte.x17]) EOF.

Definition demo_handshake (c : SecretConfig) (cache : list (list byte)) :=
  doFakeTLSHandshake demo_hmac demo_seen (fun _ => 0) (Unix 1700000001 0) 0 (3 * Second) demo_greeting (buildConfig c) demo_client
    (mkGate (NewProxyStats 0) cache).

(** What is set of the stream. *)
Definition greeted_as (x : option (handshakeEnd * gate (list (list byte)))) : option (string * list byte * option (list byte) * source) :=
  match x with Some (Greeted name key tag _ _ rest, _) => Some (name, key, tag, rest) | _ => None end.

Definition fronted_as (x : option (handshakeEnd * gate (list (list byte)))) : option (string * cause) :=
  match x with Some (Fronted host why, _) => Some (host, why) | _ => None end.

Lemma admission_sound_witness :
  exists hello answer g', demo_handshake demo_config [] =
    Some (Greeted "alice" FakeTLS.demo_secret (Some [Byte.x05]) hello answer (mkSource [Byte.x17] EOF), g') /\
  (exists s, Secrets demo_config !! "alice" = Some s /\ FakeTLS.demo_secret = Key s) /\ gt_cache g' = [SessionID hello].
Proof.
  assert (greeted_as (demo_handshake demo_config []) = Some ("alice", FakeTLS.demo_secret, Some [Byte.x05], mkSource [Byte.x17] EOF)) as Hv
    by (vm_compute; reflexivity).
  destruct (demo_handshake demo_config []) as [[[| |name key tag hello answer rest] g']|] eqn:E; try discriminate Hv.
  injection Hv as -> -> -> ->. unfold demo_handshake in E.
  destruct (admission_sound demo_hmac demo_seen _ _ _ _ _ _ _ _ _ _ _ _ _ _ _ demo_hmac_length E) as [(s & reason & b & bd & H1 & H2 & _ & _ & _ & _ & H3 & _) _].
  exists hello, answer, g'. split; [reflexivity|]. split; [exact (ex_intro _ s (conj H1 H2))|]. apply (f_equal fst) in H3. symmetry. exact H3.
Defined.

Lemma prober_blind_witness :
  exists e1 g1 e2 g2, demo_handshake demo_config [[Byte.x01; Byte.x02]] = Some (e1, g1) /\ demo_handshake other_config [] = Some (e2, g2) /\
    e1 = Fronted "a.com" Replayed /\ e2 = Fronted "a.com" (BadHello ErrBadDigest) /\
    doDomainFrontingForHost true [Byte.x50] [(9, 2)]%nat (replicate 200 (7, 3)%nat) demo_client = Byte.x50 :: avail demo_client.
Proof.
  destruct (prober_blind demo_seen (fun _ => 0) demo_hmac demo_config other_config (Unix 1700000001 0) 0 (3 * Second) demo_greeting
    (mkGate (NewProxyStats 0) [[Byte.x01; Byte.x02]]) (Unix 1700000001 0) 0 (3 * Second) demo_greeting (mkGate (NewProxyStats 0) []) demo_client)
    as (e1 & g1 & e2 & g2 & H1 & H2 & H); [vm_compute; reflexivity|vm_compute; discriminate|].
  assert (fronted_as (demo_handshake demo_config [[Byte.x01; Byte.x02]]) = Some ("a.com", Replayed)) as V1 by (vm_compute; reflexivity).
  assert (fronted_as (demo_handshake other_config []) = Some ("a.com", BadHello ErrBadDigest)) as V2 by (vm_compute; reflexivity).
  unfold demo_handshake in V1, V2. rewrite H1 in V1. rewrite H2 in V2. unfold demo_handshake.
  assert (e1 = Fronted "a.com" Replayed) as E1 by (destruct e1; try discriminate V1; cbn in V1; congruence).
  assert (e2 = Fronted "a.com" (BadHello ErrBadDigest)) as E2 by (destruct e2; try discriminate V2; cbn in V2; congruence).
  exists e1, g1, e2, g2. split; [exact H1|]. split; [exact H2|]. split; [exact E1|]. split; [exact E2|].
  destruct (H _ _ _ _ E1 E2) as [_ Hf].
  apply (Hf true [Byte.x50] [(9, 2)]%nat [] (replicate 200 (7, 3)%nat) (replicate 200 (7, 3)%nat)); try (apply Forall_replicate; simpl; lia);
    try (vm_compute; lia). vm_compute. discriminate.
Defined.
