(* ===== verification/Session.v ===== *)
(** * A session from its first byte: [ServeConn] of mtglib/proxy.go, composed

    [Admission] decides about a client by its hello, [Tunnel] carries the data of
    a stream.  Here the connection that the one leaves behind is the one that the
    other reads: a client that knows a secret, from its first byte to the bytes
    that the data centre, or for a stream with a tag the middle proxy, reads and
    answers. *)

From S2P Require Import Prelude Secret GoTime Limits Stats SecretSet Proxy GoIO TLS FakeTLS Obfuscation Frame MiddleStream Doppel Conns Admission Tunnel.
Open Scope Z_scope.

(** ** An honest client *)

(** The hello of a client that has the key: any session, suites and extensions,
    cut into at most eleven non-empty handshake records. *)
Record honest_hello (hmac : list byte -> list byte -> list byte) (now tol : Z) (key : list byte) (h : helloFields) (ts : Z)
    (frags : list (list byte)) : Prop := {
  hh_fields : fields_ok h;
  hh_host : hf_host h <> ""%string;
  hh_stamp : 0 <= ts < 2 ^ 32;
  hh_fresh : DurationAbs (Sub now (Unix ts 0)) <= tol;
  hh_size : Z.of_nat (length (encodeBody (clientRandom hmac key ts h) h)) < 2 ^ 24;
  hh_frags : Forall (fun p => frag_ok p /\ p <> []) frags;
  hh_count : (length frags <= 11)%nat;
  hh_cut : concat frags = helloMsg (encodeBody (clientRandom hmac key ts h) h)
}.

(** The other keys do not happen to give the same digest. *)
Definition no_collision (hmac : list byte -> list byte -> list byte) (now tol : Z) (c : SecretConfig) (name : string) (key : list byte)
    (h : helloFields) (ts : Z) : Prop :=
  forall n s, Secrets c !! n = Some s -> n <> name ->
    secretMatches hmac now tol (Key s) (helloCopy (encodeBody (clientRandom hmac key ts h) h)) (clientRandom hmac key ts h) = false.

(** One side of an obfuscated connection: its handshake for a data centre, the
    bytes of it and the connection it has then. *)
Definition opens `{Crypto} (secret : option (list byte)) (dc : Z) (hs : list byte) (w : obfConn) : Prop :=
  -32768 <= dc < 32768 /\ exists rnd frame, Forall (fun f => length f = hfLen) rnd /\ generateHandshake rnd dc = Some frame /\
    SendHandshake secret frame None = (hs, Ok w).

Definition number (dc : Z) : Z := if dc =? 0 then defaultDC else dc.

(** ** Proofs *)

Lemma findHost_in hosts h : h ∈ hosts -> findHost hosts [h] = h.
Proof.
  intros Hin. unfold findHost. assert (Forall (fun x => x = h) (List.filter (fun x => existsb (fun s => bool_decide (s = x)) [h]) hosts)) as Hall.
  { apply Forall_forall. intros x Hx. apply list_elem_of_In, List.filter_In in Hx as [_ Hx]. cbn in Hx.
    rewrite orb_false_r in Hx. by apply bool_decide_eq_true in Hx. }
  assert (h ∈ List.filter (fun x => existsb (fun s => bool_decide (s = x)) [h]) hosts) as Hh.
  { apply list_elem_of_In, List.filter_In. split; [by apply list_elem_of_In|]. cbn. by rewrite bool_decide_true. }
  destruct (List.filter _ hosts) as [|x l]; [by apply not_elem_of_nil in Hh|]. by apply Forall_inv in Hall.
Qed.

(** An honest client is greeted unless the cache or the limits object; nothing
    of what follows its hello is lost. *)
Lemma honest_greeted hmac {F} (SeenBefore : F -> list byte -> F * bool) localOffset c name s now now' tol gr g h ts frags k e reason st cache :
  (forall k d, length (hmac k d) = RandomLen) -> Secrets c !! name = Some s -> Host s = hf_host h ->
  honest_hello hmac now tol (Key s) h ts frags -> no_collision hmac now tol c name (Key s) h ts ->
  SeenBefore (gt_cache g) (hf_session h) = (cache, false) ->
  checkLimits localOffset now' (gt_stats g) name (default noLimits (Limits c !! name)) = (st, (true, reason)) -> gr_send gr = None ->
  let hello := mkHello (clientRandom hmac (Key s) ts h) (hf_session h) (firstSuite (hf_suites h)) in
  doFakeTLSHandshake hmac SeenBefore localOffset now now' tol gr (buildConfig c) (mkSource (concat (map hsrec frags) ++ k) e) g =
  Some (Greeted name (Key s) (match SecretAdTags c !! name with Some t => Some t | None => GlobalAdTag c end) hello
          (SendServerHello hmac (gr_rnd gr) (gr_data gr) (gr_curve gr) (Key s) hello (gr_noise gr)) (mkSource k e), mkGate st cache).
Proof.
  intros Hh Hs Hhost [Hf Hne Hts Hfresh Hsize Hfr Hcount Hcut] Hcol Hseen Hlim Hsend. cbn zeta.
  assert (Forall frag_ok frags) as Hok by (eapply Forall_impl; [exact Hfr|tauto]).
  assert (name ∈ names (buildConfig c)) as [i Hi]%list_elem_of_lookup by (apply names_elem; by eexists).
  destruct (build_at c i name Hi) as (s' & Hs1 & Hsi & Hli & Htag). rewrite Hs in Hs1. injection Hs1 as <-.
  unfold doFakeTLSHandshake.
  rewrite (client_hello_accepted hmac Hh now tol (Key <$> secrets (buildConfig c)) (hostnames (buildConfig c)) i (Key s) ts h frags []);
    [|done..|by rewrite app_nil_r| |done|by rewrite list_lookup_fmap, Hsi|].
  - cbn [SessionID]. rewrite Hseen. cbn [gt_stats gt_cache]. rewrite Hsi, Hi, Hli. cbn [mbind option_bind]. rewrite Hlim. cbn [negb].
    rewrite Hsend, Htag. do 3 f_equal.
    destruct (parseClientHello_conn_frags frags _ [] k e Hok Hcount Hsize) as (rest & Hsuf & Hnil & ->); [by rewrite app_nil_r|]. cbn [snd].
    apply suffix_nil_inv in Hnil. destruct rest as [|p rest]; [done|]. destruct Hsuf as [pre Hpre].
    rewrite Hpre, Forall_app, Forall_cons in Hfr. cbn in Hnil. apply app_eq_nil in Hnil. naive_solver.
  - apply findHost_in, hostnames_spec. by exists name, s.
  - intros j key' Hj Hk. apply list_lookup_fmap_Some in Hk as (sj & -> & Hsj). destruct (build_secret_at c j sj Hsj) as [nj Hnj].
    destruct (build_at c j nj Hnj) as (sj' & Hcj & Hsj' & _). rewrite Hsj in Hsj'. injection Hsj' as <-.
    apply (Hcol nj); [done|]. intros ->. assert (i = j) as <- by (eapply NoDup_lookup; [apply names_nodup|exact Hi|exact Hnj]). lia.
Qed.

(** The random source and the curve have the sizes that are asked of them, and
    the noise fits a record. *)
Definition greeting_ok (gr : greeting) : Prop :=
  gr_send gr = None /\ (forall n, 0 < n -> 0 <= gr_rnd gr n < n) /\ (forall n, length (gr_data gr n) = n) /\
  length (gr_curve gr) = EllipticCurveLen /\ Mean (gr_noise gr) + Jitter (gr_noise gr) <= Z.of_nat MaxRecordPayloadSize.

(** ** Claims *)

(** C4: a session, from its first byte.  A client that knows the secret of a name
    sends a fresh hello for the host of the secret, in at most eleven non-empty
    handshake records, and after it the obfuscated2 handshake and its data inside
    TLS records cut as it likes.  Suppose that no other secret of the
    configuration happens to verify the hello, that the cache has not seen its
    session, that the limits of the name permit it and that the noise of the
    answer fits a record.  Then the proxy greets it under that name and with the
    name's tag, with an answer that the client verifies, and reads on exactly
    behind the hello: the second handshake succeeds and gives the data centre's
    number.  On the direct path, whatever the sizes of the relay's buffers, the
    data centre accepts the proxy's handshake and reads, in any pieces, a
    beginning of the client's data, and all of it when the client's stream was
    read to its end; what the data centre writes, received, shaped and cut at any
    pace, the client decrypts to a beginning of it.  On the path of a tag, when
    the client's data are packets that fit a frame and perhaps an incomplete one
    after them, the middle proxy gets the first of the packets, one
    RPC_PROXY_REQ with the connection's tag for each, and all of them when the
    client's stream was read to its end; of its answers and acknowledgements the
    client decrypts a beginning. *)
Theorem session_end_to_end `{Crypto} `{BlockCipherLaws} hmac {F} (SeenBefore : F -> list byte -> F * bool) localOffset
    c name s now now' tol gr g h ts frags reason st cache dc hs w rs ps e tgSecret dc2 hs2 w2 ns :
  (forall k d, length (hmac k d) = RandomLen) -> greeting_ok gr ->
  Secrets c !! name = Some s -> Host s = hf_host h ->
  honest_hello hmac now tol (Key s) h ts frags -> no_collision hmac now tol c name (Key s) h ts ->
  SeenBefore (gt_cache g) (hf_session h) = (cache, false) ->
  checkLimits localOffset now' (gt_stats g) name (default noLimits (Limits c !! name)) = (st, (true, reason)) ->
  opens (Some (Key s)) dc hs w -> Forall rec_ok rs -> app_data rs = hs ++ (write_all w ps).1 ->
  opens tgSecret dc2 hs2 w2 -> Forall (fun n => 0 < n)%nat ns ->
  exists hello answer rest r conn,
    doFakeTLSHandshake hmac SeenBefore localOffset now now' tol gr (buildConfig c) (mkSource (concat (map hsrec frags) ++ wire rs) e) g =
      Some (Greeted name (Key s) (match SecretAdTags c !! name with Some t => Some t | None => GlobalAdTag c end) hello answer rest, mkGate st cache) /\
    serverHello_verifies hmac (Key s) (clientRandom hmac (Key s) ts h) answer /\
    doObfuscatedHandshake (Key s) (mkTLS [] rest) = Some (Ok (number dc, r), conn) /\
    exists pieces up err t, upload ns conn r w2 = Some (pieces, up, err) /\
      ReadHandshake tgSecret (mkSource (hs2 ++ up) e) = (Ok (number dc2, t), mkSource up e) /\
      (forall ws, concat ws = up -> (read_all t ws).1 `prefix_of` concat ps /\ (err <> None -> (read_all t ws).1 = concat ps)) /\
      (forall qs ws stats buf sc ns' l err' tc,
         concat ws `prefix_of` (write_all t qs).1 -> length buf = MaxRecordSize -> Forall (fun n => 0 < n)%nat ns' ->
         shaped stats buf (download ws w2 r) sc -> read_many ns' (mkTLS [] (mkSource (d_out sc) e)) = Some (l, err', tc) ->
         (read_all w [l]).1 `prefix_of` concat qs) /\
      (forall m pkts partial,
         ready m -> Forall clientPacket pkts -> nextInner partial = None -> concat ps = concat (map interBytes pkts) ++ partial ->
         exists m' k, upload_tagged ns conn r m = Some (m', err) /\ requested m m' (take k pkts) /\
           (err <> None -> take k pkts = pkts /\ inbuf m' = partial)) /\
      (forall m answers ms stats buf sc ns' l err' tc,
         pending m answers -> outbuf m = [] -> Forall (fun n => 0 < n)%nat ms -> length buf = MaxRecordSize -> Forall (fun n => 0 < n)%nat ns' ->
         shaped stats buf (download_tagged ms m r) sc -> read_many ns' (mkTLS [] (mkSource (d_out sc) e)) = Some (l, err', tc) ->
         (read_all w [l]).1 `prefix_of` concat (map toClient answers)).
Proof.
  intros Hh (Hsend & Hrnd & Hdata & Hcurve & Hnoise) Hs Hhost Hhello Hcol Hseen Hlim (Hdc & rnd & frame & Hr & Hg & Hopen) Hok Happ
    (Hdc2 & rnd2 & frame2 & Hr2 & Hg2 & Hopen2) Hns.
  pose proof (honest_greeted hmac SeenBefore localOffset c name s now now' tol gr g h ts frags (wire rs) e reason st cache
    Hh Hs Hhost Hhello Hcol Hseen Hlim Hsend) as Hgreet. cbn zeta in Hgreet.
  destruct (tunnel_end_to_end (Key s) rnd dc frame hs w rs ps e tgSecret rnd2 dc2 frame2 hs2 w2 ns) as
    (r & conn & Hdo & Hwr & pieces & up & err & t & Hup & Hpre & Hall & Hrd & Hread & Hback); [done..|].
  eexists _, _, _, r, conn. split; [exact Hgreet|]. split.
  - apply server_hello_verifies; [done..| |done|done]. cbn. apply Hhello.
  - split; [exact Hdo|]. exists pieces, up, err, t. split_and!; [done|done| |done| |].
    + intros ws Hws. destruct (Hread ws Hws) as (H1' & H2' & _). done.
    + intros m pkts partial Hm Hp Hn Hps. by eapply tagged_upstream.
    + intros m answers ms stats buf sc ns' l err' tc Hp Ho Hms Hb Hns' Hsh Hrm.
      replace (concat (map toClient answers)) with (pendingBytes m answers) by (unfold pendingBytes; by rewrite Ho).
      exact (tagged_downstream w r m answers ms stats buf sc ns' e l err' tc Hwr Hp Hms Hb Hns' Hsh Hrm).
Qed.

(** ** Witness *)

(** alice of [Admission.demo_config] with the hello of [FakeTLS]; her obfuscated
    handshake is for the data centre -2, her data one packet and the first byte
    of another. *)
Definition alice_packet : list byte * bool * list byte := (replicate 8 Byte.x00, true, [Byte.xff]).
Definition alice_data : list (list byte) := [interBytes alice_packet; [Byte.x01]].
Definition alice_hello : list byte * res obfConn := @SendHandshake demo_crypto (Some FakeTLS.demo_secret) hello_frame None.
Definition alice_bytes : list byte := alice_hello.1 ++ (@write_all demo_crypto (the_conn alice_hello) alice_data).1.
Definition alice_records : list (byte * list byte) :=
  [(TypeApplicationData, take 50 alice_bytes); (TypeChangeCipherSpec, [Byte.x01]); (TypeApplicationData, drop 50 alice_bytes)].

Lemma demo_opens secret :
  @SendHandshake demo_crypto secret hello_frame None = ((@SendHandshake demo_crypto secret hello_frame None).1, Ok (the_conn (@SendHandshake demo_crypto secret hello_frame None))) ->
  @opens demo_crypto secret (-2) (@SendHandshake demo_crypto secret hello_frame None).1 (the_conn (@SendHandshake demo_crypto secret hello_frame None)).
Proof.
  intros H. split; [lia|]. exists [replicate 64 Byte.xef; demo_frame], hello_frame. split; [apply (bool_decide_unpack _); vm_compute; exact I|].
  split; [vm_compute; reflexivity|exact H].
Qed.

Lemma demo_honest : honest_hello demo_hmac (Unix 1700000001 0) (3 * Second) FakeTLS.demo_secret demo_fields 1700000000 demo_frags.
Proof.
  split; [apply demo_fields_ok|discriminate|lia|vm_compute; discriminate|vm_compute; reflexivity| |vm_compute; lia|vm_compute; reflexivity].
  repeat constructor; vm_compute; congruence.
Qed.

#[local] Existing Instance demo_cipher.
#[local] Existing Instance demo_cipher_laws.

Lemma demo_middle_ready : ready (demo_middle []).
Proof. split; [done|done|done|cbn; lia|done]. Qed.

Lemma alice_packet_ok : Forall clientPacket [alice_packet].
Proof. apply (bool_decide_unpack _). vm_compute. exact I. Qed.

Lemma session_end_to_end_witness :
  let H := demo_crypto in
  exists hello answer rest r conn pieces up t m',
    doFakeTLSHandshake demo_hmac demo_seen (fun _ => 0) (Unix 1700000001 0) 0 (3 * Second) demo_greeting (buildConfig demo_config)
      (mkSource (concat (map hsrec demo_frags) ++ wire alice_records) EOF) (mkGate (NewProxyStats 0) []) =
      Some (Greeted "alice" FakeTLS.demo_secret (Some [Byte.x05]) hello answer rest, mkGate (NewProxyStats 0) [[Byte.x01; Byte.x02]]) /\
    doObfuscatedHandshake FakeTLS.demo_secret (mkTLS [] rest) = Some (Ok (-2, r), conn) /\
    upload [4; 8; 4; 4]%nat conn r (the_conn telegram_hello) = Some (pieces, up, Some EOF) /\
    ReadHandshake None (mkSource (telegram_hello.1 ++ up) EOF) = (Ok (-2, t), mkSource up EOF) /\ (read_all t [up]).1 = concat alice_data /\
    upload_tagged [4; 8; 4; 4]%nat conn r (demo_middle []) = Some (m', Some EOF) /\ requested (demo_middle []) m' [alice_packet] /\ inbuf m' = [Byte.x01].
Proof.
  intros H.
  destruct (@session_end_to_end H _ _ demo_hmac _ demo_seen (fun _ => 0) demo_config "alice" (mkSecret FakeTLS.demo_secret "a.com") (Unix 1700000001 0) 0
    (3 * Second) demo_greeting (mkGate (NewProxyStats 0) []) demo_fields 1700000000 demo_frags DenyNone (NewProxyStats 0) [[Byte.x01; Byte.x02]]
    (-2) alice_hello.1 (the_conn alice_hello) alice_records alice_data EOF None (-2) telegram_hello.1 (the_conn telegram_hello) [4; 8; 4; 4]%nat)
    as (hello & answer & rest & r & conn & Hg & _ & Hdo & pieces & up & err & t & Hup & Hrd & Hread & _ & Htag & _).
  - exact demo_hmac_length.
  - split; [reflexivity|]. split; [intros n Hn; cbn; lia|]. split; [intros n; apply length_replicate|]. split; [reflexivity|vm_compute; discriminate].
  - reflexivity.
  - reflexivity.
  - exact demo_honest.
  - intros n s Hn Hne. unfold demo_config in Hn. cbn [Secrets] in Hn. apply lookup_insert_Some in Hn as [[<- _]|[_ Hn]]; [done|].
    apply lookup_singleton_Some in Hn as [<- <-]. vm_compute. reflexivity.
  - reflexivity.
  - vm_compute. reflexivity.
  - apply demo_opens. vm_compute. reflexivity.
  - repeat constructor.
  - vm_compute. reflexivity.
  - apply demo_opens. vm_compute. reflexivity.
  - repeat constructor; lia.
  - destruct (Htag (demo_middle []) [alice_packet] [Byte.x01]) as (m' & k & Hut & Hreq & Hend).
    { exact demo_middle_ready. }
    { exact alice_packet_ok. }
    { reflexivity. }
    { vm_compute. reflexivity. }
    exists hello, answer, rest, r, conn, pieces, up, t, m'. split; [exact Hg|]. split; [exact Hdo|].
    assert (err = Some EOF) as Herr.
    { assert (rest = mkSource (wire alice_records) EOF) as ->.
      { apply (f_equal greeted_as) in Hg. vm_compute in Hg. injection Hg as <-. reflexivity. }
      vm_compute in Hdo. injection Hdo as <- <-. vm_compute in Hup. injection Hup as _ _ <-. reflexivity. }
    rewrite Herr in Hup, Hread, Hut, Hend. destruct Hend as [Hk Hin]; [discriminate|]. rewrite Hk in Hreq.
    split; [exact Hup|]. split; [exact Hrd|]. split; [apply (Hread [up]); [apply app_nil_r|discriminate]|].
    split; [exact Hut|]. split; [exact Hreq|exact Hin].
Defined.
