(* ===== verification/Events.v ===== *)
(** * Events and their delivery: mtglib/events.go and package events

    The proxy reports what happens to a stream as events.  [EventStream] owns a
    fixed number of channels of capacity one, each drained by a goroutine
    ([eventStreamProcessor]) that calls one observer; an event goes to the
    channel its stream identifier hashes to.  Several observers are combined by
    [multiObserver].

    An observer is an instance of the class [Observer] over its state.  The
    stream is a transition system: sending, draining, cancelling and stopping
    are steps of different goroutines, and the choice that a [select] makes
    when several of its cases are ready is part of the step's label. *)

From S2P Require Import Prelude.

(** ** The events *)

Record eventBase := mkBase { streamID : string; timestamp : Z }.

Record EventStart := mkEventStart { start_base : eventBase; start_RemoteIP : list byte }.
Record EventConnectedToDC := mkEventConnectedToDC { dc_base : eventBase; dc_RemoteIP : list byte; dc_DC : Z }.
Record EventTraffic := mkEventTraffic { traffic_base : eventBase; traffic_Traffic : Z; traffic_IsRead : bool }.
Record EventFinish := mkEventFinish { finish_base : eventBase }.
Record EventDomainFronting := mkEventDomainFronting { fronting_base : eventBase }.
Record EventConcurrencyLimited := mkEventConcurrencyLimited { limited_base : eventBase }.
Record EventIPBlocklisted := mkEventIPBlocklisted {
  blocklisted_base : eventBase; blocklisted_RemoteIP : list byte; blocklisted_IsBlockList : bool }.
Record EventReplayAttack := mkEventReplayAttack { replay_base : eventBase }.
Record EventThrottled := mkEventThrottled { throttled_base : eventBase; throttled_SecretName : string }.
Record EventIPListSize := mkEventIPListSize { size_base : eventBase; size_Size : Z; size_IsBlockList : bool }.
Record EventPendingHandshakeLimit := mkEventPendingHandshakeLimit { pending_base : eventBase; pending_Action : string }.

(** The interface [mtglib.Event], by its dynamic type. *)
Inductive Event :=
  | EvStart (e : EventStart)
  | EvConnectedToDC (e : EventConnectedToDC)
  | EvTraffic (e : EventTraffic)
  | EvFinish (e : EventFinish)
  | EvDomainFronting (e : EventDomainFronting)
  | EvConcurrencyLimited (e : EventConcurrencyLimited)
  | EvIPBlocklisted (e : EventIPBlocklisted)
  | EvReplayAttack (e : EventReplayAttack)
  | EvThrottled (e : EventThrottled)
  | EvIPListSize (e : EventIPListSize)
  | EvPendingHandshakeLimit (e : EventPendingHandshakeLimit).

#[export] Instance eventBase_eq_dec : EqDecision eventBase.
Proof. solve_decision. Defined.
#[export] Instance Event_eq_dec : EqDecision Event.
Proof.
  unfold EqDecision, Decision. decide equality;
    match goal with |- {?a = ?b} + {_} => change (Decision (a = b)); solve_decision end.
Defined.

Definition base (e : Event) : eventBase :=
  match e with
  | EvStart e => start_base e
  | EvConnectedToDC e => dc_base e
  | EvTraffic e => traffic_base e
  | EvFinish e => finish_base e
  | EvDomainFronting e => fronting_base e
  | EvConcurrencyLimited e => limited_base e
  | EvIPBlocklisted e => blocklisted_base e
  | EvReplayAttack e => replay_base e
  | EvThrottled e => throttled_base e
  | EvIPListSize e => size_base e
  | EvPendingHandshakeLimit e => pending_base e
  end.

Definition StreamID (e : Event) : string := streamID (base e).

Definition Timestamp (e : Event) : Z := timestamp (base e).

(** The constructors; [now] is the clock they read. *)
Definition NewEventStart (now : Z) (id : string) (ip : list byte) : EventStart := mkEventStart (mkBase id now) ip.
Definition NewEventConnectedToDC (now : Z) (id : string) (ip : list byte) (dc : Z) : EventConnectedToDC :=
  mkEventConnectedToDC (mkBase id now) ip dc.
Definition NewEventTraffic (now : Z) (id : string) (traffic : Z) (isRead : bool) : EventTraffic :=
  mkEventTraffic (mkBase id now) traffic isRead.
Definition NewEventFinish (now : Z) (id : string) : EventFinish := mkEventFinish (mkBase id now).
Definition NewEventDomainFronting (now : Z) (id : string) : EventDomainFronting := mkEventDomainFronting (mkBase id now).
Definition NewEventPendingHandshakeLimit (now : Z) (id action : string) : EventPendingHandshakeLimit :=
  mkEventPendingHandshakeLimit (mkBase id now) action.
Definition NewEventConcurrencyLimited (now : Z) : EventConcurrencyLimited := mkEventConcurrencyLimited (mkBase "" now).
Definition NewEventIPBlocklisted (now : Z) (ip : list byte) : EventIPBlocklisted :=
  mkEventIPBlocklisted (mkBase "" now) ip true.
Definition NewEventIPAllowlisted (now : Z) (ip : list byte) : EventIPBlocklisted :=
  mkEventIPBlocklisted (mkBase "" now) ip false.
Definition NewEventReplayAttack (now : Z) (id : string) : EventReplayAttack := mkEventReplayAttack (mkBase id now).
Definition NewEventThrottled (now : Z) (id name : string) : EventThrottled := mkEventThrottled (mkBase id now) name.
Definition NewEventIPListSize (now : Z) (size : Z) (isBlockList : bool) : EventIPListSize :=
  mkEventIPListSize (mkBase "" now) size isBlockList.

(** ** Observers *)

Class Observer (St : Type) := {
  ob_EventStart : EventStart -> St -> St;
  ob_EventFinish : EventFinish -> St -> St;
  ob_EventConnectedToDC : EventConnectedToDC -> St -> St;
  ob_EventDomainFronting : EventDomainFronting -> St -> St;
  ob_EventTraffic : EventTraffic -> St -> St;
  ob_EventConcurrencyLimited : EventConcurrencyLimited -> St -> St;
  ob_EventPendingHandshakeLimit : EventPendingHandshakeLimit -> St -> St;
  ob_EventIPBlocklisted : EventIPBlocklisted -> St -> St;
  ob_EventReplayAttack : EventReplayAttack -> St -> St;
  ob_EventIPListSize : EventIPListSize -> St -> St;
  ob_Shutdown : St -> St
}.

(** The type switch of [eventStreamProcessor]. *)
Definition dispatch {St} `{Observer St} (evt : Event) (s : St) : St :=
  match evt with
  | EvTraffic e => ob_EventTraffic e s
  | EvStart e => ob_EventStart e s
  | EvFinish e => ob_EventFinish e s
  | EvConnectedToDC e => ob_EventConnectedToDC e s
  | EvDomainFronting e => ob_EventDomainFronting e s
  | EvIPBlocklisted e => ob_EventIPBlocklisted e s
  | EvConcurrencyLimited e => ob_EventConcurrencyLimited e s
  | EvPendingHandshakeLimit e => ob_EventPendingHandshakeLimit e s
  | EvReplayAttack e => ob_EventReplayAttack e s
  | EvIPListSize e => ob_EventIPListSize e s
  | EvThrottled _ => s
  end.

(** What an observer has become after a sequence of events. *)
Definition observed {St} `{Observer St} (evts : list Event) (s : St) : St := fold_left (fun s e => dispatch e s) evts s.

Lemma observed_app {St} `{Observer St} l l' s : observed (l ++ l') s = observed l' (observed l s).
Proof. apply fold_left_app. Qed.

Lemma observed_snoc {St} `{Observer St} l e s : observed (l ++ [e]) s = dispatch e (observed l s).
Proof. by rewrite observed_app. Qed.

(** [noopObserver]. *)
Definition noopObserver : Observer unit := {|
  ob_EventStart _ s := s; ob_EventFinish _ s := s; ob_EventConnectedToDC _ s := s;
  ob_EventDomainFronting _ s := s; ob_EventTraffic _ s := s; ob_EventConcurrencyLimited _ s := s;
  ob_EventPendingHandshakeLimit _ s := s; ob_EventIPBlocklisted _ s := s; ob_EventReplayAttack _ s := s;
  ob_EventIPListSize _ s := s; ob_Shutdown s := s |}.
#[export] Existing Instance noopObserver.

(** A value of the interface type: an observer together with its state. *)
Record anyObserver := AnyObserver { any_St : Type; any_ops : Observer any_St; any_val : any_St }.

Definition on_any (f : forall St, Observer St -> St -> St) (o : anyObserver) : anyObserver :=
  AnyObserver (any_St o) (any_ops o) (f (any_St o) (any_ops o) (any_val o)).

(** A method of [multiObserver] starts one goroutine per observer and waits for
    all of them.  Each goroutine only uses its own observer, so their order does
    not matter. *)
Definition multi (f : forall St, Observer St -> St -> St) (observers : list anyObserver) : list anyObserver :=
  on_any f <$> observers.

Definition multiObserver : Observer (list anyObserver) := {|
  ob_EventStart e := multi (fun _ _ => ob_EventStart e);
  ob_EventConnectedToDC e := multi (fun _ _ => ob_EventConnectedToDC e);
  ob_EventDomainFronting e := multi (fun _ _ => ob_EventDomainFronting e);
  ob_EventTraffic e := multi (fun _ _ => ob_EventTraffic e);
  ob_EventFinish e := multi (fun _ _ => ob_EventFinish e);
  ob_EventPendingHandshakeLimit e := multi (fun _ _ => ob_EventPendingHandshakeLimit e);
  ob_EventConcurrencyLimited e := multi (fun _ _ => ob_EventConcurrencyLimited e);
  ob_EventIPBlocklisted e := multi (fun _ _ => ob_EventIPBlocklisted e);
  ob_EventReplayAttack e := multi (fun _ _ => ob_EventReplayAttack e);
  ob_EventIPListSize e := multi (fun _ _ => ob_EventIPListSize e);
  ob_Shutdown := multi (fun _ _ => ob_Shutdown) |}.
#[export] Existing Instance multiObserver.

Definition NewNoopObserver : anyObserver := AnyObserver unit noopObserver tt.

(** The observer of a worker: one that a factory made, or a [multiObserver]. *)
Inductive workerObserver :=
  | Single (o : anyObserver)
  | Multi (observers : list anyObserver).

Definition newMultiObserver (factories : list anyObserver) : workerObserver := Multi factories.

(** The method call through the interface. *)
Definition on_worker (f : forall St, Observer St -> St -> St) (g : list anyObserver -> list anyObserver)
    (o : workerObserver) : workerObserver :=
  match o with
  | Single o => Single (on_any f o)
  | Multi os => Multi (g os)
  end.

#[export] Instance interfaceObserver : Observer workerObserver := {|
  ob_EventStart e := on_worker (fun _ _ => ob_EventStart e) (ob_EventStart e);
  ob_EventFinish e := on_worker (fun _ _ => ob_EventFinish e) (ob_EventFinish e);
  ob_EventConnectedToDC e := on_worker (fun _ _ => ob_EventConnectedToDC e) (ob_EventConnectedToDC e);
  ob_EventDomainFronting e := on_worker (fun _ _ => ob_EventDomainFronting e) (ob_EventDomainFronting e);
  ob_EventTraffic e := on_worker (fun _ _ => ob_EventTraffic e) (ob_EventTraffic e);
  ob_EventConcurrencyLimited e := on_worker (fun _ _ => ob_EventConcurrencyLimited e) (ob_EventConcurrencyLimited e);
  ob_EventPendingHandshakeLimit e :=
    on_worker (fun _ _ => ob_EventPendingHandshakeLimit e) (ob_EventPendingHandshakeLimit e);
  ob_EventIPBlocklisted e := on_worker (fun _ _ => ob_EventIPBlocklisted e) (ob_EventIPBlocklisted e);
  ob_EventReplayAttack e := on_worker (fun _ _ => ob_EventReplayAttack e) (ob_EventReplayAttack e);
  ob_EventIPListSize e := on_worker (fun _ _ => ob_EventIPListSize e) (ob_EventIPListSize e);
  ob_Shutdown := on_worker (fun _ _ => ob_Shutdown) ob_Shutdown |}.

(** ** The stream *)

Record worker (St : Type) := mkWorker { wk_chan : option Event; wk_observer : St; wk_returned : bool }.
Arguments mkWorker {St} _ _ _.
Arguments wk_chan {St} _.
Arguments wk_observer {St} _.
Arguments wk_returned {St} _.

Record EventStream (St : Type) := mkEventStream { es_cancelled : bool; es_workers : list (worker St) }.
Arguments mkEventStream {St} _ _.
Arguments es_cancelled {St} _.
Arguments es_workers {St} _.

(** [NewEventStream]: the observer of a worker depends on the number of
    factories, and there is a worker per CPU. *)
Definition newObserver (factories : list anyObserver) : workerObserver :=
  let factories := match factories with [] => [NewNoopObserver] | fs => fs end in
  match factories with
  | [f] => Single f
  | fs => newMultiObserver fs
  end.

Definition NewEventStream (numCPU : nat) (factories : list anyObserver) : EventStream workerObserver :=
  mkEventStream false (replicate numCPU (mkWorker None (newObserver factories) false)).

Section stream.
Context {St : Type} `{Observer St}.
(** [xxhash.ChecksumString32], a 32-bit number. *)
Variable checksum : string -> Z.

(** The channel of an event; [rnd] is the number drawn by [rand.Uint32]. *)
Definition chanNo (rnd : Z) (evt : Event) (chans : nat) : nat :=
  Z.to_nat ((if bool_decide (StreamID evt = "") then rnd else checksum (StreamID evt)) mod Z.of_nat chans).

(** What a goroutine may do next.  [ctxDone] says that the context given to
    [Send] is over, [deliver] which case of its [select] runs. *)
Inductive es_act :=
  | ASend (ctxDone : bool) (rnd : Z) (evt : Event) (deliver : bool)
  | AShutdown
  | AReceive (i : nat)
  | AReturn (i : nat).

Definition with_worker (i : nat) (w : worker St) (s : EventStream St) : EventStream St :=
  mkEventStream (es_cancelled s) (<[i := w]> (es_workers s)).

Definition Send (ctxDone : bool) (rnd : Z) (evt : Event) (deliver : bool) (s : EventStream St) : option (EventStream St) :=
  if deliver then
    let i := chanNo rnd evt (length (es_workers s)) in
    w ← es_workers s !! i;
    match wk_chan w with
    | None => Some (with_worker i (mkWorker (Some evt) (wk_observer w) (wk_returned w)) s)
    | Some _ => None
    end
  else if ctxDone || es_cancelled s then Some s else None.

Definition es_Shutdown (s : EventStream St) : EventStream St := mkEventStream true (es_workers s).

(** The two cases of the loop of [eventStreamProcessor]. *)
Definition receive (i : nat) (s : EventStream St) : option (EventStream St) :=
  w ← es_workers s !! i;
  match wk_returned w, wk_chan w with
  | false, Some evt => Some (with_worker i (mkWorker None (dispatch evt (wk_observer w)) false) s)
  | _, _ => None
  end.

Definition returnDone (i : nat) (s : EventStream St) : option (EventStream St) :=
  w ← es_workers s !! i;
  if es_cancelled s && negb (wk_returned w)
  then Some (with_worker i (mkWorker (wk_chan w) (ob_Shutdown (wk_observer w)) true) s)
  else None.

Definition es_do (a : es_act) (s : EventStream St) : option (EventStream St) :=
  match a with
  | ASend ctxDone rnd evt deliver => Send ctxDone rnd evt deliver s
  | AShutdown => Some (es_Shutdown s)
  | AReceive i => receive i s
  | AReturn i => returnDone i s
  end.

(** The events put into a channel by a step. *)
Definition sent (chans : nat) (a : es_act) : list (nat * Event) :=
  match a with ASend _ rnd evt true => [(chanNo rnd evt chans, evt)] | _ => [] end.

(** Reachable from a stream all of whose observers start in [s0], with the
    history of what was put into the channels. *)
Inductive es_reach (s0 : St) (n : nat) : list (nat * Event) -> EventStream St -> Prop :=
  | es_start : es_reach s0 n [] (mkEventStream false (replicate n (mkWorker None s0 false)))
  | es_next h s a s' : es_reach s0 n h s -> es_do a s = Some s' -> es_reach s0 n (h ++ sent n a) s'.

Fixpoint es_run (l : list es_act) (s : EventStream St) : option (EventStream St) :=
  match l with [] => Some s | a :: l => s' ← es_do a s; es_run l s' end.

(** ** Proofs *)

Definition routed (i : nat) (h : list (nat * Event)) : list Event := snd <$> filter (fun x : nat * Event => x.1 = i) h.

Lemma routed_app i h h' : routed i (h ++ h') = routed i h ++ routed i h'.
Proof. unfold routed. by rewrite filter_app, fmap_app. Qed.

Lemma routed_one i k e : routed i [(k, e)] = if decide (k = i) then [e] else [].
Proof. unfold routed. rewrite filter_cons. simpl. by case_decide. Qed.

(** What a worker has done: it handled a prefix of the events of its channel,
    at most the last one is still in the channel, and [Shutdown] was called
    after that prefix exactly if the goroutine has returned. *)
Definition worker_ok (s0 : St) (l : list Event) (w : worker St) : Prop :=
  exists handled, l = handled ++ option_list (wk_chan w) /\
    wk_observer w = if wk_returned w then ob_Shutdown (observed handled s0) else observed handled s0.

Lemma es_reach_ok s0 n h s :
  es_reach s0 n h s ->
  length (es_workers s) = n /\ (forall i w, es_workers s !! i = Some w -> worker_ok s0 (routed i h) w) /\
  (es_cancelled s = false -> forall i w, es_workers s !! i = Some w -> wk_returned w = false).
Proof.
  induction 1 as [|h s a s' Hr (Hlen & Hok & Hret) Hdo].
  { simpl. rewrite length_replicate. split_and!; [done| |].
    - intros i w [-> _]%lookup_replicate. by exists [].
    - by intros _ i w [-> _]%lookup_replicate. }
  destruct a as [c r e d| |i|i]; simpl in Hdo.
  - unfold Send in Hdo. simpl. destruct d; [|by rewrite app_nil_r; case_match; simplify_eq].
    rewrite Hlen in Hdo. destruct (es_workers s !! chanNo r e n) as [w|] eqn:Hw; simplify_eq/=.
    destruct (wk_chan w) eqn:Hch; simplify_eq/=. rewrite length_insert. split_and!; [done| |].
    + intros i w' Hi. rewrite routed_app, routed_one. apply list_lookup_insert_Some in Hi as [(<- & <- & _)|[Hne Hi]].
      * rewrite decide_True by done. destruct (Hok _ _ Hw) as (hd & Hl & Ho). exists hd. simpl.
        rewrite Hch, app_nil_r in Hl. by rewrite Hl.
      * rewrite decide_False by congruence. rewrite app_nil_r. by apply Hok.
    + intros Hc i w' [(<- & <- & _)|[Hne Hi]]%list_lookup_insert_Some; simpl; eauto.
  - simplify_eq/=. rewrite app_nil_r. split_and!; auto. done.
  - rewrite app_nil_r. unfold receive in Hdo. destruct (es_workers s !! i) as [w|] eqn:Hw; simplify_eq/=.
    destruct (wk_returned w) eqn:Hrt; simplify_eq/=. destruct (wk_chan w) as [e|] eqn:Hch; simplify_eq/=.
    rewrite length_insert. split_and!; [done| |].
    + intros k w' [(<- & <- & _)|[Hne Hi]]%list_lookup_insert_Some; [|by apply Hok].
      destruct (Hok _ _ Hw) as (hd & Hl & Ho). exists (hd ++ [e]). rewrite Hl, Hch, Hrt in *. simpl.
      rewrite app_nil_r. split; [done|]. by rewrite observed_snoc, Ho.
    + intros Hc k w' [(<- & <- & _)|[Hne Hi]]%list_lookup_insert_Some; simpl; eauto.
  - rewrite app_nil_r. unfold returnDone in Hdo. destruct (es_workers s !! i) as [w|] eqn:Hw; simplify_eq/=.
    destruct (es_cancelled s) eqn:Hc; simplify_eq/=. destruct (wk_returned w) eqn:Hrt; simplify_eq/=.
    rewrite length_insert. split_and!; [done| |by rewrite Hc].
    intros k w' [(<- & <- & _)|[Hne Hi]]%list_lookup_insert_Some; [|by apply Hok].
    destruct (Hok _ _ Hw) as (hd & Hl & Ho). exists hd. simpl. by rewrite Hl, Ho, Hrt.
Qed.

(** Events carry their channel. *)
Lemma es_reach_routed s0 n h s k e :
  es_reach s0 n h s -> (k, e) ∈ h -> exists rnd, k = chanNo rnd e n.
Proof.
  induction 1 as [|h s a s' Hr IH Hdo]; [by intros ?%not_elem_of_nil|].
  intros [He|He]%elem_of_app; [by apply IH|]. destruct a as [c r e' d| | |]; simpl in He; try by apply not_elem_of_nil in He.
  destruct d; [|by apply not_elem_of_nil in He]. apply list_elem_of_singleton in He as [= -> ->]. by exists r.
Qed.

Lemma chanNo_stream rnd rnd' e e' n :
  StreamID e <> "" -> StreamID e' = StreamID e -> chanNo rnd e n = chanNo rnd' e' n.
Proof. intros He Heq. unfold chanNo. rewrite Heq. by rewrite bool_decide_false. Qed.

(** All events of a stream are in one channel, in the order of their sends. *)
Lemma stream_in_channel s0 n h s id rnd e0 :
  es_reach s0 n h s -> id <> "" -> StreamID e0 = id ->
  filter (fun e => StreamID e = id) (routed (chanNo rnd e0 n) h) = filter (fun e => StreamID e = id) (snd <$> h).
Proof.
  intros Hr Hid He0. assert (forall k e, (k, e) ∈ h -> StreamID e = id -> k = chanNo rnd e0 n) as Hk.
  { intros k e Hin He. destruct (es_reach_routed _ _ _ _ _ _ Hr Hin) as [r ->]. apply chanNo_stream; congruence. }
  clear Hr. induction h as [|[k e] h IH]; [done|]. rewrite fmap_cons, filter_cons. unfold routed in *.
  rewrite filter_cons. simpl. rewrite <- IH by (intros; eapply Hk; [by right|done]).
  destruct (decide (k = chanNo rnd e0 n)) as [->|Hne]; simpl; [by rewrite filter_cons|].
  rewrite decide_False; [done|]. intros He. apply Hne. by eapply Hk; [left|].
Qed.

Lemma routed_id i h k e : (k, e) ∈ h -> k = i -> e ∈ routed i h.
Proof. intros Hin ->. apply list_elem_of_fmap. exists (i, e). split; [done|]. by apply list_elem_of_filter. Qed.
End stream.

Arguments es_reach {St _} checksum s0 n.
Arguments es_run {St _} checksum l s.
Arguments es_do {St _} checksum a s.

(** A call on an observer, for the observer that only records its calls. *)
Inductive call :=
  | CallEvent (e : Event)
  | CallShutdown.

Definition record (f : call) (l : list call) : list call := l ++ [f].

Definition recorder : Observer (list call) := {|
  ob_EventStart e := record (CallEvent (EvStart e));
  ob_EventFinish e := record (CallEvent (EvFinish e));
  ob_EventConnectedToDC e := record (CallEvent (EvConnectedToDC e));
  ob_EventDomainFronting e := record (CallEvent (EvDomainFronting e));
  ob_EventTraffic e := record (CallEvent (EvTraffic e));
  ob_EventConcurrencyLimited e := record (CallEvent (EvConcurrencyLimited e));
  ob_EventPendingHandshakeLimit e := record (CallEvent (EvPendingHandshakeLimit e));
  ob_EventIPBlocklisted e := record (CallEvent (EvIPBlocklisted e));
  ob_EventReplayAttack e := record (CallEvent (EvReplayAttack e));
  ob_EventIPListSize e := record (CallEvent (EvIPListSize e));
  ob_Shutdown := record CallShutdown |}.
#[export] Existing Instance recorder.

(** The events an observer has a method for. *)
Definition observable (e : Event) : bool := match e with EvThrottled _ => false | _ => true end.

Lemma recorder_observed l c : observed l c = c ++ (CallEvent <$> filter observable l).
Proof.
  revert c. induction l as [|e l IH]; intros c; [by rewrite app_nil_r|]. unfold observed in *. simpl.
  rewrite IH, filter_cons. destruct e; simpl; unfold record; by rewrite <- ?app_assoc.
Qed.

(** What one member of the workers' observers has become. *)
Definition members (o : workerObserver) : list anyObserver := match o with Single o => [o] | Multi os => os end.

Lemma on_any_id (os : list anyObserver) : on_any (fun _ _ s => s) <$> os = os.
Proof. induction os as [|[S o v] os IH]; [done|]. by rewrite fmap_cons, IH. Qed.

Lemma members_dispatch e o : members (dispatch e o) = on_any (fun _ _ => dispatch e) <$> members o.
Proof. destruct o as [[S o v]|os]; destruct e; try done. simpl. symmetry. apply on_any_id. Qed.

Lemma members_observed l o : members (observed l o) = on_any (fun _ _ => observed l) <$> members o.
Proof.
  revert o. induction l as [|e l IH]; intros o; [symmetry; apply on_any_id|].
  change (observed (e :: l) o) with (observed l (dispatch e o)). rewrite IH, members_dispatch.
  rewrite <- list_fmap_compose. by apply list_fmap_ext.
Qed.

Lemma members_Shutdown o : members (ob_Shutdown o) = on_any (fun _ _ => ob_Shutdown) <$> members o.
Proof. by destruct o as [[S o v]|os]. Qed.

Lemma members_newObserver fs : fs <> [] -> members (newObserver fs) = fs.
Proof. by destruct fs as [|f [|f' fs]]. Qed.

Lemma es_run_reach {St} `{Observer St} checksum s0 n l h s s' :
  es_reach checksum s0 n h s -> es_run checksum l s = Some s' ->
  es_reach checksum s0 n (h ++ (l ≫= sent checksum n)) s'.
Proof.
  revert h s. induction l as [|a l IH]; simpl; intros h s Hr Hrun; [by simplify_eq; rewrite app_nil_r|].
  destruct (es_do checksum a s) as [s1|] eqn:Hd; [|done]. simpl in Hrun. rewrite app_assoc.
  eapply IH; [|done]. by eapply es_next.
Qed.

(** The events that a schedule put into the channels. *)
Definition accepted (acts : list es_act) : list Event :=
  omap (fun a => match a with ASend _ _ evt true => Some evt | _ => None end) acts.

Lemma accepted_sent checksum n acts : snd <$> (acts ≫= sent checksum n) = accepted acts.
Proof.
  induction acts as [|a acts IH]; [done|]. rewrite bind_cons, fmap_app, IH. by destruct a as [? ? ? []| | |].
Qed.

Lemma es_run_cancelled {St} `{Observer St} checksum l (s s' : EventStream St) :
  es_run checksum l s = Some s' -> es_cancelled s' = true -> es_cancelled s = true \/ AShutdown ∈ l.
Proof.
  revert s. induction l as [|a l IH]; intros s Hrun Hc; simplify_eq/=; [by left|].
  destruct (es_do checksum a s) as [s1|] eqn:Hd; simplify_eq/=. destruct (IH s1 Hrun Hc) as [H1|H1]; [|right; by right].
  destruct a as [c r e d| |i|i]; simpl in Hd.
  - left. unfold Send in Hd. destruct d; [|by case_match; simplify_eq].
    destruct (es_workers s !! _) as [w|]; simplify_eq/=. by destruct (wk_chan w); simplify_eq/=.
  - right. by left.
  - left. unfold receive in Hd. destruct (es_workers s !! i) as [w|]; simplify_eq/=.
    destruct (wk_returned w); simplify_eq/=. by destruct (wk_chan w); simplify_eq/=.
  - left. unfold returnDone in Hd. destruct (es_workers s !! i) as [w|]; simplify_eq/=. by case_match; simplify_eq/=.
Qed.

Lemma filter_swap {A} (P : A -> Prop) `{forall x, Decision (P x)} (Q : A -> Prop) `{forall x, Decision (Q x)} (l : list A) :
  filter P (filter Q l) = filter Q (filter P l).
Proof.
  induction l as [|x l IH]; [done|]. rewrite !filter_cons.
  destruct (decide (P x)), (decide (Q x)); rewrite ?filter_cons, ?decide_True, ?decide_False by done; by rewrite ?IH.
Qed.

Lemma filter_all_false {A} (P : A -> Prop) `{forall x, Decision (P x)} (l : list A) :
  (forall x, x ∈ l -> ~ P x) -> filter P l = [].
Proof.
  induction l as [|x l IH]; intros Hl; [done|]. rewrite filter_cons, decide_False by (apply Hl; by left).
  apply IH. intros y Hy. apply Hl. by right.
Qed.

(** The record that a recorder among the factories has after the worker handled
    some events. *)
Lemma recorder_log fs j handled (w : worker workerObserver) :
  fs !! j = Some (AnyObserver (list call) recorder []) -> fs <> [] ->
  wk_observer w = (if wk_returned w then ob_Shutdown (observed handled (newObserver fs)) else observed handled (newObserver fs)) ->
  members (wk_observer w) !! j =
    Some (AnyObserver (list call) recorder
      ((CallEvent <$> filter observable handled) ++ if wk_returned w then [CallShutdown] else [])).
Proof.
  intros Hj Hne ->. destruct (wk_returned w); rewrite ?members_Shutdown, members_observed, members_newObserver by done;
    rewrite !list_lookup_fmap, Hj; simpl; unfold on_any; simpl; rewrite recorder_observed; simpl; by rewrite ?app_nil_r.
Qed.

Lemma stream_in_channel_id {St} `{Observer St} checksum s0 n h (s : EventStream St) id :
  es_reach checksum s0 n h s -> id <> "" ->
  filter (fun e => StreamID e = id) (routed (Z.to_nat (checksum id mod Z.of_nat n)) h) = filter (fun e => StreamID e = id) (snd <$> h).
Proof.
  intros Hr Hid. rewrite <- (stream_in_channel checksum s0 n h s id 0 (EvFinish (NewEventFinish 0 id)) Hr Hid eq_refl).
  unfold chanNo. simpl. by rewrite bool_decide_false.
Qed.

Lemma stream_only_channel {St} `{Observer St} checksum s0 n h (s : EventStream St) id k e :
  es_reach checksum s0 n h s -> id <> "" -> e ∈ routed k h -> StreamID e = id -> k = Z.to_nat (checksum id mod Z.of_nat n).
Proof.
  intros Hr Hid He Hs. unfold routed in He. apply list_elem_of_fmap in He as ([k' e'] & -> & [Hk Hin]%list_elem_of_filter).
  simpl in *. subst k'. destruct (es_reach_routed _ _ _ _ _ _ _ Hr Hin) as [rnd ->].
  unfold chanNo. rewrite Hs. by rewrite bool_decide_false.
Qed.

(** ** Claims *)

(** C26: delivery.  Run an event stream made with any factories, under any
    schedule of sends, receives, returns and shutdown and whatever the [select]s
    chose, and look at an observer that only records the methods called on it, at
    any place of any worker.  Its record is a sequence of events followed by one
    [Shutdown] exactly if the worker's goroutine has returned.  In the worker
    that the identifier of a stream hashes to, the record holds the events of
    that stream that were accepted into a channel, all of them and in the order
    they were sent, except the throttled ones, for which an observer has no
    method, and except the one that may still be waiting in the channel; in the
    other workers it holds none of them.  A goroutine returns only after
    [Shutdown] of the stream. *)
Theorem stream_delivery checksum numCPU fs j acts s id k w :
  fs !! j = Some (AnyObserver (list call) recorder []) ->
  es_run checksum acts (NewEventStream numCPU fs) = Some s ->
  id <> "" -> es_workers s !! k = Some w ->
  exists handled,
    members (wk_observer w) !! j =
      Some (AnyObserver (list call) recorder
        ((CallEvent <$> handled) ++ if wk_returned w then [CallShutdown] else [])) /\
    (k = Z.to_nat (checksum id mod Z.of_nat numCPU) ->
       filter (fun e => StreamID e = id) (filter observable (accepted acts)) =
       filter (fun e => StreamID e = id) (handled ++ filter observable (option_list (wk_chan w)))) /\
    (k <> Z.to_nat (checksum id mod Z.of_nat numCPU) -> filter (fun e => StreamID e = id) handled = []) /\
    (wk_returned w = true -> AShutdown ∈ acts).
Proof.
  intros Hj Hrun Hid Hw. pose proof (es_run_reach checksum _ numCPU acts [] _ _ (es_start _ _ _) Hrun) as Hr. simpl in Hr.
  destruct (es_reach_ok _ _ _ _ _ Hr) as (_ & Hok & Hret).
  destruct (Hok k w Hw) as (handled & Hl & Ho). exists (filter observable handled).
  assert (fs <> []) as Hne by (intros Hnil; by rewrite Hnil, lookup_nil in Hj). split_and!.
  - by apply (recorder_log fs j handled).
  - intros ->. rewrite <- filter_app, <- Hl, <- (accepted_sent checksum numCPU).
    rewrite !(filter_swap _ observable). f_equal. symmetry. by apply (stream_in_channel_id checksum (newObserver fs) numCPU _ s).
  - intros Hk. rewrite filter_swap. replace (filter (fun e => StreamID e = id) handled) with (@nil Event); [done|].
    symmetry. apply filter_all_false. intros e He Heid. apply Hk. eapply (stream_only_channel _ _ _ _ _ id _ e Hr Hid); [|done].
    rewrite Hl. apply elem_of_app. by left.
  - intros Hrt. destruct (es_cancelled s) eqn:Hc; [|by rewrite (Hret eq_refl _ _ Hw) in Hrt].
    by destruct (es_run_cancelled _ _ _ _ Hrun Hc).
Qed.

(** A worker with several observers is equivalent to one worker per
    observer: after any events, and after [Shutdown], each of the observers that
    [NewEventStream] combined is in the state it reaches alone. *)
Theorem multi_observer_equiv fs l :
  fs <> [] ->
  members (observed l (newObserver fs)) = on_any (fun _ _ => observed l) <$> fs /\
  members (ob_Shutdown (observed l (newObserver fs))) =
    on_any (fun _ _ s => ob_Shutdown (observed l s)) <$> fs.
Proof.
  intros Hfs. rewrite members_Shutdown, members_observed, members_newObserver by done.
  split; [done|]. rewrite <- list_fmap_compose. by apply list_fmap_ext.
Qed.

(** No observer is ever told of a throttled connection: the type switch of
    [eventStreamProcessor] has no case for it. *)
Lemma throttled_unobserved {St} `{Observer St} e (s : St) : dispatch (EvThrottled e) s = s.
Proof. done. Qed.

(** ** Witnesses *)

Definition demo_hash (s : string) : Z := Z.of_nat (String.length s).
Definition demo_start : Event := EvStart (NewEventStart 7 "abc" []).
Definition demo_finish : Event := EvFinish (NewEventFinish 9 "abc").
Definition demo_acts : list es_act :=
  [ASend false 0 demo_start true; AReceive 1; ASend false 5 demo_finish true; AShutdown; AReturn 1].

Lemma stream_delivery_witness :
  let fs := [NewNoopObserver; AnyObserver (list call) recorder []] in
  exists s w, es_run demo_hash demo_acts (NewEventStream 2 fs) = Some s /\ es_workers s !! 1%nat = Some w /\
    members (wk_observer w) !! 1%nat = Some (AnyObserver (list call) recorder [CallEvent demo_start; CallShutdown]) /\
    wk_chan w = Some demo_finish /\
    (wk_returned w = true -> AShutdown ∈ demo_acts).
Proof.
  intros fs. eexists _, _. split; [vm_compute; reflexivity|]. split; [vm_compute; reflexivity|]. split; [done|]. split; [done|].
  destruct (stream_delivery demo_hash 2 fs 1 demo_acts _ "abc" 1 _ eq_refl eq_refl ltac:(done) eq_refl) as (handled & _ & _ & _ & H).
  exact H.
Defined.

Lemma multi_observer_equiv_witness :
  let fs := [AnyObserver (list call) recorder []; NewNoopObserver] in
  members (observed [demo_start] (newObserver fs)) =
    [AnyObserver (list call) recorder [CallEvent demo_start]; NewNoopObserver].
Proof. intros fs. exact (proj1 (multi_observer_equiv fs [demo_start] ltac:(done))). Defined.
