(* ===== verification/Metrics.v ===== *)
(** * Metrics exporters: package stats

    Two observers turn events into metrics: [prometheusProcessor] updates gauges
    and counters of the Prometheus client, [statsdProcessor] sends deltas to a
    statsd server.  Both keep a [streamInfo] per live stream, taken from a pool
    that all processors of the process share and given back when the stream
    ends.

    The client libraries are third-party: a processor's effect on them is the
    list of calls it makes ([metricCall]).  The pool is modelled with the objects
    it recycles: a heap, the pointers in the pool, and the choice that
    [sync.Pool.Get] makes as an input.  The theorems show that recycling is
    invisible (a processor behaves as if every stream had a fresh object, which
    is the specification [meter]), that both exporters report the same thing,
    and that gauges count exactly the live streams. *)

From S2P Require Import Prelude GoStrings GoNet Events.

(** ** Names: stats/init.go *)

Definition DefaultMetricPrefix : string := "mtg".
Definition DefaultStatsdMetricPrefix : string := (DefaultMetricPrefix ++ ".")%string.
Definition DefaultStatsdTagFormat : string := "datadog".
Definition MetricClientConnections : string := "client_connections".
Definition MetricTelegramConnections : string := "telegram_connections".
Definition MetricDomainFrontingConnections : string := "domain_fronting_connections".
Definition MetricTelegramTraffic : string := "telegram_traffic".
Definition MetricDomainFrontingTraffic : string := "domain_fronting_traffic".
Definition MetricDomainFronting : string := "domain_fronting".
Definition MetricConcurrencyLimited : string := "concurrency_limited".
Definition MetricPendingHandshakeLimit : string := "pending_handshake_limit".
Definition MetricIPBlocklisted : string := "ip_blocklisted".
Definition MetricReplayAttacks : string := "replay_attacks".
Definition MetricIPListSize : string := "iplist_size".
Definition TagIPFamily : string := "ip_family".
Definition TagIPFamilyIPv4 : string := "ipv4".
Definition TagIPFamilyIPv6 : string := "ipv6".
Definition TagTelegramIP : string := "telegram_ip".
Definition TagDC : string := "dc".
Definition TagAction : string := "action".
Definition TagDirection : string := "direction".
Definition TagDirectionToClient : string := "to_client".
Definition TagDirectionFromClient : string := "from_client".
Definition TagIPList : string := "ip_list".
Definition TagIPListAllow : string := "allowlist".
Definition TagIPListBlock : string := "blocklist".

(** ** Stream information and its pool: stream_info.go, pools.go *)

Record streamInfo := mkInfo { isDomainFronted : bool; tags : gmap string string }.

(** What the pool's [New] makes, and what [Reset] leaves. *)
Definition newInfo : streamInfo := mkInfo false ∅.

(** [tags[key]], the empty string when it is not set. *)
Definition tag (s : streamInfo) (key : string) : string := default "" (tags s !! key).

(** [streamInfo.T]: a tag of statsd. *)
Definition info_T (s : streamInfo) (key : string) : string * string := (key, tag s key).

Definition set_tag (key val : string) (s : streamInfo) : streamInfo := mkInfo (isDomainFronted s) (<[key := val]> (tags s)).

(** [Reset] deletes every key of the tags. *)
Definition Reset (s : streamInfo) : streamInfo := mkInfo false (foldr delete (tags s) (map_to_list (tags s)).*1).

Definition getDirection (isRead : bool) : string := if isRead then TagDirectionToClient else TagDirectionFromClient.

(** The objects, the pool, and the next pointer that was never used. *)
Record store := mkStore { heap : gmap nat streamInfo; pool : list nat; brk : nat }.

(** [sync.Pool] may give any of its objects or a new one: [pick] is that choice. *)
Definition acquireStreamInfo (pick : nat) (s : store) : nat * store :=
  match pool s !! pick with
  | Some p => (p, mkStore (heap s) (delete pick (pool s)) (brk s))
  | None => (brk s, mkStore (<[brk s := newInfo]> (heap s)) (pool s) (S (brk s)))
  end.

Definition deref (p : nat) (s : store) : streamInfo := default newInfo (heap s !! p).

Definition assign (p : nat) (i : streamInfo) (s : store) : store := mkStore (<[p := i]> (heap s)) (pool s) (brk s).

Definition releaseStreamInfo (p : nat) (s : store) : store :=
  mkStore (<[p := Reset (deref p s)]> (heap s)) (p :: pool s) (brk s).

(** ** Calls on the client libraries *)

Definition labels : Type := list (string * string).

Inductive metricCall :=
  | CGaugeDelta (name : string) (l : labels) (d : Z)
  | CGaugeSet (name : string) (l : labels) (v : Z)
  | CCounter (name : string) (l : labels) (n : Z).

#[export] Instance metricCall_eq_dec : EqDecision metricCall.
Proof. solve_decision. Defined.

(** An observer's state: its streams, the shared objects, the calls it made, and
    the next choice of the pool. *)
Record exporter := mkExporter {
  ex_streams : gmap string nat;
  ex_store : store;
  ex_calls : list metricCall;
  ex_pick : nat
}.

Definition set_store st (x : exporter) := mkExporter (ex_streams x) st (ex_calls x) (ex_pick x).
Definition set_streams m (x : exporter) := mkExporter m (ex_store x) (ex_calls x) (ex_pick x).
Definition emit (cs : list metricCall) (x : exporter) :=
  mkExporter (ex_streams x) (ex_store x) (ex_calls x ++ cs) (ex_pick x).

(** [info, ok := streams[id]; if !ok { return }]. *)
Definition with_stream (id : string) (f : nat -> exporter -> exporter) (x : exporter) : exporter :=
  match ex_streams x !! id with Some p => f p x | None => x end.

(** The conversion of an integer to [float64]: to the nearest multiple of a
    power of two that leaves 53 bits, ties to even. *)
Definition float64 (z : Z) : Z :=
  let e := Z.log2 (Z.abs z) - 52 in
  if e <=? 0 then z else
  let u := 2 ^ e in
  let q := Z.abs z / u in
  let r := Z.abs z mod u in
  let q := if (u <? 2 * r) || ((2 * r =? u) && Z.odd q) then q + 1 else q in
  Z.sgn z * (q * u).

Definition int64_of_uint (z : Z) : Z := swrap 64 z.

(** The family tag of a client's address. *)
Definition family (ip : list byte) : string := if bool_decide (To4 ip = []) then TagIPFamilyIPv6 else TagIPFamilyIPv4.

(** ** prometheus.go *)

(** A vector: name and label names, fixed by [NewPrometheus]. *)
Record vec := mkVec { vec_name : string; vec_labels : list string }.

Record PrometheusFactory := mkFactory {
  metricClientConnections : vec;
  metricTelegramConnections : vec;
  metricDomainFrontingConnections : vec;
  metricIPListSize : vec;
  metricTelegramTraffic : vec;
  metricDomainFrontingTraffic : vec;
  metricIPBlocklisted : vec;
  metricPendingHandshakeLimit : vec;
  metricDomainFronting : vec;
  metricConcurrencyLimited : vec;
  metricReplayAttacks : vec
}.

(** The names are relative to the namespace [metricPrefix]. *)
Definition NewPrometheus : PrometheusFactory := {|
  metricClientConnections := mkVec MetricClientConnections [TagIPFamily];
  metricTelegramConnections := mkVec MetricTelegramConnections [TagTelegramIP; TagDC];
  metricDomainFrontingConnections := mkVec MetricDomainFrontingConnections [TagIPFamily];
  metricIPListSize := mkVec MetricIPListSize [TagIPList];
  metricTelegramTraffic := mkVec MetricTelegramTraffic [TagTelegramIP; TagDC; TagDirection];
  metricDomainFrontingTraffic := mkVec MetricDomainFrontingTraffic [TagDirection];
  metricIPBlocklisted := mkVec MetricIPBlocklisted [TagIPList];
  metricPendingHandshakeLimit := mkVec MetricPendingHandshakeLimit [TagAction];
  metricDomainFronting := mkVec MetricDomainFronting [];
  metricConcurrencyLimited := mkVec MetricConcurrencyLimited [];
  metricReplayAttacks := mkVec MetricReplayAttacks []
|}.

(** [vec.WithLabelValues(values...)] and a method of what it returns. *)
Definition vecInc (v : vec) (values : list string) : metricCall := CGaugeDelta (vec_name v) (zip (vec_labels v) values) 1.
Definition vecDec (v : vec) (values : list string) : metricCall := CGaugeDelta (vec_name v) (zip (vec_labels v) values) (-1).
Definition vecSet (v : vec) (values : list string) (n : Z) : metricCall :=
  CGaugeSet (vec_name v) (zip (vec_labels v) values) n.
Definition vecAdd (v : vec) (values : list string) (n : Z) : metricCall := CCounter (vec_name v) (zip (vec_labels v) values) n.

Section prometheus.
Variable factory : PrometheusFactory.
(** The order in which [range] visits the keys of a map. *)
Variable range : list string -> list string.

Definition prom_EventStart (evt : EventStart) (x : exporter) : exporter :=
  let '(info, st) := acquireStreamInfo (ex_pick x) (ex_store x) in
  let st := if negb (bool_decide (To4 (start_RemoteIP evt) = []))
            then assign info (set_tag TagIPFamily TagIPFamilyIPv4 (deref info st)) st
            else assign info (set_tag TagIPFamily TagIPFamilyIPv6 (deref info st)) st in
  let x := set_streams (<[streamID (start_base evt) := info]> (ex_streams x)) (set_store st x) in
  emit [vecInc (metricClientConnections factory) [tag (deref info st) TagIPFamily]] x.

Definition prom_EventConnectedToDC (evt : EventConnectedToDC) : exporter -> exporter :=
  with_stream (streamID (dc_base evt)) (fun info x =>
    let st := assign info (set_tag TagTelegramIP (IP_String (dc_RemoteIP evt)) (deref info (ex_store x))) (ex_store x) in
    let st := assign info (set_tag TagDC (Itoa (dc_DC evt)) (deref info st)) st in
    emit [vecInc (metricTelegramConnections factory) [tag (deref info st) TagTelegramIP; tag (deref info st) TagDC]]
         (set_store st x)).

Definition prom_EventDomainFronting (evt : EventDomainFronting) : exporter -> exporter :=
  with_stream (streamID (fronting_base evt)) (fun info x =>
    let st := assign info (mkInfo true (tags (deref info (ex_store x)))) (ex_store x) in
    emit [vecAdd (metricDomainFronting factory) [] 1;
          vecInc (metricDomainFrontingConnections factory) [tag (deref info st) TagIPFamily]] (set_store st x)).

Definition prom_EventTraffic (evt : EventTraffic) : exporter -> exporter :=
  with_stream (streamID (traffic_base evt)) (fun info x =>
    let direction := getDirection (traffic_IsRead evt) in
    let i := deref info (ex_store x) in
    if isDomainFronted i
    then emit [vecAdd (metricDomainFrontingTraffic factory) [direction] (float64 (traffic_Traffic evt))] x
    else emit [vecAdd (metricTelegramTraffic factory) [tag i TagTelegramIP; tag i TagDC; direction]
                   (float64 (traffic_Traffic evt))] x).

Definition prom_EventFinish (evt : EventFinish) : exporter -> exporter :=
  with_stream (streamID (finish_base evt)) (fun info x =>
    let i := deref info (ex_store x) in
    let x := emit [vecDec (metricClientConnections factory) [tag i TagIPFamily]] x in
    let x := if isDomainFronted i then emit [vecDec (metricDomainFrontingConnections factory) [tag i TagIPFamily]] x
             else match tags i !! TagTelegramIP with
                  | Some telegramIP => emit [vecDec (metricTelegramConnections factory) [telegramIP; tag i TagDC]] x
                  | None => x
                  end in
    let x := set_streams (delete (streamID (finish_base evt)) (ex_streams x)) x in
    set_store (releaseStreamInfo info (ex_store x)) x).

Definition prom_EventConcurrencyLimited (_ : EventConcurrencyLimited) : exporter -> exporter :=
  emit [vecAdd (metricConcurrencyLimited factory) [] 1].

Definition prom_EventIPBlocklisted (evt : EventIPBlocklisted) : exporter -> exporter :=
  let tag := if negb (blocklisted_IsBlockList evt) then TagIPListAllow else TagIPListBlock in
  emit [vecAdd (metricIPBlocklisted factory) [tag] 1].

Definition prom_EventReplayAttack (_ : EventReplayAttack) : exporter -> exporter :=
  emit [vecAdd (metricReplayAttacks factory) [] 1].

Definition prom_EventPendingHandshakeLimit (evt : EventPendingHandshakeLimit) : exporter -> exporter :=
  emit [vecAdd (metricPendingHandshakeLimit factory) [pending_Action evt] 1].

Definition prom_EventIPListSize (evt : EventIPListSize) : exporter -> exporter :=
  let tag := if negb (size_IsBlockList evt) then TagIPListAllow else TagIPListBlock in
  emit [vecSet (metricIPListSize factory) [tag] (float64 (size_Size evt))].

Definition prom_Shutdown (x : exporter) : exporter :=
  fold_left (fun x k => with_stream k (fun v x =>
    set_streams (delete k (ex_streams x)) (set_store (releaseStreamInfo v (ex_store x)) x)) x)
    (range (elements (dom (ex_streams x)))) x.

Definition promProcessor : Observer exporter := {|
  ob_EventStart := prom_EventStart; ob_EventFinish := prom_EventFinish; ob_EventConnectedToDC := prom_EventConnectedToDC;
  ob_EventDomainFronting := prom_EventDomainFronting; ob_EventTraffic := prom_EventTraffic;
  ob_EventConcurrencyLimited := prom_EventConcurrencyLimited; ob_EventPendingHandshakeLimit := prom_EventPendingHandshakeLimit;
  ob_EventIPBlocklisted := prom_EventIPBlocklisted; ob_EventReplayAttack := prom_EventReplayAttack;
  ob_EventIPListSize := prom_EventIPListSize; ob_Shutdown := prom_Shutdown |}.
End prometheus.

(** ** statsd.go *)

(** The methods of the client. *)
Definition GaugeDelta (name : string) (d : Z) (l : labels) : metricCall := CGaugeDelta name l d.
Definition Incr (name : string) (n : Z) (l : labels) : metricCall := CCounter name l n.
Definition Gauge (name : string) (v : Z) (l : labels) : metricCall := CGaugeSet name l v.

Section statsd.
Variable range : list string -> list string.
(** The clock read by [NewEventFinish]. *)
Variable now : Z.

Definition statsd_EventStart (evt : EventStart) (x : exporter) : exporter :=
  let '(info, st) := acquireStreamInfo (ex_pick x) (ex_store x) in
  let st := if negb (bool_decide (To4 (start_RemoteIP evt) = []))
            then assign info (set_tag TagIPFamily TagIPFamilyIPv4 (deref info st)) st
            else assign info (set_tag TagIPFamily TagIPFamilyIPv6 (deref info st)) st in
  let x := set_streams (<[streamID (start_base evt) := info]> (ex_streams x)) (set_store st x) in
  emit [GaugeDelta MetricClientConnections 1 [info_T (deref info st) TagIPFamily]] x.

Definition statsd_EventConnectedToDC (evt : EventConnectedToDC) : exporter -> exporter :=
  with_stream (streamID (dc_base evt)) (fun info x =>
    let st := assign info (set_tag TagTelegramIP (IP_String (dc_RemoteIP evt)) (deref info (ex_store x))) (ex_store x) in
    let st := assign info (set_tag TagDC (Itoa (dc_DC evt)) (deref info st)) st in
    emit [GaugeDelta MetricTelegramConnections 1 [info_T (deref info st) TagTelegramIP; info_T (deref info st) TagDC]]
         (set_store st x)).

Definition statsd_EventDomainFronting (evt : EventDomainFronting) : exporter -> exporter :=
  with_stream (streamID (fronting_base evt)) (fun info x =>
    let st := assign info (mkInfo true (tags (deref info (ex_store x)))) (ex_store x) in
    emit [Incr MetricDomainFronting 1 [];
          GaugeDelta MetricDomainFrontingConnections 1 [info_T (deref info st) TagIPFamily]] (set_store st x)).

Definition statsd_EventTraffic (evt : EventTraffic) : exporter -> exporter :=
  with_stream (streamID (traffic_base evt)) (fun info x =>
    let directionTag := (TagDirection, getDirection (traffic_IsRead evt)) in
    let i := deref info (ex_store x) in
    if isDomainFronted i
    then emit [Incr MetricDomainFrontingTraffic (int64_of_uint (traffic_Traffic evt)) [directionTag]] x
    else emit [Incr MetricTelegramTraffic (int64_of_uint (traffic_Traffic evt))
                    [info_T i TagTelegramIP; info_T i TagDC; directionTag]] x).

Definition statsd_EventFinish (evt : EventFinish) : exporter -> exporter :=
  with_stream (streamID (finish_base evt)) (fun info x =>
    let i := deref info (ex_store x) in
    let x := emit [GaugeDelta MetricClientConnections (-1) [info_T i TagIPFamily]] x in
    let x := if isDomainFronted i then emit [GaugeDelta MetricDomainFrontingConnections (-1) [info_T i TagIPFamily]] x
             else match tags i !! TagTelegramIP with
                  | Some _ => emit [GaugeDelta MetricTelegramConnections (-1) [info_T i TagTelegramIP; info_T i TagDC]] x
                  | None => x
                  end in
    let x := set_streams (delete (streamID (finish_base evt)) (ex_streams x)) x in
    set_store (releaseStreamInfo info (ex_store x)) x).

Definition statsd_EventConcurrencyLimited (_ : EventConcurrencyLimited) : exporter -> exporter :=
  emit [Incr MetricConcurrencyLimited 1 []].

Definition statsd_EventIPBlocklisted (evt : EventIPBlocklisted) : exporter -> exporter :=
  let tag := if negb (blocklisted_IsBlockList evt) then TagIPListAllow else TagIPListBlock in
  emit [Incr MetricIPBlocklisted 1 [(TagIPList, tag)]].

Definition statsd_EventReplayAttack (_ : EventReplayAttack) : exporter -> exporter :=
  emit [Incr MetricReplayAttacks 1 []].

Definition statsd_EventPendingHandshakeLimit (evt : EventPendingHandshakeLimit) : exporter -> exporter :=
  emit [Incr MetricPendingHandshakeLimit 1 [(TagAction, pending_Action evt)]].

Definition statsd_EventIPListSize (evt : EventIPListSize) : exporter -> exporter :=
  let tag := if negb (size_IsBlockList evt) then TagIPListAllow else TagIPListBlock in
  emit [Gauge MetricIPListSize (size_Size evt) [(TagIPList, tag)]].

Definition statsd_Shutdown (x : exporter) : exporter :=
  let events := (fun k => NewEventFinish now k) <$> range (elements (dom (ex_streams x))) in
  fold_left (fun x e => statsd_EventFinish e x) events x.

Definition statsdProcessor : Observer exporter := {|
  ob_EventStart := statsd_EventStart; ob_EventFinish := statsd_EventFinish; ob_EventConnectedToDC := statsd_EventConnectedToDC;
  ob_EventDomainFronting := statsd_EventDomainFronting; ob_EventTraffic := statsd_EventTraffic;
  ob_EventConcurrencyLimited := statsd_EventConcurrencyLimited; ob_EventPendingHandshakeLimit := statsd_EventPendingHandshakeLimit;
  ob_EventIPBlocklisted := statsd_EventIPBlocklisted; ob_EventReplayAttack := statsd_EventReplayAttack;
  ob_EventIPListSize := statsd_EventIPListSize; ob_Shutdown := statsd_Shutdown |}.
End statsd.

(** The tag style [NewStatsd] chooses; [None] is its error. *)
Inductive tagStyle := TagFormatDatadog | TagFormatInfluxDB | TagFormatGraphite.

Definition NewStatsd (tagFormat : string) : option tagStyle :=
  let f := ToLower tagFormat in
  if bool_decide (f = "datadog") then Some TagFormatDatadog
  else if bool_decide (f = "influxdb") then Some TagFormatInfluxDB
  else if bool_decide (f = "graphite") then Some TagFormatGraphite
  else None.

(** ** Specification: what the metrics of a set of streams are *)

(** A stream's information as a value; no pool, no sharing.  One step returns
    the updates of the metrics that the event calls for. *)
Notation meter := (gmap string streamInfo).

Definition on_stream (id : string) (m : meter) (f : streamInfo -> meter * list metricCall) : meter * list metricCall :=
  match m !! id with Some i => f i | None => (m, []) end.

Definition finish_calls (i : streamInfo) : list metricCall :=
  CGaugeDelta MetricClientConnections [info_T i TagIPFamily] (-1) ::
  if isDomainFronted i then [CGaugeDelta MetricDomainFrontingConnections [info_T i TagIPFamily] (-1)]
  else match tags i !! TagTelegramIP with
       | Some _ => [CGaugeDelta MetricTelegramConnections [info_T i TagTelegramIP; info_T i TagDC] (-1)]
       | None => []
       end.

Definition list_name (isBlockList : bool) : string := if isBlockList then TagIPListBlock else TagIPListAllow.

Definition meter_event (e : Event) (m : meter) : meter * list metricCall :=
  match e with
  | EvStart e =>
      let i := set_tag TagIPFamily (family (start_RemoteIP e)) newInfo in
      (<[streamID (start_base e) := i]> m, [CGaugeDelta MetricClientConnections [info_T i TagIPFamily] 1])
  | EvConnectedToDC e =>
      on_stream (streamID (dc_base e)) m (fun i =>
        let i := set_tag TagDC (Itoa (dc_DC e)) (set_tag TagTelegramIP (IP_String (dc_RemoteIP e)) i) in
        (<[streamID (dc_base e) := i]> m,
         [CGaugeDelta MetricTelegramConnections [info_T i TagTelegramIP; info_T i TagDC] 1]))
  | EvDomainFronting e =>
      on_stream (streamID (fronting_base e)) m (fun i =>
        let i := mkInfo true (tags i) in
        (<[streamID (fronting_base e) := i]> m,
         [CCounter MetricDomainFronting [] 1; CGaugeDelta MetricDomainFrontingConnections [info_T i TagIPFamily] 1]))
  | EvTraffic e =>
      let dir := (TagDirection, getDirection (traffic_IsRead e)) in
      on_stream (streamID (traffic_base e)) m (fun i =>
        (m, if isDomainFronted i then [CCounter MetricDomainFrontingTraffic [dir] (traffic_Traffic e)]
            else [CCounter MetricTelegramTraffic [info_T i TagTelegramIP; info_T i TagDC; dir] (traffic_Traffic e)]))
  | EvFinish e =>
      on_stream (streamID (finish_base e)) m (fun i => (delete (streamID (finish_base e)) m, finish_calls i))
  | EvConcurrencyLimited _ => (m, [CCounter MetricConcurrencyLimited [] 1])
  | EvIPBlocklisted e => (m, [CCounter MetricIPBlocklisted [(TagIPList, list_name (blocklisted_IsBlockList e))] 1])
  | EvReplayAttack _ => (m, [CCounter MetricReplayAttacks [] 1])
  | EvThrottled _ => (m, [])
  | EvIPListSize e => (m, [CGaugeSet MetricIPListSize [(TagIPList, list_name (size_IsBlockList e))] (size_Size e)])
  | EvPendingHandshakeLimit e => (m, [CCounter MetricPendingHandshakeLimit [(TagAction, pending_Action e)] 1])
  end.

(** Numbers that both client libraries represent exactly. *)
Definition exact (e : Event) : Prop :=
  match e with
  | EvTraffic e => 0 <= traffic_Traffic e <= 2 ^ 53
  | EvIPListSize e => 0 <= size_Size e <= 2 ^ 53
  | _ => True
  end.

(** ** Proofs: the pool *)

Lemma float64_exact z : 0 <= z <= 2 ^ 53 -> float64 z = z.
Proof.
  intros Hz. unfold float64. rewrite Z.abs_eq by lia.
  destruct (decide (z = 2 ^ 53)) as [->|Hne]; [done|].
  destruct (decide (z = 0)) as [->|H0]; [done|].
  assert (Z.log2 z < 53) by (apply Z.log2_lt_pow2; lia).
  by rewrite (proj2 (Z.leb_le _ _)) by lia.
Qed.

Lemma int64_of_uint_exact z : 0 <= z <= 2 ^ 53 -> int64_of_uint z = z.
Proof. intros Hz. unfold int64_of_uint. apply swrap_small; lia. Qed.

Lemma foldr_delete_lookup (l : list string) (m : gmap string string) k :
  foldr delete m l !! k = if bool_decide (k ∈ l) then None else m !! k.
Proof.
  induction l as [|k' l IH]; [done|]. simpl. destruct (decide (k' = k)) as [->|Hne].
  - rewrite lookup_delete_eq. by rewrite bool_decide_true by left.
  - rewrite lookup_delete_ne, IH by done. repeat case_bool_decide; set_solver.
Qed.

Lemma Reset_newInfo i : Reset i = newInfo.
Proof.
  unfold Reset, newInfo. f_equal. apply map_eq. intros k. rewrite foldr_delete_lookup, lookup_empty.
  case_bool_decide as Hk; [done|]. destruct (tags i !! k) as [v|] eqn:Hv; [|done].
  exfalso. apply Hk, list_elem_of_fmap. exists (k, v). split; [done|]. by apply elem_of_map_to_list.
Qed.

(** The state [x] of a processor represents [m] while [O] are the pointers that
    other processors hold. *)
Record sim (O : nat -> Prop) (x : exporter) (m : meter) : Prop := mkSim {
  sim_streams : forall id, m !! id = p ← ex_streams x !! id; heap (ex_store x) !! p;
  sim_live : forall id p, ex_streams x !! id = Some p ->
    is_Some (heap (ex_store x) !! p) /\ p ∉ pool (ex_store x) /\ ~ O p /\ (p < brk (ex_store x))%nat;
  sim_inj : forall id id' p, ex_streams x !! id = Some p -> ex_streams x !! id' = Some p -> id = id';
  sim_pool : NoDup (pool (ex_store x)) /\
    (forall p, p ∈ pool (ex_store x) -> heap (ex_store x) !! p = Some newInfo /\ ~ O p /\ (p < brk (ex_store x))%nat);
  sim_others : forall p, O p -> (p < brk (ex_store x))%nat
}.

(** [sim] does not depend on the calls. *)
Lemma sim_emit O x m cs : sim O (emit cs x) m <-> sim O x m.
Proof. split; intros [? ? ? ? ?]; by constructor. Qed.

Lemma deref_some p st i : heap st !! p = Some i -> deref p st = i.
Proof. unfold deref. by intros ->. Qed.

Lemma deref_assign p st i : deref p (assign p i st) = i.
Proof. unfold deref, assign. simpl. by rewrite lookup_insert_eq. Qed.

Lemma assign_assign p st i j : assign p j (assign p i st) = assign p j st.
Proof. unfold assign. simpl. by rewrite insert_insert_eq. Qed.

(** Binding a stream to the object that the pool gave. *)
Lemma sim_start O x m id i p st :
  sim O x m -> acquireStreamInfo (ex_pick x) (ex_store x) = (p, st) ->
  deref p st = newInfo /\ ~ O p /\ (forall q, O q -> heap (assign p i st) !! q = heap (ex_store x) !! q) /\
  sim O (set_streams (<[id := p]> (ex_streams x)) (set_store (assign p i st) x)) (<[id := i]> m).
Proof.
  intros [Hs Hl Hi [Hnd Hp] Ho] Ha.
  assert (deref p st = newInfo /\ ~ O p /\ (p < brk st)%nat /\ p ∉ pool st /\ NoDup (pool st) /\
    (forall q, q ∈ pool st -> q ∈ pool (ex_store x)) /\ (brk (ex_store x) <= brk st)%nat /\
    (forall q, q <> p -> heap st !! q = heap (ex_store x) !! q) /\
    (forall id, ex_streams x !! id <> Some p)) as (Hd & HO & Hb & Hnp & Hnd' & Hsub & Hbrk & Hh & Hf).
  { unfold acquireStreamInfo in Ha. destruct (pool (ex_store x) !! ex_pick x) as [q|] eqn:Hq; simplify_eq/=.
    - pose proof (list_elem_of_lookup_2 _ _ _ Hq) as Hin. destruct (Hp p Hin) as (Hh & HO & Hb).
      pose proof (delete_Permutation _ _ _ Hq) as Hperm.
      assert (NoDup (p :: delete (ex_pick x) (pool (ex_store x)))) as [? ?]%NoDup_cons by (by rewrite <- Hperm).
      split_and!; try done; [by apply deref_some|intros q Hqin; rewrite Hperm; by right|].
      intros id' Hid'. by destruct (Hl id' p Hid') as (_ & ? & _).
    - split_and!; try done; try lia.
      + unfold deref. simpl. by rewrite lookup_insert_eq.
      + intros HO%Ho. lia.
      + intros Hin%Hp. lia.
      + intros q Hne. by rewrite lookup_insert_ne.
      + intros id' Hid'. apply Hl in Hid'. lia. }
  split_and!; [done|done|intros q Hq; simpl; rewrite lookup_insert_ne by (intros ->; done); apply Hh; by intros ->|].
  constructor; simpl.
  - intros id'. destruct (decide (id = id')) as [<-|Hne].
    + rewrite !lookup_insert_eq. simpl. by rewrite lookup_insert_eq.
    + rewrite !lookup_insert_ne, Hs by done. destruct (ex_streams x !! id') as [q|] eqn:Hq; [|done]. simpl.
      assert (p <> q) by (intros ->; by eapply Hf). by rewrite lookup_insert_ne, Hh by done.
  - intros id' q [[<- <-]|[Hne Hq]]%lookup_insert_Some; [by rewrite lookup_insert_eq|].
    destruct (Hl id' q Hq) as ([j Hj] & Hnq & HOq & Hbq).
    assert (p <> q) by (intros ->; by eapply Hf). rewrite lookup_insert_ne, Hh by done. split_and!; eauto; lia.
  - intros a b q [[<- <-]|[? Ha']]%lookup_insert_Some [[<- Hb']|[? Hb']]%lookup_insert_Some; eauto; try done.
    + by apply Hf in Hb'.
    + subst q. by apply Hf in Ha'.
  - split; [done|]. intros q Hq. destruct (Hp q (Hsub q Hq)) as (Hhq & HOq & Hbq).
    assert (p <> q) by (intros ->; done). rewrite lookup_insert_ne, Hh by done. split_and!; [done|done|lia].
  - intros q Hq%Ho. lia.
Qed.

(** Updating a stream's object. *)
Lemma sim_assign O x m id p i :
  sim O x m -> ex_streams x !! id = Some p ->
  (forall q, O q -> heap (assign p i (ex_store x)) !! q = heap (ex_store x) !! q) /\
  sim O (set_store (assign p i (ex_store x)) x) (<[id := i]> m).
Proof.
  intros [Hs Hl Hi [Hnd Hp] Ho] Hid. destruct (Hl id p Hid) as (Hsome & Hnp & HO & Hb).
  split; [intros q Hq; simpl; apply lookup_insert_ne; by intros ->|]. constructor; simpl.
  - intros id'. destruct (decide (id = id')) as [<-|Hne].
    + rewrite lookup_insert_eq, Hid. simpl. by rewrite lookup_insert_eq.
    + rewrite lookup_insert_ne, Hs by done. destruct (ex_streams x !! id') as [q|] eqn:Hq; [|done]. simpl.
      rewrite lookup_insert_ne; [done|]. intros ->. by apply Hne, (Hi id id' q).
  - intros id' q Hq. destruct (Hl id' q Hq) as (Hq1 & Hq2). split; [|done].
    destruct (decide (p = q)) as [->|]; [by rewrite lookup_insert_eq|by rewrite lookup_insert_ne].
  - done.
  - split; [done|]. intros q Hq. rewrite lookup_insert_ne by (intros ->; done). by apply Hp.
  - done.
Qed.

(** Ending a stream. *)
Lemma sim_finish O x m id p :
  sim O x m -> ex_streams x !! id = Some p ->
  (forall q, O q -> heap (releaseStreamInfo p (ex_store x)) !! q = heap (ex_store x) !! q) /\
  sim O (set_store (releaseStreamInfo p (ex_store x)) (set_streams (delete id (ex_streams x)) x)) (delete id m).
Proof.
  intros [Hs Hl Hi [Hnd Hp] Ho] Hid. destruct (Hl id p Hid) as (Hsome & Hnp & HO & Hb).
  assert (forall id' q, delete id (ex_streams x) !! id' = Some q -> ex_streams x !! id' = Some q /\ p <> q) as Hdel.
  { intros id' q [Hne Hq]%lookup_delete_Some. split; [done|]. intros ->. by apply Hne, (Hi id id' q). }
  unfold releaseStreamInfo. rewrite Reset_newInfo.
  split; [intros q Hq; simpl; apply lookup_insert_ne; by intros ->|]. constructor; simpl.
  - intros id'. destruct (decide (id = id')) as [<-|Hne]; [by rewrite !lookup_delete_eq|].
    rewrite !lookup_delete_ne, Hs by done. destruct (ex_streams x !! id') as [q|] eqn:Hq; [|done]. simpl.
    rewrite lookup_insert_ne; [done|]. apply (Hdel id' q). by rewrite lookup_delete_ne.
  - intros id' q [Hq Hne]%Hdel. rewrite lookup_insert_ne by done. destruct (Hl id' q Hq) as (? & ? & ? & ?).
    split_and!; try done. rewrite not_elem_of_cons. split; [by intros ->|done].
  - intros a b q [Ha _]%Hdel [Hb' _]%Hdel. by eapply Hi.
  - split; [by constructor|]. intros q [->|Hq]%elem_of_cons; [by rewrite lookup_insert_eq|].
    rewrite lookup_insert_ne by (intros ->; done). by apply Hp.
  - done.
Qed.

(** What a handler must do: represent the specification's next state, make its
    calls and leave the objects of the other processors alone. *)
Definition implements_step (O : nat -> Prop) (x x' : exporter) (m : meter) (r : meter * list metricCall) : Prop :=
  sim O x' r.1 /\ ex_calls x' = ex_calls x ++ r.2 /\
  (forall p, O p -> heap (ex_store x') !! p = heap (ex_store x) !! p).

Lemma step_emit O x m cs : sim O x m -> implements_step O x (emit cs x) m (m, cs).
Proof. intros H. split_and!; [by apply sim_emit|done|done]. Qed.

Lemma step_skip O x m : sim O x m -> implements_step O x x m (m, []).
Proof. intros H. split_and!; [done|by rewrite app_nil_r|done]. Qed.

(** The shape of the handlers of a stream that must be known. *)
Lemma step_stream O x m id f g :
  sim O x m ->
  (forall p i, ex_streams x !! id = Some p -> m !! id = Some i -> deref p (ex_store x) = i ->
     implements_step O x (f p x) m (g i)) ->
  implements_step O x (with_stream id f x) m (on_stream id m g).
Proof.
  intros Hsim Hf. unfold with_stream, on_stream. rewrite (sim_streams _ _ _ Hsim).
  destruct (ex_streams x !! id) as [p|] eqn:Hp; [|by apply step_skip]. simpl.
  destruct (sim_live _ _ _ Hsim id p Hp) as ([i Hi] & _). rewrite Hi. apply Hf; [done| |by apply deref_some].
  rewrite (sim_streams _ _ _ Hsim), Hp. done.
Qed.

Lemma step_start O x m id ip cs :
  sim O x m ->
  let i := set_tag TagIPFamily (family ip) newInfo in
  (forall i', i' = i -> cs i' = [CGaugeDelta MetricClientConnections [info_T i TagIPFamily] 1]) ->
  implements_step O x
    (let '(info, st) := acquireStreamInfo (ex_pick x) (ex_store x) in
     let st := if negb (bool_decide (To4 ip = []))
               then assign info (set_tag TagIPFamily TagIPFamilyIPv4 (deref info st)) st
               else assign info (set_tag TagIPFamily TagIPFamilyIPv6 (deref info st)) st in
     let x := set_streams (<[id := info]> (ex_streams x)) (set_store st x) in
     emit (cs (deref info st)) x)
    m (<[id := i]> m, [CGaugeDelta MetricClientConnections [info_T i TagIPFamily] 1]).
Proof.
  intros Hsim i Hcs. destruct (acquireStreamInfo (ex_pick x) (ex_store x)) as [p st] eqn:Ha.
  destruct (sim_start O x m id i p st Hsim Ha) as (Hd & HO & Hfr & Hs).
  assert ((if negb (bool_decide (To4 ip = []))
           then assign p (set_tag TagIPFamily TagIPFamilyIPv4 (deref p st)) st
           else assign p (set_tag TagIPFamily TagIPFamilyIPv6 (deref p st)) st) = assign p i st) as ->.
  { rewrite Hd. unfold i, family. by case_bool_decide. }
  cbv zeta. rewrite deref_assign, (Hcs i eq_refl). split_and!; [by apply sim_emit|done|done].
Qed.

Lemma step_assign O x m id p i cs :
  sim O x m -> ex_streams x !! id = Some p ->
  implements_step O x (emit cs (set_store (assign p i (ex_store x)) x)) m (<[id := i]> m, cs).
Proof.
  intros Hsim Hp. destruct (sim_assign O x m id p i Hsim Hp) as [Hfr Hs]. split_and!; [by apply sim_emit|done|done].
Qed.

Lemma step_finish O x m id p cs :
  sim O x m -> ex_streams x !! id = Some p ->
  implements_step O x
    (set_store (releaseStreamInfo p (ex_store x)) (set_streams (delete id (ex_streams x)) (emit cs x)))
    m (delete id m, cs).
Proof.
  intros Hsim Hp. destruct (sim_finish O x m id p Hsim Hp) as [Hfr Hs].
  split_and!; [by apply (sim_emit O _ _ cs) in Hs|done|done].
Qed.

Lemma emit_emit cs cs' x : emit cs' (emit cs x) = emit (cs ++ cs') x.
Proof. unfold emit. simpl. by rewrite app_assoc. Qed.

Section exporters.
Variable range : list string -> list string.
Variable now : Z.

Ltac handler Hsim := apply step_stream; [exact Hsim|intros p i Hp Hi Hd; cbv zeta; rewrite Hd].

Ltac finish_handler i Hsim Hp :=
  unfold finish_calls; destruct (isDomainFronted i) eqn:?;
  [rewrite emit_emit; exact (step_finish _ _ _ _ _ _ Hsim Hp)|
   let Hip := fresh in destruct (tags i !! TagTelegramIP) eqn:Hip;
   rewrite ?emit_emit; unfold info_T, tag; rewrite ?Hip; exact (step_finish _ _ _ _ _ _ Hsim Hp)].

Lemma prom_step O x m e :
  sim O x m -> exact e ->
  implements_step O x (@dispatch _ (promProcessor NewPrometheus range) e x) m (meter_event e m).
Proof.
  intros Hsim Hex. destruct e as [e|e|e|e|e|e|e|e|e|e|e]; simpl.
  - apply (step_start O x m (streamID (start_base e)) (start_RemoteIP e)
             (fun i => [vecInc (metricClientConnections NewPrometheus) [tag i TagIPFamily]]) Hsim). by intros i ->.
  - unfold prom_EventConnectedToDC. handler Hsim. rewrite !deref_assign, assign_assign. by apply step_assign.
  - unfold prom_EventTraffic. handler Hsim. simpl in Hex. rewrite float64_exact by done.
    destruct (isDomainFronted i); by apply step_emit.
  - unfold prom_EventFinish. handler Hsim. finish_handler i Hsim Hp.
  - unfold prom_EventDomainFronting. handler Hsim. rewrite deref_assign. by apply step_assign.
  - by apply step_emit.
  - unfold prom_EventIPBlocklisted. destruct (blocklisted_IsBlockList e); by apply step_emit.
  - by apply step_emit.
  - by apply step_skip.
  - unfold prom_EventIPListSize. simpl in Hex. rewrite float64_exact by done.
    destruct (size_IsBlockList e); by apply step_emit.
  - by apply step_emit.
Qed.

Lemma statsd_step O x m e :
  sim O x m -> exact e ->
  implements_step O x (@dispatch _ (statsdProcessor range now) e x) m (meter_event e m).
Proof.
  intros Hsim Hex. destruct e as [e|e|e|e|e|e|e|e|e|e|e]; simpl.
  - apply (step_start O x m (streamID (start_base e)) (start_RemoteIP e)
             (fun i => [GaugeDelta MetricClientConnections 1 [info_T i TagIPFamily]]) Hsim). by intros i ->.
  - unfold statsd_EventConnectedToDC. handler Hsim. rewrite !deref_assign, assign_assign. by apply step_assign.
  - unfold statsd_EventTraffic. handler Hsim. simpl in Hex. rewrite int64_of_uint_exact by done.
    destruct (isDomainFronted i); by apply step_emit.
  - unfold statsd_EventFinish. handler Hsim. finish_handler i Hsim Hp.
  - unfold statsd_EventDomainFronting. handler Hsim. rewrite deref_assign. by apply step_assign.
  - by apply step_emit.
  - unfold statsd_EventIPBlocklisted. destruct (blocklisted_IsBlockList e); by apply step_emit.
  - by apply step_emit.
  - by apply step_skip.
  - unfold statsd_EventIPListSize. destruct (size_IsBlockList e); by apply step_emit.
  - by apply step_emit.
Qed.

(** ** Proofs: shutdown *)

Definition meter_run (l : list Event) (m : meter) : meter * list metricCall :=
  fold_left (fun r e => let '(m, cs) := meter_event e r.1 in (m, r.2 ++ cs)) l (m, []).

Lemma step_trans O x x1 x2 m r1 r2 :
  implements_step O x x1 m r1 -> implements_step O x1 x2 r1.1 r2 -> implements_step O x x2 m (r2.1, r1.2 ++ r2.2).
Proof.
  intros (H1 & H2 & H3) (K1 & K2 & K3). split_and!; [done|simpl; by rewrite K2, H2, <- app_assoc|].
  intros p Hp. by rewrite K3, H3.
Qed.

Lemma meter_run_cons e l m :
  meter_run (e :: l) m = ((meter_run l (meter_event e m).1).1, (meter_event e m).2 ++ (meter_run l (meter_event e m).1).2).
Proof.
  unfold meter_run. simpl. destruct (meter_event e m) as [m1 c1]. simpl.
  assert (forall l (m : meter) (cs : list metricCall),
    fold_left (fun r e => let '(m, cs) := meter_event e r.1 in (m, r.2 ++ cs)) l (m, cs) =
    let r := fold_left (fun r e => let '(m, cs) := meter_event e r.1 in (m, r.2 ++ cs)) l (m, []) in (r.1, cs ++ r.2)) as H.
  { clear. induction l as [|e l IH]; intros m cs; simpl; [by rewrite app_nil_r|].
    destruct (meter_event e m) as [m1 c1]. rewrite IH, (IH m1 c1). simpl. by rewrite app_assoc. }
  apply (H l m1 c1).
Qed.

Lemma meter_run_app l l' m :
  meter_run (l ++ l') m = ((meter_run l' (meter_run l m).1).1, (meter_run l m).2 ++ (meter_run l' (meter_run l m).1).2).
Proof.
  revert m. induction l as [|e l IH]; intros m; [by destruct (meter_run l' m) eqn:E; rewrite E || (simpl; rewrite E)|].
  rewrite <- app_comm_cons, !meter_run_cons, IH. simpl. by rewrite app_assoc.
Qed.

(** Removing streams from the specification, in the order they are visited. *)
Definition finishes (ks : list string) : list Event := (fun k => EvFinish (NewEventFinish now k)) <$> ks.

Lemma meter_finish_delete k m : (meter_event (EvFinish (NewEventFinish now k)) m).1 = delete k m.
Proof. simpl. unfold on_stream. destruct (m !! k) eqn:E; [done|]. simpl. symmetry. by apply delete_id. Qed.

Lemma meter_run_finishes ks (m : meter) : (meter_run (finishes ks) m).1 = foldl (fun m k => delete k m) m ks.
Proof.
  revert m. induction ks as [|k ks IH]; intros m; [done|].
  unfold finishes. rewrite fmap_cons, meter_run_cons. cbn [fst foldl]. rewrite meter_finish_delete. apply IH.
Qed.

Lemma delete_all ks (m : meter) : (forall k, is_Some (m !! k) -> k ∈ ks) -> foldl (fun m k => delete k m) m ks = ∅.
Proof.
  revert m. induction ks as [|k ks IH]; intros m H; simpl.
  - apply map_empty. intros k. destruct (m !! k) eqn:E; [|done]. exfalso. by apply (not_elem_of_nil k), H; rewrite E.
  - apply IH. intros k' Hk'. destruct (decide (k = k')) as [->|Hne]; [by rewrite lookup_delete_eq in Hk'; inversion Hk'|].
    rewrite lookup_delete_ne in Hk' by done. apply H in Hk' as [->|?]%elem_of_cons; done.
Qed.

Lemma statsd_finishes O ks x m :
  sim O x m ->
  implements_step O x (fold_left (fun x e => statsd_EventFinish e x) ((fun k => NewEventFinish now k) <$> ks) x)
    m (meter_run (finishes ks) m).
Proof.
  revert x m. induction ks as [|k ks IH]; intros x m Hsim; [by apply step_skip|].
  unfold finishes. rewrite !fmap_cons, meter_run_cons. cbn [fold_left].
  pose proof (statsd_step O x m (EvFinish (NewEventFinish now k)) Hsim I) as H1.
  eapply (step_trans O x _ _ m _ _ H1). apply IH, H1.
Qed.

Lemma prom_releases O ks x m :
  sim O x m ->
  implements_step O x (fold_left (fun x k => with_stream k (fun v x =>
      set_streams (delete k (ex_streams x)) (set_store (releaseStreamInfo v (ex_store x)) x)) x) ks x)
    m (foldl (fun m k => delete k m) m ks, []).
Proof.
  revert x m. induction ks as [|k ks IH]; intros x m Hsim; [by apply step_skip|]. simpl.
  assert (implements_step O x (with_stream k (fun v x =>
      set_streams (delete k (ex_streams x)) (set_store (releaseStreamInfo v (ex_store x)) x)) x) m (delete k m, [])) as H1.
  { unfold with_stream. destruct (ex_streams x !! k) as [p|] eqn:Hp.
    - destruct (step_finish O x m k p [] Hsim Hp) as (H1 & H2 & H3). split_and!; [|by rewrite app_nil_r|done].
      destruct H1 as [? ? ? ? ?]. by constructor.
    - rewrite delete_id; [by apply step_skip|]. by rewrite (sim_streams _ _ _ Hsim), Hp. }
  pose proof (step_trans O x _ _ m _ _ H1 (IH _ _ (proj1 H1))) as H. simpl in H. done.
Qed.

Lemma sim_dom O x m : sim O x m -> dom m = dom (ex_streams x).
Proof.
  intros [Hs Hl _ _ _]. apply set_eq. intros id. rewrite !elem_of_dom, Hs.
  destruct (ex_streams x !! id) as [p|] eqn:Hp; simpl; [|done]. destruct (Hl id p Hp) as (? & _). done.
Qed.

(** What [Shutdown] of each exporter means. *)
Definition prom_stop (m : meter) : meter * list metricCall := (∅, []).
Definition statsd_stop (m : meter) : meter * list metricCall := (∅, (meter_run (finishes (range (elements (dom m)))) m).2).

Hypothesis range_perm : forall l, range l ≡ₚ l.

Lemma range_all {A} (m : gmap string A) k : is_Some (m !! k) -> k ∈ range (elements (dom m)).
Proof. intros Hk. rewrite range_perm. by apply elem_of_elements, elem_of_dom. Qed.

Lemma prom_Shutdown_step O x m : sim O x m -> implements_step O x (prom_Shutdown range x) m (prom_stop m).
Proof.
  intros Hsim. unfold prom_Shutdown, prom_stop. rewrite <- (delete_all (range (elements (dom m))) m) by apply range_all.
  rewrite <- (sim_dom _ _ _ Hsim). by apply prom_releases.
Qed.

Lemma statsd_Shutdown_step O x m : sim O x m -> implements_step O x (statsd_Shutdown range now x) m (statsd_stop m).
Proof.
  intros Hsim. unfold statsd_Shutdown, statsd_stop. rewrite <- (sim_dom _ _ _ Hsim).
  pose proof (statsd_finishes O (range (elements (dom m))) x m Hsim) as H.
  destruct (meter_run (finishes _) m) as [m' cs] eqn:E. cbn [snd]. replace ∅ with m'; [done|].
  change m' with (m', cs).1. rewrite <- E, meter_run_finishes. by apply delete_all, range_all.
Qed.
End exporters.

(** ** All processors of a process *)

Inductive kind := KPrometheus | KStatsd.

Record process := mkProcess {
  pr_store : store;
  pr_procs : list (kind * gmap string nat);
  pr_calls : list (nat * metricCall)
}.

(** A processor handles an event, or is shut down. *)
Inductive pr_act :=
  | PEvent (k pick : nat) (e : Event)
  | PShutdown (k : nat).

Section process.
Variable range : list string -> list string.
Variable now : Z.

Definition ops (kd : kind) : Observer exporter :=
  match kd with KPrometheus => promProcessor NewPrometheus range | KStatsd => statsdProcessor range now end.

Definition on_processor (k pick : nat) (f : kind -> exporter -> exporter) (w : process) : option process :=
  '(kd, streams) ← pr_procs w !! k;
  let x := f kd (mkExporter streams (pr_store w) [] pick) in
  Some (mkProcess (ex_store x) (<[k := (kd, ex_streams x)]> (pr_procs w)) (pr_calls w ++ (pair k <$> ex_calls x))).

Definition pr_do (a : pr_act) (w : process) : option process :=
  match a with
  | PEvent k pick e => on_processor k pick (fun kd => @dispatch _ (ops kd) e) w
  | PShutdown k => on_processor k 0 (fun kd => @ob_Shutdown _ (ops kd)) w
  end.

Fixpoint pr_run (l : list pr_act) (w : process) : option process :=
  match l with [] => Some w | a :: l => w' ← pr_do a w; pr_run l w' end.

(** Processors as [Make] of their factories makes them. *)
Definition pr_initial (kinds : list kind) : process := mkProcess (mkStore ∅ [] 0) ((fun kd => (kd, ∅)) <$> kinds) [].

(** The specification: independent meters. *)
Definition sp_do (a : pr_act) (w : list (kind * meter) * list (nat * metricCall)) : option (list (kind * meter) * list (nat * metricCall)) :=
  let upd k (f : kind -> meter -> meter * list metricCall) :=
    '(kd, m) ← w.1 !! k;
    let '(m', cs) := f kd m in
    Some (<[k := (kd, m')]> w.1, w.2 ++ (pair k <$> cs)) in
  match a with
  | PEvent k _ e => upd k (fun _ => meter_event e)
  | PShutdown k => upd k (fun kd => match kd with KPrometheus => prom_stop | KStatsd => statsd_stop range now end)
  end.

Fixpoint sp_run (l : list pr_act) w :=
  match l with [] => Some w | a :: l => w' ← sp_do a w; sp_run l w' end.

Definition sp_initial (kinds : list kind) : list (kind * meter) * list (nat * metricCall) :=
  ((fun kd => (kd, ∅)) <$> kinds, []).

Definition act_exact (a : pr_act) : Prop := match a with PEvent _ _ e => exact e | PShutdown _ => True end.

(** The pointers of the processors other than [k]. *)
Definition others (k : nat) (procs : list (kind * gmap string nat)) (p : nat) : Prop :=
  exists k' kd s id, k' <> k /\ procs !! k' = Some (kd, s) /\ s !! id = Some p.

Definition view (w : process) (s : gmap string nat) : exporter := mkExporter s (pr_store w) [] 0.

(** Every processor represents its meter. *)
Definition represents (w : process) (sp : list (kind * meter) * list (nat * metricCall)) : Prop :=
  pr_calls w = sp.2 /\ (pr_procs w).*1 = sp.1.*1 /\
  forall k kd s kd' m, pr_procs w !! k = Some (kd, s) -> sp.1 !! k = Some (kd', m) -> sim (others k (pr_procs w)) (view w s) m.

Lemma represents_initial kinds : represents (pr_initial kinds) (sp_initial kinds).
Proof.
  unfold represents, pr_initial, sp_initial. simpl. split_and!; [done|by rewrite <- !list_fmap_compose|].
  intros k kd s kd' m Hs Hm.
  apply list_lookup_fmap_Some in Hs as (? & [= -> ->] & _). apply list_lookup_fmap_Some in Hm as (? & [= -> ->] & _).
  constructor; simpl; try done; [split; [constructor|by intros ? ?%not_elem_of_nil]|].
  intros p (k' & kd & s & id & _ & Hk & Hp). by apply list_lookup_fmap_Some in Hk as (? & [= -> ->] & _).
Qed.

(** Another processor keeps its meter while [k] makes a step. *)
Lemma sim_other (w : process) k kd s s' x' m' j kdj sj mj :
  pr_procs w !! k = Some (kd, s) -> s' = ex_streams x' -> sim (others k (pr_procs w)) x' m' ->
  (forall p, others k (pr_procs w) p -> heap (ex_store x') !! p = heap (pr_store w) !! p) ->
  j <> k -> pr_procs w !! j = Some (kdj, sj) -> sim (others j (pr_procs w)) (view w sj) mj ->
  sim (others j (<[k := (kd, s')]> (pr_procs w))) (mkExporter sj (ex_store x') [] 0) mj.
Proof.
  intros Hk -> [Hs Hl Hi [Hnd Hp] Ho] Hfr Hj Hsj [Ks Kl Ki _ _]. simpl in *.
  assert (forall id p, sj !! id = Some p -> others k (pr_procs w) p) as Hown by (intros id p Hid; by exists j, kdj, sj, id).
  assert (forall p, others j (<[k := (kd, ex_streams x')]> (pr_procs w)) p ->
    (exists id, ex_streams x' !! id = Some p) \/ (others k (pr_procs w) p /\ others j (pr_procs w) p)) as Hoth.
  { intros p (k' & kd' & s' & id & Hne & [(<- & [= <- <-] & _)|[Hne' Hk']]%list_lookup_insert_Some & Hid); [left; eauto|].
    right. split; exists k', kd', s', id; done. }
  constructor; simpl.
  - intros id. rewrite Ks. destruct (sj !! id) as [p|] eqn:Hid; [|done]. simpl. symmetry. apply Hfr. by eapply Hown.
  - intros id p Hid. pose proof (Hown id p Hid) as HO. destruct (Kl id p Hid) as (Hsome & _ & HnO & _).
    split_and!; [by rewrite Hfr| |intros [[id' Hid']|[_ Hj']]%Hoth|by apply Ho].
    + intros Hin%Hp. by destruct Hin as (_ & ? & _).
    + by destruct (Hl id' p Hid') as (_ & _ & ? & _).
    + done.
  - done.
  - split; [done|]. intros p Hin. destruct (Hp p Hin) as (Hh & HnO & Hb). split_and!; [done| |done].
    intros [[id' Hid']|[Hk' _]]%Hoth; [|done]. by destruct (Hl id' p Hid') as (_ & ? & _).
  - intros p [[id' Hid']|[Hk' _]]%Hoth; [by apply (Hl id' p)|by apply Ho].
Qed.

Lemma others_insert k v procs p : others k (<[k := v]> procs) p <-> others k procs p.
Proof.
  split; intros (k' & kd & s & id & Hne & Hk & Hid); exists k', kd, s, id; split_and!; try done;
    by rewrite list_lookup_insert_ne in *.
Qed.

Lemma sim_ext O O' x m : (forall p, O p <-> O' p) -> sim O x m -> sim O' x m.
Proof.
  intros HO [Hs Hl Hi [Hnd Hp] Ho]. constructor; [done| |done| |].
  - intros id p Hid. rewrite <- HO. by eapply Hl.
  - split; [done|]. intros p Hin. rewrite <- HO. by apply Hp.
  - intros p Hp'. by apply Ho, HO.
Qed.

(** A step of one processor against a step of its meter. *)
Lemma represents_step w sp k pick kd s m f g :
  represents w sp -> pr_procs w !! k = Some (kd, s) -> sp.1 !! k = Some (kd, m) ->
  (forall x, sim (others k (pr_procs w)) x m -> implements_step (others k (pr_procs w)) x (f kd x) m (g kd m)) ->
  exists w', on_processor k pick f w = Some w' /\
    represents w' (<[k := (kd, (g kd m).1)]> sp.1, sp.2 ++ (pair k <$> (g kd m).2)).
Proof.
  intros (Hc & Hkd & Hall) Hk Hm Hf. unfold on_processor. rewrite Hk. cbn [mbind option_bind].
  set (x := mkExporter s (pr_store w) [] pick).
  assert (sim (others k (pr_procs w)) x m) as Hx.
  { destruct (Hall k kd s kd m Hk Hm) as [? ? ? ? ?]. by constructor. }
  destruct (Hf x Hx) as (H1 & H2 & H3). eexists. split; [done|]. simpl in H2. split_and!; simpl.
  - by rewrite Hc, H2.
  - by rewrite !list_fmap_insert, Hkd.
  - intros j kdj sj kdj' mj Hj Hmj.
    apply list_lookup_insert_Some in Hj as [(<- & [= <- <-] & _)|[Hne Hj]].
    + rewrite list_lookup_insert_eq in Hmj by (by eapply lookup_lt_Some). injection Hmj as <- <-.
      eapply sim_ext; [intros p; symmetry; apply others_insert|]. destruct H1 as [? ? ? ? ?]. by constructor.
    + rewrite list_lookup_insert_ne in Hmj by done.
      eapply (sim_other w k kd s _ (f kd x)); try done. by eapply Hall.
Qed.

Hypothesis range_perm : forall l, range l ≡ₚ l.

Lemma represents_do w sp a w' :
  represents w sp -> act_exact a -> pr_do a w = Some w' -> exists sp', sp_do a sp = Some sp' /\ represents w' sp'.
Proof.
  intros Hr Hex Hdo. destruct Hr as (Hc & Hkd & Hall) eqn:E. clear E.
  assert (forall k kd s, pr_procs w !! k = Some (kd, s) -> exists m, sp.1 !! k = Some (kd, m)) as Hsp.
  { intros k kd s Hk. assert (sp.1.*1 !! k = Some kd) as H by (by rewrite <- Hkd, list_lookup_fmap, Hk).
    rewrite list_lookup_fmap in H. destruct (sp.1 !! k) as [[kd' m]|]; simplify_eq/=. by exists m. }
  destruct a as [k pick e|k]; simpl in *; unfold on_processor in Hdo;
    destruct (pr_procs w !! k) as [[kd s]|] eqn:Hk; simplify_eq/=; destruct (Hsp k kd s Hk) as [m Hm]; rewrite Hm; simpl.
  - destruct (represents_step w sp k pick kd s m (fun kd => @dispatch _ (ops kd) e) (fun _ => meter_event e) Hr Hk Hm)
      as (w1 & Hw1 & Hr1); [intros x Hx; destruct kd; [by apply prom_step|by apply statsd_step]|].
    destruct (meter_event e m) as [m' cs]. unfold on_processor in Hw1. rewrite Hk in Hw1. simplify_eq/=. eauto.
  - destruct (represents_step w sp k 0 kd s m (fun kd => @ob_Shutdown _ (ops kd))
      (fun kd => match kd with KPrometheus => prom_stop | KStatsd => statsd_stop range now end) Hr Hk Hm)
      as (w1 & Hw1 & Hr1); [intros x Hx; destruct kd; [by apply prom_Shutdown_step|by apply statsd_Shutdown_step]|].
    unfold on_processor in Hw1. rewrite Hk in Hw1. destruct kd; simplify_eq/=; eauto.
Qed.

Lemma represents_run l w sp w' :
  represents w sp -> Forall act_exact l -> pr_run l w = Some w' -> exists sp', sp_run l sp = Some sp' /\ represents w' sp'.
Proof.
  revert w sp. induction l as [|a l IH]; intros w sp Hr Hex Hrun; simplify_eq/=; [eauto|].
  apply Forall_cons in Hex as [Ha Hex]. destruct (pr_do a w) as [w1|] eqn:Hdo; simplify_eq/=.
  destruct (represents_do w sp a w1 Hr Ha Hdo) as (sp1 & -> & Hr1). simpl. by eapply IH.
Qed.
End process.

(** ** Gauges *)

(** The value of a gauge that starts at zero after the calls on it. *)
Definition delta (name : string) (l : labels) (c : metricCall) : Z :=
  match c with
  | CGaugeDelta n l' d => if bool_decide (n = name) && bool_decide (l' = l) then d else 0
  | _ => 0
  end.

Definition gauge (name : string) (l : labels) (cs : list metricCall) : Z := foldr (fun c z => delta name l c + z) 0 cs.

Definition tally (P : streamInfo -> bool) (m : meter) : Z := map_fold (fun _ i z => Z.b2z (P i) + z) 0 m.

(** The streams that a client gauge, a fronting gauge and a Telegram gauge are
    about. *)
Definition from_family (f : string) (i : streamInfo) : bool := bool_decide (tag i TagIPFamily = f).
Definition fronted_from (f : string) (i : streamInfo) : bool := isDomainFronted i && bool_decide (tag i TagIPFamily = f).
Definition connected_to (ip dc : string) (i : streamInfo) : bool :=
  negb (isDomainFronted i) && bool_decide (is_Some (tags i !! TagTelegramIP)) &&
  bool_decide (tag i TagTelegramIP = ip) && bool_decide (tag i TagDC = dc).

(** Neither connected to Telegram nor to the fronting domain yet. *)
Definition unrouted (i : streamInfo) : Prop := isDomainFronted i = false /\ tags i !! TagTelegramIP = None.

(** The events of one stream come in order: it starts when it is not live, and
    is routed at most once. *)
Definition in_order (m : meter) (e : Event) : Prop :=
  match e with
  | EvStart e => m !! streamID (start_base e) = None
  | EvConnectedToDC e => forall i, m !! streamID (dc_base e) = Some i -> unrouted i
  | EvDomainFronting e => forall i, m !! streamID (fronting_base e) = Some i -> unrouted i
  | _ => True
  end.

Fixpoint all_in_order (m : meter) (l : list Event) : Prop :=
  match l with [] => True | e :: l => in_order m e /\ all_in_order (meter_event e m).1 l end.

(** What the gauges should show for the live streams [m]. *)
Record gauges_show (m : meter) (cs : list metricCall) : Prop := mkShow {
  show_client : forall f, gauge MetricClientConnections [(TagIPFamily, f)] cs = tally (from_family f) m;
  show_fronting : forall f, gauge MetricDomainFrontingConnections [(TagIPFamily, f)] cs = tally (fronted_from f) m;
  show_telegram : forall ip dc,
    gauge MetricTelegramConnections [(TagTelegramIP, ip); (TagDC, dc)] cs = tally (connected_to ip dc) m
}.

Lemma gauge_app name l cs cs' : gauge name l (cs ++ cs') = gauge name l cs + gauge name l cs'.
Proof. induction cs as [|c cs IH]; [done|]. simpl. unfold gauge in *. simpl. lia. Qed.

Lemma tally_insert_new P m id i : m !! id = None -> tally P (<[id := i]> m) = Z.b2z (P i) + tally P m.
Proof. intros H. apply (map_fold_insert_L (fun _ i z => Z.b2z (P i) + z)); [lia|done]. Qed.

Lemma tally_delete P m id i : m !! id = Some i -> tally P (delete id m) = tally P m - Z.b2z (P i).
Proof.
  intros H. rewrite <- (insert_delete_id m id i H) at 2. rewrite tally_insert_new by apply lookup_delete_eq. lia.
Qed.

Lemma tally_insert P m id i j : m !! id = Some i -> tally P (<[id := j]> m) = tally P m - Z.b2z (P i) + Z.b2z (P j).
Proof.
  intros H. rewrite <- insert_delete_eq, tally_insert_new by apply lookup_delete_eq. rewrite (tally_delete P m id i H). lia.
Qed.

(** The gauges of a change of one stream, from absent or [i] to absent or [j]. *)
Definition shift (P : streamInfo -> bool) (i j : option streamInfo) : Z :=
  from_option (fun j => Z.b2z (P j)) 0 j - from_option (fun i => Z.b2z (P i)) 0 i.

Record shifts (i j : option streamInfo) (cs : list metricCall) : Prop := mkShifts {
  shift_client : forall f, gauge MetricClientConnections [(TagIPFamily, f)] cs = shift (from_family f) i j;
  shift_fronting : forall f, gauge MetricDomainFrontingConnections [(TagIPFamily, f)] cs = shift (fronted_from f) i j;
  shift_telegram : forall ip dc,
    gauge MetricTelegramConnections [(TagTelegramIP, ip); (TagDC, dc)] cs = shift (connected_to ip dc) i j
}.

Lemma shifts_partial_alter m id i j cs es :
  m !! id = i -> shifts i j es -> gauges_show m cs -> gauges_show (partial_alter (fun _ => j) id m) (cs ++ es).
Proof.
  intros Hi [Sc Sf St] [Hc Hf Ht].
  assert (forall P, tally P (partial_alter (fun _ => j) id m) = tally P m + shift P i j) as Htally.
  { intros P. unfold shift. destruct j as [j|], i as [i|]; simpl.
    - change (partial_alter _ _ _) with (<[id := j]> m). rewrite (tally_insert P m id i j Hi). lia.
    - change (partial_alter _ _ _) with (<[id := j]> m). rewrite tally_insert_new by done. lia.
    - change (partial_alter _ _ _) with (delete id m). rewrite (tally_delete P m id i Hi). lia.
    - change (partial_alter _ _ _) with (delete id m). rewrite delete_id by done. lia. }
  constructor; intros; rewrite gauge_app, Htally; f_equal; auto.
Qed.

(** Calls on other metrics. *)
Lemma shifts_none m cs es : (forall name l, gauge name l es = 0) -> gauges_show m cs -> gauges_show m (cs ++ es).
Proof. intros H [Hc Hf Ht]. constructor; intros; rewrite gauge_app, H, Z.add_0_r; auto. Qed.

Lemma pair_eq_decide (k a b : string) : bool_decide ([(k, a)] = [(k, b)]) = bool_decide (a = b).
Proof. apply bool_decide_ext. split; congruence. Qed.

Lemma pair2_eq_decide (k k' a b c d : string) :
  bool_decide ([(k, a); (k', c)] = [(k, b); (k', d)]) = bool_decide (a = b) && bool_decide (c = d).
Proof. rewrite <- bool_decide_and. apply bool_decide_ext. naive_solver. Qed.

Ltac gauge_simpl :=
  unfold gauge, shift, from_family, fronted_from, connected_to, info_T, unrouted in *; simpl;
  rewrite ?pair_eq_decide, ?pair2_eq_decide.

Lemma shifts_start ip :
  let i := set_tag TagIPFamily (family ip) newInfo in
  shifts None (Some i) [CGaugeDelta MetricClientConnections [info_T i TagIPFamily] 1].
Proof. intros i. constructor; intros; gauge_simpl; repeat case_bool_decide; try done.
  match goal with H : is_Some _ |- _ => by apply is_Some_None in H end.
Qed.

Lemma shifts_finish i : shifts (Some i) None (finish_calls i).
Proof.
  unfold finish_calls. constructor; intros; destruct (isDomainFronted i) eqn:Hf; gauge_simpl; rewrite ?Hf; simpl;
    try (destruct (tags i !! TagTelegramIP) eqn:Ht; simpl; rewrite ?pair_eq_decide, ?pair2_eq_decide);
    by repeat case_bool_decide.
Qed.

Lemma shifts_connect i ip dc :
  unrouted i ->
  let j := set_tag TagDC dc (set_tag TagTelegramIP ip i) in
  shifts (Some i) (Some j) [CGaugeDelta MetricTelegramConnections [info_T j TagTelegramIP; info_T j TagDC] 1].
Proof.
  intros [Hf Ht] j. constructor; intros; gauge_simpl; rewrite ?Hf, ?Ht; simpl.
  - assert (tag j TagIPFamily = tag i TagIPFamily) as ->; [|lia].
    unfold tag. simpl. by rewrite !lookup_insert_ne.
  - done.
  - rewrite (bool_decide_true (is_Some (_ !! _))); [by repeat case_bool_decide|].
    by rewrite lookup_insert_ne, lookup_insert_eq.
Qed.

Lemma shifts_front i :
  unrouted i ->
  let j := mkInfo true (tags i) in
  shifts (Some i) (Some j) [CCounter MetricDomainFronting [] 1; CGaugeDelta MetricDomainFrontingConnections [info_T j TagIPFamily] 1].
Proof.
  intros [Hf Ht] j. constructor; intros; gauge_simpl; rewrite ?Hf, ?Ht; simpl; unfold tag; simpl; try lia.
  by repeat case_bool_decide.
Qed.

(** One event changes the gauges by what it changes in the tallies. *)
Lemma meter_gauges e m cs :
  in_order m e -> gauges_show m cs -> gauges_show (meter_event e m).1 (cs ++ (meter_event e m).2).
Proof.
  intros Hord Hshow. destruct e as [e|e|e|e|e|e|e|e|e|e|e]; simpl in *; try (by apply shifts_none);
    try (unfold on_stream; match goal with |- context [m !! ?id] => destruct (m !! id) as [i|] eqn:Hi end;
         [simpl|by apply shifts_none]).
  - by apply (shifts_partial_alter m _ None (Some _)); [|apply shifts_start|].
  - by apply (shifts_partial_alter m _ (Some i) (Some _)); [|apply shifts_connect, Hord|].
  - apply shifts_none; [|done]. intros. by destruct (isDomainFronted i).
  - by apply (shifts_partial_alter m _ (Some i) None); [|apply shifts_finish|].
  - by apply (shifts_partial_alter m _ (Some i) (Some _)); [|apply shifts_front, Hord|].
Qed.

Lemma meter_run_gauges l m cs :
  all_in_order m l -> gauges_show m cs -> gauges_show (meter_run l m).1 (cs ++ (meter_run l m).2).
Proof.
  revert m cs. induction l as [|e l IH]; intros m cs Ho Hs; [by rewrite app_nil_r|]. destruct Ho as [Ho1 Ho2].
  rewrite meter_run_cons. cbn [fst snd]. rewrite app_assoc. apply IH; [done|]. by apply meter_gauges.
Qed.

Lemma gauges_show_empty : gauges_show ∅ [].
Proof. done. Qed.

(** ** One processor's part of a run *)

Definition event_for (k : nat) (a : pr_act) : list Event :=
  match a with PEvent k' _ e => if decide (k' = k) then [e] else [] | PShutdown _ => [] end.

Definition events_for (k : nat) (l : list pr_act) : list Event := l ≫= event_for k.

Definition calls_of (k : nat) (cs : list (nat * metricCall)) : list metricCall :=
  snd <$> filter (fun x : nat * metricCall => x.1 = k) cs.

Definition never_stopped (k : nat) (l : list pr_act) : Prop := Forall (fun a => a <> PShutdown k) l.

Lemma calls_of_app k cs cs' : calls_of k (cs ++ cs') = calls_of k cs ++ calls_of k cs'.
Proof. unfold calls_of. by rewrite filter_app, fmap_app. Qed.

Lemma calls_of_pair k k' cs : calls_of k (pair k' <$> cs) = if decide (k' = k) then cs else [].
Proof.
  unfold calls_of. induction cs as [|c cs IH]; [by case_decide|]. rewrite fmap_cons, filter_cons. simpl.
  destruct (decide (k' = k)) as [->|]; [by rewrite fmap_cons, IH|done].
Qed.

Lemma sp_run_processor range now k kd l sp sp' m :
  sp_run range now l sp = Some sp' -> sp.1 !! k = Some (kd, m) -> never_stopped k l ->
  sp'.1 !! k = Some (kd, (meter_run (events_for k l) m).1) /\
  calls_of k sp'.2 = calls_of k sp.2 ++ (meter_run (events_for k l) m).2.
Proof.
  revert sp m. induction l as [|a l IH]; intros sp m Hrun Hk Hns.
  { simplify_eq/=. by rewrite app_nil_r. }
  simpl in Hrun. destruct (sp_do range now a sp) as [sp1|] eqn:Hdo; simplify_eq/=.
  apply Forall_cons in Hns as [Hna Hns].
  change (events_for k (a :: l)) with (event_for k a ++ events_for k l).
  destruct a as [k' pick e|k']; simpl in Hdo; destruct (sp.1 !! k') as [[kd' m']|] eqn:Hk'; simplify_eq/=.
  - destruct (meter_event e m') as [m1 cs] eqn:He. simplify_eq/=. case_decide as Hd; simplify_eq/=.
    + rewrite meter_run_cons, He. cbn [fst snd].
      destruct (IH _ m1 Hrun) as [-> H2]; [simpl; apply list_lookup_insert_eq; by eapply lookup_lt_Some|done|].
      split; [done|]. rewrite H2. simpl. rewrite calls_of_app, calls_of_pair, decide_True by done. by rewrite app_assoc.
    + destruct (IH _ m Hrun) as [-> H2]; [simpl; by rewrite list_lookup_insert_ne|done|].
      split; [done|]. rewrite H2. simpl. rewrite calls_of_app, calls_of_pair, decide_False by done. by rewrite app_nil_r.
  - assert (k' <> k) by congruence.
    destruct (match kd' with KPrometheus => prom_stop | KStatsd => _ end m') as [m1 cs]. simplify_eq/=.
    destruct (IH _ m Hrun) as [-> H2]; [simpl; by rewrite list_lookup_insert_ne|done|].
    split; [done|]. rewrite H2. simpl. rewrite calls_of_app, calls_of_pair, decide_False by done. by rewrite app_nil_r.
Qed.

(** ** Claims *)

(** C27: the exporters of one process refine independent meters.  However the
    processors' events interleave and whatever objects the shared pool hands
    out, the calls on the client libraries are those of the specification, in
    the same order, where every stream has an object of its own; each
    processor's streams are the live ones of its meter. *)
Theorem exporters_refine range now kinds l w :
  (forall l, range l ≡ₚ l) -> Forall act_exact l -> pr_run range now l (pr_initial kinds) = Some w ->
  exists sp, sp_run range now l (sp_initial kinds) = Some sp /\ pr_calls w = sp.2 /\
    forall k kd s m, pr_procs w !! k = Some (kd, s) -> sp.1 !! k = Some (kd, m) ->
      forall id, m !! id = p ← s !! id; heap (pr_store w) !! p.
Proof.
  intros Hr Hex Hrun. destruct (represents_run range now Hr l _ _ w (represents_initial kinds) Hex Hrun)
    as (sp & Hsp & Hc & _ & Hall).
  exists sp. split_and!; [done|done|]. intros k kd s m Hk Hm id. apply (sim_streams _ _ _ (Hall k kd s kd m Hk Hm)).
Qed.

(** Prometheus and statsd agree: given the same events, with numbers up to
    2^53, the two processors make the same updates of the same metrics with the
    same labels, whatever else their process did. *)
Theorem exporters_agree range now kinds l w k k' kd kd' :
  (forall l, range l ≡ₚ l) -> Forall act_exact l -> pr_run range now l (pr_initial kinds) = Some w ->
  kinds !! k = Some kd -> kinds !! k' = Some kd' -> never_stopped k l -> never_stopped k' l ->
  events_for k l = events_for k' l -> calls_of k (pr_calls w) = calls_of k' (pr_calls w).
Proof.
  intros Hr Hex Hrun Hk Hk' Hn Hn' He.
  destruct (represents_run range now Hr l _ _ w (represents_initial kinds) Hex Hrun) as (sp & Hsp & Hc & _).
  assert (forall j kj, kinds !! j = Some kj -> (sp_initial kinds).1 !! j = Some (kj, ∅)) as Hini.
  { intros j kj Hj. simpl. by rewrite list_lookup_fmap, Hj. }
  destruct (sp_run_processor range now k kd l _ sp ∅ Hsp (Hini k kd Hk) Hn) as [_ H1].
  destruct (sp_run_processor range now k' kd' l _ sp ∅ Hsp (Hini k' kd' Hk') Hn') as [_ H2].
  by rewrite Hc, H1, H2, He.
Qed.

(** ** Witnesses *)

Definition demo_events : list Event :=
  [EvStart (NewEventStart 1 "a" [Byte.x01; Byte.x02; Byte.x03; Byte.x04]); EvStart (NewEventStart 2 "b" []);
   EvConnectedToDC (NewEventConnectedToDC 3 "a" [Byte.x05; Byte.x06; Byte.x07; Byte.x08] 2);
   EvTraffic (NewEventTraffic 4 "a" 100 true); EvFinish (NewEventFinish 5 "a"); EvDomainFronting (NewEventDomainFronting 6 "b")].

(** Two processors handle every event; the object of stream "a" of the first one
    is reused. *)
Definition demo_run : list pr_act :=
  (demo_events ≫= fun e => [PEvent 0 0 e; PEvent 1 0 e]) ++ [PEvent 0 0 (EvStart (NewEventStart 7 "c" []))].

Lemma demo_exact : Forall act_exact demo_run.
Proof. repeat constructor; vm_compute; done. Qed.

Definition demo_process : process :=
  default (pr_initial []) (pr_run (fun l => l) 0 demo_run (pr_initial [KPrometheus; KStatsd])).

Lemma exporters_refine_witness :
  exists sp, sp_run (fun l => l) 0 demo_run (sp_initial [KPrometheus; KStatsd]) = Some sp /\
    pr_calls demo_process = sp.2 /\ gauge MetricClientConnections [(TagIPFamily, TagIPFamilyIPv6)] (calls_of 0 sp.2) = 2.
Proof.
  destruct (exporters_refine (fun l => l) 0 [KPrometheus; KStatsd] demo_run demo_process
              (fun l => reflexivity l) demo_exact ltac:(vm_compute; reflexivity)) as (sp & H1 & H2 & _).
  exists sp. split_and!; [done|done|]. rewrite <- H2. vm_compute. reflexivity.
Defined.

Lemma exporters_agree_witness :
  let w := pr_run (fun l => l) 0 (take 12 demo_run) (pr_initial [KPrometheus; KStatsd]) in
  calls_of 0 (default [] (pr_calls <$> w)) = calls_of 1 (default [] (pr_calls <$> w)).
Proof.
  intros w. destruct w as [w'|] eqn:Hw; [|done]. simpl.
  refine (exporters_agree (fun l => l) 0 [KPrometheus; KStatsd] (take 12 demo_run) w' 0 1 KPrometheus KStatsd
    (fun l => reflexivity l) _ Hw eq_refl eq_refl _ _ _).
  - apply Forall_take, demo_exact.
  - repeat constructor; done.
  - repeat constructor; done.
  - vm_compute. reflexivity.
Defined.
