(* ===== verification/Metering.v ===== *)
(** * Metering: the connections that are served and the gauges that are shown

    [ServeConn] reports each stream's life as events, [Events] delivers them to
    observers, [Metrics] turns them into gauges.  Here the three are composed:
    in every interleaving of connections, when the events of a processor's
    streams have been delivered, its gauges show exactly the connections that
    are being served.  The last part shows what a cancelled context does to
    this: the event that ends a stream closed by a reload may be dropped, and
    the gauge keeps counting a stream that is gone. *)

From S2P Require Import Prelude GoStrings GoNet Secret GoTime Limits Stats SecretSet Proxy Pending DC ServeConn Events Metrics.

(** ** Routing happens at most once *)

Definition is_route (e : ServeConn.event) : bool :=
  match e with ServeConn.EventDomainFronting | ServeConn.EventConnectedToDC _ => true | _ => false end.

Definition routes (l : list ServeConn.event) : nat := length (filter is_route l).

(** The program points after a stream may have been routed. *)
Definition past_route (c : conn) : bool := bool_decide (c_pc c ∈ [PRelay; PFront; PReturn; PDone]).

Lemma routes_app l l' : routes (l ++ l') = (routes l + routes l')%nat.
Proof. unfold routes. by rewrite filter_app, length_app. Qed.

Definition route_ok (c : conn) (l : list ServeConn.event) : Prop :=
  if past_route c then (routes l <= 1)%nat else routes l = 0%nat.

Lemma advance_routes cfg i id c p pd o l :
  advance cfg i id c p pd = Some o -> route_ok c l -> route_ok (o_conn o) (l ++ o_events o).
Proof.
  intros H. unfold route_ok. rewrite routes_app. adv_cases H; simpl in *;
    unfold past_route; simpl; rewrite ?Hpc; simpl; unfold routes; simpl; try lia;
    try (case_bool_decide; simpl; lia); try (destruct (cr_event _); simpl; lia).
  match goal with H : runDeferred _ ?d _ _ = _ |- _ => destruct d; simpl in H; injection H as <- <- <- end; simpl; lia.
Qed.

Definition routes_ok (w : world) : Prop :=
  forall id c, w_conns w !! id = Some c -> route_ok c (events_of id (w_events w)).

Lemma routes_ok_step cfg w w' :
  wstep cfg w w' -> (forall id, w_conns w !! id = None -> events_of id (w_events w) = []) -> routes_ok w -> routes_ok w'.
Proof.
  intros [a Ha] Hnone Hok id c Hc. destruct a as [id' ip|id' i|now m| |now|now name]; simpl in Ha.
  - destruct (w_conns w !! id') eqn:Hn; simplify_eq/=.
    apply lookup_insert_Some in Hc as [[<- <-]|[_ Hc]]; [|by apply Hok]. by rewrite Hnone.
  - destruct (w_conns w !! id') as [c'|] eqn:Hn; simplify_eq/=.
    destruct (advance cfg i id' c' (w_proxy w) (w_pending w)) as [o|] eqn:Ho; simplify_eq/=. rewrite events_of_app.
    apply lookup_insert_Some in Hc as [[<- <-]|[Hne Hc]].
    + rewrite decide_True by done. eapply advance_routes; [done|]. by apply Hok.
    + rewrite decide_False, app_nil_r by done. by apply Hok.
  - destruct (exec _ _ _ _) as [[p r]|]; simplify_eq/=. by apply Hok.
  - destruct (recomputeCaps _); simplify_eq/=. by apply Hok.
  - simplify_eq/=. by apply Hok.
  - simplify_eq/=. by apply Hok.
Qed.

Lemma reach_routes cfg w : reach cfg w -> routes_ok w.
Proof.
  intros (w0 & Hi & Hr). assert (world_ok cfg w0 /\ routes_ok w0) as H.
  { split; [by apply initial_ok|]. destruct Hi as (_ & _ & _ & _ & Hm & _). intros id c. by rewrite Hm, lookup_empty. }
  clear Hi. induction Hr as [w|w w1 w2 Hs Hr IH]; [apply H|]. apply IH. destruct H as [Hok Hro].
  split; [by eapply world_ok_step|]. eapply routes_ok_step; [done| |done].
  intros id Hn. pose proof (ok_events _ _ Hok id) as He. by rewrite Hn in He.
Qed.

(** ** One stream in a meter *)

(** What an event of a stream does to its information. *)
Definition stream_event (e : Event) (o : option streamInfo) : option streamInfo :=
  match e with
  | EvStart e => Some (set_tag TagIPFamily (family (start_RemoteIP e)) newInfo)
  | EvConnectedToDC e => (fun i => set_tag TagDC (Itoa (dc_DC e)) (set_tag TagTelegramIP (IP_String (dc_RemoteIP e)) i)) <$> o
  | EvDomainFronting _ => (fun i => mkInfo true (tags i)) <$> o
  | EvFinish _ => None
  | _ => o
  end.

Definition stream_run (l : list Event) (o : option streamInfo) : option streamInfo :=
  fold_left (fun o e => stream_event e o) l o.

(** An event in its place: a start when there is no stream, a route when it is
    not routed. *)
Definition stream_in_order (e : Event) (o : option streamInfo) : Prop :=
  match e with
  | EvStart _ => o = None
  | EvConnectedToDC _ | EvDomainFronting _ => forall i, o = Some i -> unrouted i
  | _ => True
  end.

Fixpoint stream_all_in_order (l : list Event) (o : option streamInfo) : Prop :=
  match l with [] => True | e :: l => stream_in_order e o /\ stream_all_in_order l (stream_event e o) end.

Lemma meter_event_lookup e m k : (meter_event e m).1 !! k = if decide (StreamID e = k) then stream_event e (m !! k) else m !! k.
Proof.
  destruct e as [e|e|e|e|e|e|e|e|e|e|e]; unfold StreamID; simpl; try (by case_decide);
    try (unfold on_stream; match goal with |- context [m !! streamID ?b] => destruct (m !! streamID b) as [i|] eqn:Hi end; simpl);
    case_decide as Hk; subst; rewrite ?lookup_insert_eq, ?lookup_delete_eq, ?Hi; try done;
    by rewrite ?lookup_insert_ne, ?lookup_delete_ne.
Qed.

Definition of_stream (k : string) (l : list Event) : list Event := filter (fun e => StreamID e = k) l.

Lemma meter_run_lookup l m k : (meter_run l m).1 !! k = stream_run (of_stream k l) (m !! k).
Proof.
  revert m. induction l as [|e l IH]; intros m; [done|]. rewrite meter_run_cons. cbn [fst]. rewrite IH, meter_event_lookup.
  unfold of_stream. rewrite filter_cons. by destruct (decide (StreamID e = k)).
Qed.

Lemma all_in_order_streams l m :
  (forall k, stream_all_in_order (of_stream k l) (m !! k)) -> all_in_order m l.
Proof.
  revert m. induction l as [|e l IH]; intros m H; [done|]. split.
  - specialize (H (StreamID e)). unfold of_stream in H. rewrite filter_cons, decide_True in H by done.
    destruct H as [H _]. destruct e; try done; simpl in *; eauto.
  - apply IH. intros k. specialize (H k). rewrite meter_event_lookup. unfold of_stream in H. rewrite filter_cons in H.
    by destruct (decide (StreamID e = k)); [destruct H|].
Qed.

Definition is_traffic (e : Event) : bool := match e with EvTraffic _ => true | _ => false end.

(** Traffic does not change a stream's information. *)
Lemma stream_run_traffic l o : stream_run (filter (fun e => negb (is_traffic e)) l) o = stream_run l o.
Proof.
  revert o. induction l as [|e l IH]; intros o; [done|]. rewrite filter_cons. unfold stream_run in *.
  destruct e; simpl; apply IH.
Qed.

Lemma stream_order_traffic l o :
  stream_all_in_order (filter (fun e => negb (is_traffic e)) l) o -> stream_all_in_order l o.
Proof.
  revert o. induction l as [|e l IH]; intros o; [done|]. rewrite filter_cons.
  destruct e; simpl; try (intros [? ?]; split; [done|by apply IH]). intros H. split; [done|by apply IH].
Qed.

(** ** The events of a served connection *)

Definition action_string (a : action) : string :=
  match a with NoAction => "" | PendingHandshakeRejected => "rejected" | PendingHandshakeObserved => "observed" end.

Section metering.
(** The identifier of a stream, the address it was connected to, and the clock. *)
Context (sid : nat -> string) (dcip : nat -> list byte) (stamp : nat -> ServeConn.event -> Z).
Context `{!Inj (=) (=) sid}.

(** The value that [ServeConn] sends for an event. *)
Definition to_event (id : nat) (e : ServeConn.event) : Event :=
  let now := stamp id e in
  match e with
  | ServeConn.EventStart ip => EvStart (NewEventStart now (sid id) ip)
  | ServeConn.EventFinish => EvFinish (NewEventFinish now (sid id))
  | ServeConn.EventPendingHandshakeLimit a => EvPendingHandshakeLimit (NewEventPendingHandshakeLimit now (sid id) (action_string a))
  | ServeConn.EventReplayAttack => EvReplayAttack (NewEventReplayAttack now (sid id))
  | ServeConn.EventDomainFronting => EvDomainFronting (NewEventDomainFronting now (sid id))
  | ServeConn.EventThrottled name => EvThrottled (NewEventThrottled now (sid id) name)
  | ServeConn.EventConnectedToDC dc => EvConnectedToDC (NewEventConnectedToDC now (sid id) (dcip id) dc)
  end.

(** The events a processor has received: those of the streams [mine] that hash
    to it, each stream's in order and complete, any number of [EventTraffic] of
    theirs between them, and events without a stream. *)
Definition no_stream (e : Event) : Prop :=
  match e with EvConcurrencyLimited _ | EvIPBlocklisted _ | EvIPListSize _ => True | _ => False end.

#[export] Instance no_stream_dec e : Decision (no_stream e).
Proof. destruct e; simpl; apply _. Defined.

Definition delivered (mine : nat -> bool) (w : world) (l : list Event) : Prop :=
  (forall e, e ∈ l -> (no_stream e /\ StreamID e = "") \/ exists id, mine id = true /\ StreamID e = sid id) /\
  (forall id, mine id = true ->
     filter (fun e => negb (is_traffic e)) (of_stream (sid id) l) = to_event id <$> events_of id (w_events w)).

(** Events that leave the information alone. *)
Lemma quiet_run id l o :
  Forall inner l -> routes l = 0%nat ->
  stream_run (to_event id <$> l) o = o /\ stream_all_in_order (to_event id <$> l) o.
Proof.
  induction 1 as [|e l He Hl IH]; intros Hr; [done|]. unfold routes in *. rewrite filter_cons in Hr.
  destruct e; try done; simpl in *; destruct (IH Hr) as [IH1 IH2]; done.
Qed.

Lemma routes_split l :
  routes l = 1%nat -> exists l1 r l2, l = l1 ++ r :: l2 /\ is_route r = true /\ routes l1 = 0%nat /\ routes l2 = 0%nat.
Proof.
  induction l as [|e l IH]; [done|]. unfold routes in *. rewrite filter_cons. destruct (is_route e) eqn:He; simpl.
  - intros [= Hl]. by exists [], e, l.
  - intros Hl. destruct (IH Hl) as (l1 & r & l2 & -> & H1 & H2 & H3). exists (e :: l1), r, l2.
    rewrite filter_cons, He. done.
Qed.

Lemma stream_run_app l l' o : stream_run (l ++ l') o = stream_run l' (stream_run l o).
Proof. apply fold_left_app. Qed.

Lemma stream_order_app l l' o :
  stream_all_in_order (l ++ l') o <-> stream_all_in_order l o /\ stream_all_in_order l' (stream_run l o).
Proof. revert o. induction l as [|e l IH]; intros o; simpl; [naive_solver|]. rewrite IH. naive_solver. Qed.

(** What is known of a live stream: the family of its client, and where it was
    routed. *)
Record live_info (id : nat) (ip : list byte) (evs : list ServeConn.event) (i : streamInfo) : Prop := mkLive {
  live_family : tag i TagIPFamily = family ip;
  live_fronted : isDomainFronted i = true <-> ServeConn.EventDomainFronting ∈ evs;
  live_connected : forall a d, connected_to a d i = true <->
    exists dc, ServeConn.EventConnectedToDC dc ∈ evs /\ IP_String (dcip id) = a /\ Itoa dc = d
}.

Lemma not_route_in l e : routes l = 0%nat -> is_route e = true -> e ∉ l.
Proof.
  intros Hl He Hin. unfold routes in Hl. apply length_zero_iff_nil in Hl.
  assert (e ∈ filter is_route l) as H by (by apply list_elem_of_filter; rewrite He). rewrite Hl in H. by apply not_elem_of_nil in H.
Qed.

Lemma live_start id ip mid :
  Forall inner mid -> (routes mid <= 1)%nat ->
  stream_all_in_order (to_event id <$> ServeConn.EventStart ip :: mid) None /\
  exists i, stream_run (to_event id <$> ServeConn.EventStart ip :: mid) None = Some i /\ live_info id ip mid i.
Proof.
  intros Hin Hr. rewrite fmap_cons. set (i0 := set_tag TagIPFamily (family ip) newInfo).
  assert (forall l, stream_run (to_event id (ServeConn.EventStart ip) :: l) None = stream_run l (Some i0)) as Hst by done.
  setoid_rewrite Hst.
  destruct (decide (routes mid = 0%nat)) as [H0|H1].
  - destruct (quiet_run id mid (Some i0) Hin H0) as [-> Ho]. split; [done|]. exists i0. split; [done|]. split.
    + done.
    + split; [done|]. intros Hi. by apply (not_route_in mid) in Hi.
    + intros a d. split; [done|]. intros (dc & Hdc & _). by apply (not_route_in mid) in Hdc.
  - destruct (routes_split mid) as (l1 & r & l2 & -> & Hre & Hr1 & Hr2); [lia|].
    apply Forall_app in Hin as [Hin1 [Hinr Hin2]%Forall_cons]. rewrite fmap_app, fmap_cons.
    destruct (quiet_run id l1 (Some i0) Hin1 Hr1) as [R1 O1].
    destruct (quiet_run id l2 (stream_event (to_event id r) (Some i0)) Hin2 Hr2) as [R2 O2].
    rewrite stream_run_app, R1. change (stream_run (to_event id r :: _) _) with
      (stream_run (to_event id <$> l2) (stream_event (to_event id r) (Some i0))). rewrite R2.
    assert (forall e, is_route e = true -> e ∈ l1 ++ r :: l2 <-> e = r) as Helem.
    { intros e He. rewrite elem_of_app, elem_of_cons. split; [intros [H|[H|H]]; [|done|]|auto];
        by apply not_route_in in H. }
    split.
    + split; [done|]. change (stream_event _ None) with (Some i0). apply stream_order_app. rewrite R1. split; [done|]. split; [|done].
      destruct r; try done; intros i [= <-]; by split.
    + destruct r as [| | | | | |dc]; try done; simpl; eexists; (split; [done|]); split; simpl.
      * done.
      * split; [|done]. intros _. by apply Helem.
      * intros a d. split; [done|]. intros (dc & Hdc & _). by apply Helem in Hdc.
      * done.
      * split; [done|]. intros Hd. by apply Helem in Hd.
      * intros a d. unfold connected_to. simpl. unfold tag. simpl.
        rewrite !lookup_insert_eq, !lookup_insert_ne, !lookup_insert_eq by done. simpl.
        rewrite andb_true_iff, !bool_decide_eq_true. split.
        -- intros [<- <-]. exists dc. split; [by apply Helem|done].
        -- intros (dc' & [= ->]%Helem & <- & <-); [done|done].
Qed.

(** ** Counting *)

Lemma tally_size P (m : meter) : tally P m = Z.of_nat (size (filter (fun x => P x.2 = true) m)).
Proof.
  induction m as [|id i m Hid IH] using map_ind; [done|]. rewrite tally_insert_new by done.
  destruct (P i) eqn:HP.
  - rewrite map_filter_insert_True by done. rewrite map_size_insert_None, IH; [simpl; lia|].
    by apply map_lookup_filter_None_2; left.
  - rewrite map_filter_insert_False by (simpl; congruence). rewrite delete_id, IH by done. simpl. lia.
Qed.

Lemma size_kmap {A} (n : gmap nat A) : size (kmap sid n : gmap string A) = size n.
Proof. rewrite <- !length_map_to_list, (map_to_list_kmap sid). apply length_fmap. Qed.

Lemma tally_count P (m : meter) (n : gmap nat conn) (R : nat * conn -> Prop) `{forall x, Decision (R x)} :
  (forall k, is_Some (m !! k) -> exists id, k = sid id) ->
  (forall id, (exists i, m !! sid id = Some i /\ P i = true) <-> exists c, n !! id = Some c /\ R (id, c)) ->
  tally P m = Z.of_nat (size (filter R n)).
Proof.
  intros Hkeys HR. rewrite tally_size. f_equal. set (m' := filter _ m).
  set (n' := map_imap (fun id (c : conn) => m' !! sid id) n : gmap nat streamInfo).
  assert (forall id, n' !! id = m' !! sid id) as Hn'.
  { intros id. unfold n'. rewrite map_lookup_imap. destruct (n !! id) as [c|] eqn:Hc; [done|]. simpl.
    destruct (m' !! sid id) as [i|] eqn:Hi; [|done]. apply map_lookup_filter_Some in Hi as [Hi HP].
    destruct (proj1 (HR id)) as (c & Hc' & _); [by exists i|congruence]. }
  assert (m' = kmap sid n') as Hm'.
  { apply map_eq. intros k. destruct (m' !! k) as [i|] eqn:Hi.
    - destruct (Hkeys k) as [id ->]; [apply map_lookup_filter_Some in Hi as [Hi _]; by eexists|].
      rewrite (lookup_kmap sid). by rewrite Hn'.
    - symmetry. apply (lookup_kmap_None sid). intros id ->. by rewrite Hn'. }
  rewrite Hm', size_kmap, <- !(size_dom (D := gset nat)). f_equal. apply set_eq. intros id. rewrite !elem_of_dom, Hn'. split.
  - intros [i [Hi HP]%map_lookup_filter_Some]. destruct (proj1 (HR id)) as (c & Hc & Hr); [by exists i|].
    exists c. by apply map_lookup_filter_Some.
  - intros [c [Hc Hr]%map_lookup_filter_Some]. destruct (proj2 (HR id)) as (i & Hi & HP); [by exists c|].
    exists i. by apply map_lookup_filter_Some.
Qed.

(** The connections a processor's gauges are about: those between their start
    event and their finish event. *)
Definition being_served (mine : nat -> bool) (x : nat * conn) : Prop := mine x.1 = true /\ DEventFinish ∈ c_defers x.2.

#[local] Instance being_served_dec mine x : Decision (being_served mine x).
Proof. unfold being_served. apply _. Defined.

(** The meter of a processor after its events, stream by stream. *)
Lemma metered_stream cfg mine w l id :
  reach cfg w -> delivered mine w l -> mine id = true ->
  stream_all_in_order (of_stream (sid id) l) None /\
  match (meter_run l ∅).1 !! sid id with
  | Some i => exists c mid, w_conns w !! id = Some c /\ DEventFinish ∈ c_defers c /\
      events_of id (w_events w) = ServeConn.EventStart (c_ip c) :: mid /\ live_info id (c_ip c) (events_of id (w_events w)) i
  | None => forall c, w_conns w !! id = Some c -> DEventFinish ∉ c_defers c
  end.
Proof.
  intros Hreach [_ Hdel] Hm. pose proof (reach_ok cfg w Hreach) as Hok. pose proof (ok_events _ _ Hok id) as He.
  pose proof (reach_routes cfg w Hreach id) as Hro.
  specialize (Hdel id Hm). rewrite meter_run_lookup, lookup_empty, <- stream_run_traffic, Hdel.
  assert (forall c, w_conns w !! id = Some c -> (routes (events_of id (w_events w)) <= 1)%nat) as Hle.
  { intros c Hc. specialize (Hro c Hc). unfold route_ok in Hro. destruct (past_route c); lia. }
  enough (stream_all_in_order (to_event id <$> events_of id (w_events w)) None /\
    match stream_run (to_event id <$> events_of id (w_events w)) None with
    | Some i => exists c mid, w_conns w !! id = Some c /\ DEventFinish ∈ c_defers c /\
        events_of id (w_events w) = ServeConn.EventStart (c_ip c) :: mid /\ live_info id (c_ip c) (events_of id (w_events w)) i
    | None => forall c, w_conns w !! id = Some c -> DEventFinish ∉ c_defers c
    end) as [H1 H2] by (split; [apply stream_order_traffic; by rewrite Hdel|done]).
  destruct (w_conns w !! id) as [c|] eqn:Hc; [|rewrite He; split; [done|by intros c]].
  specialize (Hle c eq_refl). pose proof (ok_conns _ _ Hok id c Hc) as Hco. unfold stream_events in He.
  destruct (decide (c_pc c = PEntry)) as [Hp|Hp].
  { rewrite He. split; [done|]. intros c' [= <-]. unfold conn_ok in Hco. rewrite Hp in Hco. destruct Hco as [-> _]. set_solver. }
  destruct (decide (DEventFinish ∈ c_defers c)) as [Hd|Hd].
  - destruct He as (mid & He & Hin). rewrite He in *. unfold routes in Hle. rewrite filter_cons in Hle. simpl in Hle.
    destruct (live_start id (c_ip c) mid Hin Hle) as [Ho (i & -> & [Hf Hfr Hcn])]. split; [done|].
    exists c, mid. split_and!; [done..|]. split; [done| |].
    + rewrite Hfr, elem_of_cons. naive_solver.
    + intros a d. rewrite Hcn. setoid_rewrite elem_of_cons. naive_solver.
  - destruct He as [He|(mid & He & Hin)]; rewrite He in *; [split; [done|by intros c' [= <-]]|].
    unfold routes in Hle. rewrite filter_cons in Hle. simpl in Hle. rewrite filter_app, length_app in Hle.
    destruct (live_start id (c_ip c) mid Hin) as [Ho (i & Hrun & _)]; [unfold routes; lia|].
    change (ServeConn.EventStart (c_ip c) :: mid ++ [ServeConn.EventFinish]) with
      ((ServeConn.EventStart (c_ip c) :: mid) ++ [ServeConn.EventFinish]).
    rewrite fmap_app, stream_run_app, stream_order_app, Hrun. split; [done|]. by intros c' [= <-].
Qed.

Lemma metered_key mine w l k :
  delivered mine w l -> is_Some ((meter_run l ∅).1 !! k) -> exists id, mine id = true /\ k = sid id.
Proof.
  intros [Hev _] Hk. rewrite meter_run_lookup, lookup_empty in Hk.
  assert (forall l, (forall e, e ∈ l -> no_stream e) -> stream_run l None = None) as Hns.
  { clear. induction l as [|e l IH]; intros H; [done|]. assert (no_stream e) as He by (apply H; by left).
    unfold stream_run. simpl. destruct e; try done; apply IH; intros; apply H; by right. }
  destruct (decide (Exists (fun e => ~ no_stream e) (of_stream k l))) as [Hex|Hno].
  - apply Exists_exists in Hex as (e & [Hek Hin]%list_elem_of_filter & Hn).
    destruct (Hev e Hin) as [[? _]|(id & Hm & Hid)]; [done|]. exists id. split; congruence.
  - rewrite Hns in Hk; [by inversion Hk|]. intros e He. destruct (decide (no_stream e)) as [|Hn]; [done|].
    exfalso. apply Hno, Exists_exists. by exists e.
Qed.

Definition was_connected (id : nat) (ip dc : string) (evs : list ServeConn.event) : bool :=
  existsb (fun e => match e with
                    | ServeConn.EventConnectedToDC n => bool_decide (IP_String (dcip id) = ip) && bool_decide (Itoa n = dc)
                    | _ => false
                    end) evs.

Lemma was_connected_spec id ip dc evs :
  was_connected id ip dc evs = true <->
  exists n, ServeConn.EventConnectedToDC n ∈ evs /\ IP_String (dcip id) = ip /\ Itoa n = dc.
Proof.
  unfold was_connected. rewrite existsb_exists. split.
  - intros (e & Hin%list_elem_of_In & He). destruct e; try done.
    apply andb_true_iff in He as [H1%bool_decide_eq_true H2%bool_decide_eq_true]. by exists dc0.
  - intros (n & Hin%list_elem_of_In & <- & <-). exists (ServeConn.EventConnectedToDC n). split; [done|].
    by rewrite !bool_decide_true.
Qed.

Lemma metered_gauges cfg mine w l :
  reach cfg w -> delivered mine w l -> gauges_show (meter_run l ∅).1 (meter_run l ∅).2.
Proof.
  intros Hr Hd. apply (meter_run_gauges l ∅ []); [|apply gauges_show_empty].
  apply all_in_order_streams. intros k. rewrite lookup_empty.
  assert (forall l o, (forall e, e ∈ l -> no_stream e) -> stream_all_in_order l o) as Hns.
  { clear. induction l as [|e l IH]; intros o H; [done|]. assert (no_stream e) as He by (apply H; by left).
    split; [by destruct e|]. apply IH. intros; apply H; by right. }
  destruct (decide (Exists (fun e => ~ no_stream e) (of_stream k l))) as [Hex|Hno].
  - apply Exists_exists in Hex as (e & [Hek Hin]%list_elem_of_filter & Hn).
    destruct (proj1 Hd e Hin) as [[? _]|(id & Hm & Hid)]; [done|]. rewrite <- Hek, Hid. by eapply metered_stream.
  - apply Hns. intros e He. destruct (decide (no_stream e)) as [|Hn]; [done|].
    exfalso. apply Hno, Exists_exists. by exists e.
Qed.

(** A count of the live streams of the meter is a count of connections. *)
Lemma metered_tally cfg mine w l P (Q : nat -> list byte -> list ServeConn.event -> Prop)
    (R : nat * conn -> Prop) `{forall x, Decision (R x)} :
  reach cfg w -> delivered mine w l ->
  (forall id ip evs i, live_info id ip evs i -> P i = true <-> Q id ip evs) ->
  (forall x, R x <-> being_served mine x /\ Q x.1 (c_ip x.2) (events_of x.1 (w_events w))) ->
  tally P (meter_run l ∅).1 = Z.of_nat (size (filter R (w_conns w))).
Proof.
  intros Hr Hd HPQ HR. apply tally_count; [intros k Hk; destruct (metered_key mine w l k Hd Hk) as (id & _ & ->); eauto|].
  intros id. split.
  - intros (i & Hi & HP). destruct (metered_key mine w l (sid id) Hd) as (id' & Hm & <-%(inj sid)); [by eexists|].
    destruct (metered_stream cfg mine w l id Hr Hd Hm) as [_ Hs]. rewrite Hi in Hs.
    destruct Hs as (c & mid & Hc & Hf & _ & Hlive). exists c. split; [done|]. apply HR. split; [done|]. by apply (HPQ _ _ _ i Hlive).
  - intros (c & Hc & [[Hm Hf] HQ]%HR). simpl in *. destruct (metered_stream cfg mine w l id Hr Hd Hm) as [_ Hs].
    destruct ((meter_run l ∅).1 !! sid id) as [i|]; [|by apply Hs in Hc].
    destruct Hs as (c' & mid & Hc' & _ & _ & Hlive). simplify_eq. exists i. split; [done|]. by apply (HPQ _ _ _ i Hlive).
Qed.

Definition served_from (mine : nat -> bool) (f : string) (x : nat * conn) : Prop :=
  being_served mine x /\ family (c_ip x.2) = f.
Definition fronted_in (mine : nat -> bool) (w : world) (f : string) (x : nat * conn) : Prop :=
  being_served mine x /\ (ServeConn.EventDomainFronting ∈ events_of x.1 (w_events w) /\ family (c_ip x.2) = f).
Definition connected_in (mine : nat -> bool) (w : world) (ip dc : string) (x : nat * conn) : Prop :=
  being_served mine x /\ was_connected x.1 ip dc (events_of x.1 (w_events w)) = true.

#[local] Instance served_from_dec mine f x : Decision (served_from mine f x).
Proof. unfold served_from. apply _. Defined.
#[local] Instance fronted_in_dec mine w f x : Decision (fronted_in mine w f x).
Proof. unfold fronted_in. apply _. Defined.
#[local] Instance connected_in_dec mine w ip dc x : Decision (connected_in mine w ip dc x).
Proof. unfold connected_in. apply _. Defined.

(** C28: the gauges count the connections.  In every interleaving of connections,
    reloads and other goroutines, and every interleaving of the exporters of a
    process: when a Prometheus or statsd processor has received the events of
    the streams that hash to it, its client gauge for an address family is the
    number of those streams between start and finish, its fronting gauge the
    number of them routed to the fronting domain, and its Telegram gauge the
    number of them connected to that address and data centre. *)
Theorem gauges_count_connections cfg mine w l range now kinds acts pw k kd :
  reach cfg w -> delivered mine w l ->
  (forall ks, range ks ≡ₚ ks) -> Forall act_exact acts -> pr_run range now acts (pr_initial kinds) = Some pw ->
  kinds !! k = Some kd -> never_stopped k acts -> events_for k acts = l ->
  let cs := calls_of k (pr_calls pw) in
  (forall f, gauge MetricClientConnections [(TagIPFamily, f)] cs =
     Z.of_nat (size (filter (served_from mine f) (w_conns w)))) /\
  (forall f, gauge MetricDomainFrontingConnections [(TagIPFamily, f)] cs =
     Z.of_nat (size (filter (fronted_in mine w f) (w_conns w)))) /\
  (forall ip dc, gauge MetricTelegramConnections [(TagTelegramIP, ip); (TagDC, dc)] cs =
     Z.of_nat (size (filter (connected_in mine w ip dc) (w_conns w)))).
Proof.
  intros Hr Hd Hrange Hex Hrun Hk Hns Hl cs.
  destruct (represents_run range now Hrange acts _ _ pw (represents_initial kinds) Hex Hrun) as (sp & Hsp & Hc & _).
  destruct (sp_run_processor range now k kd acts _ sp ∅ Hsp) as [_ Hcs]; [simpl; by rewrite list_lookup_fmap, Hk|done|].
  assert (cs = (meter_run l ∅).2) as -> by (unfold cs; by rewrite Hc, Hcs, Hl).
  destruct (metered_gauges cfg mine w l Hr Hd) as [Hg1 Hg2 Hg3]. split_and!.
  - intros f. rewrite Hg1. apply (metered_tally cfg mine w l _ (fun _ ip _ => family ip = f)); [done..| |done].
    intros id ip evs i [Hf _ _]. unfold from_family. by rewrite bool_decide_eq_true, Hf.
  - intros f. rewrite Hg2.
    apply (metered_tally cfg mine w l _ (fun _ ip evs => ServeConn.EventDomainFronting ∈ evs /\ family ip = f)); [done..| |done].
    intros id ip evs i [Hf Hfr _]. unfold fronted_from. by rewrite andb_true_iff, bool_decide_eq_true, Hf, Hfr.
  - intros ip dc. rewrite Hg3. apply (metered_tally cfg mine w l _ (fun id _ evs => was_connected id ip dc evs = true)); [done..| |done].
    intros id ip' evs i [_ _ Hcn]. by rewrite Hcn, was_connected_spec.
Qed.
End metering.

(** ** A gauge that is never decremented

    [ServeConn] sends [EventFinish] with the stream's own context.  When a reload
    or a deletion of the secret has closed the stream, that context is already
    cancelled, and the [select] in [Send] may take the cancelled context instead
    of the channel. *)

(** A stream of "bob" is relayed, "bob" is deleted, which closes the stream, and
    the stream ends. *)
Definition demo_closed : list act := demo_serve ++ [AMutate 7 (MDelete "bob")].
Definition demo_ended : list act := demo_closed ++ [AConn 1 InEnd] ++ replicate 9 (AConn 1 InStep).

Fixpoint demo_sid (id : nat) : string := match id with O => "s" | S id => ("s" ++ demo_sid id)%string end.
Definition demo_value (e : ServeConn.event) : Event := to_event demo_sid (fun _ => demo_ip) (fun _ _ => 0) 1 e.

(** The sends of [w]'s events to a stream with one worker, each received at
    once, but for the last one: its context is over and it is dropped. *)
Definition demo_sends (evs : list ServeConn.event) : list es_act :=
  (removelast evs ≫= fun e => [ASend false 0 (demo_value e) true; AReceive 0]) ++
  [ASend true 0 (demo_value (default ServeConn.EventFinish (last evs))) false].

Definition demo_exporter : exporter := mkExporter ∅ (mkStore ∅ [] 0) [] 0.

(** A deleted secret can leave a connection in the metrics for ever.  There
    is an interleaving in which a stream's context is cancelled by the deletion
    of its secret before its [EventFinish] is sent, so that [Send] may drop the
    event; then no connection is left, every event was handled, and the client
    gauge still shows one. *)
Theorem closed_stream_leaks :
  let w := demo_at demo_ended in
  reach demo_settings w /\
  (exists c, w_conns (demo_at demo_closed) !! 1%nat = Some c /\ DEventFinish ∈ c_defers c) /\
  1%nat ∈ closed (w_proxy (demo_at demo_closed)) /\
  map_Forall (fun _ c => c_pc c = PDone) (w_conns w) /\
  exists s x, @es_run _ (promProcessor NewPrometheus (fun l => l)) (fun _ => 0) (demo_sends (events_of 1 (w_events w)))
      (mkEventStream false [mkWorker None demo_exporter false]) = Some s /\
    es_workers s = [mkWorker None x false] /\
    gauge MetricClientConnections [(TagIPFamily, TagIPFamilyIPv4)] (ex_calls x) = 1.
Proof.
  split_and!.
  - apply demo_at_reach. apply (bool_decide_unpack _). vm_compute. exact I.
  - eexists. split; [vm_compute; reflexivity|]. apply (bool_decide_unpack _). vm_compute. exact I.
  - apply (bool_decide_unpack _). vm_compute. exact I.
  - apply (bool_decide_unpack _). vm_compute. exact I.
  - eexists _, _. split; [vm_compute; reflexivity|]. split; [reflexivity|]. vm_compute. reflexivity.
Qed.

(** ** Witnesses *)

Lemma demo_sid_length id : String.length (demo_sid id) = S id.
Proof. induction id as [|id IH]; [done|]. simpl. by f_equal. Qed.

#[export] Instance demo_sid_inj : Inj (=) (=) demo_sid.
Proof. intros a b H. apply (f_equal String.length) in H. rewrite !demo_sid_length in H. lia. Qed.

(** The events of the stream of [demo_serve], with traffic and an event of the
    blocklist between them. *)
Definition demo_received : list Event :=
  (demo_value <$> events_of 1 (w_events (demo_at demo_serve))) ++
  [EvTraffic (NewEventTraffic 3 (demo_sid 1) 100 true); EvIPListSize (NewEventIPListSize 4 17 true)].

Lemma demo_delivered :
  delivered demo_sid (fun _ => demo_ip) (fun _ _ => 0) (fun id => bool_decide (id = 1%nat)) (demo_at demo_serve) demo_received.
Proof.
  split.
  - assert (forall l, forallb (fun e => bool_decide (no_stream e) && bool_decide (StreamID e = "") || bool_decide (StreamID e = demo_sid 1)) l
      = true -> forall e, e ∈ l -> (no_stream e /\ StreamID e = "") \/ exists id, bool_decide (id = 1%nat) = true /\ StreamID e = demo_sid id) as H.
    { intros l Hl e He. rewrite forallb_forall in Hl. specialize (Hl e (proj1 (list_elem_of_In _ _) He)).
      apply orb_true_iff in Hl as [Hl|Hl]; [left; apply andb_true_iff in Hl as [H1%bool_decide_eq_true H2%bool_decide_eq_true]; done|].
      right. exists 1%nat. split; [done|]. by apply bool_decide_eq_true in Hl. }
    apply H. vm_compute. reflexivity.
  - intros id ->%bool_decide_eq_true. vm_compute. reflexivity.
Qed.

Definition demo_metered : process :=
  default (pr_initial []) (pr_run (fun l => l) 0 (PEvent 0 0 <$> demo_received) (pr_initial [KPrometheus])).

Lemma demo_metered_run : pr_run (fun l => l) 0 (PEvent 0 0 <$> demo_received) (pr_initial [KPrometheus]) = Some demo_metered.
Proof. vm_compute. reflexivity. Qed.

Lemma demo_received_exact : Forall exact demo_received.
Proof.
  assert (forall l, forallb (fun e => match e with
      | EvTraffic e => (0 <=? traffic_Traffic e) && (traffic_Traffic e <=? 2 ^ 53)
      | EvIPListSize e => (0 <=? size_Size e) && (size_Size e <=? 2 ^ 53) | _ => true end) l = true -> Forall exact l) as H.
  { induction l as [|e l IH]; [done|]. simpl. intros [He Hl]%andb_true_iff. constructor; [|by apply IH].
    destruct e; simpl; zbool; lia || done. }
  apply H. vm_compute. reflexivity.
Qed.

Lemma demo_never_stopped (l : list Event) : never_stopped 0 (PEvent 0 0 <$> l).
Proof. apply Forall_fmap, Forall_forall. done. Qed.

Lemma gauges_count_connections_witness :
  gauge MetricClientConnections [(TagIPFamily, TagIPFamilyIPv4)] (calls_of 0 (pr_calls demo_metered)) = 1.
Proof.
  rewrite (proj1 (gauges_count_connections demo_sid (fun _ => demo_ip) (fun _ _ => 0) demo_settings
    (fun id => bool_decide (id = 1%nat)) (demo_at demo_serve) demo_received (fun l => l) 0 [KPrometheus]
    (PEvent 0 0 <$> demo_received) demo_metered 0 KPrometheus demo_serve_reach demo_delivered (fun l => reflexivity l)
    (proj2 (Forall_fmap (PEvent 0 0) act_exact demo_received) demo_received_exact) demo_metered_run eq_refl
    (demo_never_stopped demo_received)
    ltac:(vm_compute; reflexivity))).
  vm_compute. reflexivity.
Defined.
