(* ===== verification/Server.v ===== *)
(** * The server: construction, accept loop and shutdown

    mtglib/proxy_opts.go, mtglib/init.go, [NewProxy], [Serve] and [Shutdown] of
    mtglib/proxy.go, mtglib/accept.go, internal/acceptretry and
    internal/logthrottle.

    The accept loop is a function of what the listener, the lists and the worker
    pool answer, tick by tick; it waits when the answers are used up, so that
    "does not return" is a statement about every longer list of answers.
    [NewProxy] produces the initial state of [ServeConn], so the theorems there
    are about proxies made from options. *)

From S2P Require Import Prelude Secret GoTime GoStrings GoNet Limits Stats SecretSet Proxy Pending DC ServeConn.

(** ** internal/logthrottle *)

Record Throttle := mkThrottle { th_interval : Z; th_last : Z; th_suppressed : Z }.

Definition Throttle_New (interval : Z) : Throttle := mkThrottle interval zeroTime 0.

(** [Allow] under its mutex; [now] is the clock. *)
Definition Allow (now : Z) (t : Throttle) : Throttle * (bool * Z) :=
  if negb (IsZeroTime (th_last t)) && (Sub now (th_last t) <? th_interval t)
  then (mkThrottle (th_interval t) (th_last t) (int64 (th_suppressed t + 1)), (false, 0))
  else (mkThrottle (th_interval t) now 0, (true, th_suppressed t)).

Fixpoint Allows (times : list Z) (t : Throttle) : Throttle * list (Z * (bool * Z)) :=
  match times with
  | [] => (t, [])
  | now :: times => let '(t, r) := Allow now t in let '(t, rs) := Allows times t in (t, (now, r) :: rs)
  end.

(** ** internal/acceptretry *)

Definition MinDelay : Z := 5 * Millisecond.
Definition MaxDelay : Z := Second.

Inductive errno := EMFILE | ENFILE | ENOBUFS | ENOMEM | ECONNABORTED | ECONNRESET | EAGAIN | ETIMEDOUT | EOther (n : Z).

#[export] Instance errno_eq_dec : EqDecision errno.
Proof. solve_decision. Defined.

(** The errors an [Accept] returns: a closed listener, a deadline, an error
    number, and the types of packages net, os and fmt that wrap them. *)
Inductive netError :=
  | NetErrClosed
  | NetDeadlineExceeded
  | NetErrno (e : errno)
  | NetOpError (e : netError)
  | NetSyscallError (e : netError)
  | NetWrap (msg : string) (e : netError)
  | NetOther (msg : string).

#[export] Instance netError_eq_dec : EqDecision netError.
Proof. solve_decision. Defined.

Fixpoint net_is (e target : netError) : bool :=
  bool_decide (e = target) ||
  match e with NetOpError e | NetSyscallError e | NetWrap _ e => net_is e target | _ => false end.

(** The method [Timeout() bool], where the type has one. *)
Fixpoint timeout_method (e : netError) : option bool :=
  match e with
  | NetErrClosed => Some false
  | NetDeadlineExceeded => Some true
  | NetErrno e => Some (bool_decide (e ∈ [EAGAIN; ETIMEDOUT]))
  | NetOpError e => Some (match e with
                          | NetSyscallError e' => default false (timeout_method e')
                          | _ => default false (timeout_method e)
                          end)
  | NetSyscallError e => Some (default false (timeout_method e))
  | NetWrap _ _ | NetOther _ => None
  end.

(** [errors.As(err, &netErr) && netErr.Timeout()]: the first error of the chain
    that has both [Timeout] and [Temporary]; [os.SyscallError] lacks the
    second. *)
Fixpoint as_timeout (e : netError) : bool :=
  match e with
  | NetSyscallError e' | NetWrap _ e' => as_timeout e'
  | NetOther _ => false
  | _ => default false (timeout_method e)
  end.

Definition IsTemporary (e : netError) : bool :=
  if net_is e NetErrClosed then false
  else if as_timeout e then true
  else net_is e (NetErrno EMFILE) || net_is e (NetErrno ENFILE) || net_is e (NetErrno ENOBUFS) ||
       net_is e (NetErrno ENOMEM) || net_is e (NetErrno ECONNABORTED) || net_is e (NetErrno ECONNRESET).

(** [time.Duration] is a 64-bit integer. *)
Definition NextDelay (previous : Z) : Z :=
  if previous =? 0 then MinDelay else Z.min (int64 (previous * 2)) MaxDelay.

(** ** The accept loop *)

Inductive invokeResult := InvokeOk | ErrPoolClosed | ErrPoolOverload | InvokeOther.

#[export] Instance invokeResult_eq_dec : EqDecision invokeResult.
Proof. solve_decision. Defined.

(** An accepted connection, with the answers of the two lists and of the pool. *)
Record arrival := mkArrival {
  a_conn : nat;
  a_ip : list byte;
  a_allowlisted : bool;
  a_blocklisted : bool;
  a_invoke : invokeResult
}.

Inductive acceptResult :=
  | Accepted (a : arrival)
  | AcceptError (e : netError).

(** One call of [Accept] and the state of the context when it is looked at: after
    the call, in the pause, and in [Serve] after an error. *)
Record tick := mkTick { t_result : acceptResult; t_cancelled : bool; t_expired : bool; t_done : bool }.

(** A context does not recover. *)
Definition tick_ok (t : tick) : Prop := (t_cancelled t = true \/ t_expired t = true) -> t_done t = true.

Inductive acceptOutcome :=
  | GotConn (a : arrival)
  | GotError (e : netError) (done : bool).

Definition contextCanceled : netError := NetOther "context canceled".

(** The outcome, the ticks that are left and the pauses; [None] while it waits. *)
Fixpoint acceptWithRetry (delay : Z) (script : list tick) : option (acceptOutcome * list tick * list Z) :=
  match script with
  | [] => None
  | t :: script =>
      match t_result t with
      | Accepted a => Some (GotConn a, script, [])
      | AcceptError e =>
          if t_cancelled t || negb (IsTemporary e) then Some (GotError e (t_done t), script, []) else
          let delay := NextDelay delay in
          if t_expired t then Some (GotError contextCanceled (t_done t), script, [delay])
          else '(o, rest, ds) ← acceptWithRetry delay script; Some (o, rest, delay :: ds)
      end
  end.

Inductive disposition := RejectedByAllowlist | RejectedByBlocklist | Served | ConcurrencyLimited | LeftOpen.

#[export] Instance disposition_eq_dec : EqDecision disposition.
Proof. solve_decision. Defined.

(** The body of the loop of [Serve] for a connection: what becomes of it and
    whether the loop goes on. *)
Definition admit_conn (a : arrival) : disposition * bool :=
  if negb (a_allowlisted a) then (RejectedByAllowlist, true)
  else if a_blocklisted a then (RejectedByBlocklist, true)
  else match a_invoke a with
       | InvokeOk => (Served, true)
       | ErrPoolClosed => (LeftOpen, false)
       | ErrPoolOverload => (ConcurrencyLimited, true)
       | InvokeOther => (LeftOpen, true)
       end.

Inductive serveResult :=
  | Waiting
  | ReturnNil
  | ReturnErr (e : netError).

#[export] Instance serveResult_eq_dec : EqDecision serveResult.
Proof. solve_decision. Defined.

(** [Serve] with the connections it handled.  Every round uses at least one
    tick, [fuel] is their number. *)
Fixpoint Serve_loop (fuel : nat) (script : list tick) : serveResult * list (nat * disposition) :=
  match fuel with
  | O => (Waiting, [])
  | S fuel =>
      match acceptWithRetry 0 script with
      | None => (Waiting, [])
      | Some (GotError e done, _, _) => (if done : bool then ReturnNil else ReturnErr e, [])
      | Some (GotConn a, rest, _) =>
          let '(d, continue) := admit_conn a in
          if continue : bool then
            let '(r, log) := Serve_loop fuel rest in (r, (a_conn a, d) :: log)
          else (ReturnNil, [(a_conn a, d)])
      end
  end.

Definition Serve (script : list tick) : serveResult * list (nat * disposition) := Serve_loop (S (length script)) script.

(** ** Options: proxy_opts.go, init.go *)

Definition ErrNetworkIsNotDefined : goerr := Errorf "network is not defined".
Definition ErrAntiReplayCacheIsNotDefined : goerr := Errorf "anti-replay cache is not defined".
Definition ErrIPBlocklistIsNotDefined : goerr := Errorf "ip blocklist is not defined".
Definition ErrIPAllowlistIsNotDefined : goerr := Errorf "ip allowlist is not defined".
Definition ErrEventStreamIsNotDefined : goerr := Errorf "event stream is not defined".
Definition ErrLoggerIsNotDefined : goerr := Errorf "logger is not defined".

Definition DefaultConcurrency : Z := 4096.
Definition DefaultDomainFrontingPort : Z := 443.
Definition DefaultIdleTimeout : Z := 5 * Minute.
Definition DefaultHandshakeTimeout : Z := 10 * Second.
Definition DefaultTolerateTimeSkewness : Z := 3 * Second.
Definition DefaultPreferIP : string := "prefer-ipv6".

(** An interface value is represented by whether it is not nil. *)
Record ProxyOpts := mkOpts {
  po_Secret : Secret;
  po_Secrets : gmap string Secret;
  po_Network : bool;
  po_AntiReplayCache : bool;
  po_IPBlocklist : bool;
  po_IPAllowlist : bool;
  po_EventStream : bool;
  po_Logger : bool;
  po_BufferSize : Z;
  po_Concurrency : Z;
  po_IdleTimeout : Z;
  po_HandshakeTimeout : Z;
  po_TolerateTimeSkewness : Z;
  po_PreferIP : string;
  po_AutoUpdate : bool;
  po_DomainFrontingPort : Z;
  po_DomainFrontingHost : string;
  po_DomainFrontingIP : string;
  po_DomainFrontingProxyProtocol : bool;
  po_AllowFallbackOnUnknownDC : bool;
  po_UseTestDCs : bool;
  po_DCOverrides : gmap Z (list string);
  po_DoppelGangerURLs : list string;
  po_DoppelGangerPerRaid : Z;
  po_DoppelGangerEach : Z;
  po_DoppelGangerDRS : bool;
  po_APIBindTo : string;
  po_ThrottleMaxConnections : Z;
  po_ThrottleCheckInterval : Z;
  po_SecretsReloader : option (res SecretConfig);
  po_GlobalAdTag : option (list byte);
  po_SecretAdTags : gmap string (list byte);
  po_SecretLimits : gmap string SecretLimits;
  po_UsageStateFile : string;
  po_EmitTraffic : bool;
  po_PublicIPv4 : list byte;
  po_PublicIPv6 : list byte;
  po_AdvertisedPort : Z;
  po_APIToken : string;
  po_PendingHandshakesPerIP : Z;
  po_PendingHandshakesDryRun : bool
}.

Definition getSecrets (p : ProxyOpts) : gmap string Secret :=
  if (0 <? size (po_Secrets p))%nat then po_Secrets p
  else if Valid (po_Secret p) then {["default" := po_Secret p]}
  else ∅.

Definition opts_valid (p : ProxyOpts) : option goerr :=
  if negb (po_Network p) then Some ErrNetworkIsNotDefined
  else if negb (po_AntiReplayCache p) then Some ErrAntiReplayCacheIsNotDefined
  else if negb (po_IPBlocklist p) then Some ErrIPBlocklistIsNotDefined
  else if negb (po_IPAllowlist p) then Some ErrIPAllowlistIsNotDefined
  else if negb (po_EventStream p) then Some ErrEventStreamIsNotDefined
  else if negb (po_Logger p) then Some ErrLoggerIsNotDefined
  else if (size (getSecrets p) =? 0)%nat then Some ErrSecretInvalid
  else if negb (forallb (fun kv => Valid kv.2) (map_to_list (getSecrets p))) then Some ErrSecretInvalid
  else None.

(** [int(x)] of an unsigned number keeps its 64 bits. *)
Definition int_of_uint (z : Z) : Z := swrap 64 z.

Definition getConcurrency (p : ProxyOpts) : Z :=
  if po_Concurrency p =? 0 then DefaultConcurrency else int_of_uint (po_Concurrency p).
Definition getDomainFrontingPort (p : ProxyOpts) : Z :=
  if po_DomainFrontingPort p =? 0 then DefaultDomainFrontingPort else int_of_uint (po_DomainFrontingPort p).
Definition getTolerateTimeSkewness (p : ProxyOpts) : Z :=
  if po_TolerateTimeSkewness p =? 0 then DefaultTolerateTimeSkewness else po_TolerateTimeSkewness p.
Definition getPreferIP (p : ProxyOpts) : string :=
  if bool_decide (po_PreferIP p = "") then DefaultPreferIP else po_PreferIP p.
Definition getHandshakeTimeout (p : ProxyOpts) : Z :=
  if po_HandshakeTimeout p =? 0 then DefaultHandshakeTimeout else po_HandshakeTimeout p.
Definition getIdleTimeout (p : ProxyOpts) : Z :=
  if po_IdleTimeout p =? 0 then DefaultIdleTimeout else po_IdleTimeout p.
Definition getThrottleCheckInterval (p : ProxyOpts) : Z :=
  if po_ThrottleCheckInterval p =? 0 then 5 * Second else po_ThrottleCheckInterval p.

(** ** NewProxy *)

(** The fields of a new [Proxy] that do not change while it serves, and what
    [NewProxy] starts besides the streams. *)
Record fixedSettings := mkFixed {
  fx_serve : settings;
  fx_domainFrontingPort : Z;
  fx_domainFrontingHost : string;
  fx_domainFrontingProxyProtocol : bool;
  fx_tolerateTimeSkewness : Z;
  fx_idleTimeout : Z;
  fx_handshakeTimeout : Z;
  fx_ourIPv4 : list byte;
  fx_ourIPv6 : list byte;
  fx_advertisedPort : Z;
  fx_usageStateFile : string;
  fx_emitTraffic : bool;
  fx_reloader : option (res SecretConfig);
  fx_pendingHandshakesLog : Throttle;
  fx_concurrency : Z;           (* workers of the pool *)
  fx_throttleLoop : bool;       (* [startThrottleLoop] *)
  fx_warm : bool;               (* [middleProxy.Warm] *)
  fx_apiServer : option (string * string); (* [startAPIServer]: address and token *)
  fx_usagePersistence : bool;   (* [startUsagePersistence] *)
  fx_doppelGanger : Z * Z * list string * bool; (* [doppel.NewGanger]: period, requests per raid, URLs, record sizing *)
  fx_configUpdaters : bool      (* [configUpdater.Run] for both families *)
}.

Definition pendingHandshakesLogInterval : Z := 10 * Second.

(** [min(x, math.MaxUint32)] as a [uint32]. *)
Definition clamp_uint32 (z : Z) : Z := uwrap 32 (Z.min z (2 ^ 32 - 1)).

Section NewProxy.
(** The clock, the shuffle, the time zone, the state file and its decoding. *)
Context (now : Z) (shuffle : list Addr -> list Addr) (localOffset : Z -> Z).
Context (unmarshal : list byte -> res (gmap string usageRecord)) (read_err : option goerr) (fs : filesystem).

Definition newStats (opts : ProxyOpts) (initialSet : secretSet) : ProxyStats :=
  let stats := foldl PreRegister (NewProxyStats now) (names initialSet) in
  let stats := if bool_decide (po_UsageStateFile opts = "") then stats
               else (LoadUsage unmarshal read_err fs (po_UsageStateFile opts) stats).1 in
  if 0 <? po_ThrottleMaxConnections opts
  then SetThrottle stats (int_of_uint (po_ThrottleMaxConnections opts)) (getThrottleCheckInterval opts)
  else stats.

Definition NewProxy (opts : ProxyOpts) : res (fixedSettings * world) :=
  match opts_valid opts with
  | Some e => Fail (Wrap "invalid settings" e)
  | None =>
      tg ← wrap_err "cannot build telegram dc fetcher" (Telegram_New (getPreferIP opts));
      let initialSet := buildSecretSet (getSecrets opts) (po_SecretAdTags opts) (po_GlobalAdTag opts) (po_SecretLimits opts) in
      let serve := mkSettings (clamp_uint32 (po_PendingHandshakesPerIP opts)) (po_PendingHandshakesDryRun opts) tg
                     (po_AllowFallbackOnUnknownDC opts) shuffle localOffset in
      Ok ({| fx_serve := serve;
             fx_domainFrontingPort := getDomainFrontingPort opts;
             fx_domainFrontingHost := po_DomainFrontingHost opts;
             fx_domainFrontingProxyProtocol := po_DomainFrontingProxyProtocol opts;
             fx_tolerateTimeSkewness := getTolerateTimeSkewness opts;
             fx_idleTimeout := getIdleTimeout opts;
             fx_handshakeTimeout := getHandshakeTimeout opts;
             fx_ourIPv4 := po_PublicIPv4 opts;
             fx_ourIPv6 := po_PublicIPv6 opts;
             fx_advertisedPort := po_AdvertisedPort opts;
             fx_usageStateFile := po_UsageStateFile opts;
             fx_emitTraffic := po_EmitTraffic opts;
             fx_reloader := po_SecretsReloader opts;
             fx_pendingHandshakesLog := Throttle_New pendingHandshakesLogInterval;
             fx_concurrency := getConcurrency opts;
             fx_throttleLoop := 0 <? po_ThrottleMaxConnections opts;
             fx_warm := bool_decide (is_Some (po_GlobalAdTag opts)) || (0 <? size (po_SecretAdTags opts))%nat;
             fx_apiServer := if bool_decide (po_APIBindTo opts = "") then None else Some (po_APIBindTo opts, po_APIToken opts);
             fx_usagePersistence := negb (bool_decide (po_UsageStateFile opts = ""));
             fx_doppelGanger := (po_DoppelGangerEach opts, int_of_uint (po_DoppelGangerPerRaid opts),
                                 po_DoppelGangerURLs opts, po_DoppelGangerDRS opts);
             fx_configUpdaters := po_AutoUpdate opts |},
          mkWorld (mkProxy initialSet (newStats opts initialSet) ∅ ∅) newPendingHandshakes ∅ [])
  end.
End NewProxy.

(** [domainFrontingAddressForHost]. *)
Definition domainFrontingAddressForHost (fx : fixedSettings) (host : string) : string :=
  let host := if bool_decide (fx_domainFrontingHost fx = "") then host else fx_domainFrontingHost fx in
  JoinHostPort host (Itoa (fx_domainFrontingPort fx)).

(** ** Shutdown

    [streamWaitGroup] is a counter that the goroutines change themselves: every
    [Serve] and every [ServeConn] runs [Add(1)] as its first statement and the
    deferred [Done()] as its last, and [Shutdown] waits for zero.  The pool starts
    the goroutine of a connection some time after [Invoke] accepted it. *)

Inductive phase := Operating | WaitingForStreams | PoolReleased | UsageFlushed.

#[export] Instance phase_eq_dec : EqDecision phase.
Proof. solve_decision. Defined.

(** A goroutine and how far it is: before its [Add(1)], between that and its
    return, and returning with [Done()] still to run. *)
Inductive goroutine :=
  | ServeCalled | ServeLooping | ServeReturning
  | ConnQueued | ConnRunning | ConnReturning.

#[export] Instance goroutine_eq_dec : EqDecision goroutine.
Proof. solve_decision. Defined.

Record lifecycle := mkLife {
  lc_cancelled : bool;
  lc_waitGroup : Z;
  lc_goroutines : gmap nat goroutine;
  lc_phase : phase
}.

(** A goroutine moves on, or ends, and changes the counter. *)
Definition moves (g : nat) (from : goroutine) (to : option goroutine) (delta : Z) (s : lifecycle) : option lifecycle :=
  if bool_decide (lc_goroutines s !! g = Some from)
  then Some (mkLife (lc_cancelled s) (lc_waitGroup s + delta) (partial_alter (fun _ => to) g (lc_goroutines s)) (lc_phase s))
  else None.

Inductive life_act :=
  | LServe (g : nat)         (* somebody calls [Serve] *)
  | LServeAdd (g : nat)      (* its [streamWaitGroup.Add(1)] *)
  | LInvoke (g c : nat)      (* [Serve] hands a connection to the pool *)
  | LServeReturn (g : nat)   (* the loop of [Serve] is left *)
  | LServeDone (g : nat)     (* its deferred [streamWaitGroup.Done()] *)
  | LConnAdd (c : nat)       (* the pool runs [ServeConn]: [streamWaitGroup.Add(1)] *)
  | LConnReturn (c : nat)    (* the body of [ServeConn] is over *)
  | LConnDone (c : nat)      (* its first deferred call: [streamWaitGroup.Done()] *)
  | LShutdown                (* [ctxCancel], then [streamWaitGroup.Wait] *)
  | LWaited                  (* [Wait] returns, [workerPool.Release] *)
  | LFlush.                  (* the rest of [Shutdown] up to [FlushUsage] *)

Definition life_do (a : life_act) (s : lifecycle) : option lifecycle :=
  match a with
  | LServe g =>
      if bool_decide (lc_goroutines s !! g = None)
      then Some (mkLife (lc_cancelled s) (lc_waitGroup s) (<[g := ServeCalled]> (lc_goroutines s)) (lc_phase s)) else None
  | LServeAdd g => moves g ServeCalled (Some ServeLooping) 1 s
  | LInvoke g c =>
      if bool_decide (lc_goroutines s !! g = Some ServeLooping) && bool_decide (lc_goroutines s !! c = None) &&
         bool_decide (lc_phase s ∈ [Operating; WaitingForStreams])
      then Some (mkLife (lc_cancelled s) (lc_waitGroup s) (<[c := ConnQueued]> (lc_goroutines s)) (lc_phase s)) else None
  | LServeReturn g => moves g ServeLooping (Some ServeReturning) 0 s
  | LServeDone g => moves g ServeReturning None (-1) s
  | LConnAdd c => moves c ConnQueued (Some ConnRunning) 1 s
  | LConnReturn c => moves c ConnRunning (Some ConnReturning) 0 s
  | LConnDone c => moves c ConnReturning None (-1) s
  | LShutdown =>
      if bool_decide (lc_phase s = Operating)
      then Some (mkLife true (lc_waitGroup s) (lc_goroutines s) WaitingForStreams) else None
  | LWaited =>
      if bool_decide (lc_phase s = WaitingForStreams) && (lc_waitGroup s =? 0)
      then Some (mkLife (lc_cancelled s) (lc_waitGroup s) (lc_goroutines s) PoolReleased) else None
  | LFlush =>
      if bool_decide (lc_phase s = PoolReleased)
      then Some (mkLife (lc_cancelled s) (lc_waitGroup s) (lc_goroutines s) UsageFlushed) else None
  end.

Definition life_step (s s' : lifecycle) : Prop := exists a, life_do a s = Some s'.

Definition life_start : lifecycle := mkLife false 0 ∅ Operating.

Fixpoint life_run (l : list life_act) (s : lifecycle) : option lifecycle :=
  match l with [] => Some s | a :: l => s' ← life_do a s; life_run l s' end.

(** ** Proofs: log throttling *)

(** The instants at which a message was written, and the numbers reported. *)
Definition written (rs : list (Z * (bool * Z))) : list Z := fst <$> filter (fun r => r.2.1 = true) rs.
Definition reported (rs : list (Z * (bool * Z))) : Z := foldr (fun r z => r.2.2 + z) 0 rs.

(** Consecutive instants are at least [d] apart. *)
Fixpoint spaced (d : Z) (l : list Z) : Prop :=
  match l with
  | a :: (b :: _) as l' => d <= b - a /\ spaced d l'
  | _ => True
  end.

Lemma spaced_cons d a l : spaced d l -> (forall b, head l = Some b -> d <= b - a) -> spaced d (a :: l).
Proof. destruct l as [|b l]; [done|]. intros Hs H. split; [by apply H|done]. Qed.

Lemma Sub_interval now last d : 0 <= d <= max_int64 -> (Sub now last <? d) = false -> d <= now - last.
Proof. intros Hd H. zbool. unfold Sub, min_int64, max_int64 in *. lia. Qed.

Lemma written_cons now b n rs : written ((now, (b, n)) :: rs) = if b then now :: written rs else written rs.
Proof. unfold written. rewrite filter_cons. by destruct b. Qed.

Lemma Allows_spec times t t' rs :
  Allows times t = (t', rs) -> 0 <= th_interval t <= max_int64 -> 0 <= th_suppressed t ->
  th_suppressed t + Z.of_nat (length times) <= max_int64 ->
  Forall (fun now => now <> zeroTime) times ->
  (th_suppressed t' + reported rs + Z.of_nat (length (written rs)) = th_suppressed t + Z.of_nat (length times)) /\
  spaced (th_interval t) (written rs) /\
  (forall b, head (written rs) = Some b -> th_last t = zeroTime \/ th_interval t <= b - th_last t).
Proof.
  revert t t' rs. induction times as [|now times IH]; intros t t' rs H Hi Hs Hb Hz.
  { injection H as <- <-. simpl. split_and!; [lia|done|done]. }
  simpl in H. apply Forall_cons in Hz as [Hnz Hz]. unfold Allow in H.
  destruct (negb (IsZeroTime (th_last t)) && (Sub now (th_last t) <? th_interval t)) eqn:E.
  - rewrite int64_small in H by (simpl in Hb; unfold min_int64; lia).
    destruct (Allows times _) as [t1 rs1] eqn:H1. injection H as <- <-.
    rewrite written_cons. cbn [length] in *. rewrite Nat2Z.inj_succ in *.
    destruct (IH _ _ _ H1) as (IH1 & IH2 & IH3); cbn [th_suppressed th_interval th_last] in *; try done; try lia.
    split_and!; [cbn [reported foldr snd fst]; fold (reported rs1); lia|done|done].
  - destruct (Allows times _) as [t1 rs1] eqn:H1. injection H as <- <-.
    rewrite written_cons. cbn [length] in *. rewrite !Nat2Z.inj_succ in *.
    destruct (IH _ _ _ H1) as (IH1 & IH2 & IH3); cbn [th_suppressed th_interval th_last] in *; try done; try lia.
    split_and!.
    + cbn [reported foldr snd fst]. fold (reported rs1). lia.
    + apply spaced_cons; [done|]. intros b Hb'. by destruct (IH3 b Hb').
    + intros b [= <-]. apply andb_false_iff in E as [E|E].
      * left. by apply negb_false_iff, Z.eqb_eq in E.
      * right. by apply Sub_interval.
Qed.

(** ** Proofs: the accept loop *)

Lemma NextDelay_range d : d = 0 \/ MinDelay <= d <= MaxDelay -> MinDelay <= NextDelay d <= MaxDelay.
Proof.
  unfold NextDelay, MinDelay, MaxDelay, Millisecond, Second. intros [->|Hd]; [done|].
  destruct (d =? 0) eqn:E; zbool; [lia|]. rewrite int64_small by (unfold min_int64, max_int64; lia). lia.
Qed.

(** The pauses of one call, from the first. *)
Fixpoint delays (n : nat) (d : Z) : list Z :=
  match n with O => [] | S n => NextDelay d :: delays n (NextDelay d) end.

(** The [n]-th pause. *)
Definition backoff (n : nat) : Z := Z.min (MinDelay * 2 ^ Z.of_nat n) MaxDelay.

Lemma NextDelay_backoff n : NextDelay (backoff n) = backoff (S n).
Proof.
  unfold NextDelay, backoff, MinDelay, MaxDelay, Millisecond, Second. rewrite Nat2Z.inj_succ, Z.pow_succ_r by lia.
  assert (1 <= 2 ^ Z.of_nat n) by (apply (Z.pow_le_mono_r 2 0); lia).
  rewrite (proj2 (Z.eqb_neq _ _)) by lia. rewrite int64_small by (unfold min_int64, max_int64; lia). lia.
Qed.

Lemma delays_lookup n k d i :
  (i < n)%nat -> (d = 0 /\ k = 0%nat \/ d = backoff (pred k) /\ k <> 0%nat) -> delays n d !! i = Some (backoff (k + i)).
Proof.
  revert k d i. induction n as [|n IH]; intros k d i Hi Hd; [lia|]. simpl.
  assert (NextDelay d = backoff k) as Hn.
  { destruct Hd as [[-> ->]|[-> Hk]]; [done|]. rewrite NextDelay_backoff. f_equal. lia. }
  destruct i as [|i]; simpl; [by rewrite Hn, Nat.add_0_r|].
  rewrite (IH (S k)); [f_equal; f_equal; lia|lia|]. right. by rewrite Hn.
Qed.

(** A temporary error with a live context. *)
Definition transient (t : tick) : Prop :=
  exists e, t_result t = AcceptError e /\ IsTemporary e = true /\ t_cancelled t = false /\ t_expired t = false.

(** The outcome does not depend on the length of the pauses. *)
Lemma accept_delay d d' script : fst <$> acceptWithRetry d script = fst <$> acceptWithRetry d' script.
Proof.
  revert d d'. induction script as [|t script IH]; intros d d'; [done|]. simpl. destruct (t_result t) as [a|e]; [done|].
  destruct (t_cancelled t || _); [done|]. destruct (t_expired t); [done|]. specialize (IH (NextDelay d) (NextDelay d')).
  destruct (acceptWithRetry (NextDelay d) script) as [[[o r] ds]|], (acceptWithRetry (NextDelay d') script) as [[[o' r'] ds']|];
    simpl in *; congruence.
Qed.

Lemma accept_shorter d script o rest ds :
  acceptWithRetry d script = Some (o, rest, ds) -> (length rest < length script)%nat.
Proof.
  revert d ds. induction script as [|t script IH]; intros d ds; simpl; [done|].
  destruct (t_result t) as [a|e]; [intros [= _ <- _]; lia|].
  destruct (t_cancelled t || _); [intros [= _ <- _]; lia|]. destruct (t_expired t); [intros [= _ <- _]; lia|].
  destruct (acceptWithRetry _ script) as [[[o' r'] ds']|] eqn:E; [|done]. simpl. intros [= -> -> _].
  apply IH in E. lia.
Qed.

(** More fuel than ticks changes nothing. *)
Lemma Serve_loop_fuel n m script :
  (length script < n)%nat -> (length script < m)%nat -> Serve_loop n script = Serve_loop m script.
Proof.
  revert m script. induction n as [|n IH]; intros m script Hn Hm; [lia|]. destruct m as [|m]; [lia|]. simpl.
  destruct (acceptWithRetry 0 script) as [[[[a|e d] rest] ds]|] eqn:E; try done.
  destruct (admit_conn a) as [d c]. destruct c; [|done]. pose proof (accept_shorter _ _ _ _ _ E).
  by rewrite (IH m rest) by lia.
Qed.

(** The connections of a list of ticks, with what becomes of them. *)
Definition accepted (script : list tick) : list arrival :=
  omap (fun t => match t_result t with Accepted a => Some a | AcceptError _ => None end) script.

(** The pool is closed when a connection that both lists let through is given
    to it. *)
Definition refused_closed (a : arrival) : Prop :=
  a_allowlisted a = true /\ a_blocklisted a = false /\ a_invoke a = ErrPoolClosed.

Lemma admit_conn_ends a : (admit_conn a).2 = false <-> refused_closed a.
Proof. unfold admit_conn, refused_closed. destruct (a_allowlisted a), (a_blocklisted a), (a_invoke a); naive_solver. Qed.

(** What may become of a connection, and why. *)
Definition disposed (a : arrival) (x : nat * disposition) : Prop :=
  x.1 = a_conn a /\
  (x.2 = RejectedByAllowlist <-> a_allowlisted a = false) /\
  (x.2 = RejectedByBlocklist <-> a_allowlisted a = true /\ a_blocklisted a = true) /\
  (x.2 = Served <-> a_allowlisted a = true /\ a_blocklisted a = false /\ a_invoke a = InvokeOk) /\
  (x.2 = ConcurrencyLimited <-> a_allowlisted a = true /\ a_blocklisted a = false /\ a_invoke a = ErrPoolOverload) /\
  (x.2 = LeftOpen <-> a_allowlisted a = true /\ a_blocklisted a = false /\ (a_invoke a = ErrPoolClosed \/ a_invoke a = InvokeOther)).

Lemma admit_conn_disposed a : disposed a (a_conn a, (admit_conn a).1).
Proof. unfold disposed, admit_conn. destruct (a_allowlisted a), (a_blocklisted a), (a_invoke a); naive_solver. Qed.

(** Nothing ends the loop: connections, unless the pool is closed, and
    transient errors. *)
Definition harmless (t : tick) : Prop :=
  transient t \/ exists a, t_result t = Accepted a /\ ~ refused_closed a.

Lemma Serve_cons_conn t a script :
  t_result t = Accepted a ->
  Serve (t :: script) = let '(d, c) := admit_conn a in
    if c : bool then let '(r, log) := Serve script in (r, (a_conn a, d) :: log) else (ReturnNil, [(a_conn a, d)]).
Proof.
  intros Hr. unfold Serve. cbn [length Serve_loop acceptWithRetry]. rewrite Hr. destruct (admit_conn a) as [d c].
  by destruct c.
Qed.

(** A transient error is as if it had not happened. *)
Lemma Serve_cons_transient t script : transient t -> Serve (t :: script) = Serve script.
Proof.
  intros (e & Hr & Ht & Hc & He). unfold Serve. cbn [length]. rewrite (Serve_loop_fuel (S (length script)) (S (S (length script)))) by lia.
  cbn [Serve_loop acceptWithRetry]. rewrite Hr, Ht, Hc, He. cbn [orb negb].
  pose proof (accept_delay (NextDelay 0) 0 script) as Hd.
  destruct (acceptWithRetry (NextDelay 0) script) as [[[o r] ds]|], (acceptWithRetry 0 script) as [[[o' r'] ds']|];
    simplify_eq/=; done.
Qed.

(** What becomes of the connections of harmless ticks. *)
Definition dispositions (script : list tick) : list (nat * disposition) :=
  (fun a => (a_conn a, (admit_conn a).1)) <$> accepted script.

Lemma dispositions_disposed script : Forall2 disposed (accepted script) (dispositions script).
Proof.
  unfold dispositions. induction (accepted script) as [|a l IH]; [constructor|]. constructor; [apply admit_conn_disposed|done].
Qed.

(** What a tick that is not harmless does. *)
Definition last_tick (t : tick) : serveResult * list (nat * disposition) :=
  match t_result t with
  | Accepted a => (ReturnNil, [(a_conn a, (admit_conn a).1)])
  | AcceptError e => (if t_done t then ReturnNil
                      else ReturnErr (if t_cancelled t || negb (IsTemporary e) then e else contextCanceled), [])
  end.

Lemma Serve_harmless pre script :
  Forall harmless pre -> Serve (pre ++ script) = let '(r, log) := Serve script in (r, dispositions pre ++ log).
Proof.
  induction 1 as [|t pre [Ht|(a & Hr & Ha)] Hpre IH]; [rewrite app_nil_l; by destruct (Serve script)|..].
  - rewrite <- app_comm_cons, Serve_cons_transient, IH by done. destruct Ht as (e & Hr & _).
    unfold dispositions, accepted. simpl. by rewrite Hr.
  - rewrite <- app_comm_cons, (Serve_cons_conn t a) by done. destruct (admit_conn a) as [d c] eqn:Had.
    assert (c = true) as -> by (destruct c; [done|exfalso; apply Ha, admit_conn_ends; by rewrite Had]).
    rewrite IH. unfold dispositions, accepted. simpl. rewrite Hr. cbn [fmap list_fmap]. rewrite Had. by destruct (Serve script).
Qed.

Lemma Serve_last t script : ~ harmless t -> Serve (t :: script) = last_tick t.
Proof.
  intros Hn. unfold last_tick. destruct (t_result t) as [a|e] eqn:Hr.
  - rewrite (Serve_cons_conn t a) by done. destruct (admit_conn a) as [d c] eqn:Ha. destruct c; [|done].
    exfalso. apply Hn. right. exists a. split; [done|]. intros H%admit_conn_ends. by rewrite Ha in H.
  - unfold Serve. cbn [length Serve_loop acceptWithRetry]. rewrite Hr.
    destruct (t_cancelled t) eqn:Hc; [done|]. simpl. destruct (IsTemporary e) eqn:Ht; simpl; [|done].
    destruct (t_expired t) eqn:He; [done|]. exfalso. apply Hn. left. by exists e.
Qed.

#[export] Instance transient_dec t : Decision (transient t).
Proof.
  destruct (t_result t) as [a|e] eqn:Hr; [right; intros (e & He & _); congruence|].
  destruct (decide (IsTemporary e = true /\ t_cancelled t = false /\ t_expired t = false)) as [H|H].
  - left. by exists e.
  - right. intros (e' & He' & H'). rewrite Hr in He'. injection He' as <-. by apply H.
Defined.

#[export] Instance harmless_dec t : Decision (harmless t).
Proof.
  destruct (decide (transient t)) as [H|H]; [left; by left|].
  destruct (t_result t) as [a|e] eqn:Hr; [|right; intros [?|(a & Ha & _)]; congruence].
  destruct (admit_conn a).2 eqn:Ha.
  - left. right. exists a. split; [done|]. intros Hc%admit_conn_ends. congruence.
  - right. intros [?|(a' & Ha' & Hc)]; [done|]. rewrite Hr in Ha'. injection Ha' as <-. by apply Hc, admit_conn_ends.
Defined.

Lemma harmless_split script :
  Forall harmless script \/ exists pre t post, script = pre ++ t :: post /\ Forall harmless pre /\ ~ harmless t.
Proof.
  induction script as [|t script IH]; [by left|]. destruct (decide (harmless t)) as [Ht|Ht].
  - destruct IH as [IH|(pre & t' & post & -> & Hpre & Ht')]; [left; by constructor|].
    right. exists (t :: pre), t', post. split_and!; [done|by constructor|done].
  - right. by exists [], t, script.
Qed.

(** ** Proofs: construction *)

Section construction.
Context (now : Z) (shuffle : list Addr -> list Addr) (localOffset : Z -> Z).
Context (unmarshal : list byte -> res (gmap string usageRecord)) (read_err : option goerr) (fs : filesystem).

Lemma LoadUsage_conns path s : same_conns s (LoadUsage unmarshal read_err fs path s).1.
Proof.
  unfold LoadUsage. destruct read_err; [done|]. destruct (fs !! path) as [data|]; [|done].
  destruct (unmarshal data) as [records|]; [|done]. simpl.
  induction (map_to_list records) as [|kv l IH]; [done|]. simpl. intros n. rewrite <- (IH n).
  by apply update_conns.
Qed.

Lemma PreRegister_conns l s : same_conns s (foldl PreRegister s l).
Proof.
  revert s. induction l as [|name l IH]; intros s; [done|]. intros n. simpl. rewrite (IH (PreRegister s name) n).
  by rewrite PreRegister_stats.
Qed.

Lemma newStats_conns opts set n : connections (stats_of (newStats now unmarshal read_err fs opts set) n) = 0.
Proof.
  unfold newStats. set (s0 := foldl _ _ _).
  assert (connections (stats_of s0 n) = 0) as H0 by (unfold s0; by rewrite (PreRegister_conns _ _ n)).
  set (s1 := if bool_decide _ then _ else _).
  assert (connections (stats_of s1 n) = 0) as H1.
  { unfold s1. case_bool_decide; [done|]. by rewrite (LoadUsage_conns _ _ n). }
  by destruct (0 <? po_ThrottleMaxConnections opts).
Qed.
End construction.

(** A secret a client can prove the knowledge of: its key is not the zero one and
    it names a host. *)
Definition usable_secret (s : Secret) : Prop := Key s <> replicate 16 Byte.x00 /\ Host s <> "".

Lemma Valid_usable s : Valid s = true <-> usable_secret s.
Proof. unfold Valid, usable_secret. rewrite andb_true_iff, !negb_true_iff, !bool_decide_eq_false. done. Qed.

Lemma getSecrets_usable opts :
  (size (getSecrets opts) =? 0)%nat = false /\ forallb (fun kv => Valid kv.2) (map_to_list (getSecrets opts)) = true <->
  po_Secrets opts <> ∅ /\ map_Forall (fun _ s => usable_secret s) (po_Secrets opts) \/
  po_Secrets opts = ∅ /\ usable_secret (po_Secret opts).
Proof.
  rewrite forallb_map. unfold getSecrets. destruct (decide (po_Secrets opts = ∅)) as [He|He].
  - rewrite He, map_size_empty. simpl. rewrite <- Valid_usable. destruct (Valid (po_Secret opts)) eqn:Hv.
    + rewrite map_size_singleton. split; [naive_solver|]. intros _. split; [done|].
      apply map_Forall_singleton. by rewrite Hv.
    + rewrite map_size_empty. naive_solver.
  - assert (size (po_Secrets opts) <> 0%nat) as Hs by (by intros ?%map_size_empty_iff).
    destruct (0 <? size (po_Secrets opts))%nat eqn:E; [|zbool; lia].
    rewrite (proj2 (Nat.eqb_neq _ _)) by done. 
    assert (map_Forall (fun k x => Valid (k, x).2 = true) (po_Secrets opts) <-> map_Forall (fun _ s => usable_secret s) (po_Secrets opts)) as ->
      by (split; intros H i x Hi; apply Valid_usable, (H i x Hi)).
    naive_solver.
Qed.

Lemma opts_valid_iff opts :
  opts_valid opts = None <->
  po_Network opts = true /\ po_AntiReplayCache opts = true /\ po_IPBlocklist opts = true /\ po_IPAllowlist opts = true /\
  po_EventStream opts = true /\ po_Logger opts = true /\
  (po_Secrets opts <> ∅ /\ map_Forall (fun _ s => usable_secret s) (po_Secrets opts) \/
   po_Secrets opts = ∅ /\ usable_secret (po_Secret opts)).
Proof.
  rewrite <- getSecrets_usable. unfold opts_valid. destruct (po_Network opts); [|naive_solver]. simpl.
  destruct (po_AntiReplayCache opts); [|naive_solver]. simpl. destruct (po_IPBlocklist opts); [|naive_solver]. simpl.
  destruct (po_IPAllowlist opts); [|naive_solver]. simpl. destruct (po_EventStream opts); [|naive_solver]. simpl.
  destruct (po_Logger opts); [|naive_solver]. simpl. destruct (size (getSecrets opts) =? 0)%nat; [naive_solver|].
  destruct (forallb _ _); naive_solver.
Qed.

Lemma preference_iff opts :
  is_ok (Telegram_New (getPreferIP opts)) = true <->
  po_PreferIP opts = "" \/ ToLower (po_PreferIP opts) ∈ ["prefer-ipv4"; "prefer-ipv6"; "only-ipv4"; "only-ipv6"].
Proof.
  unfold getPreferIP. case_bool_decide as He; [rewrite He; split; [by left|done]|].
  unfold Telegram_New. rewrite !elem_of_cons, elem_of_nil. repeat case_bool_decide; naive_solver.
Qed.

Lemma NewProxy_ok_iff now shuffle localOffset unmarshal read_err fs opts :
  is_ok (NewProxy now shuffle localOffset unmarshal read_err fs opts) = true <->
  opts_valid opts = None /\ is_ok (Telegram_New (getPreferIP opts)) = true.
Proof.
  unfold NewProxy. destruct (opts_valid opts) as [e|]; [naive_solver|]. destruct (Telegram_New _); simpl; naive_solver.
Qed.

(** ** Proofs: shutdown *)

(** The goroutines between their [Add(1)] and their [Done()]. *)
Definition working (g : goroutine) : bool :=
  match g with ServeCalled | ConnQueued => false | _ => true end.

Definition workers (m : gmap nat goroutine) : gmap nat goroutine := filter (fun kv => working kv.2 = true) m.

(** A goroutine of a connection. *)
Definition is_conn (g : goroutine) : bool :=
  match g with ConnQueued | ConnRunning | ConnReturning => true | _ => false end.

Definition bit (b : bool) : Z := if b then 1 else 0.

Arguments working : simpl nomatch.
Arguments bit : simpl nomatch.

Lemma size_workers_alter m g from to :
  m !! g = from ->
  Z.of_nat (size (workers (partial_alter (fun _ => to) g m))) =
    Z.of_nat (size (workers m)) - bit (default false (working <$> from)) + bit (default false (working <$> to)).
Proof.
  intros Hg. assert (Z.of_nat (size (workers (delete g m))) = Z.of_nat (size (workers m)) - bit (default false (working <$> from))) as Hd.
  { unfold workers. rewrite map_filter_delete, map_size_delete.
    destruct (filter (fun kv : nat * goroutine => working kv.2 = true) m !! g) as [x|] eqn:El.
    - pose proof El as [Hx Hw]%map_lookup_filter_Some. simpl in Hw. rewrite <- Hg, Hx. simpl. rewrite Hw. simpl.
      destruct (size (filter _ m)) eqn:Hz; [|lia]. apply map_size_empty_iff in Hz. by rewrite Hz in El.
    - destruct from as [x|]; simpl; [|lia]. apply map_lookup_filter_None in El as [El|El]; [congruence|].
      specialize (El x Hg). simpl in El. apply not_true_is_false in El. rewrite El. simpl. lia. }
  destruct to as [y|]; [|simpl; change (partial_alter (fun _ => None) g m) with (delete g m); lia].
  change (partial_alter (fun _ => Some y) g m) with (<[g := y]> m).
  rewrite <- (insert_delete_eq m g y). simpl. unfold workers in *. destruct (working y) eqn:Hy; simpl.
  - rewrite map_filter_insert_True by done. rewrite map_size_insert_None; [lia|].
    apply map_lookup_filter_None. left. apply lookup_delete_eq.
  - rewrite map_filter_insert_False by (simpl; congruence). rewrite delete_delete_eq. lia.
Qed.

(** The counter is the number of goroutines that added to it and are not done;
    a wait group panics when it becomes negative. *)
Definition counted (s : lifecycle) : Prop := lc_waitGroup s = Z.of_nat (size (workers (lc_goroutines s))).

Lemma moves_counted g from to delta s s' :
  counted s -> moves g from to delta s = Some s' -> delta = bit (default false (working <$> to)) - bit (working from) -> counted s'.
Proof.
  unfold moves, counted. intros Hc Hm Hd. case_bool_decide as Hg; [|done]. injection Hm as <-. simpl.
  rewrite (size_workers_alter _ g (Some from)) by done. simpl. lia.
Qed.

Lemma counted_step s s' : counted s -> life_step s s' -> counted s'.
Proof.
  intros Hc [a Ha]. destruct a; simpl in Ha; try (by eapply moves_counted); case_bool_decide as Hb; simpl in Ha; simplify_eq; try done.
  - unfold counted in *. simpl. change (<[g:=ServeCalled]> ?m) with (partial_alter (fun _ => Some ServeCalled) g m).
    rewrite (size_workers_alter _ g None) by done. simpl. lia.
  - case_bool_decide as Hn; simpl in Ha; [|done]. case_bool_decide; simplify_eq. unfold counted in *. simpl.
    change (<[c:=ConnQueued]> ?m) with (partial_alter (fun _ => Some ConnQueued) c m).
    rewrite (size_workers_alter _ c None) by done. simpl. lia.
  - by destruct (lc_waitGroup s =? 0); simplify_eq.
Qed.

Lemma counted_reach s : rtc life_step life_start s -> counted s.
Proof.
  intros H. assert (counted life_start) as H0 by (unfold counted, workers, life_start; simpl; by rewrite map_filter_empty).
  revert H0. induction H; eauto using counted_step.
Qed.

(** After [Wait] has returned no connection enters that was not with the pool at
    that moment. *)
Definition drained (m : gmap nat goroutine) (s : lifecycle) : Prop :=
  (lc_phase s = PoolReleased \/ lc_phase s = UsageFlushed) /\
  forall c g, lc_goroutines s !! c = Some g -> is_conn g = true -> m !! c = Some ConnQueued.

Lemma moves_drained m g from to delta s s' :
  drained m s -> moves g from to delta s = Some s' -> (forall x, to = Some x -> is_conn x = is_conn from) -> drained m s'.
Proof.
  intros [Hp Hm] Hs Hto. unfold moves in Hs. case_bool_decide as Hg; simplify_eq/=. split; [done|]. intros c x Hc Hx. simpl in Hc.
  destruct (decide (g = c)) as [->|Hne]; [|rewrite lookup_partial_alter_ne in Hc by done; eauto].
  rewrite lookup_partial_alter_eq in Hc. eapply Hm; [done|]. by rewrite <- (Hto x).
Qed.

Lemma drained_step m s s' : drained m s -> life_step s s' -> drained m s'.
Proof.
  intros Hd [a Ha]. destruct a; simpl in Ha; try (eapply moves_drained; [done..|naive_solver]); destruct Hd as [Hp Hm];
    case_bool_decide as Hb; simpl in Ha; simplify_eq.
  - split; [done|]. simpl. intros c x [[<- <-]|[_ Hc]]%lookup_insert_Some; [done|eauto].
  - case_bool_decide; simpl in Ha; [|done]. case_bool_decide as Hph; [|done]. exfalso.
    rewrite !elem_of_cons, elem_of_nil in Hph. destruct Hp, Hph as [|[|]]; congruence.
  - destruct Hp; congruence.
  - destruct Hp; congruence.
  - split; [by right|done].
Qed.

Lemma life_run_steps l s s' : life_run l s = Some s' -> rtc life_step s s'.
Proof.
  revert s. induction l as [|a l IH]; intros s; simpl; [intros [= ->]; apply rtc_refl|].
  destruct (life_do a s) as [s1|] eqn:Ha; [|done]. simpl. intros Hs. eapply rtc_l; [by exists a|]. by apply IH.
Qed.

(** Steps by which a goroutine that holds the wait group ends. *)
Definition finishing (a : life_act) : Prop :=
  match a with LServeReturn _ | LServeDone _ | LConnReturn _ | LConnDone _ => True | _ => False end.

Lemma moves_do g from to delta s :
  lc_goroutines s !! g = Some from ->
  moves g from to delta s =
    Some (mkLife (lc_cancelled s) (lc_waitGroup s + delta) (partial_alter (fun _ => to) g (lc_goroutines s)) (lc_phase s)).
Proof. intros H. unfold moves. by rewrite bool_decide_true. Qed.

(** One of them ends, and gives its unit back. *)
Lemma worker_ends s g x :
  lc_goroutines s !! g = Some x -> working x = true ->
  exists l s', Forall finishing l /\ life_run l s = Some s' /\ lc_phase s' = lc_phase s /\ lc_waitGroup s' = lc_waitGroup s - 1 /\
    rtc life_step s s'.
Proof.
  intros Hg Hx.
  assert (exists l s', Forall finishing l /\ life_run l s = Some s' /\ lc_phase s' = lc_phase s /\ lc_waitGroup s' = lc_waitGroup s - 1)
    as (l & s' & H1 & H2 & H3).
  { destruct x; try done.
    - exists [LServeReturn g; LServeDone g]. eexists. split; [by repeat constructor|]. simpl. rewrite moves_do by done. simpl.
      rewrite moves_do by (simpl; apply lookup_partial_alter_eq). simpl. split_and!; [done..|]. simpl. lia.
    - exists [LServeDone g]. eexists. split; [by repeat constructor|]. simpl. rewrite moves_do by done. done.
    - exists [LConnReturn g; LConnDone g]. eexists. split; [by repeat constructor|]. simpl. rewrite moves_do by done. simpl.
      rewrite moves_do by (simpl; apply lookup_partial_alter_eq). simpl. split_and!; [done..|]. simpl. lia.
    - exists [LConnDone g]. eexists. split; [by repeat constructor|]. simpl. rewrite moves_do by done. done. }
  exists l, s'. destruct H3. split_and!; try done. by eapply life_run_steps.
Qed.

Lemma life_run_app l l' s s' s'' : life_run l s = Some s' -> life_run l' s' = Some s'' -> life_run (l ++ l') s = Some s''.
Proof.
  revert s. induction l as [|a l IH]; intros s H1 H2; simplify_eq/=; [done|].
  destruct (life_do a s) as [s1|]; simplify_eq/=. by apply IH.
Qed.

(** All of them end, and the counter is zero. *)
Lemma all_end n s :
  counted s -> size (workers (lc_goroutines s)) = n ->
  exists l s', Forall finishing l /\ life_run l s = Some s' /\ lc_phase s' = lc_phase s /\ lc_waitGroup s' = 0.
Proof.
  revert s. induction n as [|n IH]; intros s Hc Hn.
  { exists [], s. unfold counted in Hc. rewrite Hn in Hc. by split_and!. }
  assert (workers (lc_goroutines s) <> ∅) as Hne by (intros He; by rewrite He in Hn).
  apply map_choose in Hne as (g & x & Hg). unfold workers in Hg. apply map_lookup_filter_Some in Hg as [Hg Hx].
  destruct (worker_ends s g x Hg Hx) as (l & s1 & Hl & Hr & Hp & Hw & Hst).
  assert (counted s1) as Hc1 by (clear -Hc Hst; induction Hst; eauto using counted_step).
  destruct (IH s1 Hc1) as (l' & s2 & Hl' & Hr' & Hp' & Hw').
  { unfold counted in *. lia. }
  exists (l ++ l'), s2. split_and!; [by apply Forall_app|by eapply life_run_app|congruence|done].
Qed.

Lemma waited_idle s s' :
  counted s -> life_do LWaited s = Some s' ->
  lc_phase s' = PoolReleased /\ lc_goroutines s' = lc_goroutines s /\ workers (lc_goroutines s) = ∅.
Proof.
  unfold counted. simpl. intros Hc. case_bool_decide; [|done]. simpl. destruct (lc_waitGroup s =? 0) eqn:Hz; [|done]. zbool.
  intros [= <-]. split_and!; [done..|]. apply map_size_empty_iff. lia.
Qed.

(** ** Claims *)

(** C29: the accept loop.  Whatever the listener, the lists and the pool answer,
    [Serve] handles the connections of a prefix of the answers in order, each
    exactly once, and goes on through every temporary error.  A connection is
    rejected (closed) by the allowlist exactly when its address is not on it, by
    the blocklist exactly when it is allowed but on the blocklist, handed to a
    worker exactly when both lists let it through and the pool takes it, closed
    as over the concurrency limit exactly when the pool is full, and left open
    only when the pool gives another error.  [Serve] returns an error only when
    [Accept] failed for good while the proxy was running, and nil only when the
    proxy is shutting down or its pool is closed. *)
Theorem serve_loop script r log :
  Forall tick_ok script -> Serve script = (r, log) ->
  exists pre post, script = pre ++ post /\ Forall harmless pre /\
    match r with
    | Waiting => post = [] /\ Forall2 disposed (accepted pre) log
    | ReturnErr e => exists t rest, post = t :: rest /\ t_result t = AcceptError e /\ IsTemporary e = false /\
        t_done t = false /\ Forall2 disposed (accepted pre) log
    | ReturnNil => exists t rest, post = t :: rest /\
        ((t_done t = true /\ Forall2 disposed (accepted pre) log) \/
         exists a log', t_result t = Accepted a /\ refused_closed a /\ log = log' ++ [(a_conn a, LeftOpen)] /\
           Forall2 disposed (accepted pre) log')
    end.
Proof.
  intros Hok H. destruct (harmless_split script) as [Hall|(pre & t & post & -> & Hpre & Ht)].
  - exists script, []. rewrite app_nil_r. split_and!; [done|done|]. rewrite <- (app_nil_r script), Serve_harmless in H by done.
    simplify_eq/=. rewrite app_nil_r. split; [done|apply dispositions_disposed].
  - exists pre, (t :: post). split_and!; [done|done|]. rewrite Serve_harmless, Serve_last in H by done. unfold last_tick in H.
    apply Forall_app in Hok as [_ [Htok _]%Forall_cons]. unfold tick_ok in Htok. pose proof (dispositions_disposed pre) as Hd.
    destruct (t_result t) as [a|e] eqn:Hr; simplify_eq/=.
    + exists t, post. split; [done|]. right. exists a, (dispositions pre).
      assert (refused_closed a) as Hc.
      { apply admit_conn_ends. destruct (admit_conn a).2 eqn:E; [|done]. exfalso. apply Ht. right. exists a. split; [done|].
        intros Hc%admit_conn_ends. congruence. }
      split_and!; [done|done| |done]. destruct Hc as (H1 & H2 & H3). unfold admit_conn. by rewrite H1, H2, H3.
    + destruct (t_done t) eqn:Hdn; simplify_eq/=; rewrite app_nil_r; exists t, post; [split; [done|]; by left|].
      assert (t_cancelled t = false /\ t_expired t = false) as [Hc Hx].
      { split; apply not_true_is_false; intros Hx; try rewrite Hdn in Htok; discriminate (Htok ltac:(auto)). }
      rewrite Hc. destruct (IsTemporary e) eqn:He; simpl; [|done].
      exfalso. apply Ht. left. by exists e.
Qed.

Lemma accept_delays d script o rest ds :
  acceptWithRetry d script = Some (o, rest, ds) -> exists n, ds = delays n d.
Proof.
  revert d ds. induction script as [|t script IH]; intros d ds; simpl; [done|].
  destruct (t_result t) as [a|e]; [intros [= _ _ <-]; by exists 0%nat|].
  destruct (t_cancelled t || _); [intros [= _ _ <-]; by exists 0%nat|].
  destruct (t_expired t); [intros [= _ _ <-]; by exists 1%nat|].
  destruct (acceptWithRetry (NextDelay d) script) as [[[o' r'] ds']|] eqn:E; [|done]. simpl. intros [= -> -> <-].
  destruct (IH _ _ E) as [n ->]. by exists (S n).
Qed.

(** The pauses of the accept loop are bounded: the n-th consecutive pause is
    5 ms doubled n times, capped at one second, and every accepted connection
    starts the sequence again. *)
Theorem accept_backoff script o rest ds i d :
  acceptWithRetry 0 script = Some (o, rest, ds) -> ds !! i = Some d ->
  d = Z.min (5 * Millisecond * 2 ^ Z.of_nat i) Second /\ MinDelay <= d <= MaxDelay.
Proof.
  intros H Hi. destruct (accept_delays _ _ _ _ _ H) as [n ->].
  assert (i < n)%nat as Hn.
  { apply lookup_lt_Some in Hi. clear -Hi. revert Hi. generalize 0. revert i. induction n as [|n IH]; simpl; [lia|].
    intros [|i] z Hi; [lia|]. specialize (IH i (NextDelay z)). lia. }
  rewrite (delays_lookup n 0 0 i Hn) in Hi by (by left). injection Hi as <-. split; [done|].
  unfold backoff, MinDelay, MaxDelay, Millisecond, Second. simpl Nat.add.
  assert (1 <= 2 ^ Z.of_nat i) by (apply (Z.pow_le_mono_r 2 0); lia). lia.
Qed.

(** A flood does not reach the log and is not hidden either: the lines that
    [Allow] lets through are at least the interval apart, and the suppressed
    counts they carry, with the one still held, account for every call that was
    not written. *)
Theorem log_throttle interval times t rs :
  Allows times (Throttle_New interval) = (t, rs) -> 0 <= interval <= max_int64 ->
  Z.of_nat (length times) <= max_int64 -> Forall (fun now => now <> zeroTime) times ->
  spaced interval (written rs) /\ th_suppressed t + reported rs = Z.of_nat (length times) - Z.of_nat (length (written rs)).
Proof.
  intros H Hi Hl Hz. destruct (Allows_spec times (Throttle_New interval) t rs H) as (H1 & H2 & _); simpl in *; try done.
  split; [done|]. lia.
Qed.

(** C31: construction.  [NewProxy] succeeds exactly when the network, the
    anti-replay cache, both IP lists, the event stream and the logger are set,
    the secrets are usable (the table of secrets is not empty and each has a key
    that is not zero and a host name, or it is empty and the single secret has
    them), and the IP preference is, up to case, one of the four known names or
    empty.  The proxy it makes is an initial state of the serving model (it
    implements a well-formed configuration, no connection is counted even after
    the usage file was loaded), with a pending-handshake limit of 32 bits and
    every secret of the options served. *)
Theorem new_proxy_initial now shuffle localOffset unmarshal read_err fs opts :
  (is_ok (NewProxy now shuffle localOffset unmarshal read_err fs opts) = true <->
     po_Network opts = true /\ po_AntiReplayCache opts = true /\ po_IPBlocklist opts = true /\ po_IPAllowlist opts = true /\
     po_EventStream opts = true /\ po_Logger opts = true /\
     (po_Secrets opts <> ∅ /\ map_Forall (fun _ s => usable_secret s) (po_Secrets opts) \/
      po_Secrets opts = ∅ /\ usable_secret (po_Secret opts)) /\
     (po_PreferIP opts = "" \/ ToLower (po_PreferIP opts) ∈ ["prefer-ipv4"; "prefer-ipv6"; "only-ipv4"; "only-ipv6"])) /\
  (forall fx w, NewProxy now shuffle localOffset unmarshal read_err fs opts = Ok (fx, w) ->
     initial w /\ 0 <= s_limit (fx_serve fx) < 2 ^ 32 /\
     (forall n s, getSecrets opts !! n = Some s -> usable_secret s /\ n ∈ names (p_secrets (w_proxy w)))).
Proof.
  split; [by rewrite NewProxy_ok_iff, opts_valid_iff, preference_iff; tauto|].
  intros fx w H. unfold NewProxy in H. destruct (opts_valid opts) as [e|] eqn:Hv; [done|].
  destruct (Telegram_New (getPreferIP opts)) as [tg|e] eqn:Htg; simplify_eq/=.
  set (cfg := mkConfig (getSecrets opts) (po_SecretAdTags opts) (po_GlobalAdTag opts) (po_SecretLimits opts)).
  assert ((size (Secrets cfg) =? 0)%nat = false /\ configValid (Secrets cfg) = true) as [Hs Hc].
  { unfold opts_valid in Hv. repeat (case_match; [done|]). split; [done|]. by apply negb_false_iff. }
  split_and!; [split_and!; try done|..].
  - exists (view_of cfg). split; [by rewrite view_ok_spec, Hs, Hc|]. by exists cfg.
  - intros n. apply newStats_conns.
  - apply uwrap_range. lia.
  - apply uwrap_range. lia.
  - intros n s Hn. unfold configValid in Hc. rewrite forallb_map in Hc. split; [by apply Valid_usable, (Hc n)|].
    refine (proj2 (names_elem (getSecrets opts) (po_SecretAdTags opts) (po_GlobalAdTag opts) (po_SecretLimits opts) n) _).
    by exists s.
Qed.


(** A connection that the pool has accepted but not started is not waited for:
    it can still be running when the usage is written. *)
Lemma shutdown_race :
  exists s, rtc life_step life_start s /\ lc_phase s = UsageFlushed /\ lc_goroutines s = {[7%nat := ConnRunning]}.
Proof.
  eexists. split.
  - apply (life_run_steps [LServe 1; LServeAdd 1; LInvoke 1 7; LShutdown; LServeReturn 1; LServeDone 1; LWaited; LConnAdd 7; LFlush]).
    vm_compute. reflexivity.
  - split; vm_compute; reflexivity.
Qed.

(** ** Witnesses *)

Definition demo_arrival (c : nat) (r : invokeResult) : arrival := mkArrival c demo_ip true false r.
Definition demo_script : list tick :=
  [mkTick (AcceptError (NetOpError (NetSyscallError (NetErrno EMFILE)))) false false false;
   mkTick (AcceptError (NetErrno ECONNABORTED)) false false false;
   mkTick (Accepted (demo_arrival 1 InvokeOk)) false false false;
   mkTick (Accepted (mkArrival 2 demo_ip true true InvokeOk)) false false false;
   mkTick (Accepted (demo_arrival 3 ErrPoolOverload)) false false false;
   mkTick (AcceptError (NetOpError NetErrClosed)) false false false].

Lemma demo_script_ok : Forall tick_ok demo_script.
Proof. repeat constructor; intros [?|?]; done. Qed.

Lemma serve_loop_witness :
  Serve demo_script = (ReturnErr (NetOpError NetErrClosed), [(1%nat, Served); (2%nat, RejectedByBlocklist); (3%nat, ConcurrencyLimited)]) /\
  exists pre post, demo_script = pre ++ post /\ Forall harmless pre.
Proof.
  split; [vm_compute; reflexivity|].
  destruct (serve_loop demo_script _ _ demo_script_ok ltac:(vm_compute; reflexivity)) as (pre & post & H1 & H2 & _).
  by exists pre, post.
Defined.

Lemma accept_backoff_witness :
  exists o rest ds, acceptWithRetry 0 demo_script = Some (o, rest, ds) /\ ds !! 1%nat = Some (10 * Millisecond) /\
    MinDelay <= 10 * Millisecond <= MaxDelay.
Proof.
  eexists _, _, _. split; [vm_compute; reflexivity|]. split; [vm_compute; reflexivity|].
  exact (proj2 (accept_backoff demo_script _ _ _ 1 (10 * Millisecond) ltac:(vm_compute; reflexivity) ltac:(vm_compute; reflexivity))).
Defined.

Lemma log_throttle_witness :
  let '(t, rs) := Allows [100; 103; 105; 110; 111] (Throttle_New 10) in
  written rs = [100; 110] /\ spaced 10 (written rs).
Proof.
  split; [vm_compute; reflexivity|].
  apply (log_throttle 10 [100; 103; 105; 110; 111] _ _ ltac:(vm_compute; reflexivity)); [by split|by simpl|].
  repeat constructor; done.
Defined.

Definition demo_life : lifecycle :=
  default life_start (life_run [LServe 1; LServeAdd 1; LInvoke 1 7; LConnAdd 7; LShutdown; LConnReturn 7; LServeReturn 1] life_start).

