(* ===== verification/CircuitBreaker.v ===== *)
(** * The circuit breaker: network/circuit_breaker.go

    A dialer that stops calling a proxy after too many failures, tries again
    after a while with a single request, and closes when that one succeeds.

    Any number of calls run beside the callbacks of two timers.  A call loads the
    state, in the half-open state then swaps the attempt counter, dials, and
    takes the mutex channel for the rest; each of these is a step here, as is
    the firing of a timer and the run of its callback, which takes the same
    mutex.  [time.AfterFunc] gives a numbered timer: armed until it fires or is
    stopped; a callback that has fired can not be stopped any more. *)

From S2P Require Import Prelude.

(** ** State *)

Inductive cbState := StateClosed | StateHalfOpened | StateOpened.

#[export] Instance cbState_eq_dec : EqDecision cbState.
Proof. solve_decision. Defined.

(** The callback a timer runs. *)
Inductive callback := ResetFailures | TryHalfOpen.

#[export] Instance callback_eq_dec : EqDecision callback.
Proof. solve_decision. Defined.

(** Where a call of [DialContext] is. *)
Inductive callPhase := BeforeSwap | DialingClosed | DialingHalfOpened.

#[export] Instance callPhase_eq_dec : EqDecision callPhase.
Proof. solve_decision. Defined.

Record circuitBreakerDialer := mkBreaker {
  halfOpenTimer : option nat;
  failuresCleanupTimer : option nat;
  cb_state : cbState;
  halfOpenAttempts : Z;
  failuresCount : Z;
  armed : gmap nat callback;
  fired : gmap nat callback;
  nextTimer : nat;
  calls : gmap nat callPhase
}.

(** What a call returns. *)
Inductive dialResult := ErrCircuitBreakerOpened | ErrContext | DialOk | DialErr.

#[export] Instance dialResult_eq_dec : EqDecision dialResult.
Proof. solve_decision. Defined.

Definition set_state s c := mkBreaker (halfOpenTimer c) (failuresCleanupTimer c) s (halfOpenAttempts c) (failuresCount c) (armed c) (fired c) (nextTimer c) (calls c).
Definition set_attempts n c := mkBreaker (halfOpenTimer c) (failuresCleanupTimer c) (cb_state c) n (failuresCount c) (armed c) (fired c) (nextTimer c) (calls c).
Definition set_failures n c := mkBreaker (halfOpenTimer c) (failuresCleanupTimer c) (cb_state c) (halfOpenAttempts c) n (armed c) (fired c) (nextTimer c) (calls c).
Definition set_timers h f a c := mkBreaker h f (cb_state c) (halfOpenAttempts c) (failuresCount c) a (fired c) (nextTimer c) (calls c).
Definition set_fired a f c := mkBreaker (halfOpenTimer c) (failuresCleanupTimer c) (cb_state c) (halfOpenAttempts c) (failuresCount c) a f (nextTimer c) (calls c).
Definition set_next n c := mkBreaker (halfOpenTimer c) (failuresCleanupTimer c) (cb_state c) (halfOpenAttempts c) (failuresCount c) (armed c) (fired c) n (calls c).
Definition set_calls l c := mkBreaker (halfOpenTimer c) (failuresCleanupTimer c) (cb_state c) (halfOpenAttempts c) (failuresCount c) (armed c) (fired c) (nextTimer c) l.

(** The two timer variables. *)
Inductive timerRef := HalfOpenTimer | CleanupTimer.

Definition timer_of (r : timerRef) (c : circuitBreakerDialer) : option nat :=
  match r with HalfOpenTimer => halfOpenTimer c | CleanupTimer => failuresCleanupTimer c end.

Definition set_timer (r : timerRef) (t : option nat) (a : gmap nat callback) (c : circuitBreakerDialer) : circuitBreakerDialer :=
  match r with
  | HalfOpenTimer => set_timers t (failuresCleanupTimer c) a c
  | CleanupTimer => set_timers (halfOpenTimer c) t a c
  end.

(** ** Timers *)

(** The channel of a timer made by [AfterFunc] is nil, so the drain does
    nothing. *)
Definition stopTimer (r : timerRef) (c : circuitBreakerDialer) : circuitBreakerDialer :=
  match timer_of r c with
  | None => c
  | Some t => set_timer r None (delete t (armed c)) c
  end.

Definition ensureTimer (r : timerRef) (cb : callback) (c : circuitBreakerDialer) : circuitBreakerDialer :=
  match timer_of r c with
  | Some _ => c
  | None => set_next (S (nextTimer c)) (set_timer r (Some (nextTimer c)) (<[nextTimer c := cb]> (armed c)) c)
  end.

(** ** State changes, under the mutex *)

Definition switchState (state : cbState) (c : circuitBreakerDialer) : circuitBreakerDialer :=
  let c := match state with
           | StateClosed => ensureTimer CleanupTimer ResetFailures (stopTimer HalfOpenTimer c)
           | StateHalfOpened => stopTimer HalfOpenTimer (stopTimer CleanupTimer c)
           | StateOpened => ensureTimer HalfOpenTimer TryHalfOpen (stopTimer CleanupTimer c)
           end in
  set_state state (set_attempts 0 (set_failures 0 c)).

Definition resetFailures (c : circuitBreakerDialer) : circuitBreakerDialer :=
  let c := stopTimer CleanupTimer c in
  if bool_decide (cb_state c = StateClosed) then switchState StateClosed c else c.

Definition tryHalfOpen (c : circuitBreakerDialer) : circuitBreakerDialer :=
  if bool_decide (cb_state c = StateOpened) then switchState StateHalfOpened c else c.

Definition run_callback (cb : callback) : circuitBreakerDialer -> circuitBreakerDialer :=
  match cb with ResetFailures => resetFailures | TryHalfOpen => tryHalfOpen end.

Definition newCircuitBreakerDialer : circuitBreakerDialer :=
  switchState StateClosed (mkBreaker None None StateClosed 0 0 ∅ ∅ 0 ∅).

Section breaker.
Variable openThreshold : Z.

(** The end of [doClosed] after the dial, with the mutex. *)
Definition doClosed_end (ok : bool) (c : circuitBreakerDialer) : circuitBreakerDialer :=
  if ok then switchState StateClosed c else
  let c := set_failures (uwrap 32 (failuresCount c + 1)) c in
  if bool_decide (cb_state c = StateClosed) && (openThreshold <=? failuresCount c) then switchState StateOpened c else c.

(** The end of [doHalfOpened]. *)
Definition doHalfOpened_end (ok : bool) (c : circuitBreakerDialer) : circuitBreakerDialer :=
  if negb (bool_decide (cb_state c = StateHalfOpened)) then c
  else if ok then switchState StateClosed c else switchState StateOpened c.

(** ** Steps *)

Inductive cb_act :=
  | BDial (id : nat)                              (* [DialContext] up to its first blocking point *)
  | BSwap (id : nat)                              (* the swap of [doHalfOpened] *)
  | BReturn (id : nat) (ok cancelled : bool)      (* the dial is over; the context may win the [select] *)
  | BFire (t : nat)
  | BCallback (t : nat).

Definition cb_do (a : cb_act) (c : circuitBreakerDialer) : option (circuitBreakerDialer * option (nat * dialResult)) :=
  match a with
  | BDial id =>
      match calls c !! id with
      | Some _ => None
      | None =>
          match cb_state c with
          | StateClosed => Some (set_calls (<[id := DialingClosed]> (calls c)) c, None)
          | StateHalfOpened => Some (set_calls (<[id := BeforeSwap]> (calls c)) c, None)
          | StateOpened => Some (c, Some (id, ErrCircuitBreakerOpened))
          end
      end
  | BSwap id =>
      match calls c !! id with
      | Some BeforeSwap =>
          if halfOpenAttempts c =? 0
          then Some (set_attempts 1 (set_calls (<[id := DialingHalfOpened]> (calls c)) c), None)
          else Some (set_calls (delete id (calls c)) c, Some (id, ErrCircuitBreakerOpened))
      | _ => None
      end
  | BReturn id ok cancelled =>
      let finish f :=
        let c := set_calls (delete id (calls c)) c in
        if cancelled : bool then Some (c, Some (id, ErrContext))
        else Some (f ok c, Some (id, if ok : bool then DialOk else DialErr)) in
      match calls c !! id with
      | Some DialingClosed => finish doClosed_end
      | Some DialingHalfOpened => finish doHalfOpened_end
      | _ => None
      end
  | BFire t =>
      cb ← armed c !! t;
      Some (set_fired (delete t (armed c)) (<[t := cb]> (fired c)) c, None)
  | BCallback t =>
      cb ← fired c !! t;
      Some (run_callback cb (set_fired (armed c) (delete t (fired c)) c), None)
  end.

Definition cb_step (c c' : circuitBreakerDialer) : Prop := exists a r, cb_do a c = Some (c', r).

Definition cb_reach (c : circuitBreakerDialer) : Prop := rtc cb_step newCircuitBreakerDialer c.

Fixpoint cb_run (l : list cb_act) (c : circuitBreakerDialer) : option (circuitBreakerDialer * list (nat * dialResult)) :=
  match l with
  | [] => Some (c, [])
  | a :: l => '(c, r) ← cb_do a c; '(c, rs) ← cb_run l c; Some (c, option_list r ++ rs)
  end.

(** ** The invariant *)

(** A timer variable is set exactly in one state, its timer is armed or has
    fired, with its callback, and no other timer is armed. *)
Record cb_ok (c : circuitBreakerDialer) : Prop := mkOk {
  ok_half : match halfOpenTimer c with
            | Some t => cb_state c = StateOpened /\ (armed c !! t = Some TryHalfOpen \/ fired c !! t = Some TryHalfOpen)
            | None => cb_state c <> StateOpened
            end;
  ok_cleanup : match failuresCleanupTimer c with
               | Some t => cb_state c = StateClosed /\ (armed c !! t = Some ResetFailures \/ fired c !! t = Some ResetFailures)
               | None => cb_state c <> StateClosed
               end;
  ok_armed : forall t cb, armed c !! t = Some cb ->
    (t < nextTimer c)%nat /\ fired c !! t = None /\ timer_of (match cb with TryHalfOpen => HalfOpenTimer | ResetFailures => CleanupTimer end) c = Some t;
  ok_fired : forall t cb, fired c !! t = Some cb -> (t < nextTimer c)%nat;
  ok_failures : cb_state c = StateClosed -> 0 <= failuresCount c /\ (0 < failuresCount c -> failuresCount c < openThreshold)
}.

(** ** Proofs *)

(** The part of the invariant about timers that does not mention the state. *)
Definition timers_ok (c : circuitBreakerDialer) : Prop :=
  (forall t cb, armed c !! t = Some cb ->
     (t < nextTimer c)%nat /\ fired c !! t = None /\
     timer_of (match cb with TryHalfOpen => HalfOpenTimer | ResetFailures => CleanupTimer end) c = Some t) /\
  (forall t cb, fired c !! t = Some cb -> (t < nextTimer c)%nat).

Definition ref_ok (r : timerRef) (cb : callback) (c : circuitBreakerDialer) : Prop :=
  forall t, timer_of r c = Some t -> armed c !! t = Some cb \/ fired c !! t = Some cb.

Lemma stop_ok r c : timers_ok c -> timers_ok (stopTimer r c) /\ timer_of r (stopTimer r c) = None.
Proof.
  intros [Ha Hf]. unfold stopTimer. destruct (timer_of r c) as [t|] eqn:Ht; [|done].
  split; [|by destruct r]. split; [|by destruct r].
  intros t' cb Ht'. assert (t <> t' /\ armed c !! t' = Some cb) as [Hne Hc]
    by (apply lookup_delete_Some; by destruct r).
  destruct (Ha t' cb Hc) as (H1 & H2 & H3). destruct r, cb; simpl in *; split_and!; try done; congruence.
Qed.

Lemma ensure_ok r cb c :
  timers_ok c -> ref_ok r cb c -> cb = match r with HalfOpenTimer => TryHalfOpen | CleanupTimer => ResetFailures end ->
  timers_ok (ensureTimer r cb c) /\ exists t, timer_of r (ensureTimer r cb c) = Some t /\
    (armed (ensureTimer r cb c) !! t = Some cb \/ fired (ensureTimer r cb c) !! t = Some cb).
Proof.
  intros [Ha Hf] Hr Hcb. unfold ensureTimer. destruct (timer_of r c) as [t|] eqn:Ht.
  { split; [done|]. exists t. split; [done|]. by apply Hr. }
  split.
  - split.
    + intros t' cb' Ht'. assert (t' = nextTimer c /\ cb' = cb \/ t' <> nextTimer c /\ armed c !! t' = Some cb') as [[-> ->]|[Hne Hc]]
        by (assert (<[nextTimer c := cb]> (armed c) !! t' = Some cb') as [[? ?]|[? ?]]%lookup_insert_Some by (by destruct r); auto).
      * assert (fired c !! nextTimer c = None) as Hn
          by (destruct (fired c !! nextTimer c) eqn:E; [apply Hf in E; lia|done]).
        destruct r; subst cb; simpl; split_and!; try done; lia.
      * destruct (Ha t' cb' Hc) as (H1 & H2 & H3). destruct r, cb'; simpl in *; split_and!; try done; try lia; congruence.
    + intros t' cb' Ht'. assert (t' < nextTimer c)%nat by (apply (Hf t' cb'); by destruct r). destruct r; simpl; lia.
  - exists (nextTimer c). destruct r; simpl; (split; [done|left; apply lookup_insert_eq]).
Qed.

(** The other variable, the state and the fired timers are untouched. *)
Lemma stop_frame r r' c : r <> r' -> timer_of r' (stopTimer r c) = timer_of r' c /\ fired (stopTimer r c) = fired c.
Proof. unfold stopTimer. destruct (timer_of r c); [|done]. by destruct r, r'. Qed.

Lemma ensure_frame r r' cb c : r <> r' -> timer_of r' (ensureTimer r cb c) = timer_of r' c.
Proof. unfold ensureTimer. destruct (timer_of r c); [done|]. by destruct r, r'. Qed.

Lemma stop_ref r r' cb c :
  timers_ok c -> r <> r' -> ref_ok r' cb c -> (forall t, timer_of r c = Some t -> timer_of r' c <> Some t) -> ref_ok r' cb (stopTimer r c).
Proof.
  intros [Ha _] Hne Hr Hd t Ht. destruct (stop_frame r r' c Hne) as [Ho Hf]. rewrite Ho in Ht. rewrite Hf.
  destruct (Hr t Ht) as [H|H]; [|by right]. left. unfold stopTimer. destruct (timer_of r c) as [t'|] eqn:E; [|done].
  assert (t' <> t) by (intros ->; by apply (Hd t)). by destruct r; simpl; rewrite lookup_delete_ne.
Qed.

(** Every change of state restores the invariant. *)
Lemma switch_ok state c :
  timers_ok c ->
  (forall t, timer_of HalfOpenTimer c = Some t -> timer_of CleanupTimer c <> Some t) ->
  (state = StateOpened -> ref_ok HalfOpenTimer TryHalfOpen c) ->
  (state = StateClosed -> ref_ok CleanupTimer ResetFailures c) ->
  cb_ok (switchState state c).
Proof.
  intros Hc Hd Ho Hcl. destruct state; unfold switchState.
  - destruct (stop_ok HalfOpenTimer c Hc) as [H1 H2].
    assert (ref_ok CleanupTimer ResetFailures (stopTimer HalfOpenTimer c)) as Hr by (by apply stop_ref; auto).
    destruct (ensure_ok CleanupTimer ResetFailures _ H1 Hr eq_refl) as [[E1 E2] (t & Et & Ea)].
    pose proof (ensure_frame CleanupTimer HalfOpenTimer ResetFailures (stopTimer HalfOpenTimer c) ltac:(done)) as Hf.
    rewrite H2 in Hf. simpl in Hf, Et.
    constructor; simpl; [by rewrite Hf|by rewrite Et|done|done|lia].
  - destruct (stop_ok CleanupTimer c Hc) as [H1 H2]. destruct (stop_ok HalfOpenTimer _ H1) as [[E1 E2] E3].
    destruct (stop_frame HalfOpenTimer CleanupTimer (stopTimer CleanupTimer c) ltac:(done)) as [Hf _]. rewrite H2 in Hf. simpl in *.
    constructor; simpl; [by rewrite E3|by rewrite Hf|done|done|lia].
  - destruct (stop_ok CleanupTimer c Hc) as [H1 H2].
    assert (ref_ok HalfOpenTimer TryHalfOpen (stopTimer CleanupTimer c)) as Hr.
    { apply stop_ref; auto. intros t Ht Ht'. by apply (Hd t). }
    destruct (ensure_ok HalfOpenTimer TryHalfOpen _ H1 Hr eq_refl) as [[E1 E2] (t & Et & Ea)].
    pose proof (ensure_frame HalfOpenTimer CleanupTimer TryHalfOpen (stopTimer CleanupTimer c) ltac:(done)) as Hf.
    rewrite H2 in Hf. simpl in Hf, Et.
    constructor; simpl; [by rewrite Et|by rewrite Hf|done|done|lia].
Qed.

(** What the invariant gives for a change of state. *)
Lemma ok_timers c : cb_ok c -> timers_ok c /\
  (forall t, timer_of HalfOpenTimer c = Some t -> timer_of CleanupTimer c <> Some t) /\
  ref_ok HalfOpenTimer TryHalfOpen c /\ ref_ok CleanupTimer ResetFailures c.
Proof.
  intros [Hh Hc Ha Hf _]. split_and!.
  - by split.
  - simpl. intros t Ht Ht'. rewrite Ht in Hh. rewrite Ht' in Hc. destruct Hh, Hc. congruence.
  - intros t Ht. simpl in Ht. rewrite Ht in Hh. apply Hh.
  - intros t Ht. simpl in Ht. rewrite Ht in Hc. apply Hc.
Qed.

Lemma ok_switch state c : cb_ok c -> cb_ok (switchState state c).
Proof. intros H. destruct (ok_timers c H) as (H1 & H2 & H3 & H4). by apply switch_ok. Qed.

Lemma ok_set_calls l c : cb_ok c -> cb_ok (set_calls l c).
Proof. intros [? ? ? ? ?]. by constructor. Qed.

Lemma ok_set_attempts n c : cb_ok c -> cb_ok (set_attempts n c).
Proof. intros [? ? ? ? ?]. by constructor. Qed.

Lemma ok_doClosed ok c : cb_ok c -> cb_ok (doClosed_end ok c).
Proof.
  intros H. unfold doClosed_end. destruct ok; [by apply ok_switch|]. simpl.
  assert (cb_ok (switchState StateOpened (set_failures (uwrap 32 (failuresCount c + 1)) c))) as Hs.
  { destruct (ok_timers c H) as (H1 & H2 & H3 & H4). apply switch_ok; done. }
  case_bool_decide as Hcl; simpl.
  - destruct (openThreshold <=? _) eqn:E; [done|]. zbool. destruct H as [? ? ? ? Hfc]. constructor; simpl; try done.
    intros _. split; [|lia]. apply uwrap_range. lia.
  - destruct H as [? ? ? ? ?]. by constructor.
Qed.

Lemma ok_callback t cb c : cb_ok c -> fired c !! t = Some cb -> cb_ok (run_callback cb (set_fired (armed c) (delete t (fired c)) c)).
Proof.
  intros Hok Hf. destruct (ok_timers c Hok) as ([Ha Hfi] & Hd & Hrh & Hrc). set (c' := set_fired _ _ c).
  assert (timers_ok c') as Hc'.
  { split; simpl; [intros t' cb' H; destruct (Ha t' cb' H) as (? & Hn & ?); split_and!; try done; by rewrite lookup_delete_None; right|].
    intros t' cb' [_ H]%lookup_delete_Some. by apply (Hfi t' cb'). }
  assert (forall t', armed c !! t' = Some cb \/ fired c !! t' = Some cb -> t' <> t -> armed c !! t' = Some cb \/ delete t (fired c) !! t' = Some cb) as Hkeep.
  { intros t' [H|H] Hne; [by left|right; by rewrite lookup_delete_ne]. }
  destruct cb; simpl.
  - unfold resetFailures. destruct (stop_ok CleanupTimer c' Hc') as [H1 H2].
    assert (cb_state (stopTimer CleanupTimer c') = cb_state c) as Hst by (unfold stopTimer; by destruct (timer_of CleanupTimer c')).
    rewrite Hst. case_bool_decide as Hs.
    + apply switch_ok; [done|..].
      * intros t' Ht'. by rewrite H2.
      * done.
      * intros _ t' Ht'. by rewrite H2 in Ht'.
    + assert (failuresCleanupTimer c = None) as Hn.
      { pose proof (ok_cleanup _ Hok) as H. destruct (failuresCleanupTimer c); [by destruct H|done]. }
      unfold stopTimer. simpl. rewrite Hn. destruct Hok as [Hh Hc _ _ Hfc]. rewrite Hn in Hc. destruct Hc' as [Ha' Hf'].
      constructor; simpl; rewrite ?Hn; try done. destruct (halfOpenTimer c) as [t'|] eqn:Et; [|done]. destruct Hh as [Hh1 Hh2].
      split; [done|]. destruct Hh2 as [|Hh2]; [by left|]. right. rewrite lookup_delete_ne; [done|]. intros ->. congruence.
  - unfold tryHalfOpen. simpl. case_bool_decide as Hs.
    + by apply switch_ok.
    + assert (halfOpenTimer c = None) as Hn.
      { pose proof (ok_half _ Hok) as H. destruct (halfOpenTimer c); [by destruct H|done]. }
      destruct Hok as [Hh Hc _ _ Hfc]. rewrite Hn in Hh. destruct Hc' as [Ha' Hf'].
      constructor; simpl; rewrite ?Hn; try done. destruct (failuresCleanupTimer c) as [t'|] eqn:Et; [|done]. destruct Hc as [Hc1 Hc2].
      split; [done|]. destruct Hc2 as [|Hc2]; [by left|]. right. rewrite lookup_delete_ne; [done|]. intros ->. congruence.
Qed.

Lemma ok_fire t cb c : cb_ok c -> armed c !! t = Some cb -> cb_ok (set_fired (delete t (armed c)) (<[t := cb]> (fired c)) c).
Proof.
  intros [Hh Hc Ha Hf Hfc] Ht. destruct (Ha t cb Ht) as (Hn & Hfn & Href).
  assert (forall t' cb', timer_of (match cb' with TryHalfOpen => HalfOpenTimer | ResetFailures => CleanupTimer end) c = Some t' ->
    armed c !! t' = Some cb' \/ fired c !! t' = Some cb' ->
    delete t (armed c) !! t' = Some cb' \/ <[t := cb]> (fired c) !! t' = Some cb') as Hmove.
  { intros t' cb' _ H. destruct (decide (t = t')) as [<-|Hne].
    - right. rewrite lookup_insert_eq. destruct H; congruence.
    - by rewrite lookup_delete_ne, lookup_insert_ne. }
  constructor; simpl.
  - destruct (halfOpenTimer c) as [t'|] eqn:E; [|done]. destruct Hh as [Hs Hh]. split; [done|]. by apply (Hmove t' TryHalfOpen).
  - destruct (failuresCleanupTimer c) as [t'|] eqn:E; [|done]. destruct Hc as [Hs Hc]. split; [done|]. by apply (Hmove t' ResetFailures).
  - intros t' cb' [Hne H]%lookup_delete_Some. destruct (Ha t' cb' H) as (? & ? & ?). split_and!; [done| |done].
    by rewrite lookup_insert_ne.
  - intros t' cb' [[-> _]|[_ H]]%lookup_insert_Some; [done|by apply (Hf t' cb')].
  - done.
Qed.

Lemma cb_ok_do a c c' r : cb_ok c -> cb_do a c = Some (c', r) -> cb_ok c'.
Proof.
  intros Hok Hdo. destruct a as [id|id|id ok can|t|t]; simpl in Hdo.
  - destruct (calls c !! id); [done|]. destruct (cb_state c); simplify_eq; try done; by apply ok_set_calls.
  - destruct (calls c !! id) as [[]|]; try done. destruct (halfOpenAttempts c =? 0); simplify_eq; [apply ok_set_attempts|]; by apply ok_set_calls.
  - destruct (calls c !! id) as [[]|]; try done; destruct can; simplify_eq; try (by apply ok_set_calls).
    + by apply ok_doClosed, ok_set_calls.
    + pose proof (ok_set_calls (delete id (calls c)) c Hok) as H. unfold doHalfOpened_end. case_bool_decide; [|done]. simpl.
      destruct ok; by apply ok_switch.
  - destruct (armed c !! t) as [cb|] eqn:Ht; simplify_eq/=. by apply ok_fire.
  - destruct (fired c !! t) as [cb|] eqn:Ht; simplify_eq/=. by apply ok_callback.
Qed.

Lemma cb_new_ok : cb_ok newCircuitBreakerDialer.
Proof.
  apply switch_ok; [|done..]. split; simpl; intros t cb; by rewrite lookup_empty.
Qed.

Lemma cb_reach_ok c : cb_reach c -> cb_ok c.
Proof.
  intros H. unfold cb_reach in H. revert H. generalize cb_new_ok. generalize newCircuitBreakerDialer.
  intros c0 H0 H. induction H as [|c0 c1 c2 (a & r & Hs) _ IH]; [done|]. apply IH. by eapply cb_ok_do.
Qed.

Lemma switch_state state c : cb_state (switchState state c) = state /\ halfOpenAttempts (switchState state c) = 0.
Proof. done. Qed.

Lemma run_callback_state cb c :
  cb_state (run_callback cb c) = StateOpened -> cb_state c = StateOpened.
Proof.
  destruct cb; simpl; unfold resetFailures, tryHalfOpen.
  - assert (cb_state (stopTimer CleanupTimer c) = cb_state c) as -> by (unfold stopTimer; by destruct (timer_of _ c)).
    case_bool_decide; [done|]. unfold stopTimer. by destruct (timer_of _ c).
  - case_bool_decide; done.
Qed.

(** The breaker opens at one place for each state. *)
Lemma opens_at a c c' r :
  0 <= openThreshold < 2 ^ 32 -> cb_ok c -> cb_do a c = Some (c', r) -> cb_state c <> StateOpened -> cb_state c' = StateOpened ->
  exists id, a = BReturn id false false /\
    (cb_state c = StateClosed /\ calls c !! id = Some DialingClosed /\ failuresCount c + 1 = Z.max 1 openThreshold \/
     cb_state c = StateHalfOpened /\ calls c !! id = Some DialingHalfOpened).
Proof.
  intros Ht Hok Hdo Hs Hs'. destruct a as [id|id|id ok can|t|t]; simpl in Hdo.
  - destruct (calls c !! id); [done|]. destruct (cb_state c) eqn:E; simplify_eq/=; congruence.
  - destruct (calls c !! id) as [[]|]; try done. destruct (halfOpenAttempts c =? 0); simplify_eq/=; congruence.
  - destruct (calls c !! id) as [[]|] eqn:Hc; try done; destruct can; simplify_eq/=; try congruence; destruct ok; try done.
    + exists id. split; [done|]. left. unfold doClosed_end in Hs'. simpl in Hs'.
      case_bool_decide as Hcl; [|by simpl in Hs'; rewrite Hs' in Hs]. simpl in Hs'.
      destruct (ok_failures _ Hok Hcl) as [Hf0 Hf1].
      assert (failuresCount c + 1 < 2 ^ 32) as Hlt.
      { destruct (decide (0 < failuresCount c)) as [Hp|Hp]; [apply Hf1 in Hp|]; lia. }
      rewrite uwrap_small in Hs' by lia. destruct (openThreshold <=? failuresCount c + 1) eqn:E; [|by simpl in Hs'; congruence].
      zbool. split_and!; [done|done|]. destruct (decide (0 < failuresCount c)) as [Hp|Hp]; [apply Hf1 in Hp|]; lia.
    + unfold doHalfOpened_end in Hs'. case_bool_decide; done.
    + exists id. split; [done|]. right. unfold doHalfOpened_end in Hs'. case_bool_decide as Hh; [done|]. by simpl in Hs'; rewrite Hs' in Hs.
  - destruct (armed c !! t); by simplify_eq/=.
  - destruct (fired c !! t) as [cb|]; simplify_eq/=. by apply run_callback_state in Hs'.
Qed.

(** At those places it does open. *)
Lemma opens_when id c c' r :
  0 <= openThreshold < 2 ^ 32 -> cb_ok c -> cb_do (BReturn id false false) c = Some (c', r) ->
  (cb_state c = StateClosed /\ calls c !! id = Some DialingClosed /\ failuresCount c + 1 = Z.max 1 openThreshold \/
   cb_state c = StateHalfOpened /\ calls c !! id = Some DialingHalfOpened) ->
  cb_state c' = StateOpened.
Proof.
  intros Ht Hok Hdo Hcase. simpl in Hdo. destruct Hcase as [(Hs & Hc & Hf)|[Hs Hc]]; rewrite Hc in Hdo; simplify_eq/=.
  - unfold doClosed_end. simpl. rewrite Hs, bool_decide_true, uwrap_small by (done || (pose proof (ok_failures _ Hok Hs) as [? ?]; lia)).
    simpl. by rewrite (proj2 (Z.leb_le _ _)) by lia.
  - unfold doHalfOpened_end. simpl. by rewrite Hs, bool_decide_true by done.
Qed.

(** The failures in a row that a closed breaker has seen after a step: one more
    when a call that began closed fails, none after one succeeded or the cleanup
    timer ran. *)
Definition failures_after (a : cb_act) (c : circuitBreakerDialer) : Z :=
  match a with
  | BReturn id ok false =>
      if decide (calls c !! id = Some DialingClosed) then if ok then 0 else failuresCount c + 1 else failuresCount c
  | BCallback t => if decide (fired c !! t = Some ResetFailures) then 0 else failuresCount c
  | _ => failuresCount c
  end.

Lemma counts_failures a c c' r :
  0 <= openThreshold < 2 ^ 32 -> cb_ok c -> cb_do a c = Some (c', r) -> cb_state c = StateClosed -> cb_state c' = StateClosed ->
  failuresCount c' = failures_after a c.
Proof.
  intros Ht Hok Hdo Hs Hs'. destruct a as [id|id|id ok can|t|t]; simpl in Hdo |- *.
  - destruct (calls c !! id); [done|]. rewrite Hs in Hdo. by simplify_eq/=.
  - destruct (calls c !! id) as [[]|]; try done. by destruct (halfOpenAttempts c =? 0); simplify_eq/=.
  - destruct (calls c !! id) as [[]|] eqn:Hc; try done; destruct can; simplify_eq/=; try done.
    + rewrite ?decide_True by done. destruct ok; [done|]. unfold doClosed_end in Hs' |- *. simpl in *.
      pose proof (ok_failures _ Hok Hs) as [? ?].
      rewrite Hs, bool_decide_true, uwrap_small in * by (done || lia). simpl in *. by destruct (openThreshold <=? _).
    + rewrite ?decide_False by done. unfold doHalfOpened_end. simpl. by rewrite Hs, bool_decide_false by done.
  - destruct (armed c !! t); by simplify_eq/=.
  - destruct (fired c !! t) as [cb|] eqn:Ef; simplify_eq/=. destruct cb; simpl.
    + rewrite ?decide_True by done. unfold resetFailures. rewrite bool_decide_true; [done|].
      unfold stopTimer. by destruct (timer_of _ _).
    + rewrite ?decide_False by done. unfold tryHalfOpen. simpl. by rewrite Hs, bool_decide_false by done.
Qed.

(** The one attempt of the half-open state closes it when it succeeds. *)
Lemma probe_closes id c c' r :
  cb_do (BReturn id true false) c = Some (c', r) -> cb_state c = StateHalfOpened -> calls c !! id = Some DialingHalfOpened ->
  cb_state c' = StateClosed /\ failuresCount c' = 0.
Proof.
  intros Hdo Hs Hc. simpl in Hdo. rewrite Hc in Hdo. simplify_eq/=. unfold doHalfOpened_end. simpl. by rewrite Hs, bool_decide_true.
Qed.

(** The steps that bring an open breaker back. *)
Lemma recovers c :
  cb_ok c -> cb_state c = StateOpened ->
  exists t l c', halfOpenTimer c = Some t /\ (l = [BCallback t] \/ l = [BFire t; BCallback t]) /\
    cb_run l c = Some (c', []) /\ cb_state c' = StateHalfOpened /\ halfOpenAttempts c' = 0.
Proof.
  intros Hok Hs. pose proof (ok_half _ Hok) as H. destruct (halfOpenTimer c) as [t|] eqn:Ht; [|done].
  exists t. destruct H as [_ [Ha|Hf]].
  - exists [BFire t; BCallback t]. eexists. split; [done|]. split; [by right|]. simpl. rewrite Ha. simpl.
    rewrite lookup_insert_eq. simpl. unfold tryHalfOpen. simpl. rewrite bool_decide_true by done. done.
  - exists [BCallback t]. eexists. split; [done|]. split; [by left|]. simpl. rewrite Hf. simpl.
    unfold tryHalfOpen. simpl. rewrite bool_decide_true by done. done.
Qed.

(** Half open, the attempt taken, and nobody dialling. *)
Definition stuck (c : circuitBreakerDialer) : Prop :=
  cb_ok c /\ cb_state c = StateHalfOpened /\ halfOpenAttempts c = 1 /\ map_Forall (fun _ p => p = BeforeSwap) (calls c).

Lemma stuck_do a c c' r :
  stuck c -> cb_do a c = Some (c', r) -> stuck c' /\ (r = None \/ exists id, r = Some (id, ErrCircuitBreakerOpened)).
Proof.
  intros (Hok & Hs & Ha & Hc) Hdo. pose proof (cb_ok_do a c c' r Hok Hdo) as Hok'.
  assert (halfOpenTimer c = None /\ failuresCleanupTimer c = None) as [Hn1 Hn2].
  { pose proof (ok_half _ Hok) as H1. pose proof (ok_cleanup _ Hok) as H2.
    split; [destruct (halfOpenTimer c); [destruct H1; congruence|done]|destruct (failuresCleanupTimer c); [destruct H2; congruence|done]]. }
  destruct a as [id|id|id ok can|t|t]; simpl in Hdo.
  - destruct (calls c !! id) eqn:E; [done|]. rewrite Hs in Hdo. simplify_eq/=. split; [|by left]. split_and!; try done.
    simpl. by apply map_Forall_insert_2.
  - destruct (calls c !! id) as [[]|]; try done. rewrite Ha in Hdo. simplify_eq/=. split; [|right; eauto]. split_and!; try done.
    simpl. by apply map_Forall_delete.
  - destruct (calls c !! id) as [p|] eqn:E; [|done]. pose proof (Hc id p E) as ->. done.
  - destruct (armed c !! t) as [cb|] eqn:E; simplify_eq/=. destruct (ok_armed _ Hok t cb E) as (_ & _ & H). destruct cb; simpl in H; congruence.
  - destruct (fired c !! t) as [cb|]; simplify_eq/=. split; [|by left].
    assert (run_callback cb (set_fired (armed c) (delete t (fired c)) c) = set_fired (armed c) (delete t (fired c)) c) as Hr.
    { destruct cb; simpl; unfold resetFailures, tryHalfOpen, stopTimer; simpl; rewrite ?Hn2; simpl;
        by rewrite bool_decide_false by congruence. }
    rewrite Hr in *. by split_and!.
Qed.

Lemma stuck_run l c c' rs :
  stuck c -> cb_run l c = Some (c', rs) -> stuck c' /\ Forall (fun r => r.2 = ErrCircuitBreakerOpened) rs.
Proof.
  revert c rs. induction l as [|a l IH]; intros c rs Hst Hrun; simplify_eq/=; [by split|].
  destruct (cb_do a c) as [[c1 r]|] eqn:Hdo; simplify_eq/=. destruct (cb_run l c1) as [[c2 rs2]|] eqn:Hr; simplify_eq/=.
  destruct (stuck_do a c c1 r Hst Hdo) as [Hst1 Hres]. destruct (IH c1 rs2 Hst1 Hr) as [H1 H2]. split; [done|].
  apply Forall_app. split; [|done]. destruct Hres as [->|[id ->]]; by repeat constructor.
Qed.

Lemma cb_run_steps l c c' rs : cb_run l c = Some (c', rs) -> rtc cb_step c c'.
Proof.
  revert c rs. induction l as [|a l IH]; intros c rs Hrun; simplify_eq/=; [apply rtc_refl|].
  destruct (cb_do a c) as [[c1 r]|] eqn:Hdo; simplify_eq/=. destruct (cb_run l c1) as [[c2 rs2]|] eqn:Hr; simplify_eq/=.
  eapply rtc_l; [by exists a, r|]. by eapply IH.
Qed.
End breaker.

(** ** Claims *)

(** C36: the breaker opens when it should, and comes back.  In every
    interleaving of calls and timers: a step opens it if and only if it is the
    failure of a call that began in the closed state and brings the count to the
    threshold (a threshold of zero counts as one), or the failure of the one
    half-open attempt; while it is closed the count is the number of such
    failures since the last success or cleanup; a half-open attempt that succeeds
    closes it with the count at zero; and whenever it is open, its timer is armed
    or has fired, and the callback of that timer, after the timer fires if it has
    not, makes it half open with a free attempt: it is never left open.  A call
    whose context ended counts as neither. *)
Theorem breaker_cycle openThreshold c :
  0 <= openThreshold < 2 ^ 32 -> cb_reach openThreshold c ->
  (forall a c' r, cb_do openThreshold a c = Some (c', r) ->
     (cb_state c <> StateOpened ->
        (cb_state c' = StateOpened <->
         exists id, a = BReturn id false false /\
           (cb_state c = StateClosed /\ calls c !! id = Some DialingClosed /\ failuresCount c + 1 = Z.max 1 openThreshold \/
            cb_state c = StateHalfOpened /\ calls c !! id = Some DialingHalfOpened))) /\
     (cb_state c = StateClosed -> cb_state c' = StateClosed -> failuresCount c' = failures_after a c) /\
     (forall id, a = BReturn id true false -> cb_state c = StateHalfOpened -> calls c !! id = Some DialingHalfOpened ->
        cb_state c' = StateClosed /\ failuresCount c' = 0)) /\
  (cb_state c = StateOpened ->
     exists t l c', halfOpenTimer c = Some t /\ (l = [BCallback t] \/ l = [BFire t; BCallback t]) /\
       cb_run openThreshold l c = Some (c', []) /\ cb_state c' = StateHalfOpened /\ halfOpenAttempts c' = 0).
Proof.
  intros Ht Hr%cb_reach_ok. split; [|by apply recovers]. intros a c' r Hdo. split_and!.
  - intros Hs. split; [by apply (opens_at _ a c c' r)|]. intros (id & -> & Hcase). by eapply opens_when.
  - by apply (counts_failures openThreshold a c c' r).
  - intros id -> Hs Hc. by eapply probe_closes.
Qed.

(** Three calls fail at a threshold of two, the timer fires, the probe's context
    is cancelled. *)
Definition demo_cancel : list cb_act :=
  [BDial 1; BDial 2; BReturn 1 false false; BReturn 2 false false; BFire 1; BCallback 1; BDial 3; BSwap 3; BReturn 3 false true].

(** A cancelled probe leaves the breaker half open for ever.  There is a
    reachable state, one cancelled context away from normal operation, from
    which no sequence of calls, timers and callbacks leaves the half-open state
    or lets a call through: every one of them fails with
    [ErrCircuitBreakerOpened]. *)
Theorem breaker_stuck :
  exists c, cb_reach 2 c /\ cb_state c = StateHalfOpened /\
    forall l c' rs, cb_run 2 l c = Some (c', rs) ->
      cb_state c' = StateHalfOpened /\ Forall (fun r => r.2 = ErrCircuitBreakerOpened) rs.
Proof.
  assert (exists c rs, cb_run 2 demo_cancel newCircuitBreakerDialer = Some (c, rs) /\
    cb_state c = StateHalfOpened /\ halfOpenAttempts c = 1 /\ calls c = ∅) as (c & rs & Hrun & Hs & Ha & Hc).
  { eexists _, _. split; [vm_compute; reflexivity|]. by vm_compute. }
  assert (cb_reach 2 c) as Hreach by (by eapply cb_run_steps).
  exists c. split_and!; [done|done|]. intros l c' rs' Hl.
  destruct (stuck_run 2 l c c' rs') as [(_ & H & _) H2]; [|done|done].
  split_and!; [by apply cb_reach_ok|done|done|]. rewrite Hc. apply map_Forall_empty.
Qed.

(** ** Witnesses *)

Lemma breaker_cycle_witness :
  exists c, cb_run 2 (take 4 demo_cancel) newCircuitBreakerDialer = Some (c, [(1%nat, DialErr); (2%nat, DialErr)]) /\
    cb_state c = StateOpened /\ is_Some (halfOpenTimer c).
Proof.
  destruct (cb_run 2 (take 4 demo_cancel) newCircuitBreakerDialer) as [[c rs]|] eqn:Hrun; [|by vm_compute in Hrun].
  assert (cb_reach 2 c) as Hr by (by eapply cb_run_steps).
  assert (cb_state c = StateOpened /\ rs = [(1%nat, DialErr); (2%nat, DialErr)]) as [Hs ->]
    by (vm_compute in Hrun; injection Hrun as <- <-; done).
  exists c. split_and!; [done|done|].
  destruct (proj2 (breaker_cycle 2 c ltac:(lia) Hr) Hs) as (t & _ & _ & Ht & _). by exists t.
Defined.
