(* ===== verification/Network.v ===== *)
(** * Dialers and networks: network/ and network/v2/

    Everything that opens a TCP connection for the proxy.  A dialer is a
    function on the world: the open sockets, numbered as the system hands them
    out, the DNS cache, and an environment that answers the system's and the
    peers' side (does a connect succeed, does a socket option take, what does a
    SOCKS proxy or a DNS-over-HTTPS server reply, what does the random source
    give).  A dialer returns a connection and an error, either of which may be
    nil, as in Go.

    The DNS-over-HTTPS client of a network dials too, through the dialer of that
    network, and its HTTP transport keeps connections for the next request: the
    idle pool [w_idle] is a part of the world.

    [Tidy] is what a client of a dialer relies on: apart from the idle pool, which
    is bounded, a call that reports an error leaves no socket open, a call that
    succeeds leaves exactly the one it returns.  The first generation of dialers
    is shown to keep this promise whatever the environment does;
    [v2_DialContext] does not. *)

From S2P Require Import Prelude GoTime GoStrings GoNet GoDuration.
From Stdlib Require Import Ascii String.
Open Scope string_scope.
Open Scope list_scope.
Open Scope Z_scope.

(** ** Errors, constants *)

(** An error of these packages: [errors.Join] keeps its parts. *)
Inductive neterr :=
  | NErr (msg : string)
  | NWrap (msg : string) (e : neterr)
  | NJoin (l : list neterr).

Definition ErrCircuitBreakerOpen : neterr := NErr "circuit breaker is opened".
Definition ErrCannotDialWithAllProxies : neterr := NErr "cannot dial with all proxies".
Definition ErrCannotDial : neterr := NErr "cannot dial to any address".

Definition DefaultTimeout : Z := 10 * Second.
Definition DefaultHTTPTimeout : Z := 10 * Second.
Definition DefaultKeepAliveIdle : Z := 30 * Second.
Definition DefaultKeepAliveInterval : Z := 10 * Second.
Definition DefaultKeepAliveCount : Z := 3.
Definition ProxyDialerOpenThreshold : Z := 5.
Definition ProxyDialerHalfOpenTimeout : Z := Minute.
Definition ProxyDialerResetFailuresTimeout : Z := 10 * Second.
Definition tcpLingerTimeout : Z := 1.
Definition dnsResolverKeepTime : Z := 10 * Minute.
Definition DefaultTCPNotSentLowat : Z := 128 * 1024.
Definition UserAgent : string := "curl/8.5.0".

(** [net.KeepAliveConfig]. *)
Record KeepAliveConfig := mkKeepAlive { Enable : bool; Idle : Z; Interval : Z; Count : Z }.

(** What is set on a socket. *)
Inductive sockopt :=
  | OptKeepAlive (cfg : KeepAliveConfig)
  | OptLinger (sec : Z)
  | OptSyscallConn
  | OptReuseAddr
  | OptReusePort
  | OptCongestion (algo : string)
  | OptUserTimeout (ms : Z)
  | OptNotSentLowat (bytes : Z).

(** ** The DNS cache *)

Record dnsResolverCacheEntry := mkEntry { ips : list string; createdAt : Z }.

(** [entry.Ok()], at a given time. *)
Definition entry_Ok (c : dnsResolverCacheEntry) (now : Z) : bool := Sub now (createdAt c) <? dnsResolverKeepTime.

(** The cache of a [dnsResolver]: its key is a byte for the type of the record
    followed by the name. *)
Notation dnsCache := (gmap string dnsResolverCacheEntry).

Definition keyA (hostname : string) : string := String "000" hostname.
Definition keyAAAA (hostname : string) : string := String "001" hostname.

Definition cache_get (d : dnsCache) (key : string) (now : Z) : option (list string) :=
  match d !! key with
  | Some entry => if entry_Ok entry now then Some (ips entry) else None
  | None => None
  end.

(** What [Lookup] does with the answer of the resolver, at the time it has it:
    [None] is an error. *)
Definition cache_put (d : dnsCache) (key : string) (answer : option (list string)) (now : Z) : dnsCache * list string :=
  match answer with
  | Some l => (<[key := mkEntry l now]> d, l)
  | None => (d, [])
  end.

(** The host the DNS-over-HTTPS client is built with: an IPv6 address gets its
    brackets. *)
Definition newDNSResolver_host (hostname : string) : string :=
  match To4 <$> ParseIP hostname with
  | Some (_ :: _) => hostname
  | _ => ("[" ++ hostname ++ "]")%string
  end.

(** The resolver that is chosen. *)
Inductive resolver :=
  | SystemResolver
  | DoT (host : string)
  | DoH (u : URL)
  | PlainDNS (hostport : string).

(** ** Shuffling *)

Definition swap {A} (i j : nat) (l : list A) : list A :=
  match l !! i, l !! j with Some x, Some y => <[i := y]> (<[j := x]> l) | _, _ => l end.

(** ** The environment *)

(** What the system, the peers and the packages the code calls answer, as
    operations on an environment state. *)
Class NetEnv (E : Type) := {
  (* whether a connect to an address succeeds *)
  os_dial : E -> string -> string -> E * option neterr;
  (* whether an option can be set on a socket *)
  os_sockopt : E -> nat -> sockopt -> E * option neterr;
  (* a random number; it is reduced below its bound where it is used *)
  rand_IntN : E -> nat -> E * nat;
  (* the DNS-over-HTTPS package: the address of the requests to a host, how many
     requests a question for AAAA records (true) or A records of a name takes,
     and the answer it makes of the replies *)
  doh_address : string -> string;
  doh_requests : E -> bool -> string -> E * nat;
  doh_answer : E -> bool -> string -> E * option (list string);
  (* the HTTP transport: the idle connections it finds closed by the server, the
     one it takes, and whether a connection can be used again after a request *)
  http_dead : E -> gset nat -> E * gset nat;
  http_pick : E -> gset nat -> E * option nat;
  http_exchange : E -> nat -> E * bool;
  (* which of two goroutines appends first *)
  first_done : E -> bool;
  (* the clock *)
  now : E -> Z;
  (* the SOCKS5 package: its constants, whether it accepts an address, and the
     replies to a negotiation, to credentials and to a request; [None] is a
     failure to write or to read *)
  MethodNone : Z;
  MethodUsernamePassword : Z;
  UserPassStatusSuccess : Z;
  RepSuccess : Z;
  socks5_ParseAddress : string -> bool;
  socks5_negotiate : E -> nat -> Z -> E * option Z;
  socks5_auth : E -> nat -> list byte -> list byte -> E * option Z;
  socks5_request : E -> nat -> string -> E * option Z
}.

Section net.
Context {E : Type} `{NetEnv E}.

(** The open sockets; among them those that wait in the pool of the resolver's
    HTTP transport for the next request. *)
Record World := mkWorld {
  opened : gset nat;
  w_idle : gset nat;
  nextFd : nat;
  w_dns : dnsCache;
  w_env : E
}.

Definition set_env (e : E) (w : World) : World := mkWorld (opened w) (w_idle w) (nextFd w) (w_dns w) e.
Definition set_dns (d : dnsCache) (w : World) : World := mkWorld (opened w) (w_idle w) (nextFd w) d (w_env w).
Definition set_idle (i : gset nat) (w : World) : World := mkWorld (opened w) i (nextFd w) (w_dns w) (w_env w).

Definition M (A : Type) : Type := World -> World * A.

#[local] Instance M_ret : MRet M := fun _ a w => (w, a).
#[local] Instance M_bind : MBind M := fun _ _ f m w => let '(w, a) := m w in f a w.

Definition with_env {A} (f : E -> E * A) : M A := fun w => let '(e, a) := f (w_env w) in (set_env e w, a).

(** [net.Dialer.DialContext]: a new socket, or an error. *)
Definition net_DialContext (network address : string) : M (nat + neterr) :=
  fun w =>
    let '(e, err) := os_dial (w_env w) network address in
    match err with
    | Some err => (set_env e w, inr err)
    | None => (mkWorld ({[nextFd w]} ∪ opened w) (w_idle w) (S (nextFd w)) (w_dns w) e, inl (nextFd w))
    end.

Definition conn_Close (fd : nat) : M () := fun w => (mkWorld (opened w ∖ {[fd]}) (w_idle w) (nextFd w) (w_dns w) (w_env w), ()).

Definition setopt (fd : nat) (o : sockopt) : M (option neterr) := with_env (fun e => os_sockopt e fd o).

(** [if err := ...; err != nil { return fmt.Errorf(m, err) }] and go on. *)
Definition orElse (m : string) (x : M (option neterr)) (k : M (option neterr)) : M (option neterr) :=
  e ← x; match e with Some e => mret (Some (NWrap m e)) | None => k end.

(** Connection and error. *)
Definition dialed : Type := option nat * option neterr.

Definition Dialer : Type := string -> string -> M dialed.

Definition supported (network : string) : bool := bool_decide (network ∈ ["tcp"; "tcp4"; "tcp6"]).

(** *** network/sockopts.go *)

Definition setSocketReuseAddrPort (fd : nat) : M (option neterr) :=
  orElse "cannot set SO_REUSEADDR" (setopt fd OptReuseAddr)
    (orElse "cannot set SO_REUSEPORT" (setopt fd OptReusePort) (mret None)).

Definition setCommonSocketOptions (fd : nat) : M (option neterr) :=
  orElse "cannot configure TCP keepalive"
    (setopt fd (OptKeepAlive (mkKeepAlive true DefaultKeepAliveIdle DefaultKeepAliveInterval DefaultKeepAliveCount)))
  (orElse "cannot set TCP linger timeout" (setopt fd (OptLinger tcpLingerTimeout))
  (orElse "cannot get underlying raw connection" (setopt fd OptSyscallConn)
  (orElse "cannot setup SO_REUSEADDR/PORT" (setSocketReuseAddrPort fd)
  (mret None)))).

Definition SetServerSocketOptions : nat -> M (option neterr) := setCommonSocketOptions.
Definition SetClientSocketOptions : nat -> M (option neterr) := setCommonSocketOptions.

(** *** network/default.go *)

Definition default_DialContext : Dialer := fun network address =>
  if negb (supported network) then mret (None, Some (NErr "unsupported network")) else
  r ← net_DialContext network address;
  match r with
  | inr err => mret (None, Some (NWrap "cannot dial" err))
  | inl fd =>
      err ← SetServerSocketOptions fd;
      match err with
      | Some err => _ ← conn_Close fd; mret (None, Some (NWrap "cannot set socket options" err))
      | None => mret (Some fd, None)
      end
  end.

(** [NewDefaultDialer]: the timeout of the dialer. *)
Definition NewDefaultDialer (timeout : Z) : res Z :=
  if timeout <? 0 then Fail (Errorf "timeout should be positive number")
  else Ok (if timeout =? 0 then DefaultTimeout else timeout).

(** *** What a call of a circuit breaker does with connections

    [allowed] is the decision of the state machine of CircuitBreaker.v when the
    call begins, [cancelled] tells whether the context wins the [select] after
    the dial. *)
Definition breaker_DialContext (allowed cancelled : E -> bool) (d : Dialer) : Dialer := fun network address w =>
  if negb (allowed (w_env w)) then (w, (None, Some ErrCircuitBreakerOpen)) else
  let '(w, (conn, err)) := d network address w in
  if cancelled (w_env w) then
    let '(w, _) := match conn with Some fd => conn_Close fd w | None => (w, ()) end in
    (w, (None, Some (NErr "context is done")))
  else (w, (conn, err)).

(** *** network/socks5.go *)

Record socks5Dialer := mkSocks5 { username : list byte; password : list byte; proxyAddress : string }.

Definition handshakeNegotiation (fd : nat) (authMethod : Z) : M (option neterr) :=
  r ← with_env (fun e => socks5_negotiate e fd authMethod);
  match r with
  | None => mret (Some (NErr "cannot read response"))
  | Some method => mret (if method =? authMethod then None else Some (NErr "unsupported auth method"))
  end.

Definition handshakeAuth (s : socks5Dialer) (fd : nat) : M (option neterr) :=
  r ← with_env (fun e => socks5_auth e fd (username s) (password s));
  match r with
  | None => mret (Some (NErr "cannot read a response"))
  | Some status => mret (if status =? UserPassStatusSuccess then None else Some (NErr "authenticate has failed"))
  end.

Definition socks5_handshake (s : socks5Dialer) (fd : nat) : M (option neterr) :=
  let authMethod := if (List.length (username s) + List.length (password s) =? 0)%nat then MethodNone else MethodUsernamePassword in
  orElse "cannot perform negotiation" (handshakeNegotiation fd authMethod)
    (if authMethod =? MethodNone then mret None
     else orElse "cannot authenticate" (handshakeAuth s fd) (mret None)).

Definition socks5_connect (fd : nat) (address : string) : M (option neterr) :=
  if negb (socks5_ParseAddress address) then mret (Some (NErr "cannot parse address")) else
  r ← with_env (fun e => socks5_request e fd address);
  match r with
  | None => mret (Some (NErr "cannot read a response"))
  | Some rep => mret (if rep =? RepSuccess then None else Some (NErr "unsuccessful request"))
  end.

Definition socks5_DialContext (s : socks5Dialer) (base : Dialer) : Dialer := fun network address =>
  if negb (supported network) then mret (None, Some (NErr "network type is not supported")) else
  r ← base network (proxyAddress s);
  match r with
  | (_, Some err) => mret (None, Some (NWrap "cannot dial to the proxy" err))
  | (None, None) => mret (None, None)
  | (Some fd, None) =>
      err ← socks5_handshake s fd;
      match err with
      | Some err => _ ← conn_Close fd; mret (None, Some (NWrap "cannot perform a handshake" err))
      | None =>
          err ← socks5_connect fd address;
          match err with
          | Some err => _ ← conn_Close fd; mret (None, Some (NWrap "cannot connect to a destination host" err))
          | None => mret (Some fd, None)
          end
      end
  end.

(** [proxyURL.User]: user name and, if it was given, password. *)
Definition NewSocks5Dialer (host : string) (user : option (list byte * option (list byte))) : res socks5Dialer :=
  match SplitHostPort host with
  | Fail _ => Fail (Errorf "incorrect url")
  | Ok _ => Ok (match user with
                | Some (name, Some pass) => mkSocks5 name pass host
                | _ => mkSocks5 [] [] host
                end)
  end.

(** *** network/proxy_dialer.go *)

(** The threshold and the two timeouts of the breaker; [get] is the query of
    the proxy's URL, "" for an absent parameter. *)
Definition newProxyDialer (get : string -> string) : Z * Z * Z :=
  let duration name default :=
    match ParseDuration (get name) with Some d => if 0 <? d then d else default | None => default end in
  (match ParseUint (get "open_threshold") 32 with Some n => n | None => ProxyDialerOpenThreshold end,
   duration "half_open_timeout" ProxyDialerHalfOpenTimeout,
   duration "reset_failures_timeout" ProxyDialerResetFailuresTimeout).

(** *** network/load_balanced_socks5.go *)

(** The loop [for i := start; i != start || !moved; i = (i + 1) % length]; it
    ends before [fuel] does if [fuel] exceeds the number of dialers. *)
Inductive lbResult := LBReturn (r : dialed) | LBPanic | LBFuel.

Fixpoint lb_loop (dialers : list Dialer) (network address : string) (start : nat) (fuel i : nat) (moved : bool) : M lbResult :=
  if negb (negb (i =? start)%nat || negb moved) then mret (LBReturn (None, Some ErrCannotDialWithAllProxies)) else
  match fuel with
  | O => mret LBFuel
  | S fuel =>
      match @lookup nat Dialer (list Dialer) _ i dialers with
      | None => mret LBPanic
      | Some d =>
          r ← d network address;
          match r with
          | (conn, None) => mret (LBReturn (conn, None))
          | (_, Some _) => lb_loop dialers network address start fuel ((i + 1) mod List.length dialers)%nat true
          end
      end
  end.

(** [rand.IntN] panics when there is no dialer. *)
Definition loadBalanced_DialContext (dialers : list Dialer) (network address : string) : M lbResult :=
  if (List.length dialers =? 0)%nat then mret LBPanic else
  start ← with_env (fun e => rand_IntN e (List.length dialers));
  let start := (start mod List.length dialers)%nat in
  lb_loop dialers network address start (S (List.length dialers)) start false.

(** *** The HTTP client of the resolver: makeHTTPClient of network/network.go

    [http.Transport] with a [DialContext] of its own and no other setting: one
    request at a time on a connection, at most
    [http.DefaultMaxIdleConnsPerHost] connections kept for a host, without a
    limit of time.  All requests of a resolver go to one host. *)
Definition DefaultMaxIdleConnsPerHost : nat := 2.

(** The transport closes the idle connections that it finds dead, before it
    writes a request or by writing one in vain. *)
Definition drop_dead : M () := fun w =>
  let '(e, dead) := http_dead (w_env w) (w_idle w) in
  let dead := dead ∩ w_idle w in
  (mkWorld (opened w ∖ dead) (w_idle w ∖ dead) (nextFd w) (w_dns w) e, ()).

(** A connection for a request: an idle one, if there is one and it is not busy
    with another request, or one dialed through [dialFunc]. *)
Definition getConn (dialFunc : Dialer) (address : string) : M dialed := fun w =>
  let '(e, pick) := http_pick (w_env w) (w_idle w) in
  let w := set_env e w in
  match pick with
  | Some fd =>
      if bool_decide (fd ∈ w_idle w) then (set_idle (w_idle w ∖ {[fd]}) w, (Some fd, None))
      else dialFunc "tcp" address w
  | None => dialFunc "tcp" address w
  end.

(** [tryPutIdleConn]: a connection beyond the limit is closed. *)
Definition putIdleConn (fd : nat) : M () := fun w =>
  if (size (w_idle w) <? DefaultMaxIdleConnsPerHost)%nat then (set_idle ({[fd]} ∪ w_idle w) w, ())
  else conn_Close fd w.

(** One request; what is read in it is the resolver's affair.  A request that
    times out while its connection is being dialed leaves the connection to the
    pool: then [http_exchange] is true without an answer. *)
Definition http_request (dialFunc : Dialer) (address : string) : M () :=
  _ ← drop_dead;
  r ← getConn dialFunc address;
  match r with
  | (Some fd, None) =>
      reuse ← with_env (fun e => http_exchange e fd);
      if reuse : bool then putIdleConn fd else conn_Close fd
  | _ => mret ()
  end.

Fixpoint http_requests (dialFunc : Dialer) (address : string) (n : nat) : M () :=
  match n with O => mret () | S n => _ ← http_request dialFunc address; http_requests dialFunc address n end.

(** *** network/dns_resolver.go *)

(** [d.resolver.LookupA] and [d.resolver.LookupAAAA]: [dialFunc] is the dialer of
    the HTTP client that [NewNetwork] gives the resolver, [host] its host. *)
Definition doh_Lookup (dialFunc : Dialer) (host : string) (v6 : bool) (hostname : string) : M (option (list string)) :=
  n ← with_env (fun e => doh_requests e v6 hostname);
  _ ← http_requests dialFunc (doh_address host) n;
  with_env (fun e => doh_answer e v6 hostname).

Definition Lookup (dialFunc : Dialer) (host : string) (v6 : bool) (key hostname : string) : M (list string) := fun w =>
  match cache_get (w_dns w) key (now (w_env w)) with
  | Some l => (w, l)
  | None =>
      let '(w, answer) := doh_Lookup dialFunc host v6 hostname w in
      let '(d, l) := cache_put (w_dns w) key answer (now (w_env w)) in
      (set_dns d w, l)
  end.

Definition LookupA (dialFunc : Dialer) (host hostname : string) : M (list string) := Lookup dialFunc host false (keyA hostname) hostname.
Definition LookupAAAA (dialFunc : Dialer) (host hostname : string) : M (list string) := Lookup dialFunc host true (keyAAAA hostname) hostname.

(** *** network/network.go *)

(** [dialer] and [host] are the dialer of the network and the host of its
    resolver.  The two lookups run at the same time; a lookup that finds every
    idle connection taken by the other is one for which [http_pick] gives none. *)
Definition dnsResolve (dialer : Dialer) (host : string) (protocol address : string) : M (list string + neterr) :=
  if bool_decide (ParseIP address <> None) then mret (inl [address]) else
  a ← (if bool_decide (protocol ∈ ["tcp"; "tcp4"]) then LookupA dialer host address else mret []);
  aaaa ← (if bool_decide (protocol ∈ ["tcp"; "tcp6"]) then LookupAAAA dialer host address else mret []);
  order ← with_env (fun e => (e, first_done e));
  let l := if order : bool then a ++ aaaa else aaaa ++ a in
  mret (match l with [] => inr (NErr "cannot find any ips") | _ => inl l end).

(** [rand.Shuffle]: from the last index down, a swap with an index not above
    it. *)
Fixpoint shuffle_loop {A} (i : nat) (l : list A) : M (list A) :=
  match i with
  | O => mret l
  | S i' =>
      j ← with_env (fun e => rand_IntN e (S i));
      shuffle_loop i' (swap i (j mod S i)%nat l)
  end.

Definition Shuffle {A} (l : list A) : M (list A) := shuffle_loop (List.length l - 1) l.

(** The loop over the addresses; [err] is the error of the last attempt. *)
Fixpoint dial_ips (d : Dialer) (protocol port : string) (l : list string) (err : option neterr) : M dialed :=
  match l with
  | [] => mret (None, Some (match err with Some e => NWrap "cannot dial" e | None => NErr "cannot dial" end))
  | v :: l =>
      r ← d protocol (JoinHostPort v port);
      match r with
      | (conn, None) => mret (conn, None)
      | (_, Some e) => dial_ips d protocol port l (Some e)
      end
  end.

Definition network_DialContext (dohHost : string) (d : Dialer) : Dialer := fun protocol address =>
  let '(host, port) := match SplitHostPort address with Ok hp => hp | Fail _ => ("", "") end in
  r ← dnsResolve d dohHost protocol host;
  match r with
  | inr err => mret (None, Some (NWrap "cannot resolve dns names" err))
  | inl l => l ← Shuffle l; dial_ips d protocol port l None
  end.

(** [NewNetwork]: the timeout of the HTTP client and the host of the resolver. *)
Definition NewNetwork (dohHostname : string) (httpTimeout : Z) : res (Z * string) :=
  if httpTimeout <? 0 then Fail (Errorf "timeout should be positive number") else
  let httpTimeout := if httpTimeout =? 0 then DefaultHTTPTimeout else httpTimeout in
  if bool_decide (ParseIP dohHostname = None) then Fail (Errorf "hostname should be IP address")
  else Ok (httpTimeout, newDNSResolver_host dohHostname).

(** *** network/v2/sockopts*.go *)

Definition goDefaultKeepAliveIdle : Z := 15 * Second.
Definition goDefaultKeepAliveInterval : Z := 15 * Second.
Definition goDefaultKeepAliveCount : Z := 9.

(** The milliseconds given to the kernel; [time.Duration] arithmetic wraps. *)
Definition userTimeout (cfg : KeepAliveConfig) : Z :=
  let idle := if Idle cfg =? 0 then goDefaultKeepAliveIdle else Idle cfg in
  let interval := if Interval cfg =? 0 then goDefaultKeepAliveInterval else Interval cfg in
  let count := if Count cfg =? 0 then goDefaultKeepAliveCount else Count cfg in
  Z.quot (int64 (idle + int64 (interval * count))) Millisecond.

Definition ignore (m : M (option neterr)) : M () := _ ← m; mret ().

Definition v2_setCommonSocketOptions (fd : nat) (cfg : KeepAliveConfig) (lowat : Z) : M (option neterr) :=
  orElse "cannot configure TCP keepalive" (setopt fd (OptKeepAlive cfg))
  (orElse "cannot set TCP linger timeout" (setopt fd (OptLinger tcpLingerTimeout))
  (orElse "cannot get underlying raw connection" (setopt fd OptSyscallConn)
  (orElse "cannot setup SO_REUSEADDR/PORT" (setSocketReuseAddrPort fd)
  (_ ← ignore (setopt fd (OptCongestion "bbr"));
   _ ← ignore (setopt fd (OptUserTimeout (userTimeout cfg)));
   _ ← (if 0 <? lowat then ignore (setopt fd (OptNotSentLowat lowat)) else mret ());
   mret None)))).

(** *** network/v2/network.go *)

Record v2network := mkV2 {
  dialer_Timeout : Z;
  dialer_Resolver : option resolver;
  FallbackDelay : Z;
  keepAliveConfig : KeepAliveConfig;
  httpTimeout : Z;
  idleTimeout : Z;
  userAgent : string;
  tcpNotSentLowat : Z
}.

(** [New]; [None] is [net.DefaultResolver]. *)
Definition v2_New (dnsResolver : option resolver) (agent : string) (tcpTimeout http idle : Z) (cfg : KeepAliveConfig) (lowat : Z) : v2network :=
  mkV2 tcpTimeout dnsResolver (-1) cfg http idle (if bool_decide (agent = "") then UserAgent else agent)
    (if lowat =? 0 then DefaultTCPNotSentLowat else lowat).

Definition v2_DialContext (n : v2network) : Dialer := fun network address =>
  if negb (supported network) then mret (None, Some (NErr "unsupported network")) else
  r ← net_DialContext network address;
  match r with
  | inr err => mret (None, Some err)
  | inl fd => err ← v2_setCommonSocketOptions fd (keepAliveConfig n) (tcpNotSentLowat n); mret (Some fd, err)
  end.

(** *** network/v2/multi_network.go *)

Fixpoint dial_networks (l : list Dialer) (network address : string) (errs : list neterr) : M dialed :=
  match l with
  | [] => mret (None, Some (NJoin errs))
  | ntw :: l =>
      r ← ntw network address;
      match r with
      | (conn, None) => mret (conn, None)
      | (_, Some err) => dial_networks l network address (errs ++ [err])
      end
  end.

Definition multi_DialContext (networks : list Dialer) : Dialer := fun network address =>
  l ← (if (1 <? List.length networks)%nat then Shuffle networks else mret networks);
  dial_networks l network address [ErrCannotDial].

Definition Join (networks : list Dialer) : res (list Dialer) :=
  match networks with [] => Fail (Errorf "cannot join no networks") | _ => Ok networks end.

(** *** network/v2/proxy_network.go *)

(** [client] is the dialer of the SOCKS package. *)
Definition proxyNetwork_DialContext (client : Dialer) : Dialer := fun network address =>
  r ← client network address;
  match r with
  | (_, Some err) => mret (None, Some err)
  | (conn, None) => mret (conn, None)
  end.

(** The dialer a SOCKS upstream is reached with keeps timeout and fallback
    delay and drops the resolver. *)
Definition proxyServerDialer (base : v2network) : Z * Z * option resolver := (dialer_Timeout base, FallbackDelay base, None).
End net.
Arguments World E : clear implicits.

(** *** network/v2/dns.go *)

(** [NewResolver] is the error of the constructors of the DNS package for the
    encrypted transports. *)
Definition GetDNS (NewResolver : resolver -> res ()) (u : option URL) : res resolver :=
  let encrypted r := _ ← NewResolver r; Ok r in
  match u with
  | None => Ok SystemResolver
  | Some u =>
      let u := if bool_decide (url_Scheme u = "") then mkURL "udp" (url_User u) (url_Host u) (url_Path u) (url_text u) else u in
      let u := if bool_decide (url_Scheme u = "udp") && bool_decide (url_Host u = "")
               then mkURL (url_Scheme u) (url_User u) (url_Path u) "" (url_text u) else u in
      if bool_decide (url_Scheme u = "tls") then encrypted (DoT (url_Host u))
      else if bool_decide (url_Scheme u = "https") then
        encrypted (DoH (if bool_decide (url_Path u = "") then mkURL (url_Scheme u) (url_User u) (url_Host u) "/dns-query" (url_text u) else u))
      else if bool_decide (url_Scheme u = "udp") || bool_decide (url_Scheme u = "") then
        let port := if bool_decide (url_Port u = "") then "53" else url_Port u in
        Ok (PlainDNS (JoinHostPort (Hostname u) port))
      else Fail (Errorf "unsupported DNS")
  end.

(** ** What a client relies on *)

Section tidy.
Context {E : Type} `{NetEnv E}.
#[local] Existing Instance M_ret.
#[local] Existing Instance M_bind.
Implicit Types w : World E.

(** Sockets are numbered below the next number; the idle ones are open, and not
    more than the transport keeps. *)
Definition fds_wf w : Prop :=
  (forall fd, fd ∈ opened w -> (fd < nextFd w)%nat) /\ w_idle w ⊆ opened w /\ (size (w_idle w) <= DefaultMaxIdleConnsPerHost)%nat.

(** The sockets in use: those that the pool does not hold. *)
Definition in_use w : gset nat := opened w ∖ w_idle w.

(** [w1] comes after [w] and has the same sockets in use. *)
Definition after w w1 : Prop := fds_wf w1 /\ (nextFd w <= nextFd w1)%nat /\ in_use w1 = in_use w.

(** A call with an error opened nothing that is still in use and returned
    nothing; a call without returned a new socket, the only one it left in use. *)
Definition clean w (x : World E * dialed) : Prop :=
  match x.2 with
  | (Some fd, None) =>
      fds_wf x.1 /\ (nextFd w <= nextFd x.1)%nat /\ (nextFd w <= fd)%nat /\ in_use x.1 = {[fd]} ∪ in_use w
  | (None, Some _) => after w x.1
  | _ => False
  end.

Class Tidy (d : Dialer) : Prop := tidy network address w : fds_wf w -> clean w (d network address w).

(** A computation that opens and closes nothing. *)
Class Quiet {A} (m : M A) : Prop :=
  quiet w : opened (m w).1 = opened w /\ nextFd (m w).1 = nextFd w /\ w_idle (m w).1 = w_idle w.

Lemma quiet_after {A} (m : M A) `{!Quiet m} w : fds_wf w -> after w (m w).1.
Proof. intros Hw. destruct (quiet (m := m) w) as (H1 & H2 & H3). unfold after, in_use, fds_wf. rewrite H1, H2, H3. naive_solver. Qed.

Lemma after_refl w : fds_wf w -> after w w.
Proof. intros Hw. by split. Qed.

Lemma after_trans w w1 w2 : after w w1 -> after w1 w2 -> after w w2.
Proof. intros (_ & ? & ?) (? & ? & ?). split; [done|]. split; [lia|congruence]. Qed.

Lemma clean_after w w1 x : after w w1 -> clean w1 x -> clean w x.
Proof.
  intros (H1 & H2 & H3). unfold clean. destruct x as [w2 [[fd|] [e|]]]; simpl; try done.
  - intros (? & ? & ? & Ho). rewrite <-H3. split; [done|]. split_and!; [lia|lia|done].
  - by apply after_trans.
Qed.

Lemma clean_error w w1 e : after w w1 -> clean w (w1, (None, Some e)).
Proof. done. Qed.

#[export] Instance Quiet_ret {A} (a : A) : Quiet (mret a).
Proof. done. Qed.

#[export] Instance Quiet_bind {A B} (m : M A) (f : A -> M B) : Quiet m -> (forall a, Quiet (f a)) -> Quiet (m ≫= f).
Proof.
  intros Hm Hf w. unfold mbind, M_bind. specialize (Hm w). destruct (m w) as [w1 a]. simpl in *.
  destruct (Hf a w1) as (-> & -> & ->). done.
Qed.

#[export] Instance Quiet_env {A} (f : E -> E * A) : Quiet (with_env f).
Proof. intros w. unfold with_env. by destruct (f (w_env w)). Qed.

#[export] Instance Quiet_orElse m x k : Quiet x -> Quiet k -> Quiet (orElse m x k).
Proof. intros Hx Hk. unfold orElse. apply Quiet_bind; [done|]. by intros [e|]. Qed.

Ltac quiet_tac :=
  repeat match goal with
  | |- Quiet (orElse _ _ _) => apply Quiet_orElse
  | |- Quiet (_ ≫= _) => apply Quiet_bind; [|intros ?]
  | |- Quiet (if ?b then _ else _) => destruct b
  | |- Quiet (match ?b with _ => _ end) => destruct b
  | |- Quiet (mret _) => apply Quiet_ret
  | |- Quiet (with_env _) => apply Quiet_env
  end.

#[export] Instance Quiet_setopt fd o : Quiet (setopt fd o).
Proof. unfold setopt. apply _. Qed.

#[export] Instance Quiet_reuse fd : Quiet (setSocketReuseAddrPort fd).
Proof. unfold setSocketReuseAddrPort. quiet_tac; apply _. Qed.

#[export] Instance Quiet_options fd : Quiet (setCommonSocketOptions fd).
Proof. unfold setCommonSocketOptions. quiet_tac; apply _. Qed.

#[export] Instance Quiet_v2options fd cfg lowat : Quiet (v2_setCommonSocketOptions fd cfg lowat).
Proof. unfold v2_setCommonSocketOptions, ignore. quiet_tac; apply _. Qed.

#[export] Instance Quiet_handshake s fd : Quiet (socks5_handshake s fd).
Proof. unfold socks5_handshake, handshakeNegotiation, handshakeAuth. quiet_tac; apply _. Qed.

#[export] Instance Quiet_connect fd a : Quiet (socks5_connect fd a).
Proof. unfold socks5_connect. quiet_tac; apply _. Qed.

#[export] Instance Quiet_shuffle {A} (l : list A) : Quiet (Shuffle l).
Proof. unfold Shuffle. generalize (List.length l - 1)%nat. intros i. revert l. induction i; intros l; simpl; quiet_tac. apply IHi. Qed.

(** One socket more is in use than in [w]. *)
Definition extra w fd w1 : Prop :=
  fds_wf w1 /\ (nextFd w <= nextFd w1)%nat /\ fd ∉ in_use w /\ in_use w1 = {[fd]} ∪ in_use w.

(** The new socket of a connect, with anything quiet after it. *)
Definition holding w fd w1 : Prop :=
  fds_wf w1 /\ (nextFd w <= nextFd w1)%nat /\ (nextFd w <= fd)%nat /\ in_use w1 = {[fd]} ∪ in_use w.

Lemma holding_extra w fd w1 : fds_wf w -> holding w fd w1 -> extra w fd w1.
Proof.
  intros [Hw _] (H1 & H2 & H3 & H4). split; [done|]. split_and!; [done| |done]. intros [Hin%Hw _]%elem_of_difference. lia.
Qed.

Lemma net_dial_spec network address w :
  fds_wf w ->
  match net_DialContext network address w with
  | (w1, inl fd) => holding w fd w1
  | (w1, inr _) => after w w1
  end.
Proof.
  intros (Hw & Hi & Hs). unfold net_DialContext. destruct (os_dial _ _ _) as [e [err|]].
  - split_and!; [done..|simpl; lia|done].
  - split_and!; cbn; [split_and!|lia|lia|]; cbn.
    + intros fd [->%elem_of_singleton|Hfd]%elem_of_union; [lia|]. specialize (Hw _ Hfd). lia.
    + set_solver.
    + done.
    + unfold in_use. cbn. assert (nextFd w ∉ w_idle w) by (intros Hin%Hi%Hw; lia). set_solver.
Qed.

Lemma holding_quiet {A} (m : M A) `{!Quiet m} w fd w1 : holding w fd w1 -> holding w fd (m w1).1.
Proof.
  intros (H1 & H2 & H3 & H4). destruct (quiet (m := m) w1) as (Ho & Hn & Hi).
  unfold holding, in_use, fds_wf in *. rewrite Ho, Hn, Hi. naive_solver.
Qed.

Lemma extra_quiet {A} (m : M A) `{!Quiet m} w fd w1 : extra w fd w1 -> extra w fd (m w1).1.
Proof.
  intros (H1 & H2 & H3 & H4). destruct (quiet (m := m) w1) as (Ho & Hn & Hi).
  unfold extra, in_use, fds_wf in *. rewrite Ho, Hn, Hi. naive_solver.
Qed.

Lemma extra_close w fd w1 : extra w fd w1 -> after w (conn_Close fd w1).1.
Proof.
  intros ((H1 & Hi & Hs) & H2 & H3 & H4). assert (fd ∈ in_use w1) as Hfd by set_solver.
  unfold after, in_use, fds_wf in *. cbn. split_and!; [|set_solver..|done|done|set_solver].
  intros x Hx. apply H1. set_solver.
Qed.

Lemma holding_close w fd w1 : fds_wf w -> holding w fd w1 -> after w (conn_Close fd w1).1.
Proof. intros Hw Hh. by apply extra_close, holding_extra. Qed.

Lemma holding_clean w fd w1 : holding w fd w1 -> clean w (w1, (Some fd, None)).
Proof. done. Qed.

(** Splitting the outcome of a tidy call. *)
Lemma tidy_inv (d : Dialer) `{!Tidy d} network address w w1 r :
  fds_wf w -> d network address w = (w1, r) ->
  (exists fd, r = (Some fd, None) /\ holding w fd w1) \/ (exists e, r = (None, Some e) /\ after w w1).
Proof.
  intros Hw Hd. pose proof (tidy (d := d) network address w Hw) as Hc. rewrite Hd in Hc.
  destruct r as [[fd|] [e|]]; [done|left; by exists fd|right; by exists e|done].
Qed.

#[export] Instance Tidy_default : Tidy default_DialContext.
Proof.
  intros network address w Hw. unfold default_DialContext. case_match; [by apply clean_error, after_refl|].
  unfold mbind, M_bind. pose proof (net_dial_spec network address w Hw) as Hd.
  destruct (net_DialContext network address w) as [w1 [fd|err]]; [|done].
  pose proof (holding_quiet (SetServerSocketOptions fd) w fd w1 Hd) as Hh.
  destruct (SetServerSocketOptions fd w1) as [w2 [err|]]; simpl in *; [|done].
  by apply clean_error, (holding_close w fd w2).
Qed.

#[export] Instance Tidy_breaker allowed cancelled d : Tidy d -> Tidy (breaker_DialContext allowed cancelled d).
Proof.
  intros Hd network address w Hw. unfold breaker_DialContext. case_match; [by apply clean_error, after_refl|].
  destruct (d network address w) as [w1 r] eqn:Hr. destruct (tidy_inv d _ _ _ _ _ Hw Hr) as [(fd & -> & Hh)|(e & -> & Ha)].
  - case_match; [|done]. by apply clean_error, (holding_close w fd w1).
  - by case_match.
Qed.

#[export] Instance Tidy_socks5 s d : Tidy d -> Tidy (socks5_DialContext s d).
Proof.
  intros Hd network address w Hw. unfold socks5_DialContext. case_match; [by apply clean_error, after_refl|].
  unfold mbind, M_bind. destruct (d network (proxyAddress s) w) as [w1 r] eqn:Hr.
  destruct (tidy_inv d _ _ _ _ _ Hw Hr) as [(fd & -> & Hh)|(e & -> & Ha)]; [|done].
  pose proof (holding_quiet (socks5_handshake s fd) w fd w1 Hh) as H2.
  destruct (socks5_handshake s fd w1) as [w2 [err|]]; simpl in H2; [by apply clean_error, (holding_close w fd w2)|].
  pose proof (holding_quiet (socks5_connect fd address) w fd w2 H2) as H3.
  destruct (socks5_connect fd address w2) as [w3 [err|]]; simpl in H3; [by apply clean_error, (holding_close w fd w3)|done].
Qed.

Lemma clean_bind_quiet {A} (m : M A) `{!Quiet m} (f : A -> M dialed) w :
  fds_wf w -> (forall w1 a, fds_wf w1 -> m w = (w1, a) -> clean w1 (f a w1)) -> clean w ((m ≫= f) w).
Proof.
  intros Hw Hf. unfold mbind, M_bind. pose proof (quiet_after m w Hw) as Ha. destruct (m w) as [w1 a].
  eapply clean_after; [exact Ha|]. apply Hf; [by destruct Ha|done].
Qed.

(** *** The idle pool *)

Lemma drop_dead_after w : fds_wf w -> after w (drop_dead w).1.
Proof.
  intros (Hw & Hi & Hs). unfold drop_dead. destruct (http_dead _ _) as [e dead]. unfold after, in_use, fds_wf. cbn. split_and!.
  - intros fd Hfd. apply Hw. set_solver.
  - set_solver.
  - etrans; [apply subseteq_size|exact Hs]. set_solver.
  - done.
  - apply set_eq. intros x. destruct (decide (x ∈ w_idle w)); set_solver.
Qed.

Lemma put_idle_after w fd w1 : extra w fd w1 -> after w (putIdleConn fd w1).1.
Proof.
  intros He. unfold putIdleConn. destruct (size (w_idle w1) <? DefaultMaxIdleConnsPerHost)%nat eqn:Hlt; [|by apply extra_close].
  apply Nat.ltb_lt in Hlt. destruct He as ((H1 & Hi & Hs) & H2 & H3 & H4). assert (fd ∈ in_use w1) as Hfd by set_solver.
  unfold after, in_use, fds_wf in *. cbn. split_and!; [done|set_solver| |done|set_solver].
  rewrite size_union by set_solver. rewrite size_singleton. lia.
Qed.

Lemma getConn_spec d `{!Tidy d} address w w1 r :
  fds_wf w -> getConn d address w = (w1, r) ->
  (exists fd, r = (Some fd, None) /\ extra w fd w1) \/ (exists e, r = (None, Some e) /\ after w w1).
Proof.
  intros Hw. unfold getConn. destruct (http_pick _ _) as [e pick]. cbn [w_idle set_env].
  assert (fds_wf (set_env e w)) as Hw' by exact Hw.
  assert (forall w1 r, d "tcp" address (set_env e w) = (w1, r) ->
    (exists fd, r = (Some fd, None) /\ extra w fd w1) \/ (exists e, r = (None, Some e) /\ after w w1)) as Hdial.
  { intros w2 r2 Hr. destruct (tidy_inv d _ _ _ _ _ Hw' Hr) as [(fd & -> & Hh)|(e' & -> & Ha)]; [left|right; by exists e'].
    exists fd. split; [done|]. by apply holding_extra in Hh. }
  destruct pick as [fd|]; [|apply Hdial]. case_bool_decide as Hin; [|apply Hdial].
  intros [= <- <-]. left. exists fd. split; [done|]. destruct Hw as (Hw & Hi & Hs). specialize (Hi _ Hin) as Hop.
  unfold extra, in_use, fds_wf. cbn. split_and!; [done|set_solver| |done|set_solver|].
  - etrans; [apply subseteq_size|exact Hs]. set_solver.
  - apply set_eq. intros x. destruct (decide (x = fd)) as [->|]; set_solver.
Qed.

Lemma http_request_after d `{!Tidy d} address w : fds_wf w -> after w (http_request d address w).1.
Proof.
  intros Hw. unfold http_request, mbind, M_bind. pose proof (drop_dead_after w Hw) as H0. destruct (drop_dead w) as [w1 []]. cbn in H0.
  eapply after_trans; [exact H0|]. destruct (getConn d address w1) as [w2 r] eqn:Hg.
  destruct (getConn_spec d address w1 w2 r ltac:(apply H0) Hg) as [(fd & -> & He)|(e & -> & Ha)]; [|exact Ha].
  pose proof (extra_quiet (with_env (fun e => http_exchange e fd)) w1 fd w2 He) as Hx.
  destruct (with_env _ w2) as [w3 []]; cbn in Hx; [by apply put_idle_after|by apply extra_close].
Qed.

Lemma http_requests_after d `{!Tidy d} address n w : fds_wf w -> after w (http_requests d address n w).1.
Proof.
  revert w. induction n as [|n IH]; intros w Hw; [by apply after_refl|]. cbn. unfold mbind, M_bind.
  pose proof (http_request_after d address w Hw) as H0. destruct (http_request d address w) as [w1 []]. cbn in H0.
  eapply after_trans; [exact H0|]. apply IH, H0.
Qed.

Lemma after_bind {A B} (m : M A) (f : A -> M B) w :
  after w (m w).1 -> (forall a w1, fds_wf w1 -> after w1 (f a w1).1) -> after w ((m ≫= f) w).1.
Proof.
  intros Hm Hf. unfold mbind, M_bind. destruct (m w) as [w1 a]. cbn in Hm. eapply after_trans; [exact Hm|]. apply Hf, Hm.
Qed.

Lemma Lookup_after d `{!Tidy d} host v6 key hostname w : fds_wf w -> after w (Lookup d host v6 key hostname w).1.
Proof.
  intros Hw. unfold Lookup. case_match; [by apply after_refl|].
  assert (after w (doh_Lookup d host v6 hostname w).1) as Ha.
  { unfold doh_Lookup. apply after_bind; [apply quiet_after; [apply _|done]|]. intros n w1 Hw1.
    apply after_bind; [by apply http_requests_after|]. intros [] w2 Hw2. apply quiet_after; [apply _|done]. }
  destruct (doh_Lookup d host v6 hostname w) as [w1 answer]. by destruct (cache_put _ _ _ _).
Qed.

Lemma dnsResolve_after d `{!Tidy d} host protocol address w : fds_wf w -> after w (dnsResolve d host protocol address w).1.
Proof.
  intros Hw. unfold dnsResolve, LookupA, LookupAAAA. case_match; [by apply after_refl|].
  apply after_bind; [case_match; [by apply Lookup_after|by apply after_refl]|]. intros a w1 Hw1.
  apply after_bind; [case_match; [by apply Lookup_after|by apply after_refl]|]. intros aaaa w2 Hw2.
  apply quiet_after; [quiet_tac|done].
Qed.

Lemma dial_ips_clean d `{!Tidy d} protocol port l err w : fds_wf w -> clean w (dial_ips d protocol port l err w).
Proof.
  revert err w. induction l as [|v l IH]; intros err w Hw; simpl; [by apply clean_error, after_refl|].
  unfold mbind, M_bind. destruct (d protocol (JoinHostPort v port) w) as [w1 r] eqn:Hr.
  destruct (tidy_inv d _ _ _ _ _ Hw Hr) as [(fd & -> & Hh)|(e & -> & Ha)]; [done|].
  eapply clean_after; [exact Ha|]. apply IH. by destruct Ha.
Qed.

#[export] Instance Tidy_network host d : Tidy d -> Tidy (network_DialContext host d).
Proof.
  intros Hd protocol address w Hw. unfold network_DialContext. case_match.
  unfold mbind at 1, M_bind at 1. pose proof (dnsResolve_after d host protocol s w Hw) as Ha.
  destruct (dnsResolve d host protocol s w) as [w1 r]. cbn in Ha. pose proof (proj1 Ha) as Hw1.
  eapply clean_after; [exact Ha|]. destruct r; [|by apply clean_error, after_refl].
  apply clean_bind_quiet; [apply _|done|]. intros w2 l' Hw2 _. by apply dial_ips_clean.
Qed.

(** *** Shuffling *)

Definition transpose (i j k : nat) : nat := if decide (k = i) then j else if decide (k = j) then i else k.

Lemma swap_perm {A} i j (l : list A) : swap i j l ≡ₚ l.
Proof.
  unfold swap. destruct (l !! i) as [x|] eqn:Hi; [|done]. destruct (l !! j) as [y|] eqn:Hj; [|done].
  apply Permutation_inj. split; [by rewrite !length_insert|].
  exists (transpose i j). split.
  - intros a b. unfold transpose. repeat case_decide; congruence.
  - intros k. apply lookup_lt_Some in Hi as Hi'. apply lookup_lt_Some in Hj as Hj'. unfold transpose.
    destruct (decide (k = i)) as [->|Hki]; [by rewrite list_lookup_insert_eq by (by rewrite length_insert)|].
    rewrite list_lookup_insert_ne by done.
    destruct (decide (k = j)) as [->|Hkj]; [by rewrite list_lookup_insert_eq|by rewrite list_lookup_insert_ne].
Qed.

Lemma Shuffle_perm {A} (l : list A) w : (Shuffle l w).2 ≡ₚ l.
Proof.
  unfold Shuffle. generalize (List.length l - 1)%nat. intros i. revert l w.
  induction i as [|i IH]; intros l w; [done|].
  simpl. unfold mbind, M_bind. destruct (with_env _ w) as [w1 j]. rewrite IH. apply swap_perm.
Qed.

(** *** Trying dialers in turn *)

(** The reference: the dialers of a list, each once, up to the first success. *)
Fixpoint try_all (l : list (@Dialer E)) (network address : string) : @M E dialed :=
  match l with
  | [] => mret (None, Some ErrCannotDialWithAllProxies)
  | d :: l =>
      r ← d network address;
      match r with
      | (conn, None) => mret (conn, None)
      | (_, Some _) => try_all l network address
      end
  end.

(** The list from [start] on, round to where it began. *)
Definition rotate {A} (start : nat) (l : list A) : list A := drop start l ++ take start l.

Lemma rotate_lookup {A} start k (l : list A) :
  (start < List.length l)%nat -> (k < List.length l)%nat ->
  rotate start l !! k = l !! ((start + k) mod List.length l)%nat.
Proof.
  intros Hs Hk. unfold rotate. rewrite lookup_app. destruct (decide (start + k < List.length l)%nat) as [Hlt|Hge].
  - rewrite lookup_drop, Nat.mod_small by done. by destruct (lookup_lt_is_Some_2 l (start + k) Hlt) as [x ->].
  - rewrite (lookup_ge_None_2 (drop start l)) by (rewrite length_drop; lia). rewrite length_drop.
    replace ((start + k) mod List.length l)%nat with (start + k - List.length l)%nat.
    + rewrite lookup_take_lt by lia. f_equal. lia.
    + replace (start + k)%nat with ((start + k - List.length l) + 1 * List.length l)%nat at 2 by lia.
      by rewrite Nat.Div0.mod_add, Nat.mod_small by lia.
Qed.

Lemma length_rotate {A} start (l : list A) : List.length (rotate start l) = List.length l.
Proof. unfold rotate. rewrite length_app, length_drop, length_take. lia. Qed.

Lemma rotate_perm {A} start (l : list A) : rotate start l ≡ₚ l.
Proof. unfold rotate. by rewrite (comm (++)), take_drop. Qed.

Lemma lb_loop_spec dialers network address start fuel k w :
  (start < List.length dialers)%nat -> (0 < k <= List.length dialers)%nat -> (List.length dialers < fuel + k)%nat ->
  lb_loop dialers network address start fuel ((start + k) mod List.length dialers)%nat true w =
  (let '(w', r) := try_all (drop k (rotate start dialers)) network address w in (w', LBReturn r)).
Proof.
  intros Hs. revert k w. induction fuel as [|fuel IH]; intros k w Hk Hf; [lia|].
  cbn [lb_loop]. destruct (decide (k = List.length dialers)) as [->|Hne].
  - replace ((start + List.length dialers) mod List.length dialers)%nat with start
      by (rewrite <-(Nat.mul_1_l (List.length dialers)) at 1; by rewrite Nat.Div0.mod_add, Nat.mod_small).
    rewrite Nat.eqb_refl. simpl. by rewrite drop_ge by (rewrite length_rotate; lia).
  - assert ((start + k) mod List.length dialers <> start)%nat as Hi.
    { destruct (decide (start + k < List.length dialers)%nat); [rewrite Nat.mod_small by done; lia|].
      replace (start + k)%nat with ((start + k - List.length dialers) + 1 * List.length dialers)%nat by lia.
      rewrite Nat.Div0.mod_add, Nat.mod_small by lia. lia. }
    rewrite (proj2 (Nat.eqb_neq _ _)) by done. cbn [negb orb].
    assert (exists d, rotate start dialers !! k = Some d) as [d Hd].
    { apply lookup_lt_is_Some_2. rewrite length_rotate. lia. }
    rewrite (drop_S _ d k) by done. rewrite rotate_lookup in Hd by lia. rewrite Hd. cbn [try_all].
    unfold mbind, M_bind. destruct (d network address w) as [w1 [conn [e|]]]; [|done].
    rewrite <-IH by lia. f_equal. rewrite Nat.Div0.add_mod_idemp_l. f_equal. lia.
Qed.

Lemma lb_equiv dialers network address w :
  dialers <> [] ->
  loadBalanced_DialContext dialers network address w =
  (let '(w1, n) := with_env (fun e => rand_IntN e (List.length dialers)) w in
   let '(w2, r) := try_all (rotate (n mod List.length dialers) dialers) network address w1 in (w2, LBReturn r)).
Proof.
  intros Hne. assert (0 < List.length dialers)%nat as Hpos by (destruct dialers; [done|simpl; lia]).
  unfold loadBalanced_DialContext. rewrite (proj2 (Nat.eqb_neq _ _)) by lia.
  unfold mbind at 1, M_bind at 1. destruct (with_env _ w) as [w1 n].
  pose proof (Nat.mod_upper_bound n (List.length dialers) ltac:(lia)) as Hs.
  remember (n mod List.length dialers)%nat as start. clear Heqstart n.
  assert (exists d, dialers !! start = Some d) as [d Hd] by (by apply lookup_lt_is_Some_2).
  cbn [lb_loop]. rewrite Nat.eqb_refl. cbn [negb orb]. rewrite Hd.
  assert (rotate start dialers = d :: drop 1 (rotate start dialers)) as ->.
  { rewrite <-(drop_0 (rotate start dialers)) at 1. apply drop_S. rewrite rotate_lookup by lia.
    by rewrite Nat.add_0_r, Nat.mod_small. }
  cbn [try_all]. unfold mbind, M_bind. destruct (d network address w1) as [w2 [conn [e|]]]; [|done].
  by rewrite (lb_loop_spec _ _ _ _ _ 1) by lia.
Qed.

Lemma try_all_clean (l : list (@Dialer E)) network address w :
  (forall d, d ∈ l -> Tidy d) -> fds_wf w -> clean w (try_all l network address w).
Proof.
  revert w. induction l as [|d l IH]; intros w Hl Hw; simpl; [by apply clean_error, after_refl|].
  unfold mbind, M_bind. destruct (d network address w) as [w1 r] eqn:Hr.
  assert (Tidy d) by (apply Hl; left).
  destruct (tidy_inv d _ _ _ _ _ Hw Hr) as [(fd & -> & Hh)|(e & -> & Ha)]; [done|].
  eapply clean_after; [exact Ha|]. apply IH; [|by destruct Ha]. intros d' Hd'. apply Hl. by right.
Qed.

(** The load balancer as a dialer; with a dialer at least it does not panic. *)
Definition lb_dialer (dialers : list (@Dialer E)) : @Dialer E := fun network address w =>
  match loadBalanced_DialContext dialers network address w with
  | (w, LBReturn r) => (w, r)
  | (w, _) => (w, (None, None))
  end.

Lemma Tidy_lb (dialers : list (@Dialer E)) : dialers <> [] -> (forall d, d ∈ dialers -> Tidy d) -> Tidy (lb_dialer dialers).
Proof.
  intros Hne Hd network address w Hw. unfold lb_dialer. rewrite lb_equiv by done.
  pose proof (quiet_after (with_env (fun e => rand_IntN e (List.length dialers))) w Hw) as Ha.
  destruct (with_env _ w) as [w1 n]. simpl in Ha. eapply clean_after; [exact Ha|].
  pose proof (try_all_clean (rotate (n mod List.length dialers) dialers) network address w1) as Hc.
  destruct (try_all _ network address w1) as [w2 r]. apply Hc; [|by destruct Ha].
  intros d. rewrite rotate_perm. apply Hd.
Qed.

Lemma dial_networks_clean (l : list (@Dialer E)) network address errs w :
  (forall d, d ∈ l -> Tidy d) -> fds_wf w -> clean w (dial_networks l network address errs w).
Proof.
  revert errs w. induction l as [|d l IH]; intros errs w Hl Hw; simpl; [by apply clean_error, after_refl|].
  unfold mbind, M_bind. destruct (d network address w) as [w1 r] eqn:Hr.
  assert (Tidy d) by (apply Hl; left).
  destruct (tidy_inv d _ _ _ _ _ Hw Hr) as [(fd & -> & Hh)|(e & -> & Ha)]; [done|].
  eapply clean_after; [exact Ha|]. apply IH; [|by destruct Ha]. intros d' Hd'. apply Hl. by right.
Qed.

Lemma Tidy_multi (networks : list (@Dialer E)) : (forall d, d ∈ networks -> Tidy d) -> Tidy (multi_DialContext networks).
Proof.
  intros Hn network address w Hw. unfold multi_DialContext.
  assert (Quiet (if (1 <? List.length networks)%nat then Shuffle networks else mret networks)) as Hq by (case_match; apply _).
  apply clean_bind_quiet; [done|done|]. intros w1 l Hw1 Hl. apply dial_networks_clean; [|done].
  intros d Hd. apply Hn. revert Hl. case_match; intros Hl.
  - pose proof (Shuffle_perm networks w) as Hp. rewrite Hl in Hp. simpl in Hp. by rewrite <-Hp.
  - by injection Hl as <- <-.
Qed.

#[export] Instance Tidy_proxy client : Tidy client -> Tidy (proxyNetwork_DialContext client).
Proof.
  intros Hd network address w Hw. unfold proxyNetwork_DialContext, mbind, M_bind.
  destruct (client network address w) as [w1 r] eqn:Hr. by destruct (tidy_inv client _ _ _ _ _ Hw Hr) as [(fd & -> & Hh)|(e & -> & Ha)].
Qed.

(** The dialers of the first generation: [Dialer] of network/init.go. *)
Inductive built_dialer : @Dialer E -> Prop :=
  | BuiltDefault : built_dialer default_DialContext
  | BuiltBreaker allowed cancelled d : built_dialer d -> built_dialer (breaker_DialContext allowed cancelled d)
  | BuiltSocks5 s d : built_dialer d -> built_dialer (socks5_DialContext s d)
  | BuiltBalanced dialers : dialers <> [] -> (forall d, d ∈ dialers -> built_dialer d) -> built_dialer (lb_dialer dialers).

(** What the program dials with, apart from the base network of the second
    generation: a dialer, a network over it with its DNS-over-HTTPS resolver, a
    proxy network or joined ones.  [client] is the SOCKS client of
    golang.org/x/net, which is relied upon to close the connection to the proxy
    when it reports an error. *)
Inductive built : @Dialer E -> Prop :=
  | BuiltDialer d : built_dialer d -> built d
  | BuiltNetwork host d : built_dialer d -> built (network_DialContext host d)
  | BuiltProxy client : Tidy client -> built (proxyNetwork_DialContext client)
  | BuiltMulti clients : (forall client, client ∈ clients -> Tidy client) -> built (multi_DialContext (proxyNetwork_DialContext <$> clients)).

Lemma built_dialer_tidy d : built_dialer d -> Tidy d.
Proof. induction 1; [apply _|by apply Tidy_breaker|by apply Tidy_socks5|by apply Tidy_lb]. Qed.

Lemma built_tidy d : built d -> Tidy d.
Proof.
  destruct 1 as [d Hd|host d Hd|client Hc|clients Hc].
  - by apply built_dialer_tidy.
  - by apply Tidy_network, built_dialer_tidy.
  - by apply Tidy_proxy.
  - apply Tidy_multi. intros d Hd. apply list_elem_of_fmap in Hd as (client & -> & Hin). by apply Tidy_proxy, Hc.
Qed.
End tidy.

(** *** The cache *)

(** Every interleaving of lookups is a sequence of these, each under the
    resolver's mutex: reads do not change the cache, an answer that arrives is
    put into it. *)
Definition dns_puts (l : list (string * option (list string) * Z)) : dnsCache :=
  foldl (fun d '(key, answer, t) => (cache_put d key answer t).1) ∅ l.

(** A cached answer for a name and a type of record is an answer the resolver
    gave to the same question less than ten minutes before, and no other answer
    to it came later. *)
Lemma cache_get_sound l key t ips :
  cache_get (dns_puts l) key t = Some ips ->
  exists l1 t0 l2, l = l1 ++ (key, Some ips, t0) :: l2 /\ t - t0 < dnsResolverKeepTime /\
    Forall (fun '(k, answer, _) => k = key -> answer = None) l2.
Proof.
  unfold dns_puts, cache_get. induction l as [|[[k ans] t1] l IH] using rev_ind; [simpl; by rewrite lookup_empty|].
  rewrite foldl_app. simpl. set (d := foldl _ ∅ l) in *. destruct ans as [ips'|]; simpl.
  - destruct (decide (k = key)) as [->|Hne].
    + rewrite lookup_insert_eq. unfold entry_Ok. simpl. destruct (Sub t t1 <? dnsResolverKeepTime) eqn:Hok; [|done]. intros [= <-]. zbool.
      exists l, t1, []. split_and!; [done| |done]. unfold Sub, dnsResolverKeepTime, Minute, Second, max_int64, min_int64 in *. lia.
    + rewrite lookup_insert_ne by done. intros (l1 & t0 & l2 & -> & Ht & Hf)%IH.
      exists l1, t0, (l2 ++ [(k, Some ips', t1)]). split_and!; [by rewrite <-(assoc_L (++))|done|].
      apply Forall_app. split; [done|]. by apply Forall_singleton.
  - intros (l1 & t0 & l2 & -> & Ht & Hf)%IH. exists l1, t0, (l2 ++ [(k, None, t1)]).
    split_and!; [by rewrite <-(assoc_L (++))|done|]. apply Forall_app. split; [done|]. by apply Forall_singleton.
Qed.

Lemma keys_apart h h' : keyA h <> keyAAAA h'.
Proof. done. Qed.

(** *** A system that refuses the linger option *)

Definition no_linger : NetEnv () := {|
  os_dial e _ _ := (e, None);
  os_sockopt e _ o := (e, match o with OptLinger _ => Some (NErr "invalid argument") | _ => None end);
  rand_IntN e _ := (e, O);
  doh_address host := (host ++ ":443")%string;
  doh_requests e _ _ := (e, 1%nat);
  doh_answer e _ _ := (e, None);
  http_dead e _ := (e, ∅);
  http_pick e _ := (e, None);
  http_exchange e _ := (e, true);
  first_done _ := true;
  now _ := 0;
  MethodNone := 0; MethodUsernamePassword := 2; UserPassStatusSuccess := 0; RepSuccess := 0;
  socks5_ParseAddress _ := true;
  socks5_negotiate e _ m := (e, Some m);
  socks5_auth e _ _ _ := (e, Some 0);
  socks5_request e _ _ := (e, Some 0)
|}.

Definition world0 : World () := mkWorld ∅ ∅ 0 ∅ ().

Definition network0 : v2network := v2_New None "" 0 0 0 (mkKeepAlive true 0 0 0) 0.

(** ** Claims *)


(** The load balancer's loop is equivalent to trying a list in turn.  With a
    dialer at least, the index loop over the proxies, from a random start and
    round the slice, never panics, ends, and does exactly what trying each proxy
    once does, in an order that is a rotation of the list: it returns the first
    connection that is made, or ErrCannotDialWithAllProxies when all have
    failed. *)
Theorem load_balancer_equiv {E} `{NetEnv E} (dialers : list Dialer) network address (w : World E) :
  dialers <> [] ->
  exists w1 start, opened w1 = opened w /\ rotate start dialers ≡ₚ dialers /\
    loadBalanced_DialContext dialers network address w =
    (let '(w2, r) := try_all (rotate start dialers) network address w1 in (w2, LBReturn r)).
Proof.
  intros Hne. rewrite lb_equiv by done.
  pose proof (quiet (m := with_env (fun e => rand_IntN e (List.length dialers))) w) as [Ho _].
  destruct (with_env _ w) as [w1 n]. exists w1, (n mod List.length dialers)%nat. split_and!; [done|apply rotate_perm|done].
Qed.

(** The second-generation network leaks sockets.  Its base dialer hands out
    the connection together with the error when a socket option cannot be set;
    the joined network drops the connection of an attempt with an error.  On a
    system that refuses the linger option, a dial through two joined networks
    reports an error and returns no connection, and leaves two sockets open; the
    first-generation dialer leaves none. *)
Theorem v2_dial_leaks :
  let d := @v2_DialContext () no_linger network0 in
  let '(w, r) := @multi_DialContext () no_linger [d; d] "tcp" "10.0.0.1:443" world0 in
  let '(w', r') := @default_DialContext () no_linger "tcp" "10.0.0.1:443" world0 in
  r.1 = None /\ is_Some r.2 /\ opened w = {[0%nat; 1%nat]} /\ r'.1 = None /\ is_Some r'.2 /\ opened w' = ∅.
Proof. vm_compute. split_and!; try done; by eexists. Qed.

(** ** Witnesses *)

(** A system where connects succeed and every option can be set, and where the
    name server knows one address of every name: its connection stays in the
    pool and is taken again. *)
Definition one_address : NetEnv nat := {|
  os_dial e _ _ := (S e, None);
  os_sockopt e _ o := (e, None);
  rand_IntN e _ := (e, O);
  doh_address host := (host ++ ":443")%string;
  doh_requests e _ _ := (e, 1%nat);
  doh_answer e v6 _ := (e, if v6 : bool then None else Some ["10.0.0.1"]);
  http_dead e _ := (e, ∅);
  http_pick e idle := (e, head (elements idle));
  http_exchange e _ := (e, true);
  first_done _ := true;
  now _ := 0;
  MethodNone := 0; MethodUsernamePassword := 2; UserPassStatusSuccess := 0; RepSuccess := 0;
  socks5_ParseAddress _ := true;
  socks5_negotiate e _ m := (e, Some m);
  socks5_auth e _ _ _ := (e, Some 0);
  socks5_request e _ _ := (e, Some 0)
|}.

Definition fresh_world : World nat := mkWorld ∅ ∅ 0 ∅ 0%nat.

(** Two SOCKS5 proxies in turn under a network: the lookup leaves one socket to
    the pool, the caller has another. *)
Definition balanced0 : @Dialer nat :=
  let d := @socks5_DialContext nat one_address (mkSocks5 [] [] "127.0.0.1:1080") (@default_DialContext nat one_address) in
  @network_DialContext nat one_address "9.9.9.9" (@lb_dialer nat one_address [d; d]).

(** A SOCKS client that cannot reach its proxy. *)
Definition no_proxy : @Dialer nat := fun _ _ w => (w, (None, Some (NErr "connection refused"))).

Lemma no_proxy_tidy : @Tidy nat no_proxy.
Proof. intros network address w Hw. by apply clean_error, after_refl. Qed.


Lemma load_balancer_equiv_witness :
  exists w, @loadBalanced_DialContext () no_linger [fun _ _ w => (w, (None, Some ErrCannotDial))] "tcp" "a:1" world0 =
    (w, LBReturn (None, Some ErrCannotDialWithAllProxies)).
Proof.
  destruct (@load_balancer_equiv () no_linger [fun _ _ w => (w, (None, Some ErrCannotDial))] "tcp" "a:1" world0) as (w1 & start & _ & _ & ->); [done|].
  exists w1. unfold rotate. destruct start as [|start]; [done|]. simpl. by rewrite drop_nil, take_nil.
Defined.
