(* ===== verification/ConfigTypes.v ===== *)
(** * Typed option values: internal/config/type_*.go

    One value type per kind of option, each with [Set] (a text to a value or an
    error; on an error the receiver keeps its value), [String] and [Get] (the
    value, or a default when the option was not given).  [UnmarshalText] and
    [UnmarshalJSON] are [Set], [MarshalText] and [MarshalJSON] are [String], so
    they have no definition of their own.

    [OptionType] is the interface the configuration file is decoded through;
    [Lawful] what it promises: what [Set] accepts is legal, and a legal value
    printed by [String] is accepted again and gives the same value. *)

From S2P Require Import Prelude Encoding Secret GoTime Limits GoStrings GoNet GoDuration LimitsParse HostPort SecretSet.
From Stdlib Require Import Ascii String.
Open Scope string_scope.
Open Scope list_scope.
Open Scope Z_scope.

(** ** What the packages outside the program answer *)

Class ConfigEnv := {
  (* package net/url *)
  url_Parse : string -> res URL;
  url_String : URL -> string;
  (* the file system: is it a directory, what are its permissions *)
  os_Stat : string -> option (bool * Z);
  filepath_Abs : string -> res string;
  filepath_IsAbs : string -> bool;
  (* package units *)
  ParseBase2Bytes : string -> res Z;
  Base2Bytes_String : Z -> string
}.

(** ** Numbers *)

(** The zero value stands for an option that was not given. *)
Definition get_nonzero (v default : Z) : Z := if v =? 0 then default else v.

Definition TypePort_Set (value : string) : res Z :=
  match ParseUint value 16 with
  | None => Fail (Errorf "incorrect port number")
  | Some n => if n =? 0 then Fail (Errorf "incorrect port number") else Ok n
  end.
Definition TypePort_Get : Z -> Z -> Z := get_nonzero.
Definition TypePort_String (v : Z) : string := Itoa v.

Definition TypeConcurrency_Set (value : string) : res Z :=
  match ParseUint value 16 with
  | None => Fail (Errorf "value is not uint")
  | Some n => if n =? 0 then Fail (Errorf "value should be >0") else Ok n
  end.
Definition TypeConcurrency_Get : Z -> Z -> Z := get_nonzero.
Definition TypeConcurrency_String (v : Z) : string := Itoa v.

Definition TypeDC_Set (value : string) : res Z :=
  match ParseIntN value 16 with
  | None => Fail (Errorf "cannot parse dc")
  | Some n => Ok (Z.abs n)
  end.
Definition TypeDC_Get (v : Z) : Z := v.
Definition TypeDC_String (v : Z) : string := Itoa v.

(** ** Booleans *)

Definition TypeBool_Set (data : string) : res bool :=
  match ParseBool data with Some b => Ok b | None => Fail (Errorf "incorrect bool value") end.
Definition TypeBool_Get (v default : bool) : bool := v || default.
Definition TypeBool_String (v : bool) : string := FormatBool v.

(** ** Texts *)

Definition get_nonempty (v default : string) : string := if bool_decide (v = "") then default else v.

Definition TypeHost_Set (value : string) : res string :=
  if bool_decide (value = "") then Fail (Errorf "host cannot be empty")
  else if bool_decide (ParseIP value <> None) then Ok value
  else if ContainsAny value (" " ++ String "009" (String "010" "/?#")) then Fail (Errorf "incorrect host")
  else if Contains value ":" then Fail (Errorf "host must not contain a port")
  else Ok value.
Definition TypeHost_Get : string -> string -> string := get_nonempty.
Definition TypeHost_String (v : string) : string := v.

Definition TypeHTTPPath_Set (value : string) : res string := Ok (String "/" (Trim value "/")).
Definition TypeHTTPPath_Get : string -> string -> string := get_nonempty.
Definition TypeHTTPPath_String (v : string) : string := v.

(** [^[a-z0-9]+$]. *)
Definition metric_char (c : ascii) : bool :=
  ((97 <=? ord c) && (ord c <=? 122)) || ((48 <=? ord c) && (ord c <=? 57)).

Definition TypeMetricPrefix_Set (value : string) : res string :=
  if negb (bool_decide (value = "")) && forallb metric_char (list_ascii_of_string value) then Ok value
  else Fail (Errorf "incorrect metric prefix").
Definition TypeMetricPrefix_Get : string -> string -> string := get_nonempty.
Definition TypeMetricPrefix_String (v : string) : string := v.

Definition TypePreferIP_Set (value : string) : res string :=
  let value := ToLower value in
  if bool_decide (value ∈ ["prefer-ipv4"; "prefer-ipv6"; "only-ipv4"; "only-ipv6"]) then Ok value
  else Fail (Errorf "unsupported ip preference").
Definition TypePreferIP_Get : string -> string -> string := get_nonempty.
Definition TypePreferIP_String (v : string) : string := v.

Definition TypeStatsdTagFormat_Set (value : string) : res string :=
  let value := ToLower value in
  if bool_decide (value ∈ ["datadog"; "influxdb"; "graphite"]) then Ok value else Fail (Errorf "unknown tag format").
Definition TypeStatsdTagFormat_Get : string -> string -> string := get_nonempty.
Definition TypeStatsdTagFormat_String (v : string) : string := v.

Definition TypeQuotaReset_Set (value : string) : res string :=
  reset ← ParseQuotaReset value; Ok (QuotaReset_String reset).
Definition TypeQuotaReset_Get : string -> string -> string := get_nonempty.
Definition TypeQuotaReset_String (v : string) : string := v.

(** ** Addresses *)

(** [net.IP]; the empty slice is the absent address. *)
Definition TypeIP_Set (value : string) : res (list byte) :=
  match ParseIP value with Some ip => Ok ip | None => Fail (Errorf "incorret ip") end.
Definition TypeIP_Get (v default : list byte) : list byte := match v with [] => default | _ => v end.
Definition TypeIP_String (v : list byte) : string := match v with [] => "" | _ => IP_String v end.

Record TypeHostPort := mkHostPort { hp_Value : string; hp_Host : string; hp_Port : Z }.

#[export] Instance TypeHostPort_eq_dec : EqDecision TypeHostPort.
Proof. solve_decision. Defined.

Definition zeroHostPort : TypeHostPort := mkHostPort "" "" 0.

Definition TypeHostPort_Set (value : string) : res TypeHostPort :=
  '(host, port) ← wrap_err "incorrect host:port value" (SplitHostPort value);
  match ParseUint port 16 with
  | None => Fail (Errorf "incorrect port number")
  | Some portValue =>
      if portValue =? 0 then Fail (Errorf "incorrect port number")
      else if bool_decide (host = "") then Fail (Errorf "empty host")
      else if bool_decide (ParseIP host = None) then Fail (Errorf "host is not an IP address")
      else Ok (mkHostPort (JoinHostPort host port) host portValue)
  end.
Definition TypeHostPort_Get (t : TypeHostPort) (default : string) : string := get_nonempty (hp_Value t) default.
Definition TypeHostPort_String (t : TypeHostPort) : string := hp_Value t.

(** ** Advertising tags *)

(** The bytes; empty when there is no tag. *)
Definition TypeAdTag_Set (value : string) : res (list byte) :=
  if bool_decide (value = "") then Ok [] else
  decoded ← wrap_err "incorrect ad-tag, must be a hex string" (hex_decode (bytes_of_string value));
  if (List.length decoded =? AdTagLength)%nat then Ok decoded else Fail (Errorf "ad-tag must be 16 bytes").
Definition TypeAdTag_Get (v : list byte) : option (list byte) :=
  if (List.length v =? AdTagLength)%nat then Some v else None.
Definition TypeAdTag_String (v : list byte) : string := string_of_bytes (hex_encode v).

(** ** Durations and dates *)

Definition TypeDuration_Set (value : string) : res Z :=
  match ParseDuration (strip (" " ++ String "009" "") (ToLower value)) with
  | None => Fail (Errorf "incorrect duration")
  | Some d => if d <? 0 then Fail (Errorf "duration has to be a positive") else Ok d
  end.
Definition TypeDuration_Get : Z -> Z -> Z := get_nonzero.
Definition TypeDuration_String (v : Z) : string := if v =? 0 then "" else Duration_String v.

Definition TypeExpiry_Set (value : string) : res Z := ParseExpiry value.
Definition TypeExpiry_Get (v default : Z) : Z := if IsZeroTime v then default else v.

(** ** Floats *)

(** [0 < x < 100]; a comparison with NaN is false, so NaN is not refused.  The
    number of the text is [strconv.ParseFloat]'s, the argument. *)
Definition TypeErrorRate_check (x : float64) : res float64 :=
  if SpecFloat.SFleb x (float_of 0) || SpecFloat.SFleb (float_of 100) x then Fail (Errorf "value should be 0 < x < 100")
  else Ok x.

Definition typeErrorRateIgnoreLess : float64 := fdiv (float_of 1) (float_of 100000000).

Definition TypeErrorRate_Get (v default : float64) : float64 :=
  if SpecFloat.SFltb v typeErrorRateIgnoreLess then default else v.

Section Env.
Context `{ConfigEnv}.

(** ** Sizes *)

Definition TypeBytes_Set (value : string) : res Z :=
  parsed ← wrap_err "incorrect bytes value" (ParseBase2Bytes (quotaBytesCleaner (ToUpper value)));
  if parsed <? 0 then Fail (Errorf "bytes should be positive") else Ok parsed.
Definition TypeBytes_Get : Z -> Z -> Z := get_nonzero.
Definition TypeBytes_String (v : Z) : string := if v =? 0 then "" else ToLower (Base2Bytes_String v).

(** ** URLs *)

Definition get_url (v default : option URL) : option URL := match v with Some u => Some u | None => default end.
Definition url_print (v : option URL) : string := match v with Some u => url_String u | None => "" end.

Definition set_Host (h : string) (u : URL) : URL := mkURL (url_Scheme u) (url_User u) h (url_Path u) (url_text u).

Definition TypeHttpsURL_Set (value : string) : res URL :=
  u ← wrap_err "value is not correct URL" (url_Parse value);
  if bool_decide (url_Host u = "") then Fail (Errorf "url has to have a schema")
  else if negb (bool_decide (url_Scheme u = "https")) then Fail (Errorf "unsupported schema")
  else Ok u.

Definition TypeProxyURL_Set (value : string) : res URL :=
  u ← wrap_err "value is not correct URL" (url_Parse value);
  if bool_decide (url_Host u = "") then Fail (Errorf "url has to have a schema")
  else if negb (bool_decide (url_Scheme u ∈ ["socks5"; "socks5h"])) then Fail (Errorf "unsupported schema")
  else Ok (if is_ok (SplitHostPort (url_Host u)) then u else set_Host (JoinHostPort (url_Host u) "1080") u).

Definition TypeDNSURI_Set (value : string) : res URL :=
  parsed ← wrap_err "value is not URI" (url_Parse value);
  let parsed := if bool_decide (url_Host parsed = "")
                then mkURL "udp" (url_User parsed) (url_Path parsed) "" (url_text parsed) else parsed in
  if bool_decide (url_Scheme parsed = "udp") && bool_decide (ParseIP (Hostname parsed) = None) then
    Fail (Errorf "simple DNS must IP address")
  else if negb (bool_decide (url_Scheme parsed ∈ ["https"; "tls"; "udp"])) then Fail (Errorf "unsupported DNS type")
  else if negb (bool_decide (url_Scheme parsed = "https")) && negb (bool_decide (url_Path parsed = "")) then
    Fail (Errorf "path is supported only for DoH")
  else if bool_decide (is_Some (url_User parsed)) then Fail (Errorf "used info is not supported")
  else Ok parsed.

(** ** Block list locations *)

Definition TypeBlocklistURI_Set (value : string) : res string :=
  match os_Stat value with
  | Some (isDir, perm) =>
      if isDir : bool then Fail (Errorf "value is correct filepath but directory")
      else if Z.land perm 256 =? 0 then Fail (Errorf "value is correct filepath but not readable")
      else wrap_err "value is correct filepath but cannot resolve absolute" (filepath_Abs value)
  | None =>
      u ← wrap_err "incorrect url" (url_Parse value);
      if negb (bool_decide (url_Scheme u ∈ ["http"; "https"])) then Fail (Errorf "unknown schema")
      else if bool_decide (url_Host u = "") then Fail (Errorf "incorrect url")
      else Ok (url_String u)
  end.
Definition TypeBlocklistURI_Get : string -> string -> string := get_nonempty.
Definition TypeBlocklistURI_String (v : string) : string := v.
Definition IsRemote (v : string) : bool := negb (filepath_IsAbs v).
End Env.

(** ** Examples *)

Example TypeHostPort_ex :
  (TypeHostPort_Set "0.0.0.0:3128", TypeHostPort_Set "[::1]:0443", is_ok (TypeHostPort_Set "host:80"), is_ok (TypeHostPort_Set "1.2.3.4:0"),
   is_ok (TypeHostPort_Set "1.2.3.4:65536")) =
  (Ok (mkHostPort "0.0.0.0:3128" "0.0.0.0" 3128), Ok (mkHostPort "[::1]:0443" "::1" 443), false, false, false).
Proof. vm_compute. reflexivity. Qed.

Example TypeHTTPPath_ex : (TypeHTTPPath_Set "//a/b/", TypeHTTPPath_Set "") = (Ok "/a/b", Ok "/").
Proof. reflexivity. Qed.

Example TypeErrorRate_ex :
  (is_ok (TypeErrorRate_check (fdiv (float_of 1) (float_of 1000))), is_ok (TypeErrorRate_check (float_of 0)),
   is_ok (TypeErrorRate_check (float_of 100)), is_ok (TypeErrorRate_check SpecFloat.S754_nan)) = (true, false, false, true).
Proof. vm_compute. reflexivity. Qed.

(** The largest negative number a 16-bit parse accepts prints as a number it
    refuses. *)
Example TypeDC_not_reparsed :
  TypeDC_Set "-32768" = Ok 32768 /\ is_ok (TypeDC_Set (TypeDC_String 32768)) = false.
Proof. split; vm_compute; reflexivity. Qed.

(** ** What an option type promises *)

(** What [Set] accepts satisfies [legal]; what is legal is printed and accepted
    again as the same value. *)
Class Lawful {T} (set : string -> res T) (print : T -> string) (legal : T -> Prop) : Prop := {
  set_legal s v : set s = Ok v -> legal v;
  print_set v : legal v -> set (print v) = Ok v
}.

Definition reparses {T} (set : string -> res T) (print : T -> string) : Prop :=
  forall s v, set s = Ok v -> set (print v) = Ok v.

Lemma lawful_reparses {T} (set : string -> res T) print legal `{!Lawful set print legal} : reparses set print.
Proof. intros s v Hs. apply print_set. by eapply set_legal. Qed.

Definition legal_uint16 (n : Z) : Prop := 1 <= n < 65536.

#[export] Instance Lawful_port : Lawful TypePort_Set TypePort_String legal_uint16.
Proof.
  split; unfold legal_uint16, TypePort_Set, TypePort_String.
  - intros s v. destruct (ParseUint s 16) as [n|] eqn:Hn; [|done]. apply ParseUint_range in Hn.
    destruct (n =? 0) eqn:E; [done|]. intros [= <-]. zbool. change (2 ^ 16) with 65536 in Hn. lia.
  - intros v Hv. rewrite ParseUint_Itoa by (change (2 ^ 16) with 65536; lia). by rewrite (proj2 (Z.eqb_neq _ _)) by lia.
Qed.

#[export] Instance Lawful_concurrency : Lawful TypeConcurrency_Set TypeConcurrency_String legal_uint16.
Proof.
  split; unfold legal_uint16, TypeConcurrency_Set, TypeConcurrency_String.
  - intros s v. destruct (ParseUint s 16) as [n|] eqn:Hn; [|done]. apply ParseUint_range in Hn.
    destruct (n =? 0) eqn:E; [done|]. intros [= <-]. zbool. change (2 ^ 16) with 65536 in Hn. lia.
  - intros v Hv. rewrite ParseUint_Itoa by (change (2 ^ 16) with 65536; lia). by rewrite (proj2 (Z.eqb_neq _ _)) by lia.
Qed.

#[export] Instance Lawful_bool : Lawful TypeBool_Set TypeBool_String (fun _ => True).
Proof. split; [done|]. by intros []. Qed.

#[export] Instance Lawful_host : Lawful TypeHost_Set TypeHost_String (fun v => TypeHost_Set v = Ok v).
Proof.
  split; [|done]. intros s v Hs. assert (v = s) as ->; [|exact Hs].
  unfold TypeHost_Set in Hs. repeat case_match; congruence.
Qed.

Lemma ToLower_idemp s : ToLower (ToLower s) = ToLower s.
Proof.
  unfold ToLower, map_string. rewrite list_ascii_of_string_of_list_ascii, <-list_fmap_compose. f_equal.
  apply list_fmap_ext. intros i c _. simpl. by destruct c as [[] [] [] [] [] [] [] []].
Qed.

#[export] Instance Lawful_preferip : Lawful TypePreferIP_Set TypePreferIP_String (fun v => TypePreferIP_Set v = Ok v).
Proof.
  split; [|done]. intros s v. unfold TypePreferIP_Set. case_match eqn:E; [|done]. intros [= <-]. by rewrite ToLower_idemp, E.
Qed.

#[export] Instance Lawful_tagformat :
  Lawful TypeStatsdTagFormat_Set TypeStatsdTagFormat_String (fun v => TypeStatsdTagFormat_Set v = Ok v).
Proof.
  split; [|done]. intros s v. unfold TypeStatsdTagFormat_Set. case_match eqn:E; [|done]. intros [= <-]. by rewrite ToLower_idemp, E.
Qed.

#[export] Instance Lawful_quotareset :
  Lawful TypeQuotaReset_Set TypeQuotaReset_String (fun v => exists q, v = QuotaReset_String q).
Proof.
  split; unfold TypeQuotaReset_Set, TypeQuotaReset_String.
  - intros s v H. res_inv H. injection H as <-. by exists a.
  - intros v [q ->]. by rewrite ParseQuotaReset_String.
Qed.

#[export] Instance Lawful_prefix :
  Lawful TypeMetricPrefix_Set TypeMetricPrefix_String (fun v => v <> "" /\ forallb metric_char (list_ascii_of_string v) = true).
Proof.
  split; unfold TypeMetricPrefix_Set, TypeMetricPrefix_String.
  - intros s v. destruct (negb _ && _) eqn:E; [|done]. intros [= <-]. apply andb_true_iff in E as [E ?].
    split; [|done]. by apply negb_true_iff, bool_decide_eq_false in E.
  - intros v [Hv Hc]. by rewrite bool_decide_false, Hc.
Qed.

#[export] Instance Lawful_adtag : Lawful TypeAdTag_Set TypeAdTag_String (fun v => v = [] \/ List.length v = AdTagLength).
Proof.
  split; unfold TypeAdTag_Set, TypeAdTag_String.
  - intros s v. case_bool_decide; [intros [= <-]; by left|]. intros Hs. res_inv Hs.
    case_match eqn:E; [|done]. injection Hs as <-. right. by apply Nat.eqb_eq.
  - intros v [->|Hv]; [done|]. rewrite bool_decide_false.
    + rewrite bytes_of_string_of_bytes, hex_decode_encode. simpl. by rewrite Hv.
    + rewrite string_of_bytes_empty. intros He%(f_equal List.length). rewrite length_hex_encode, Hv in He. done.
Qed.

(** *** Paths *)

Definition no_slash_ends (s : string) : Prop := Trim s "/" = s.

Lemma TrimRight_idemp s c : TrimRight (TrimRight s c) c = TrimRight s c.
Proof.
  induction s as [|a s IH]; [done|]. simpl. case_match eqn:E; [done|]. simpl. by rewrite IH, E.
Qed.

Lemma TrimLeft_TrimRight s c : TrimLeft s c = s -> TrimLeft (TrimRight s c) c = TrimRight s c.
Proof.
  destruct s as [|a s]; [done|]. simpl. case_bool_decide as Ha; [|].
  - intros H. exfalso. subst. assert (forall s, (String.length (TrimLeft s c) <= String.length s)%nat) as Hl.
    { induction s0 as [|b s0 IH]; simpl; [done|]. case_bool_decide; simpl; lia. }
    specialize (Hl s). rewrite H in Hl. simpl in Hl. lia.
  - intros _. rewrite andb_false_r. simpl. by rewrite bool_decide_false.
Qed.

Lemma TrimLeft_idemp s c : TrimLeft (TrimLeft s c) c = TrimLeft s c.
Proof. induction s as [|a s IH]; [done|]. simpl. case_bool_decide as Ha; [done|]. simpl. by rewrite bool_decide_false. Qed.

Lemma Trim_idemp s c : Trim (Trim s c) c = Trim s c.
Proof. unfold Trim. by rewrite TrimLeft_TrimRight, TrimRight_idemp by apply TrimLeft_idemp. Qed.

#[export] Instance Lawful_httppath :
  Lawful TypeHTTPPath_Set TypeHTTPPath_String (fun v => exists p, v = String "/" p /\ no_slash_ends p).
Proof.
  split; unfold TypeHTTPPath_Set, TypeHTTPPath_String, no_slash_ends.
  - intros s v [= <-]. exists (Trim s "/"). split; [done|]. apply Trim_idemp.
  - intros v (p & -> & Hp). do 2 f_equal. rewrite <-Hp at 2. reflexivity.
Qed.

(** *** Addresses *)

(** The value is the host and the port joined, the host is an IP address and
    the port a number of 16 bits. *)
Definition legal_hostport (t : TypeHostPort) : Prop :=
  exists port, splittable (hp_Host t) port /\ hp_Value t = JoinHostPort (hp_Host t) port /\
    ParseUint port 16 = Some (hp_Port t) /\ hp_Port t <> 0 /\ hp_Host t <> "" /\ ParseIP (hp_Host t) <> None.

#[export] Instance Lawful_hostport : Lawful TypeHostPort_Set TypeHostPort_String legal_hostport.
Proof.
  split; unfold TypeHostPort_Set, TypeHostPort_String, legal_hostport.
  - intros s v Hs. res_inv Hs. destruct a as [host port]. apply SplitHostPort_splittable in Ha.
    destruct (ParseUint port 16) as [n|] eqn:Hn; [|done]. case_match eqn:Hz; [done|]. zbool.
    case_bool_decide; [done|]. case_bool_decide; [done|]. injection Hs as <-. by exists port.
  - intros [value host n] (port & Hsp & Hv & Hn & Hz & Hh & Hip). simpl in *. subst value.
    rewrite SplitHostPort_Join by done. simpl. rewrite Hn, (proj2 (Z.eqb_neq _ _)) by done.
    by rewrite (bool_decide_false (host = "")), (bool_decide_false (ParseIP host = None)) by done.
Qed.

(** *** Durations *)

Lemma strip_ToLower_plain s :
  forallb (fun c => bool_decide (lower c = c) && bool_decide (c <> " "%char) && bool_decide (c <> "009"%char)) (list_ascii_of_string s) = true ->
  strip (" " ++ String "009" "") (ToLower s) = s.
Proof.
  intros Hs. unfold strip, ToLower, map_string. rewrite list_ascii_of_string_of_list_ascii.
  rewrite <-(string_of_list_ascii_of_string s) at 2. f_equal. induction (list_ascii_of_string s) as [|c l IH]; [done|].
  simpl in Hs. apply andb_true_iff in Hs as [Hc Hs]. rewrite !andb_true_iff, !bool_decide_eq_true in Hc. destruct Hc as [[Hl H1] H2].
  rewrite fmap_cons, Hl, filter_cons, decide_True; [by rewrite IH|]. set_solver.
Qed.

(** Digits and units, the bytes of a duration that is printed. *)
Lemma ascii_itoa fuel n acc (P : ascii -> bool) :
  (forall d, 0 <= d < 10 -> P (chr (48 + d)) = true) -> 0 <= n ->
  forallb P (list_ascii_of_string (itoa_loop fuel n acc)) =
  forallb P (list_ascii_of_string (itoa_loop fuel n "")) && forallb P (list_ascii_of_string acc) /\
  forallb P (list_ascii_of_string (itoa_loop fuel n "")) = true.
Proof.
  intros HP Hn. revert n acc Hn. induction fuel as [|fuel IH]; intros n acc Hn; [done|]. simpl.
  pose proof (HP (n mod 10) (Z.mod_pos_bound n 10 ltac:(lia))) as Hd.
  destruct (n <? 10); simpl; [by rewrite Hd|].
  assert (0 <= n / 10) as Hq by (apply Z.div_pos; lia).
  destruct (IH (n / 10) (String (chr (48 + n mod 10)) acc) Hq) as [H1 H2].
  destruct (IH (n / 10) (String (chr (48 + n mod 10)) "") Hq) as [H3 _].
  rewrite H1, H3, H2. simpl. by rewrite Hd.
Qed.

Lemma ascii_Itoa n (P : ascii -> bool) :
  (forall d, 0 <= d < 10 -> P (chr (48 + d)) = true) -> 0 <= n -> forallb P (list_ascii_of_string (Itoa n)) = true.
Proof. intros HP Hn. unfold Itoa. rewrite (proj2 (Z.ltb_ge _ _)) by lia. by apply (ascii_itoa 20 n ""). Qed.

Lemma Duration_String_plain k (P : ascii -> bool) :
  0 < k -> (forall d, 0 <= d < 10 -> P (chr (48 + d)) = true) -> P "s"%char = true -> P "m"%char = true -> P "h"%char = true ->
  forallb P (list_ascii_of_string (Duration_String (k * Second))) = true.
Proof.
  intros Hk HP Hs Hm Hh. unfold Duration_String. rewrite Z.abs_eq, (proj2 (Z.ltb_ge (k * Second) 0)) by (unfold Second; lia).
  rewrite (proj2 (Z.eqb_neq _ _)) by (unfold Second; lia).
  rewrite !(proj2 (Z.ltb_ge _ _)) by (unfold Second, Microsecond, Millisecond; lia).
  rewrite fmtFrac_zero by (unfold Second; change (10 ^ Z.of_nat 9) with 1000000000; apply Z.mod_mul; lia).
  rewrite Z.div_mul by (unfold Second; lia).
  assert (forall n, 0 <= n -> forallb P (list_ascii_of_string (Itoa n)) = true) as HI by (intros; by apply ascii_Itoa).
  pose proof (Z.mod_pos_bound k 60 ltac:(lia)). pose proof (Z.div_pos k 60 ltac:(lia) ltac:(lia)).
  pose proof (Z.mod_pos_bound (k / 60) 60 ltac:(lia)). pose proof (Z.div_pos (k / 60) 60 ltac:(lia) ltac:(lia)).
  repeat case_match; rewrite !ascii_app, !forallb_app, !HI by lia; simpl; by rewrite ?Hs, ?Hm, ?Hh.
Qed.

Lemma TypeDuration_reparses k :
  0 <= k * Second <= max_int64 -> k <> 0 -> TypeDuration_Set (TypeDuration_String (k * Second)) = Ok (k * Second).
Proof.
  intros Hk Hne. unfold TypeDuration_Set, TypeDuration_String. rewrite (proj2 (Z.eqb_neq _ _)) by (unfold Second; lia).
  rewrite strip_ToLower_plain.
  - rewrite ParseDuration_String by done. by rewrite (proj2 (Z.ltb_ge _ _)) by lia.
  - apply Duration_String_plain; [unfold Second in Hk; lia| |done..].
    intros d Hd. assert (d = 0 \/ d = 1 \/ d = 2 \/ d = 3 \/ d = 4 \/ d = 5 \/ d = 6 \/ d = 7 \/ d = 8 \/ d = 9) as Hc by lia.
    by repeat destruct Hc as [->|Hc]; subst.
Qed.

(** ** Claims *)

(** Options survive printing.  For every option type whose text is not a
    third-party format (ports, counters, booleans, hosts, host:port addresses,
    HTTP paths, metric prefixes, IP preferences, tag formats, quota policies and
    advertising tags), a value that [Set] accepted is printed by [String] to a
    text that [Set] accepts again as the same value; so is every duration that is
    a whole number of seconds. *)
Theorem options_reparse :
  reparses TypePort_Set TypePort_String /\
  reparses TypeConcurrency_Set TypeConcurrency_String /\
  reparses TypeBool_Set TypeBool_String /\
  reparses TypeHost_Set TypeHost_String /\
  reparses TypeHostPort_Set TypeHostPort_String /\
  reparses TypeHTTPPath_Set TypeHTTPPath_String /\
  reparses TypeMetricPrefix_Set TypeMetricPrefix_String /\
  reparses TypePreferIP_Set TypePreferIP_String /\
  reparses TypeStatsdTagFormat_Set TypeStatsdTagFormat_String /\
  reparses TypeQuotaReset_Set TypeQuotaReset_String /\
  reparses TypeAdTag_Set TypeAdTag_String /\
  (forall k, 0 < k * Second <= max_int64 -> TypeDuration_Set (TypeDuration_String (k * Second)) = Ok (k * Second)).
Proof.
  split_and!; [eapply lawful_reparses; apply _..|]. intros k Hk. apply TypeDuration_reparses; [lia|]. intros ->. simpl in Hk. lia.
Qed.

(** Bounds of what is configured.  A port or a counter that [Set] accepts is
    a number from 1 to 65535, whatever the text; an address to listen on has such
    a port and a literal IP address as its host, and splitting its text gives
    exactly these back; a size or a duration is never negative. *)
Theorem option_bounds `{ConfigEnv} s :
  (forall v, TypePort_Set s = Ok v \/ TypeConcurrency_Set s = Ok v -> 1 <= v <= 65535) /\
  (forall t, TypeHostPort_Set s = Ok t ->
     1 <= hp_Port t <= 65535 /\ is_Some (ParseIP (hp_Host t)) /\
     exists port, SplitHostPort (hp_Value t) = Ok (hp_Host t, port) /\ ParseUint port 16 = Some (hp_Port t)) /\
  (forall v, TypeDuration_Set s = Ok v \/ TypeBytes_Set s = Ok v -> 0 <= v).
Proof.
  split_and!.
  - intros v [Hv|Hv]; apply (set_legal (Lawful := _)) in Hv; unfold legal_uint16 in Hv; lia.
  - intros t (port & Hsp & Hv & Hn & Hz & Hh & Hip)%(set_legal (Lawful := _)). pose proof (ParseUint_range _ _ _ Hn) as Hr.
    split_and!; [lia|change (2 ^ 16) with 65536 in Hr; lia| |].
    + destruct (ParseIP (hp_Host t)); [by eexists|done].
    + exists port. rewrite Hv. by rewrite SplitHostPort_Join.
  - intros v [Hv|Hv].
    + unfold TypeDuration_Set in Hv. destruct (ParseDuration _) as [d|]; [|done]. case_match eqn:E; [done|]. injection Hv as <-. zbool. lia.
    + unfold TypeBytes_Set in Hv. res_inv Hv. case_match eqn:E; [done|]. injection Hv as <-. zbool. lia.
Qed.
