(* ===== verification/Config.v ===== *)
(** * The configuration: internal/config/config.go, parse.go, env.go,
    internal/utils/read_config.go

    A TOML file is read into plain values ([tomlConfig]), these are decoded into
    typed options ([Config]) through JSON, where a zero value is left out and
    leaves the option at its zero value, the environment is laid over the result,
    and the whole is validated.  Fields of nested structures carry the path in
    their names.

    The TOML reader, the URL parser, the file system and the byte units are
    parameters ([ConfigEnv]). *)

From S2P Require Import Prelude Encoding Secret GoTime Limits GoStrings GoNet GoDuration LimitsParse HostPort SecretSet ConfigTypes.
From Stdlib Require Import Ascii String.
Open Scope string_scope.
Open Scope list_scope.
Open Scope Z_scope.

(** ** What a TOML file holds *)

Record tomlLimit := mkTomlLimit { t_Quota : string; t_QuotaReset : string; t_Expires : string; t_Disabled : bool }.

Record tomlList := mkTomlList { t_Enabled : bool; t_DownloadConcurrency : Z; t_URLs : list string; t_UpdateEach : string }.

(** The untyped value of bind-to: absent, a string, an array whose elements are
    strings or not, or something else. *)
Inductive tomlAny :=
  | AnyNil
  | AnyString (s : string)
  | AnyList (l : list (option string))
  | AnyOther.

Record tomlConfig := mkToml {
  t_Debug : bool;
  t_AllowFallbackOnUnknownDC : bool;
  t_Secret : string;
  t_Secrets : gmap string string;
  t_AdTag : string;
  t_SecretAdTags : gmap string string;
  t_SecretLimits : gmap string tomlLimit;
  t_UsageStateFile : string;
  t_APIToken : string;
  t_BindTo : tomlAny;
  t_ProxyProtocolListener : bool;
  t_PreferIP : string;
  t_AutoUpdate : bool;
  t_DomainFrontingPort : Z;
  t_DomainFrontingIP : string;
  t_DomainFrontingProxyProtocol : bool;
  t_TolerateTimeSkewness : string;
  t_Concurrency : Z;
  t_PublicIPv4 : string;
  t_PublicIPv6 : string;
  t_DomainFronting_Host : string;
  t_DomainFronting_IP : string;
  t_DomainFronting_Port : Z;
  t_DomainFronting_ProxyProtocol : bool;
  t_PendingHandshakes_MaxPerIP : Z;
  t_PendingHandshakes_DryRun : bool;
  t_AntiReplay_Enabled : bool;
  t_AntiReplay_MaxSize : string;
  t_AntiReplay_ErrorRate : float64;
  t_Blocklist : tomlList;
  t_Allowlist : tomlList;
  t_Doppelganger_URLs : list string;
  t_Doppelganger_Repeats : Z;
  t_Doppelganger_UpdateEach : string;
  t_Doppelganger_DRS : bool;
  t_Timeout_TCP : string;
  t_Timeout_HTTP : string;
  t_Timeout_Idle : string;
  t_Timeout_Handshake : string;
  t_KeepAlive_Disabled : bool;
  t_KeepAlive_Idle : string;
  t_KeepAlive_Interval : string;
  t_KeepAlive_Count : Z;
  t_DOHIP : string;
  t_DNS : string;
  t_Proxies : list string;
  t_TCPNotSentLowat : string;
  t_APIBindTo : string;
  t_Throttle_MaxConnections : Z;
  t_Throttle_CheckInterval : string;
  t_StatsD_Enabled : bool;
  t_StatsD_Address : string;
  t_StatsD_MetricPrefix : string;
  t_StatsD_TagFormat : string;
  t_Prometheus_Enabled : bool;
  t_Prometheus_BindTo : string;
  t_Prometheus_HTTPPath : string;
  t_Prometheus_MetricPrefix : string
}.

Definition zeroToml : tomlConfig :=
  mkToml false false "" ∅ "" ∅ ∅ "" "" AnyNil false "" false 0 "" false "" 0 "" "" "" "" 0 false 0 false false "" (float_of 0)
    (mkTomlList false 0 [] "") (mkTomlList false 0 [] "") [] 0 "" false "" "" "" "" false "" "" 0 "" "" [] "" "" 0 "" false "" ""
    "" false "" "" "".

(** ** The typed configuration *)

Record ConfigSecretLimit := mkLimit { l_Quota : Z; l_QuotaReset : string; l_Expires : Z; l_Disabled : bool }.

Record ListConfig := mkList { lc_Enabled : bool; lc_DownloadConcurrency : Z; lc_URLs : list string; lc_UpdateEach : Z }.

Definition zeroList : ListConfig := mkList false 0 [] 0.

Record Config := mkConf {
  c_Debug : bool;
  c_AllowFallbackOnUnknownDC : bool;
  c_Secret : Secret;
  c_Secrets : gmap string Secret;
  c_AdTag : list byte;
  c_SecretAdTags : gmap string (list byte);
  c_SecretLimits : gmap string ConfigSecretLimit;
  c_UsageStateFile : string;
  c_APIToken : string;
  c_BindTo : list TypeHostPort;
  c_ProxyProtocolListener : bool;
  c_PreferIP : string;
  c_AutoUpdate : bool;
  c_DomainFrontingPort : Z;
  c_DomainFrontingIP : list byte;
  c_DomainFrontingProxyProtocol : bool;
  c_TolerateTimeSkewness : Z;
  c_Concurrency : Z;
  c_PublicIPv4 : list byte;
  c_PublicIPv6 : list byte;
  c_DomainFronting_Host : string;
  c_DomainFronting_IP : list byte;
  c_DomainFronting_Port : Z;
  c_DomainFronting_ProxyProtocol : bool;
  c_PendingHandshakes_MaxPerIP : Z;
  c_PendingHandshakes_DryRun : bool;
  c_AntiReplay_Enabled : bool;
  c_AntiReplay_MaxSize : Z;
  c_AntiReplay_ErrorRate : float64;
  c_Blocklist : ListConfig;
  c_Allowlist : ListConfig;
  c_Doppelganger_URLs : list URL;
  c_Doppelganger_Repeats : Z;
  c_Doppelganger_UpdateEach : Z;
  c_Doppelganger_DRS : bool;
  c_Timeout_TCP : Z;
  c_Timeout_HTTP : Z;
  c_Timeout_Idle : Z;
  c_Timeout_Handshake : Z;
  c_KeepAlive_Disabled : bool;
  c_KeepAlive_Idle : Z;
  c_KeepAlive_Interval : Z;
  c_KeepAlive_Count : Z;
  c_DOHIP : list byte;
  c_DNS : option URL;
  c_Proxies : list URL;
  c_TCPNotSentLowat : Z;
  c_APIBindTo : TypeHostPort;
  c_Throttle_MaxConnections : Z;
  c_Throttle_CheckInterval : Z;
  c_StatsD_Enabled : bool;
  c_StatsD_Address : TypeHostPort;
  c_StatsD_MetricPrefix : string;
  c_StatsD_TagFormat : string;
  c_Prometheus_Enabled : bool;
  c_Prometheus_BindTo : TypeHostPort;
  c_Prometheus_HTTPPath : string;
  c_Prometheus_MetricPrefix : string
}.

(** [Config{}]. *)
Definition zeroConfig : Config :=
  mkConf false false zeroSecret ∅ [] ∅ ∅ "" "" [] false "" false 0 [] false 0 0 [] [] "" [] 0 false 0 false false 0 (float_of 0)
    zeroList zeroList [] 0 0 false 0 0 0 0 false 0 0 0 [] None [] 0 zeroHostPort 0 0 false zeroHostPort "" "" false zeroHostPort
    "" "".

(** ** Decoding *)

(** A text with [omitempty]: the empty text is left out. *)
Definition json_text {T} (zero : T) (set : string -> res T) (raw : string) : res T :=
  if bool_decide (raw = "") then Ok zero else set raw.

Definition json_uint (set : string -> res Z) (raw : Z) : res Z := if raw =? 0 then Ok 0 else set (Itoa raw).

(** [false] is left out, [true] is read by [TypeBool.Set]. *)
Definition json_bool (raw : bool) : res bool := if raw then TypeBool_Set "true" else Ok false.

Definition json_list {T} (set : string -> res T) (raw : list string) : res (list T) :=
  foldr (fun s r => v ← set s; l ← r; Ok (v :: l)) (Ok []) raw.

(** The values of a map, in the order of its keys. *)
Definition json_map {A B} (f : A -> res B) (raw : gmap string A) : res (gmap string B) :=
  foldr (fun kv r => v ← f kv.2; m ← r; Ok (<[kv.1 := v]> m)) (Ok ∅) (map_to_list raw).

Definition decode_secret (text : string) : res Secret :=
  match UnmarshalText zeroSecret (bytes_of_string text) with
  | (s, None) => Ok s
  | (_, Some e) => Fail e
  end.

Definition json_secret : string -> res Secret := json_text zeroSecret decode_secret.

(** A number that JSON has no text for makes the encoder fail, which the source
    turns into a panic; other numbers come back as they were. *)
Definition json_encodable (f : float64) : bool :=
  match f with SpecFloat.S754_nan | SpecFloat.S754_infinity _ => false | _ => true end.

Definition json_float (f : float64) : res float64 :=
  match f with SpecFloat.S754_zero _ => Ok (float_of 0) | _ => TypeErrorRate_check f end.

(** The switch over the value of bind-to in [Parse], then its decoding. *)
Definition json_bind (v : tomlAny) : res (list TypeHostPort) :=
  match v with
  | AnyNil => Ok []
  | AnyString s => if bool_decide (s = "") then Fail (Errorf "cannot unmarshal string") else json_list TypeHostPort_Set [s]
  | AnyList l =>
      match mapM id l with
      | Some strs => json_list TypeHostPort_Set strs
      | None => Fail (Errorf "bind-to array elements must be strings")
      end
  | AnyOther => Fail (Errorf "cannot unmarshal")
  end.

Section Env.
Context `{ConfigEnv}.

Definition decode_limit (t : tomlLimit) : res ConfigSecretLimit :=
  quota ← json_text 0 TypeBytes_Set (t_Quota t);
  reset ← json_text "" TypeQuotaReset_Set (t_QuotaReset t);
  expires ← json_text zeroTime TypeExpiry_Set (t_Expires t);
  disabled ← json_bool (t_Disabled t);
  Ok (mkLimit quota reset expires disabled).

Definition decode_list (t : tomlList) : res ListConfig :=
  enabled ← json_bool (t_Enabled t);
  concurrency ← json_uint TypeConcurrency_Set (t_DownloadConcurrency t);
  urls ← json_list TypeBlocklistURI_Set (t_URLs t);
  each ← json_text 0 TypeDuration_Set (t_UpdateEach t);
  Ok (mkList enabled concurrency urls each).

Definition json_decode (t : tomlConfig) : res Config :=
  f_Debug ← json_bool (t_Debug t);
  f_AllowFallbackOnUnknownDC ← json_bool (t_AllowFallbackOnUnknownDC t);
  f_Secret ← json_secret (t_Secret t);
  f_Secrets ← json_map decode_secret (t_Secrets t);
  f_AdTag ← json_text [] TypeAdTag_Set (t_AdTag t);
  f_SecretAdTags ← json_map TypeAdTag_Set (t_SecretAdTags t);
  f_SecretLimits ← json_map decode_limit (t_SecretLimits t);
  f_UsageStateFile ← Ok (t_UsageStateFile t);
  f_APIToken ← Ok (t_APIToken t);
  f_BindTo ← json_bind (t_BindTo t);
  f_ProxyProtocolListener ← json_bool (t_ProxyProtocolListener t);
  f_PreferIP ← json_text "" TypePreferIP_Set (t_PreferIP t);
  f_AutoUpdate ← json_bool (t_AutoUpdate t);
  f_DomainFrontingPort ← json_uint TypePort_Set (t_DomainFrontingPort t);
  f_DomainFrontingIP ← json_text [] TypeIP_Set (t_DomainFrontingIP t);
  f_DomainFrontingProxyProtocol ← json_bool (t_DomainFrontingProxyProtocol t);
  f_TolerateTimeSkewness ← json_text 0 TypeDuration_Set (t_TolerateTimeSkewness t);
  f_Concurrency ← json_uint TypeConcurrency_Set (t_Concurrency t);
  f_PublicIPv4 ← json_text [] TypeIP_Set (t_PublicIPv4 t);
  f_PublicIPv6 ← json_text [] TypeIP_Set (t_PublicIPv6 t);
  f_DomainFronting_Host ← json_text "" TypeHost_Set (t_DomainFronting_Host t);
  f_DomainFronting_IP ← json_text [] TypeIP_Set (t_DomainFronting_IP t);
  f_DomainFronting_Port ← json_uint TypePort_Set (t_DomainFronting_Port t);
  f_DomainFronting_ProxyProtocol ← json_bool (t_DomainFronting_ProxyProtocol t);
  f_PendingHandshakes_MaxPerIP ← json_uint TypeConcurrency_Set (t_PendingHandshakes_MaxPerIP t);
  f_PendingHandshakes_DryRun ← json_bool (t_PendingHandshakes_DryRun t);
  f_AntiReplay_Enabled ← json_bool (t_AntiReplay_Enabled t);
  f_AntiReplay_MaxSize ← json_text 0 TypeBytes_Set (t_AntiReplay_MaxSize t);
  f_AntiReplay_ErrorRate ← json_float (t_AntiReplay_ErrorRate t);
  f_Blocklist ← decode_list (t_Blocklist t);
  f_Allowlist ← decode_list (t_Allowlist t);
  f_Doppelganger_URLs ← json_list TypeHttpsURL_Set (t_Doppelganger_URLs t);
  f_Doppelganger_Repeats ← json_uint TypeConcurrency_Set (t_Doppelganger_Repeats t);
  f_Doppelganger_UpdateEach ← json_text 0 TypeDuration_Set (t_Doppelganger_UpdateEach t);
  f_Doppelganger_DRS ← json_bool (t_Doppelganger_DRS t);
  f_Timeout_TCP ← json_text 0 TypeDuration_Set (t_Timeout_TCP t);
  f_Timeout_HTTP ← json_text 0 TypeDuration_Set (t_Timeout_HTTP t);
  f_Timeout_Idle ← json_text 0 TypeDuration_Set (t_Timeout_Idle t);
  f_Timeout_Handshake ← json_text 0 TypeDuration_Set (t_Timeout_Handshake t);
  f_KeepAlive_Disabled ← json_bool (t_KeepAlive_Disabled t);
  f_KeepAlive_Idle ← json_text 0 TypeDuration_Set (t_KeepAlive_Idle t);
  f_KeepAlive_Interval ← json_text 0 TypeDuration_Set (t_KeepAlive_Interval t);
  f_KeepAlive_Count ← json_uint TypeConcurrency_Set (t_KeepAlive_Count t);
  f_DOHIP ← json_text [] TypeIP_Set (t_DOHIP t);
  f_DNS ← json_text None (fun s => u ← TypeDNSURI_Set s; Ok (Some u)) (t_DNS t);
  f_Proxies ← json_list TypeProxyURL_Set (t_Proxies t);
  f_TCPNotSentLowat ← json_text 0 TypeBytes_Set (t_TCPNotSentLowat t);
  f_APIBindTo ← json_text zeroHostPort TypeHostPort_Set (t_APIBindTo t);
  f_Throttle_MaxConnections ← json_uint TypeConcurrency_Set (t_Throttle_MaxConnections t);
  f_Throttle_CheckInterval ← json_text 0 TypeDuration_Set (t_Throttle_CheckInterval t);
  f_StatsD_Enabled ← json_bool (t_StatsD_Enabled t);
  f_StatsD_Address ← json_text zeroHostPort TypeHostPort_Set (t_StatsD_Address t);
  f_StatsD_MetricPrefix ← json_text "" TypeMetricPrefix_Set (t_StatsD_MetricPrefix t);
  f_StatsD_TagFormat ← json_text "" TypeStatsdTagFormat_Set (t_StatsD_TagFormat t);
  f_Prometheus_Enabled ← json_bool (t_Prometheus_Enabled t);
  f_Prometheus_BindTo ← json_text zeroHostPort TypeHostPort_Set (t_Prometheus_BindTo t);
  f_Prometheus_HTTPPath ← json_text "" TypeHTTPPath_Set (t_Prometheus_HTTPPath t);
  f_Prometheus_MetricPrefix ← json_text "" TypeMetricPrefix_Set (t_Prometheus_MetricPrefix t);
  Ok (mkConf f_Debug f_AllowFallbackOnUnknownDC f_Secret f_Secrets f_AdTag f_SecretAdTags f_SecretLimits f_UsageStateFile
      f_APIToken f_BindTo f_ProxyProtocolListener f_PreferIP f_AutoUpdate f_DomainFrontingPort f_DomainFrontingIP
      f_DomainFrontingProxyProtocol f_TolerateTimeSkewness f_Concurrency f_PublicIPv4 f_PublicIPv6 f_DomainFronting_Host
      f_DomainFronting_IP f_DomainFronting_Port f_DomainFronting_ProxyProtocol f_PendingHandshakes_MaxPerIP
      f_PendingHandshakes_DryRun f_AntiReplay_Enabled f_AntiReplay_MaxSize f_AntiReplay_ErrorRate f_Blocklist f_Allowlist
      f_Doppelganger_URLs f_Doppelganger_Repeats f_Doppelganger_UpdateEach f_Doppelganger_DRS f_Timeout_TCP f_Timeout_HTTP
      f_Timeout_Idle f_Timeout_Handshake f_KeepAlive_Disabled f_KeepAlive_Idle f_KeepAlive_Interval f_KeepAlive_Count f_DOHIP
      f_DNS f_Proxies f_TCPNotSentLowat f_APIBindTo f_Throttle_MaxConnections f_Throttle_CheckInterval f_StatsD_Enabled
      f_StatsD_Address f_StatsD_MetricPrefix f_StatsD_TagFormat f_Prometheus_Enabled f_Prometheus_BindTo f_Prometheus_HTTPPath
      f_Prometheus_MetricPrefix).

(** [Parse]; [None] is the panic when a number cannot be encoded. *)
Definition Parse (toml_Unmarshal : list byte -> res tomlConfig) (rawData : list byte) : option (res Config) :=
  match toml_Unmarshal rawData with
  | Fail e => Some (Fail (Wrap "cannot parse toml config" e))
  | Ok t =>
      let badBind := match t_BindTo t with AnyList l => bool_decide (mapM id l = None) | _ => false end in
      if badBind then Some (Fail (Errorf "bind-to array elements must be strings"))
      else if negb (json_encodable (t_AntiReplay_ErrorRate t)) then None
      else Some (conf ← wrap_err "cannot parse a config" (json_decode t);
                 if (List.length (c_BindTo conf) =? 0)%nat then Fail (Errorf "bind-to is required") else Ok conf)
  end.
End Env.

(** ** Validation *)

Definition knownSecret (c : Config) (name : string) : bool :=
  if (0 <? size (c_Secrets c))%nat then bool_decide (is_Some (c_Secrets c !! name)) else bool_decide (name = "default").

(** The loop over the addresses: [seen] are the ones before. *)
Fixpoint validateBinds (seen : gset string) (l : list TypeHostPort) : option goerr :=
  match l with
  | [] => None
  | addr :: l =>
      let v := TypeHostPort_Get addr "" in
      if bool_decide (v = "") then Some (Errorf "incorrect bind-to parameter: empty address")
      else if bool_decide (v ∈ seen) then Some (Errorf "duplicate bind-to address")
      else validateBinds ({[v]} ∪ seen) l
  end.

Definition validateAdTags (c : Config) : option goerr :=
  if (size (c_SecretAdTags c) =? 0)%nat then None
  else if forallb (fun kv => knownSecret c kv.1) (map_to_list (c_SecretAdTags c)) then None
  else Some (Errorf "secret-ad-tags refers to unknown secret").

Definition validateSecretLimits (c : Config) : option goerr :=
  if (size (c_SecretLimits c) =? 0)%nat then None
  else if forallb (fun kv => knownSecret c kv.1) (map_to_list (c_SecretLimits c)) then None
  else Some (Errorf "secret-limits refers to unknown secret").

(** Which of several invalid secrets the message names is not determined, the
    map having no order. *)
Definition Validate (c : Config) : option goerr :=
  let secretsOK := if (size (c_Secrets c) =? 0)%nat then Valid (c_Secret c)
                   else forallb (fun kv => Valid kv.2) (map_to_list (c_Secrets c)) in
  if negb secretsOK then Some (Errorf "invalid secret")
  else if (List.length (c_BindTo c) =? 0)%nat then Some (Errorf "incorrect bind-to parameter: no addresses specified")
  else match validateBinds ∅ (c_BindTo c) with
       | Some e => Some e
       | None => match validateAdTags c with
                 | Some e => Some e
                 | None => validateSecretLimits c
                 end
       end.

(** ** Getters *)

Definition GetConcurrency (c : Config) (default : Z) : Z :=
  let concurrency := TypeConcurrency_Get (c_Concurrency c) 0 in
  if negb (concurrency =? 0) then concurrency else TypeConcurrency_Get (c_Concurrency c) default.

Definition Config_GetDNS `{ConfigEnv} (c : Config) : option URL :=
  let dohURL := match TypeIP_Get (c_DOHIP c) [] with
                | [] => None
                | ip => match url_Parse ("https://" ++ IP_String ip) with Ok u => Some u | Fail _ => None end
                end in
  get_url (c_DNS c) dohURL.

Definition GetDomainFrontingPort (c : Config) (default : Z) : Z :=
  let port := TypePort_Get (c_DomainFronting_Port c) 0 in
  if negb (port =? 0) then port else TypePort_Get (c_DomainFrontingPort c) default.

Definition GetDomainFrontingHost (c : Config) : string := TypeHost_Get (c_DomainFronting_Host c) "".

Definition GetDomainFrontingProxyProtocol (c : Config) (default : bool) : bool :=
  TypeBool_Get (c_DomainFronting_ProxyProtocol c) false || TypeBool_Get (c_DomainFrontingProxyProtocol c) default.

Definition GetSecrets (c : Config) : gmap string Secret :=
  if (0 <? size (c_Secrets c))%nat then c_Secrets c else {["default" := c_Secret c]}.

Definition GetAdTag (c : Config) : option (list byte) := TypeAdTag_Get (c_AdTag c).

Definition GetSecretAdTags (c : Config) : gmap string (list byte) := omap TypeAdTag_Get (c_SecretAdTags c).

Definition toLimits (l : ConfigSecretLimit) : SecretLimits :=
  mkLimits (int64 (TypeBytes_Get (l_Quota l) 0))
    (if bool_decide (TypeQuotaReset_Get (l_QuotaReset l) "none" = QuotaReset_String QuotaResetMonthly) then QuotaResetMonthly else QuotaResetNone)
    (TypeExpiry_Get (l_Expires l) zeroTime)
    (TypeBool_Get (l_Disabled l) false).

Definition GetSecretLimits (c : Config) : gmap string SecretLimits :=
  omap (fun l => let lim := toLimits l in if Limits_IsZero lim then None else Some lim) (c_SecretLimits c).

Definition GetAPIToken (c : Config) : string := c_APIToken c.

Definition GetBindAddrs (c : Config) : list string := (fun hp => TypeHostPort_Get hp "") <$> c_BindTo c.

Definition GetFirstBindPort (c : Config) : Z := match c_BindTo c with [] => 0 | hp :: _ => hp_Port hp end.

(** ** The environment *)

Definition set_secrets (s : Secret) (ss : gmap string Secret) (tags : gmap string (list byte)) (lims : gmap string ConfigSecretLimit) (c : Config) : Config :=
  mkConf (c_Debug c) (c_AllowFallbackOnUnknownDC c) s ss (c_AdTag c) tags lims (c_UsageStateFile c) (c_APIToken c) (c_BindTo c)
    (c_ProxyProtocolListener c) (c_PreferIP c) (c_AutoUpdate c) (c_DomainFrontingPort c) (c_DomainFrontingIP c)
    (c_DomainFrontingProxyProtocol c) (c_TolerateTimeSkewness c) (c_Concurrency c) (c_PublicIPv4 c) (c_PublicIPv6 c)
    (c_DomainFronting_Host c) (c_DomainFronting_IP c) (c_DomainFronting_Port c) (c_DomainFronting_ProxyProtocol c)
    (c_PendingHandshakes_MaxPerIP c) (c_PendingHandshakes_DryRun c) (c_AntiReplay_Enabled c) (c_AntiReplay_MaxSize c)
    (c_AntiReplay_ErrorRate c) (c_Blocklist c) (c_Allowlist c) (c_Doppelganger_URLs c) (c_Doppelganger_Repeats c)
    (c_Doppelganger_UpdateEach c) (c_Doppelganger_DRS c) (c_Timeout_TCP c) (c_Timeout_HTTP c) (c_Timeout_Idle c)
    (c_Timeout_Handshake c) (c_KeepAlive_Disabled c) (c_KeepAlive_Idle c) (c_KeepAlive_Interval c) (c_KeepAlive_Count c) (c_DOHIP
    c) (c_DNS c) (c_Proxies c) (c_TCPNotSentLowat c) (c_APIBindTo c) (c_Throttle_MaxConnections c) (c_Throttle_CheckInterval c)
    (c_StatsD_Enabled c) (c_StatsD_Address c) (c_StatsD_MetricPrefix c) (c_StatsD_TagFormat c) (c_Prometheus_Enabled c)
    (c_Prometheus_BindTo c) (c_Prometheus_HTTPPath c) (c_Prometheus_MetricPrefix c).

Definition set_adTag (tag : list byte) (c : Config) : Config :=
  mkConf (c_Debug c) (c_AllowFallbackOnUnknownDC c) (c_Secret c) (c_Secrets c) tag (c_SecretAdTags c) (c_SecretLimits c)
    (c_UsageStateFile c) (c_APIToken c) (c_BindTo c) (c_ProxyProtocolListener c) (c_PreferIP c) (c_AutoUpdate c)
    (c_DomainFrontingPort c) (c_DomainFrontingIP c) (c_DomainFrontingProxyProtocol c) (c_TolerateTimeSkewness c) (c_Concurrency c)
    (c_PublicIPv4 c) (c_PublicIPv6 c) (c_DomainFronting_Host c) (c_DomainFronting_IP c) (c_DomainFronting_Port c)
    (c_DomainFronting_ProxyProtocol c) (c_PendingHandshakes_MaxPerIP c) (c_PendingHandshakes_DryRun c) (c_AntiReplay_Enabled c)
    (c_AntiReplay_MaxSize c) (c_AntiReplay_ErrorRate c) (c_Blocklist c) (c_Allowlist c) (c_Doppelganger_URLs c)
    (c_Doppelganger_Repeats c) (c_Doppelganger_UpdateEach c) (c_Doppelganger_DRS c) (c_Timeout_TCP c) (c_Timeout_HTTP c)
    (c_Timeout_Idle c) (c_Timeout_Handshake c) (c_KeepAlive_Disabled c) (c_KeepAlive_Idle c) (c_KeepAlive_Interval c)
    (c_KeepAlive_Count c) (c_DOHIP c) (c_DNS c) (c_Proxies c) (c_TCPNotSentLowat c) (c_APIBindTo c) (c_Throttle_MaxConnections c)
    (c_Throttle_CheckInterval c) (c_StatsD_Enabled c) (c_StatsD_Address c) (c_StatsD_MetricPrefix c) (c_StatsD_TagFormat c)
    (c_Prometheus_Enabled c) (c_Prometheus_BindTo c) (c_Prometheus_HTTPPath c) (c_Prometheus_MetricPrefix c).

Definition set_bindTo (binds : list TypeHostPort) (c : Config) : Config :=
  mkConf (c_Debug c) (c_AllowFallbackOnUnknownDC c) (c_Secret c) (c_Secrets c) (c_AdTag c) (c_SecretAdTags c) (c_SecretLimits c)
    (c_UsageStateFile c) (c_APIToken c) binds (c_ProxyProtocolListener c) (c_PreferIP c) (c_AutoUpdate c) (c_DomainFrontingPort c)
    (c_DomainFrontingIP c) (c_DomainFrontingProxyProtocol c) (c_TolerateTimeSkewness c) (c_Concurrency c) (c_PublicIPv4 c)
    (c_PublicIPv6 c) (c_DomainFronting_Host c) (c_DomainFronting_IP c) (c_DomainFronting_Port c) (c_DomainFronting_ProxyProtocol
    c) (c_PendingHandshakes_MaxPerIP c) (c_PendingHandshakes_DryRun c) (c_AntiReplay_Enabled c) (c_AntiReplay_MaxSize c)
    (c_AntiReplay_ErrorRate c) (c_Blocklist c) (c_Allowlist c) (c_Doppelganger_URLs c) (c_Doppelganger_Repeats c)
    (c_Doppelganger_UpdateEach c) (c_Doppelganger_DRS c) (c_Timeout_TCP c) (c_Timeout_HTTP c) (c_Timeout_Idle c)
    (c_Timeout_Handshake c) (c_KeepAlive_Disabled c) (c_KeepAlive_Idle c) (c_KeepAlive_Interval c) (c_KeepAlive_Count c) (c_DOHIP
    c) (c_DNS c) (c_Proxies c) (c_TCPNotSentLowat c) (c_APIBindTo c) (c_Throttle_MaxConnections c) (c_Throttle_CheckInterval c)
    (c_StatsD_Enabled c) (c_StatsD_Address c) (c_StatsD_MetricPrefix c) (c_StatsD_TagFormat c) (c_Prometheus_Enabled c)
    (c_Prometheus_BindTo c) (c_Prometheus_HTTPPath c) (c_Prometheus_MetricPrefix c).

Section Environ.
(** [os.LookupEnv]. *)
Variable LookupEnv : string -> option string.

Definition lookupEnv (name : string) : option string :=
  match LookupEnv ("MTG_" ++ name) with
  | Some value => Some value
  | None => LookupEnv name
  end.

Definition parseEnvSecret (value : string) : res Secret :=
  let full :=
    match ParseSecret value with
    | (s, None) => Ok s
    | (_, Some e) => Fail (Wrap "incorrect SECRET environment variable" e)
    end in
  match hex_decode (bytes_of_string value) with
  | Ok raw =>
      if (List.length raw =? SecretKeyLength)%nat then
        let host := TrimSpace (default "" (lookupEnv "SECRET_HOST")) in
        if bool_decide (host = "") then Fail (Errorf "SECRET is a bare 16-byte key")
        else Ok (mkSecret raw host)
      else full
  | Fail _ => full
  end.

Definition applyEnvSecret (c : Config) : res Config :=
  match lookupEnv "SECRET" with
  | None => Ok c
  | Some value => secret ← parseEnvSecret (TrimSpace value); Ok (set_secrets secret ∅ ∅ ∅ c)
  end.

Definition applyEnvAdTag (c : Config) : res Config :=
  match lookupEnv "TAG" with
  | None => Ok c
  | Some value => tag ← wrap_err "incorrect TAG environment variable" (TypeAdTag_Set (TrimSpace value)); Ok (set_adTag tag c)
  end.

Definition applyEnvBindTo (c : Config) : res Config :=
  match LookupEnv "MTG_BIND_TO" with
  | None => Ok c
  | Some value =>
      binds ← foldr (fun part r =>
                let part := TrimSpace part in
                if bool_decide (part = "") then r else
                hp ← wrap_err "incorrect MTG_BIND_TO environment variable" (TypeHostPort_Set part);
                l ← r; Ok (hp :: l)) (Ok []) (Split value ",");
      match binds with
      | [] => Fail (Errorf "MTG_BIND_TO must contain at least one host:port")
      | _ => Ok (set_bindTo binds c)
      end
  end.

Definition ApplyEnvironment (c : Config) : res Config :=
  c ← applyEnvSecret c; c ← applyEnvAdTag c; applyEnvBindTo c.

(** ** internal/utils/read_config.go *)

(** [content] is the file, or the error of reading it; [None] is a panic. *)
Definition ReadConfig `{ConfigEnv} (toml_Unmarshal : list byte -> res tomlConfig) (content : res (list byte)) : option (res Config) :=
  match content with
  | Fail e => Some (Fail (Wrap "cannot read config file" e))
  | Ok content =>
      r ← Parse toml_Unmarshal content;
      Some (conf ← wrap_err "cannot parse config" r;
            conf ← wrap_err "cannot apply environment variables" (ApplyEnvironment conf);
            match Validate conf with
            | Some e => Fail (Wrap "invalid config" e)
            | None => Ok conf
            end)
  end.
End Environ.

(** ** Proofs *)

Lemma forallb_map_to_list {A} (P : string -> A -> bool) (m : gmap string A) :
  forallb (fun kv => P kv.1 kv.2) (map_to_list m) = true <-> forall k v, m !! k = Some v -> P k v = true.
Proof.
  rewrite forallb_forall. split.
  - intros H k v Hk. apply (H (k, v)), list_elem_of_In, elem_of_map_to_list, Hk.
  - intros H [k v] Hin%list_elem_of_In%elem_of_map_to_list. by apply H.
Qed.

Lemma knownSecret_spec c name : knownSecret c name = true <-> is_Some (GetSecrets c !! name).
Proof.
  unfold knownSecret, GetSecrets. case_match; rewrite bool_decide_eq_true; [done|].
  rewrite lookup_singleton_is_Some. split; congruence.
Qed.

Lemma validateBinds_spec seen l :
  validateBinds seen l = None <->
  NoDup ((fun hp => TypeHostPort_Get hp "") <$> l) /\
  (forall v, v ∈ (fun hp => TypeHostPort_Get hp "") <$> l -> v <> "" /\ v ∉ seen).
Proof.
  revert seen. induction l as [|hp l IH]; intros seen; simpl.
  - split; [intros _; split; [constructor|]|done]. intros v Hv. by apply elem_of_nil in Hv.
  - rewrite NoDup_cons. case_bool_decide as H1; [split; [done|]|].
    { intros [_ H]. destruct (H (TypeHostPort_Get hp "")); [left|done]. }
    case_bool_decide as H2; [split; [done|]|].
    { intros [_ H]. destruct (H (TypeHostPort_Get hp "")); [left|done]. }
    rewrite IH. split.
    + intros [Hn Hs]. split_and!; [|done|].
      * intros Hin. destruct (Hs _ Hin) as [_ Hx]. set_solver.
      * intros v [->|Hv]%elem_of_cons; [done|]. destruct (Hs v Hv). split; [done|set_solver].
    + intros [[Hni Hn] Hs]. split; [done|]. intros v Hv. destruct (Hs v) as [? ?]; [by right|]. split; [done|].
      rewrite not_elem_of_union, not_elem_of_singleton. split; [|done]. by intros ->.
Qed.

Lemma known_names {A} c (m : gmap string A) :
  (if (size m =? 0)%nat then true else forallb (fun kv => knownSecret c kv.1) (map_to_list m)) = true <->
  dom m ⊆ dom (GetSecrets c).
Proof.
  assert (forallb (fun kv => knownSecret c kv.1) (map_to_list m) = true <-> dom m ⊆ dom (GetSecrets c)) as Hf.
  { rewrite (forallb_map_to_list (fun k _ => knownSecret c k)). split.
    - intros H k [v Hv]%elem_of_dom. apply elem_of_dom, knownSecret_spec. by eapply H.
    - intros H k v Hv. apply knownSecret_spec, elem_of_dom, H, elem_of_dom. by eexists. }
  case_match eqn:E; [|done]. apply Nat.eqb_eq, map_size_empty_inv in E. subst. split; [intros _; set_solver|done].
Qed.

Lemma secrets_valid c :
  (if (size (c_Secrets c) =? 0)%nat then Valid (c_Secret c) else forallb (fun kv => Valid kv.2) (map_to_list (c_Secrets c))) = true <->
  map_Forall (fun _ s => Valid s = true) (GetSecrets c).
Proof.
  unfold GetSecrets. destruct (size (c_Secrets c)) eqn:E; simpl.
  - rewrite map_Forall_singleton. done.
  - rewrite (forallb_map_to_list (fun _ s => Valid s)). done.
Qed.

Lemma Validate_ok c :
  Validate c = None <->
  map_Forall (fun _ s => Valid s = true) (GetSecrets c) /\
  GetBindAddrs c <> [] /\ NoDup (GetBindAddrs c) /\ "" ∉ GetBindAddrs c /\
  dom (c_SecretAdTags c) ⊆ dom (GetSecrets c) /\ dom (c_SecretLimits c) ⊆ dom (GetSecrets c).
Proof.
  rewrite <-secrets_valid, <-!known_names. unfold Validate, validateAdTags, validateSecretLimits, GetBindAddrs.
  pose proof (validateBinds_spec ∅ (c_BindTo c)) as Hb.
  destruct (if (size (c_Secrets c) =? 0)%nat then _ else _); simpl; [|naive_solver].
  destruct (c_BindTo c) as [|hp l] eqn:El; simpl length; [simpl; naive_solver|]. cbn [Nat.eqb]. cbv iota.
  destruct (validateBinds ∅ (hp :: l)) as [e|].
  - split; [done|]. intros (_ & _ & Hn & He & _). destruct Hb as [_ Hb]. discriminate Hb. split; [done|].
    intros v Hv. split; [by intros ->|set_solver].
  - destruct Hb as [Hb _]. specialize (Hb eq_refl) as [Hn Hs].
    destruct (size (c_SecretAdTags c) =? 0)%nat, (size (c_SecretLimits c) =? 0)%nat; simpl.
    all: repeat case_match; split; intros Hx; try done; try (by destruct_and! Hx); split_and!; try done.
    all: intros He; by destruct (Hs _ He).
Qed.

Lemma parseEnvSecret_full LookupEnv value s :
  ParseSecret value = (s, None) ->
  (forall raw, hex_decode (bytes_of_string value) = Ok raw -> List.length raw <> SecretKeyLength) ->
  parseEnvSecret LookupEnv value = Ok s.
Proof.
  intros Hp Hl. unfold parseEnvSecret. rewrite Hp. destruct (hex_decode (bytes_of_string value)) as [raw|]; [|done].
  by rewrite (proj2 (Nat.eqb_neq _ _)) by (by apply Hl).
Qed.

Lemma ParseSecret_printed s text :
  Secret_wf s -> Host s <> "" -> text = Hex s \/ text = Base64 s -> ParseSecret text = (s, None).
Proof.
  intros Hwf Hh Ht. unfold ParseSecret, UnmarshalText. rewrite string_of_bytes_of_string.
  destruct Ht as [->| ->]; apply Secret_Set_bytes; try done.
  - left. apply hex_decode_encode.
  - apply makeBytes_b64_nonempty.
  - right. split; [apply base64_not_hex|apply b64_decode_encode].
Qed.

Lemma applyEnvBindTo_ok LookupEnv c c' value :
  LookupEnv "MTG_BIND_TO" = Some value -> applyEnvBindTo LookupEnv c = Ok c' ->
  exists binds, binds <> [] /\ c' = set_bindTo binds c /\ Forall legal_hostport binds /\
    Forall2 (fun part hp => TypeHostPort_Set part = Ok hp) (filter (fun p => p <> "") (TrimSpace <$> Split value ",")) binds.
Proof.
  intros Hv. unfold applyEnvBindTo. rewrite Hv. intros Hb.
  match type of Hb with (?r ≫= _) = _ => destruct r as [binds|e] eqn:Hr; [|done] end. simpl in Hb.
  assert (Forall legal_hostport binds /\
    Forall2 (fun part hp => TypeHostPort_Set part = Ok hp) (filter (fun p => p <> "") (TrimSpace <$> Split value ",")) binds) as Hall.
  { clear Hb Hv. revert binds Hr. induction (Split value ",") as [|part parts IH]; intros binds Hr; simpl in Hr.
    - injection Hr as <-. split; constructor.
    - rewrite fmap_cons, filter_cons. case_bool_decide as Hp.
      + rewrite decide_False by (intros Hn; by apply Hn). by apply IH.
      + rewrite decide_True by done. res_inv Hr. injection Hr as <-. destruct (IH _ Ha0) as [H1 H2].
        split; constructor; try done. by eapply (set_legal (Lawful := _)). }
  destruct binds as [|hp binds]; [done|]. injection Hb as <-. by exists (hp :: binds).
Qed.

(** ** Claims *)

(** C34: what a valid configuration is.  [Validate] accepts exactly the
    configurations in which every secret to be served (the named ones, or the
    single one under the name "default") is valid, there is an address to listen
    on, no address is empty or given twice, and every advertising tag and every
    limit names a secret that exists. *)
Theorem validate_spec c :
  Validate c = None <->
  map_Forall (fun _ s => Valid s = true) (GetSecrets c) /\
  GetBindAddrs c <> [] /\ NoDup (GetBindAddrs c) /\ "" ∉ GetBindAddrs c /\
  dom (c_SecretAdTags c) ⊆ dom (GetSecrets c) /\ dom (c_SecretLimits c) ⊆ dom (GetSecrets c).
Proof. apply Validate_ok. Qed.

(** The environment wins.  When the environment can be applied: a secret in
    it replaces the whole set of the file, with its tags and limits, by that one
    secret under the name "default"; a tag in it replaces the global tag; a list
    of addresses in it replaces the addresses; whatever is not in the environment
    is as the file has it. *)
Theorem env_wins LookupEnv c c' :
  ApplyEnvironment LookupEnv c = Ok c' ->
  (match lookupEnv LookupEnv "SECRET" with
   | Some v => exists s, parseEnvSecret LookupEnv (TrimSpace v) = Ok s /\ GetSecrets c' = {["default" := s]} /\
                 GetSecretAdTags c' = ∅ /\ GetSecretLimits c' = ∅
   | None => GetSecrets c' = GetSecrets c /\ GetSecretAdTags c' = GetSecretAdTags c /\ GetSecretLimits c' = GetSecretLimits c
   end) /\
  (match lookupEnv LookupEnv "TAG" with
   | Some v => TypeAdTag_Set (TrimSpace v) = Ok (c_AdTag c')
   | None => GetAdTag c' = GetAdTag c
   end) /\
  (match LookupEnv "MTG_BIND_TO" with
   | Some v => GetBindAddrs c' <> [] /\
       Forall2 (fun part hp => TypeHostPort_Set part = Ok hp) (filter (fun p => p <> "") (TrimSpace <$> Split v ",")) (c_BindTo c')
   | None => GetBindAddrs c' = GetBindAddrs c
   end).
Proof.
  unfold ApplyEnvironment. intros Hc. res_inv Hc. rename a into c1, a0 into c2. unfold applyEnvSecret in Ha. unfold applyEnvAdTag in Ha0.
  assert (c' = c2 \/ exists b, c' = set_bindTo b c2) as Hc2.
  { destruct (LookupEnv "MTG_BIND_TO") as [v|] eqn:Hv; [|left; unfold applyEnvBindTo in Hc; rewrite Hv in Hc; by injection Hc].
    right. destruct (applyEnvBindTo_ok _ _ _ _ Hv Hc) as (b & _ & -> & _). by exists b. }
  assert (c2 = c1 \/ exists t, c2 = set_adTag t c1) as Hc1.
  { destruct (lookupEnv LookupEnv "TAG"); [|left; by injection Ha0]. res_inv Ha0. right. exists a. by injection Ha0. }
  split_and!.
  - assert (GetSecrets c' = GetSecrets c1 /\ GetSecretAdTags c' = GetSecretAdTags c1 /\ GetSecretLimits c' = GetSecretLimits c1) as (-> & -> & ->)
      by (by destruct Hc2 as [->|[? ->]], Hc1 as [->|[? ->]]).
    destruct (lookupEnv LookupEnv "SECRET") as [v|]; [|by injection Ha as ->]. res_inv Ha. injection Ha as <-.
    exists a. split_and!; [done|reflexivity| |]; apply omap_empty.
  - destruct (lookupEnv LookupEnv "TAG") as [v|].
    + res_inv Ha0. injection Ha0 as <-. by destruct Hc2 as [->|[? ->]].
    + injection Ha0 as <-. assert (GetAdTag c1 = GetAdTag c) as <-.
      { destruct (lookupEnv LookupEnv "SECRET"); [res_inv Ha|]; by injection Ha as <-. }
      by destruct Hc2 as [->|[? ->]].
  - destruct (LookupEnv "MTG_BIND_TO") as [v|] eqn:Hv.
    + destruct (applyEnvBindTo_ok _ _ _ _ Hv Hc) as (b & Hne & -> & _ & Hf). split; [by destruct b|done].
    + unfold applyEnvBindTo in Hc. rewrite Hv in Hc. injection Hc as <-.
      assert (GetBindAddrs c1 = GetBindAddrs c) as <-; [|by destruct Hc1 as [->|[? ->]]].
      destruct (lookupEnv LookupEnv "SECRET"); [res_inv Ha|]; by injection Ha as <-.
Qed.

(** Secrets in the environment.  Either printed form of a secret is read back
    as that secret (the test for a bare key never takes one for a key), and the
    bare hex form of its key, with its host in the host variable, gives the same
    secret; a bare key without a host is refused. *)
Theorem env_secret_roundtrip LookupEnv s :
  Secret_wf s -> Host s <> "" -> TrimSpace (Host s) = Host s ->
  let key := string_of_bytes (hex_encode (Key s)) in
  parseEnvSecret LookupEnv (Hex s) = Ok s /\ parseEnvSecret LookupEnv (Base64 s) = Ok s /\
  (lookupEnv LookupEnv "SECRET_HOST" = Some (Host s) -> parseEnvSecret LookupEnv key = Ok s) /\
  (lookupEnv LookupEnv "SECRET_HOST" = None -> is_ok (parseEnvSecret LookupEnv key) = false).
Proof.
  intros Hwf Hh Ht key. split_and!.
  - apply parseEnvSecret_full; [by apply ParseSecret_printed; [..|left]|].
    unfold Hex. rewrite bytes_of_string_of_bytes, hex_decode_encode. intros raw [= <-].
    unfold makeBytes. cbn [List.length]. rewrite length_app, Hwf. unfold SecretKeyLength. lia.
  - apply parseEnvSecret_full; [by apply ParseSecret_printed; [..|right]|].
    unfold Base64. rewrite bytes_of_string_of_bytes. intros raw Hr. pose proof (base64_not_hex s) as Hn. by rewrite Hr in Hn.
  - intros He. unfold parseEnvSecret, key. rewrite bytes_of_string_of_bytes, hex_decode_encode, Hwf, Nat.eqb_refl, He.
    simpl default. rewrite Ht, bool_decide_false by done. by destruct s.
  - intros He. unfold parseEnvSecret, key. rewrite bytes_of_string_of_bytes, hex_decode_encode, Hwf, Nat.eqb_refl, He. done.
Qed.

(** ** Witnesses *)

Definition demo_secret : Secret := mkSecret (replicate 16 Byte.x36) "example.com".

Definition demo_env (name : string) : option string :=
  if bool_decide (name = "MTG_SECRET") then Some (Hex demo_secret)
  else if bool_decide (name = "SECRET_HOST") then Some "example.com"
  else if bool_decide (name = "MTG_BIND_TO") then Some "127.0.0.1:443, [::1]:443,"
  else None.

Definition demo_conf : Config :=
  set_bindTo [mkHostPort "0.0.0.0:3128" "0.0.0.0" 3128] (set_secrets zeroSecret {["bob" := demo_secret]} ∅ ∅ zeroConfig).

Lemma env_wins_witness :
  exists c, ApplyEnvironment demo_env demo_conf = Ok c /\ Validate c = None /\
    GetSecrets c = {["default" := demo_secret]} /\ GetBindAddrs c = ["127.0.0.1:443"; "[::1]:443"].
Proof.
  destruct (ApplyEnvironment demo_env demo_conf) as [c|e] eqn:Hc; [|by vm_compute in Hc].
  destruct (env_wins demo_env demo_conf c Hc) as (Hs & _ & Hb). exists c. split; [done|].
  assert (lookupEnv demo_env "SECRET" = Some (Hex demo_secret)) as He by (vm_compute; reflexivity). rewrite He in Hs.
  destruct Hs as (s & Hp & -> & _).
  assert (parseEnvSecret demo_env (TrimSpace (Hex demo_secret)) = Ok demo_secret) as Hp' by (vm_compute; reflexivity).
  rewrite Hp in Hp'. injection Hp' as ->.
  vm_compute in Hc. injection Hc as <-. split_and!; [vm_compute; reflexivity|done|vm_compute; reflexivity].
Defined.

Lemma env_secret_roundtrip_witness :
  parseEnvSecret demo_env (Base64 demo_secret) = Ok demo_secret /\
  parseEnvSecret demo_env "36363636363636363636363636363636" = Ok demo_secret.
Proof.
  destruct (env_secret_roundtrip demo_env demo_secret) as (_ & H1 & H2 & _); [done|done|vm_compute; reflexivity|].
  split; [exact H1|]. apply H2. vm_compute. reflexivity.
Defined.
