(* ===== verification/Blocklist.v ===== *)
(** * IP lists: ipblocklist/, ipblocklist/files/, antireplay/

    A [Firehol] list is a set of networks read from files, one goroutine per
    file, each network inserted into a shared ranger under a mutex; when all
    files are done the new ranger replaces the old one.  A step of [fh_step] is
    one blocking call of one goroutine (opening its file, scanning a line, taking
    the mutex, inserting, releasing it, closing the file), so that a schedule is
    any interleaving of the goroutines, and a goroutine that waits for the mutex
    cannot be scheduled.

    The ranger (package cidranger) is a parameter: [Ranger] has its operations
    and [RangerLaws] what its documentation promises. *)

From S2P Require Import Prelude Encoding GoTime GoStrings GoNet GoDuration.
From Stdlib Require Import Ascii String.
Open Scope string_scope.
Open Scope list_scope.
Open Scope Z_scope.

(** ** The ranger *)

Class Ranger (R : Type) := {
  NewPCTrieRanger : R;
  ranger_Insert : IPNet -> R -> res R;
  ranger_Contains : R -> list byte -> res bool;
  ranger_Len : R -> Z
}.

(** Address and mask are of one family, as in everything but a network of
    IPv4-mapped addresses with a 128-bit mask. *)
Definition plain_net (n : IPNet) : bool :=
  if bool_decide (To4 (net_IP n) = []) then (List.length (net_IP n) =? 16)%nat && (List.length (net_Mask n) =? 16)%nat
  else (List.length (net_Mask n) =? 4)%nat.

(** A ranger [r] that holds the networks [l] accepts another one, and tells of
    an address whether it is in one of them. *)
Class RangerLaws (R : Type) `{Ranger R} := {
  holds : R -> list IPNet -> Prop;
  holds_new : holds NewPCTrieRanger [];
  holds_insert r l n : holds r l -> plain_net n = true -> exists r', ranger_Insert n r = Ok r' /\ holds r' (n :: l);
  holds_contains r l ip :
    holds r l -> List.length ip = 4%nat \/ List.length ip = 16%nat ->
    ranger_Contains r ip = Ok (existsb (fun n => IPNet_Contains n ip) l)
}.

(** ** Lines *)

(** The white space of a regular expression's [\s]. *)
Definition re_space (c : ascii) : bool := bool_decide (c ∈ list_ascii_of_string (" " ++ String "009" (String "010" (String "012" (String "013" ""))))).

Fixpoint drop_space (s : string) : string :=
  match s with String c s' => if re_space c then drop_space s' else s | EmptyString => "" end.

(** [fireholRegexpComment.ReplaceAllLiteralString(text, "")]: from the white
    space before the first number sign to the end of the line. *)
Definition cut_comment (text : string) : string :=
  match IndexByte text "#" with
  | None => text
  | Some i => rev_string (drop_space (rev_string (str_take i text)))
  end.

Definition updateParseLine (text : string) : res IPNet :=
  match ParseCIDR text with
  | Some ipnet => Ok ipnet
  | None =>
      match ParseIP text with
      | None => Fail (Errorf "incorrect ip address")
      | Some ipaddr => Ok (mkIPNet ipaddr (if bool_decide (To4 ipaddr = []) then CIDRMask 128 128 else CIDRMask 32 32))
      end
  end.

(** A line: nothing, a network, or an error. *)
Definition lineNet (text : string) : res (option IPNet) :=
  let text := TrimSpace (cut_comment text) in
  if bool_decide (text = "") then Ok None else
  n ← wrap_err "cannot parse a line" (updateParseLine text); Ok (Some n).

Section firehol.
Context {R : Type} `{Ranger R}.

(** *** The update, by any schedule *)

Record Firehol := mkFirehol { fh_ranger : R; fh_callback : list Z }.

(** The lines of a file and whether one is too long, which ends the loop as an
    error; the content of a file is what could be read of it. *)
Definition file_scan (content : string) : list string * bool := scan_lines (lines_loop "" content).

Definition file_lines (content : string) : list string := fst (file_scan content).

(** Where the goroutine of a file is: the call it makes next. *)
Inductive fetcher :=
  | Opening (file : res string)                                (* [v.Open(ctx)] *)
  | Scanning (lines : list string) (tooLong : bool)            (* [scanner.Scan()] *)
  | Locking (n : IPNet) (rest : list string) (tooLong : bool)  (* [mutex.Lock()] *)
  | Inserting (n : IPNet) (rest : list string) (tooLong : bool) (* [ranger.Insert], with the mutex *)
  | Unlocking (err : option goerr) (rest : list string) (tooLong : bool) (* [mutex.Unlock()] *)
  | Closing (err : option goerr)                               (* the deferred [fileContent.Close()] *)
  | Fetched (err : option goerr).                              (* returned, with the error that was logged *)

(** The ranger under construction, the goroutine that holds its mutex, and the
    goroutines. *)
Record updating := mkUpdating { up_ranger : R; up_mutex : option nat; up_work : list fetcher }.

Definition update_begin (files : list (res string)) : updating :=
  mkUpdating NewPCTrieRanger None (Opening <$> files).

(** The next call of the [i]-th goroutine; [None] when it has returned or waits
    for the mutex. *)
Definition fh_step (i : nat) (u : updating) : option updating :=
  w ← up_work u !! i;
  let to r m w' := Some (mkUpdating r m (<[i := w']> (up_work u))) in
  match w with
  | Opening (Fail e) => to (up_ranger u) (up_mutex u) (Fetched (Some e))
  | Opening (Ok content) => to (up_ranger u) (up_mutex u) (Scanning (file_lines content) (snd (file_scan content)))
  | Scanning [] tooLong =>
      to (up_ranger u) (up_mutex u) (Closing (if tooLong : bool then Some (Errorf "cannot parse a file") else None))
  | Scanning (text :: rest) tooLong =>
      match lineNet text with
      | Fail e => to (up_ranger u) (up_mutex u) (Closing (Some e))
      | Ok None => to (up_ranger u) (up_mutex u) (Scanning rest tooLong)
      | Ok (Some n) => to (up_ranger u) (up_mutex u) (Locking n rest tooLong)
      end
  | Locking n rest tooLong =>
      match up_mutex u with
      | None => to (up_ranger u) (Some i) (Inserting n rest tooLong)
      | Some _ => None
      end
  | Inserting n rest tooLong =>
      match ranger_Insert n (up_ranger u) with
      | Ok r => to r (up_mutex u) (Unlocking None rest tooLong)
      | Fail e => to (up_ranger u) (up_mutex u) (Unlocking (Some (Wrap "cannot insert into ranger" e)) rest tooLong)
      end
  | Unlocking err rest tooLong =>
      to (up_ranger u) None (match err with None => Scanning rest tooLong | Some e => Closing (Some e) end)
  | Closing err => to (up_ranger u) (up_mutex u) (Fetched err)
  | Fetched _ => None
  end.

Fixpoint fh_run (schedule : list nat) (u : updating) : option updating :=
  match schedule with [] => Some u | i :: schedule => u' ← fh_step i u; fh_run schedule u' end.

(** [wg.Wait()] returns. *)
Definition fetched (w : fetcher) : bool := match w with Fetched _ => true | _ => false end.

Definition finished (u : updating) : bool := forallb fetched (up_work u).

(** The callback is never nil in [runProxy]; [fh_callback] are its arguments. *)
Definition update_end (u : updating) (f : Firehol) : Firehol :=
  mkFirehol (up_ranger u) (fh_callback f ++ [ranger_Len (up_ranger u)]).

(** [update] under a schedule; [None] when the schedule asks for a step that
    cannot be made or leaves a goroutine unfinished. *)
Definition update (schedule : list nat) (files : list (res string)) (f : Firehol) : option Firehol :=
  u ← fh_run schedule (update_begin files);
  if finished u then Some (update_end u f) else None.

(** A nil address is in every list. *)
Definition Firehol_Contains (f : Firehol) (ip : list byte) : bool :=
  if bool_decide (ip = []) then true else
  match ranger_Contains (fh_ranger f) ip with Ok b => b | Fail _ => false end.

Definition DefaultFireholUpdateEach : Z := 6 * Hour.
Definition DefaultFireholDownloadConcurrency : Z := 1.

(** The period of [Run]. *)
Definition run_period (updateEach : Z) : Z := if updateEach =? 0 then DefaultFireholUpdateEach else updateEach.

(** [NewFireholFromFiles]: an empty list, and the size of the worker pool, which
    [update] does not use. *)
Definition NewFireholFromFiles (downloadConcurrency : Z) : Firehol * Z :=
  (mkFirehol NewPCTrieRanger [],
   if downloadConcurrency =? 0 then DefaultFireholDownloadConcurrency else downloadConcurrency).

(** ipblocklist/noop.go *)
Definition noop_Contains (ip : list byte) : bool := false.
End firehol.

(** ** ipblocklist/files/ *)

(** [NewLocal]: what [os.Stat] says of the path, [None] for a missing file. *)
Definition NewLocal (path : string) (stat : option (bool * Z)) : res string :=
  match stat with
  | Some (isDir, perm) => if isDir || (Z.land perm 256 =? 0) then Fail (Errorf "not a readable file") else Ok path
  | None => Fail (Errorf "not a readable file")
  end.

(** [NewHTTP]: the scheme of the parsed URL. *)
Definition NewHTTP (endpoint : string) (parsed : res URL) : res string :=
  u ← wrap_err "incorrect url" parsed;
  if bool_decide (url_Scheme u ∈ ["http"; "https"]) then Ok endpoint else Fail (Errorf "unsupported url").

(** [httpFile.Open]: a reply with a status and a body, or an error; the second
    component tells whether the body is left open with nobody to close it. *)
Definition http_Open (reply : res (Z * string)) : res string * bool :=
  match reply with
  | Fail e => (Fail (Wrap "cannot get url" e), false)
  | Ok (status, body) => if 400 <=? status then (Fail (Errorf "unexpected status code"), true) else (Ok body, false)
  end.

(** [NewFirehol]: local files first, then remote ones; the first that is refused
    is the error. *)
Definition NewFirehol (os_Stat : string -> option (bool * Z)) (url_Parse : string -> res URL) (urls localFiles : list string) : res (list string) :=
  l ← foldr (fun v r => f ← wrap_err "cannot create a local file" (NewLocal v (os_Stat v)); l ← r; Ok (f :: l)) (Ok []) localFiles;
  h ← foldr (fun v r => f ← wrap_err "cannot create a HTTP file" (NewHTTP v (url_Parse v)); l ← r; Ok (f :: l)) (Ok []) urls;
  Ok (l ++ h).

(** [IPNet.String] for a mask that is a prefix. *)
Definition IPNet_String (n : IPNet) : string :=
  match numberAndMask n with
  | None => "<nil>"
  | Some (nn, m) =>
      let bits := 8 * Z.of_nat (List.length m) in
      match List.find (fun k => bool_decide (CIDRMask (Z.of_nat k) bits = m)) (seq 0 (S (Z.to_nat bits))) with
      | Some k => (IP_String nn ++ "/" ++ Itoa (Z.of_nat k))%string
      | None => (IP_String nn ++ "/" ++ string_of_bytes (hex_encode m))%string
      end
  end.

(** [NewMem]: the networks, one per line. *)
Definition NewMem (networks : list IPNet) : string :=
  match networks with
  | [] => ""
  | n :: l => foldl (fun s n => (s ++ String "010" "" ++ IPNet_String n)%string) (IPNet_String n) l
  end.

(** ** antireplay/stable_bloom_filter.go *)

Definition DefaultStableBloomFilterMaxSize : Z := 1024 * 1024.

(** 0.001, rounded. *)
Definition DefaultStableBloomFilterErrorRate : float64 := fdiv (float_of 1) (float_of 1000).

(** The bits (64-bit arithmetic wraps) and the error rate that
    [NewStableBloomFilter] gives to the filter. *)
Definition NewStableBloomFilter (byteSize : Z) (errorRate : float64) : Z * float64 :=
  let byteSize := if byteSize =? 0 then DefaultStableBloomFilterMaxSize else byteSize in
  let errorRate := if SpecFloat.SFltb errorRate (float_of 0) then DefaultStableBloomFilterErrorRate else errorRate in
  (uwrap 64 (byteSize * 8), errorRate).

(** [SeenBefore], under the mutex: the filter's [TestAndAdd]. *)
Definition SeenBefore {F} (TestAndAdd : F -> list byte -> F * bool) (f : F) (digest : list byte) : F * bool := TestAndAdd f digest.

(** ** Specification *)

(** The text of a line: what stands before the first number sign, without white
    space around it. *)
Fixpoint before_hash (line : string) : string :=
  match line with
  | EmptyString => ""
  | String c line => if bool_decide (c = "#"%char) then "" else String c (before_hash line)
  end.

Definition line_text (line : string) : string := TrimSpace (before_hash line).

(** A text that says something: nothing at all, a network or an address. *)
Definition readable (t : string) : Prop := t = "" \/ is_Some (ParseCIDR t) \/ is_Some (ParseIP t).

(** The addresses that a text names: those of a network, or the one that it is,
    an IPv4 address being the same as its IPv6 form. *)
Definition names_address (t : string) (ip : list byte) : Prop :=
  match ParseCIDR t with
  | Some n => IPNet_Contains n ip = true
  | None => ParseIP t = Some (To16 ip)
  end.

(** A line counts when its file could be opened and every line before it is
    readable. *)
Definition counts (files : list (res string)) (line : string) : Prop :=
  exists content before after, Ok content ∈ files /\ file_lines content = before ++ line :: after /\
    Forall (fun l => readable (line_text l)) before.

(** ** Proofs *)

Example lineNet_ex :
  (lineNet "10.0.0.0/8  # private", lineNet "# only", is_ok (lineNet "host"), lineNet " 1.2.3.4") =
  (Ok (Some (mkIPNet (be_split 4 0x0a000000) (be_split 4 0xff000000))), Ok None, false,
   Ok (Some (mkIPNet (v4InV6Prefix ++ be_split 4 0x01020304) (be_split 4 0xffffffff)))).
Proof. vm_compute. reflexivity. Qed.

(** A character behind a text. *)
Fixpoint snoc (s : string) (c : ascii) : string :=
  match s with EmptyString => String c "" | String a s => String a (snoc s c) end.

Lemma cut_prefix_snoc p s c :
  cut_prefix p (snoc s c) =
    match cut_prefix p s with
    | Some r => Some (snoc r c)
    | None => if bool_decide (p = snoc s c) then Some "" else None
    end.
Proof.
  revert s. induction p as [|a p IH]; intros [|b s]; simpl; [done..| |].
  - destruct p as [|a' p]; simpl; repeat case_bool_decide; by simplify_eq/=.
  - case_bool_decide as Hab; [subst; rewrite IH; destruct (cut_prefix p s); [done|]|]; repeat case_bool_decide; by simplify_eq/=.
Qed.

Lemma rev_string_cons a s : rev_string (String a s) = snoc (rev_string s) a.
Proof.
  unfold rev_string. simpl. induction (rev (list_ascii_of_string s)) as [|b l IH]; [done|]. simpl. by rewrite IH.
Qed.

Lemma rev_string_snoc_char s c : rev_string (snoc s c) = String c (rev_string s).
Proof. induction s as [|a s IH]; [done|]. cbn [snoc]. by rewrite !rev_string_cons, IH. Qed.

Lemma length_snoc s c : String.length (snoc s c) = S (String.length s).
Proof. induction s as [|a s IH]; [done|]. simpl. by rewrite IH. Qed.

(** The white space of the expression is white space for [TrimSpace], and no
    other white space ends with it. *)
Lemma spaces_ends p s c : p ∈ spaces -> re_space c = true -> p = snoc s c -> s = "".
Proof.
  intros Hp Hc ->. assert (forallb (fun p => match rev_string p with String c (String _ _) => negb (re_space c) | _ => true end) spaces = true)
    as Hall by (vm_compute; reflexivity).
  rewrite forallb_forall in Hall. specialize (Hall _ (proj1 (list_elem_of_In _ _) Hp)). rewrite rev_string_snoc_char in Hall.
  destruct (rev_string s) eqn:Hr; [|by rewrite Hc in Hall].
  apply (f_equal rev_string) in Hr. revert Hr. clear. destruct s as [|a s]; [done|]. rewrite rev_string_cons, rev_string_snoc_char. done.
Qed.

Lemma cut_space_snoc sp s c :
  Forall (fun p => p <> snoc s c) sp -> cut_space sp (snoc s c) = (fun r => snoc r c) <$> cut_space sp s.
Proof.
  induction 1 as [|p sp Hp _ IH]; [done|]. simpl. rewrite cut_prefix_snoc. destruct (cut_prefix p s); [done|].
  by rewrite bool_decide_false.
Qed.

Lemma cut_space_one c X : re_space c = true -> cut_space spaces (String c X) = Some X /\ cut_space (rev_string <$> spaces) (String c X) = Some X.
Proof. intros H. destruct c as [[] [] [] [] [] [] [] []]; try (vm_compute in H; discriminate); split; reflexivity. Qed.

Lemma cut_prefix_length p s r : cut_prefix p s = Some r -> p <> "" -> (String.length r < String.length s)%nat.
Proof.
  revert s. induction p as [|a p IH]; [done|]. intros [|b s] H _; simpl in H; [done|]. case_bool_decide; [|done].
  destruct p as [|a' p]; [injection H as <-; simpl; lia|]. apply IH in H; [|done]. simpl. lia.
Qed.

Lemma cut_space_length sp s r : Forall (fun p => p <> "") sp -> cut_space sp s = Some r -> (String.length r < String.length s)%nat.
Proof.
  induction 1 as [|p sp Hp _ IH]; [done|]. simpl. destruct (cut_prefix p s) eqn:E; [|done]. intros [= <-]. by eapply cut_prefix_length.
Qed.

Lemma spaces_nonempty : Forall (fun p => p <> "") spaces.
Proof. apply (bool_decide_unpack _). vm_compute. exact I. Qed.

Lemma trim_left_snoc n s c :
  re_space c = true -> (String.length s <= n)%nat ->
  trim_left spaces (S n) (snoc s c) =
    match trim_left spaces n s with "" => "" | t => snoc t c end.
Proof.
  intros Hc. revert s. induction n as [|n IH]; intros s Hn.
  - destruct s as [|a s]; [|simpl in Hn; lia]. cbn [snoc trim_left]. by rewrite (proj1 (cut_space_one c "" Hc)).
  - destruct s as [|a s].
    { cbn [snoc]. change (trim_left spaces (S n) "") with "". cbn [trim_left]. by rewrite (proj1 (cut_space_one c "" Hc)). }
    change (trim_left spaces (S (S n)) ?x) with (match cut_space spaces x with Some s' => trim_left spaces (S n) s' | None => x end).
    change (trim_left spaces (S n) (String a s)) with (match cut_space spaces (String a s) with Some s' => trim_left spaces n s' | None => String a s end).
    rewrite cut_space_snoc.
    + destruct (cut_space spaces (String a s)) as [r|] eqn:E; cbn [fmap option_fmap option_map]; [|done]. apply IH.
      apply cut_space_length in E; [lia|apply spaces_nonempty].
    + apply Forall_forall. intros p Hp Heq. by apply (spaces_ends p (String a s) c) in Heq.
Qed.

(** Trailing white space does not matter to [TrimSpace]. *)
Lemma TrimSpace_snoc s c : re_space c = true -> TrimSpace (snoc s c) = TrimSpace s.
Proof.
  intros Hc. unfold TrimSpace. rewrite length_snoc, trim_left_snoc by done.
  destruct (trim_left spaces (String.length s) s) as [|a t]; [done|].
  rewrite rev_string_snoc_char, length_snoc. set (u := rev_string (String a t)).
  cbn [trim_left]. by rewrite (proj2 (cut_space_one c u Hc)).
Qed.

Lemma TrimSpace_cut s : TrimSpace (rev_string (drop_space (rev_string s))) = TrimSpace s.
Proof.
  assert (forall r, TrimSpace (rev_string (drop_space r)) = TrimSpace (rev_string r)) as H.
  { induction r as [|c r IH]; [done|]. simpl. destruct (re_space c) eqn:Hc; [|done].
    by rewrite rev_string_cons, TrimSpace_snoc, IH. }
  rewrite H. unfold rev_string. by rewrite list_ascii_of_string_of_list_ascii, rev_involutive, string_of_list_ascii_of_string.
Qed.

Lemma before_hash_index line :
  before_hash line = match IndexByte line "#" with None => line | Some i => str_take i line end.
Proof.
  induction line as [|c line IH]; [done|]. simpl. case_bool_decide; [done|]. rewrite IH.
  by destruct (IndexByte line "#").
Qed.

(** What the code makes of a line, from its text. *)
Lemma lineNet_text line :
  lineNet line =
    let t := line_text line in
    if bool_decide (t = "") then Ok None else n ← wrap_err "cannot parse a line" (updateParseLine t); Ok (Some n).
Proof.
  unfold lineNet, line_text, cut_comment. rewrite before_hash_index. destruct (IndexByte line "#") as [i|]; [|done].
  by rewrite TrimSpace_cut.
Qed.

(** *** One address *)

Lemma and_byte_ff x : and_byte x Byte.xff = x.
Proof.
  unfold and_byte. change (byte.unsigned Byte.xff) with (Z.ones 8). rewrite Z.land_ones by lia.
  rewrite Z.mod_small by (pose proof (byte.unsigned_range x); lia). apply byte.of_Z_unsigned.
Qed.

Lemma mask_ones ip n : List.length ip = n -> zip_with and_byte ip (replicate n Byte.xff) = ip.
Proof. intros <-. induction ip as [|b ip IH]; [done|]. simpl. by rewrite and_byte_ff, IH. Qed.

Definition single (a : list byte) : IPNet :=
  mkIPNet a (if bool_decide (To4 a = []) then CIDRMask 128 128 else CIDRMask 32 32).

Lemma To4_cases a : List.length a = 16%nat ->
  To4 a = [] /\ take 12 a <> v4InV6Prefix \/ List.length (To4 a) = 4%nat /\ a = v4InV6Prefix ++ To4 a.
Proof.
  intros Ha. unfold To4. rewrite Ha. cbn [Nat.eqb andb]. case_bool_decide as Hp; [right|by left].
  rewrite length_drop, Ha. split; [done|]. rewrite <- Hp. by rewrite take_drop.
Qed.

(** A network of one address contains that address and no other. *)
Lemma single_contains a ip :
  List.length a = 16%nat -> List.length ip = 4%nat \/ List.length ip = 16%nat ->
  plain_net (single a) = true /\ (IPNet_Contains (single a) ip = true <-> a = To16 ip).
Proof.
  intros Ha Hip. unfold plain_net, IPNet_Contains, numberAndMask, single. cbn [net_IP net_Mask].
  assert (To4 ip = [] /\ List.length ip = 16%nat /\ To16 ip = ip /\ take 12 ip <> v4InV6Prefix \/
          List.length (To4 ip) = 4%nat /\ To16 ip = v4InV6Prefix ++ To4 ip) as Hcase.
  { destruct Hip as [Hip|Hip]; [right|].
    - unfold To16, To4. rewrite Hip. done.
    - unfold To16. rewrite Hip. cbn [Nat.eqb]. destruct (To4_cases ip Hip) as [[H1 H2]|[H1 H2]]; [by left|by right]. }
  destruct (To4_cases a Ha) as [[H4 Hp]|[H4 Hp]].
  - rewrite H4. rewrite !bool_decide_true by done. change (CIDRMask 128 128) with (replicate 16 Byte.xff).
    rewrite Ha, !length_replicate. cbn [Nat.eqb orb andb negb]. split; [done|]. rewrite (mask_ones a 16) by done.
    destruct Hcase as [(Hi & Hl & -> & _)|[Hl ->]].
    + rewrite bool_decide_true by done. rewrite Hl, ?Ha, ?H4. cbn [Nat.eqb andb]. rewrite (mask_ones ip 16) by done. apply bool_decide_eq_true.
    + rewrite bool_decide_false by (intros H; by rewrite H in Hl). rewrite Hl, ?Ha, ?H4. cbn [Nat.eqb andb]. split; [done|]. intros ->. by destruct Hp.
  - assert (To4 a <> []) as Hne by (intros H; by rewrite H in H4).
    rewrite !(bool_decide_false (To4 a = [])) by done. change (CIDRMask 32 32) with (replicate 4 Byte.xff).
    rewrite H4, !length_replicate. cbn [Nat.eqb orb andb negb]. split; [done|]. rewrite (mask_ones (To4 a) 4) by done.
    destruct Hcase as [(Hi & Hl & -> & Hn)|[Hl ->]].
    + rewrite bool_decide_true by done. rewrite Hl, ?Ha, ?H4. cbn [Nat.eqb andb]. split; [done|]. intros <-. rewrite Hp in Hn. by destruct Hn.
    + rewrite bool_decide_false by (intros H; by rewrite H in Hl). rewrite Hl, ?Ha, ?H4. cbn [Nat.eqb andb]. rewrite (mask_ones (To4 ip) 4) by done.
      rewrite bool_decide_eq_true. split; [intros <-; done|]. rewrite Hp at 1. by intros ?%app_inv_head.
Qed.

(** *** The networks of the files *)

(** The networks of a file: those of its lines up to the first that is not one. *)
Fixpoint good_nets (lines : list string) : list IPNet :=
  match lines with
  | [] => []
  | text :: lines =>
      match lineNet text with
      | Fail _ => []
      | Ok None => good_nets lines
      | Ok (Some n) => n :: good_nets lines
      end
  end.

Definition file_nets (file : res string) : list IPNet := match file with Ok c => good_nets (file_lines c) | Fail _ => [] end.

Definition list_nets (files : list (res string)) : list IPNet := List.concat (file_nets <$> files).

(** The network that the code makes of a readable text. *)
Definition text_net (t : string) : option IPNet :=
  match ParseCIDR t with Some n => Some n | None => single <$> ParseIP t end.

Lemma lineNet_cases line :
  match lineNet line with
  | Fail _ => ~ readable (line_text line)
  | Ok None => line_text line = ""
  | Ok (Some n) => line_text line <> "" /\ text_net (line_text line) = Some n
  end.
Proof.
  rewrite lineNet_text. cbv zeta. set (t := line_text line). case_bool_decide as Ht; [done|]. unfold updateParseLine, text_net, readable.
  destruct (ParseCIDR t) as [n|]; simpl; [done|]. destruct (ParseIP t) as [a|]; simpl; [done|]. intros [?|[[? ?]|[? ?]]]; done.
Qed.

Lemma text_net_empty : text_net "" = None.
Proof. reflexivity. Qed.

Lemma good_nets_elem lines n :
  n ∈ good_nets lines <->
  exists before line after, lines = before ++ line :: after /\ Forall (fun l => readable (line_text l)) before /\
    text_net (line_text line) = Some n.
Proof.
  induction lines as [|l lines IH]; simpl.
  { rewrite elem_of_nil. split; [done|]. intros (b & x & a & H & _). by destruct b. }
  assert (forall P : Prop, readable (line_text l) ->
    (P <-> text_net (line_text l) = Some n) ->
    (P \/ (exists before line after, lines = before ++ line :: after /\ Forall (fun l => readable (line_text l)) before /\
       text_net (line_text line) = Some n)) <->
    (exists before line after, l :: lines = before ++ line :: after /\ Forall (fun l => readable (line_text l)) before /\
       text_net (line_text line) = Some n)) as Hstep.
  { intros P Hl HP. split.
    - intros [Hh|(b & x & a & -> & Hb & Hx)]; [exists [], l, lines; split_and!; [done|constructor|by apply HP]|].
      exists (l :: b), x, a. split_and!; [done|by constructor|done].
    - intros (b & x & a & Heq & Hb & Hx). destruct b as [|y b]; simpl in Heq; injection Heq as -> ->; [left; by apply HP|].
      right. apply Forall_cons in Hb as [_ Hb]. by exists b, x, a. }
  pose proof (lineNet_cases l) as Hl. destruct (lineNet l) as [[m|]|e].
  - rewrite elem_of_cons, IH. destruct Hl as [Hne Hm]. apply (Hstep (n = m)); [|rewrite Hm; split; [by intros ->|by intros [= ->]]].
    right. unfold text_net in Hm. destruct (ParseCIDR _); [by left; eexists|]. right. by destruct (ParseIP _).
  - rewrite IH, <- (Hstep False); [naive_solver|by left|]. by rewrite Hl, text_net_empty.
  - rewrite elem_of_nil. split; [done|]. intros (b & x & a & Heq & Hb & Hx). destruct b as [|y b]; simpl in Heq; injection Heq as -> ->.
    + apply Hl. right. unfold text_net in Hx. destruct (ParseCIDR _); [left; by eexists|]. right. by destruct (ParseIP _).
    + by apply Forall_cons in Hb as [? _].
Qed.

Lemma list_nets_elem files n : n ∈ list_nets files <-> exists line, counts files line /\ text_net (line_text line) = Some n.
Proof.
  unfold list_nets, counts. rewrite list_elem_of_In, in_concat. setoid_rewrite <-list_elem_of_In. split.
  - intros (l & ([c|e] & -> & Hf)%list_elem_of_fmap & Hn); [|by apply not_elem_of_nil in Hn].
    apply good_nets_elem in Hn as (b & x & a & Hl & Hb & Hx). exists x. split; [|done]. by exists c, b, a.
  - intros (x & (c & b & a & Hc & Hl & Hb) & Hx). exists (good_nets (file_lines c)).
    split; [|apply good_nets_elem; by exists b, x, a]. apply list_elem_of_fmap. by exists (Ok c).
Qed.

Lemma text_net_names t n ip :
  List.length ip = 4%nat \/ List.length ip = 16%nat -> text_net t = Some n -> (IPNet_Contains n ip = true <-> names_address t ip).
Proof.
  intros Hip. unfold text_net, names_address. destruct (ParseCIDR t) as [m|]; [by intros [= ->]|].
  destruct (ParseIP t) as [a|] eqn:Ha; [|done]. simpl. intros [= <-]. apply ParseIP_length in Ha.
  rewrite (proj2 (single_contains a ip Ha Hip)). naive_solver.
Qed.

Lemma text_net_exists t ip : names_address t ip -> is_Some (text_net t).
Proof. unfold names_address, text_net. destruct (ParseCIDR t); [by eexists|]. intros ->. by eexists. Qed.

Lemma list_nets_plain files :
  (forall line n, counts files line -> ParseCIDR (line_text line) = Some n -> plain_net n = true) ->
  Forall (fun n => plain_net n = true) (list_nets files).
Proof.
  intros H. apply Forall_forall. intros n (line & Hc & Hn)%list_nets_elem. unfold text_net in Hn.
  destruct (ParseCIDR (line_text line)) as [m|] eqn:Hm; [injection Hn as ->; by eapply H|].
  destruct (ParseIP (line_text line)) as [a|] eqn:Ha; [|done]. injection Hn as <-.
  by apply (single_contains a (replicate 4 Byte.x00) (ParseIP_length _ _ Ha)); left.
Qed.

Lemma list_nets_contains files ip :
  List.length ip = 4%nat \/ List.length ip = 16%nat ->
  existsb (fun n => IPNet_Contains n ip) (list_nets files) = true <->
  exists line, counts files line /\ names_address (line_text line) ip.
Proof.
  intros Hip. rewrite existsb_exists. setoid_rewrite <-list_elem_of_In. setoid_rewrite list_nets_elem. split.
  - intros (n & (line & Hc & Hn) & Hin). exists line. split; [done|]. by eapply text_net_names.
  - intros (line & Hc & Ha). destruct (text_net_exists _ _ Ha) as [n Hn]. exists n. split; [by exists line|]. by eapply text_net_names.
Qed.

(** *** The run *)

Section proofs.
Context {R : Type} `{RangerLaws R}.

(** The networks that a goroutine will still insert. *)
Definition fetcher_nets (w : fetcher) : list IPNet :=
  match w with
  | Opening file => file_nets file
  | Scanning lines _ => good_nets lines
  | Locking n rest _ | Inserting n rest _ => n :: good_nets rest
  | Unlocking None rest _ => good_nets rest
  | Unlocking (Some _) _ _ | Closing _ | Fetched _ => []
  end.

Definition rest_nets (work : list fetcher) : list IPNet := List.concat (fetcher_nets <$> work).

#[export] Instance rest_nets_proper : Proper ((≡ₚ) ==> (≡ₚ)) rest_nets.
Proof.
  induction 1 as [|x l k _ IH|x y l|l1 l2 l3 _ IH1 _ IH2]; unfold rest_nets in *; simpl; [done|by rewrite IH| |by etrans].
  by rewrite !(assoc_L (++)), (Permutation_app_comm (fetcher_nets y)).
Qed.

Lemma rest_nets_split work i w : work !! i = Some w -> rest_nets work ≡ₚ fetcher_nets w ++ rest_nets (delete i work).
Proof. intros Hi. by rewrite (delete_Permutation work i w Hi) at 1. Qed.

Lemma delete_insert_same {A} (l : list A) i x : delete i (<[i := x]> l) = delete i l.
Proof. revert i. induction l as [|y l IH]; intros [|i]; simpl; [done..|]. by rewrite IH. Qed.

Lemma rest_nets_insert work i w w' :
  work !! i = Some w -> rest_nets (<[i := w']> work) ≡ₚ fetcher_nets w' ++ rest_nets (delete i work).
Proof.
  intros Hi. rewrite (rest_nets_split _ i w'), delete_insert_same; [done|].
  apply list_lookup_insert_eq. by eapply lookup_lt_Some.
Qed.

(** What is in the ranger and what is still to come are the networks of the
    files. *)
Definition accounted (nets : list IPNet) (u : updating) : Prop :=
  exists l, holds (up_ranger u) l /\ l ++ rest_nets (up_work u) ≡ₚ nets.

(** A step that only changes where a goroutine is. *)
Lemma accounted_move nets r m i w w' (u : updating) :
  accounted nets u -> up_work u !! i = Some w -> r = up_ranger u -> fetcher_nets w' = fetcher_nets w ->
  accounted nets (mkUpdating r m (<[i := w']> (up_work u))).
Proof.
  intros (l & Hl & Hn) Hi -> Hw. exists l. split; [done|]. simpl. by rewrite (rest_nets_insert _ _ _ _ Hi), Hw, <- (rest_nets_split _ _ _ Hi).
Qed.

Lemma fh_step_accounted nets i u u' :
  Forall (fun n => plain_net n = true) nets -> accounted nets u -> fh_step i u = Some u' -> accounted nets u'.
Proof.
  intros Hp Hacc Hs. unfold fh_step in Hs. destruct (up_work u !! i) as [w|] eqn:Hi; simplify_eq/=.
  destruct w as [[c|e]|[|text rest] tl|n rest tl|n rest tl|[e|] rest tl|e|e]; simplify_eq/=;
    try (by eapply accounted_move); try (eapply accounted_move; [done|done|done|]; simpl; by destruct (lineNet text)).
  - destruct (lineNet text) as [[n|]|e] eqn:Ht; simplify_eq/=; (eapply accounted_move; [done|done|done|]); simpl; by rewrite Ht.
  - destruct (up_mutex u); simplify_eq/=. by eapply accounted_move.
  - destruct Hacc as (l & Hl & Hn). pose proof (rest_nets_split _ _ _ Hi) as Hsp. simpl in Hsp.
    assert (plain_net n = true) as Hpn.
    { rewrite Forall_forall in Hp. apply Hp. rewrite <-Hn, Hsp. apply elem_of_app. right. by left. }
    destruct (holds_insert _ _ _ Hl Hpn) as (r' & Hr & Hr'). rewrite Hr in Hs. simplify_eq/=. exists (n :: l). split; [done|]. simpl.
    rewrite (rest_nets_insert _ _ _ _ Hi), <-Hn, Hsp. simpl. by rewrite Permutation_middle.
Qed.

Lemma fh_run_accounted nets s u u' :
  Forall (fun n => plain_net n = true) nets -> accounted nets u -> fh_run s u = Some u' -> accounted nets u'.
Proof.
  intros Hp. revert u. induction s as [|i s IH]; intros u Hu Hr; simplify_eq/=; [done|].
  destruct (fh_step i u) as [u1|] eqn:Hs; simplify_eq/=. eapply IH; [|done]. by eapply fh_step_accounted.
Qed.

Lemma finished_rest (u : @updating R) : finished u = true -> rest_nets (up_work u) = [].
Proof.
  unfold finished. induction (up_work u) as [|w work IH]; [done|]. simpl. rewrite andb_true_iff.
  intros [Hw Hf]. change (rest_nets (w :: work)) with (fetcher_nets w ++ rest_nets work). rewrite (IH Hf). by destruct w.
Qed.

Lemma update_begin_accounted files : accounted (list_nets files) (update_begin files).
Proof.
  exists []. split; [apply holds_new|]. unfold list_nets, update_begin, rest_nets. simpl. by rewrite <- list_fmap_compose.
Qed.

Lemma existsb_perm {A} (P : A -> bool) l k : l ≡ₚ k -> existsb P l = existsb P k.
Proof.
  intros Hp. apply eq_true_iff_eq. rewrite !existsb_exists. setoid_rewrite <-list_elem_of_In.
  split; intros (x & Hx & HP); exists x; (split; [|done]); by rewrite <-?Hp || by rewrite Hp.
Qed.

Lemma update_contains schedule files f f' ip :
  Forall (fun n => plain_net n = true) (list_nets files) -> update schedule files f = Some f' ->
  List.length ip = 4%nat \/ List.length ip = 16%nat ->
  Firehol_Contains f' ip = existsb (fun n => IPNet_Contains n ip) (list_nets files).
Proof.
  intros Hp Hu Hip. unfold update in Hu. destruct (fh_run _ _) as [u|] eqn:Hr; [|done]. simpl in Hu.
  destruct (finished u) eqn:Hf; [|done]. injection Hu as <-.
  destruct (fh_run_accounted _ schedule _ _ Hp (update_begin_accounted files) Hr) as (l & Hl & Hn).
  rewrite finished_rest, app_nil_r in Hn by done.
  unfold Firehol_Contains. rewrite bool_decide_false by (intros ->; simpl in Hip; lia).
  simpl. rewrite (holds_contains _ _ _ Hl) by done. by apply existsb_perm.
Qed.
End proofs.

(** *** Termination *)

Section termination.
Context {R : Type} `{Ranger R}.

(** The calls that a goroutine has still to make at most. *)
Definition calls_left (w : fetcher) : nat :=
  match w with
  | Opening (Ok c) => 3 + 4 * List.length (file_lines c)
  | Opening (Fail _) => 1
  | Scanning lines _ => 2 + 4 * List.length lines
  | Locking _ rest _ => 5 + 4 * List.length rest
  | Inserting _ rest _ => 4 + 4 * List.length rest
  | Unlocking _ rest _ => 3 + 4 * List.length rest
  | Closing _ => 1
  | Fetched _ => 0
  end.

Definition all_left (u : @updating R) : nat := sum_list (calls_left <$> up_work u).

Definition holding (w : fetcher) : bool := match w with Inserting _ _ _ | Unlocking _ _ _ => true | _ => false end.

(** The goroutine that holds the mutex is the one between its [Lock] and its
    [Unlock]. *)
Definition mutex_ok (u : @updating R) : Prop :=
  (forall i w, up_work u !! i = Some w -> holding w = true -> up_mutex u = Some i) /\
  (forall i, up_mutex u = Some i -> exists w, up_work u !! i = Some w /\ holding w = true).

Lemma sum_list_insert (l : list nat) i x y : l !! i = Some x -> (sum_list (<[i := y]> l) + x = sum_list l + y)%nat.
Proof.
  revert i. induction l as [|z l IH]; intros [|i] Hi; simplify_eq/=; [lia|]. specialize (IH i Hi). lia.
Qed.

(** One goroutine at a time moves, and comes nearer to its end. *)
Lemma fh_step_left i (u u' : @updating R) : fh_step i u = Some u' -> (all_left u' < all_left u)%nat.
Proof.
  intros Hs. unfold fh_step in Hs. destruct (up_work u !! i) as [w|] eqn:Hi; simplify_eq/=.
  assert (exists r m w', u' = mkUpdating r m (<[i := w']> (up_work u)) /\ (calls_left w' < calls_left w)%nat) as (r & m & w' & -> & Hlt).
  { destruct w as [[c|e]|[|text rest] tl|n rest tl|n rest tl|[e|] rest tl|e|e]; simplify_eq/=; repeat (case_match; simplify_eq/=);
      eexists _, _, _; (split; [reflexivity|]); simpl; lia. }
  unfold all_left. simpl. rewrite list_fmap_insert.
  pose proof (sum_list_insert (calls_left <$> up_work u) i (calls_left w) (calls_left w')) as Hsum.
  rewrite list_lookup_fmap, Hi in Hsum. specialize (Hsum eq_refl). lia.
Qed.

Lemma mutex_move r i w w' (u : @updating R) :
  mutex_ok u -> up_work u !! i = Some w -> holding w' = holding w -> mutex_ok (mkUpdating r (up_mutex u) (<[i := w']> (up_work u))).
Proof.
  intros [H1 H2] Hi Hh. split; simpl.
  - intros j x [(<- & <- & _)|[_ Hj]]%list_lookup_insert_Some Hx; [|by eapply H1]. eapply H1; [done|congruence].
  - intros j Hj. destruct (H2 j Hj) as (x & Hx & Hhx). destruct (decide (i = j)) as [->|Hne].
    + exists w'. rewrite list_lookup_insert_eq by (by eapply lookup_lt_Some). split; [done|]. simplify_eq. congruence.
    + exists x. by rewrite list_lookup_insert_ne.
Qed.

Lemma fh_step_mutex i (u u' : @updating R) : mutex_ok u -> fh_step i u = Some u' -> mutex_ok u'.
Proof.
  intros Hok Hs. unfold fh_step in Hs. destruct (up_work u !! i) as [w|] eqn:Hi; simplify_eq/=.
  destruct w as [[c|e]|[|text rest] tl|n rest tl|n rest tl|err rest tl|e|e]; simplify_eq/=; try (by eapply mutex_move).
  - repeat (case_match; simplify_eq/=); by eapply mutex_move.
  - destruct Hok as [H1 H2]. destruct (up_mutex u) eqn:Hm; simplify_eq/=. split; simpl.
    + intros j x [(<- & <- & _)|[Hne Hj]]%list_lookup_insert_Some Hx; [done|]. by specialize (H1 j x Hj Hx).
    + intros j [= <-]. eexists. rewrite list_lookup_insert_eq by (by eapply lookup_lt_Some). done.
  - repeat (case_match; simplify_eq/=); by eapply mutex_move.
  - destruct Hok as [H1 H2]. pose proof (H1 i _ Hi eq_refl) as Hm. split; simpl; [|done].
    intros j x [(<- & <- & _)|[Hne Hj]]%list_lookup_insert_Some Hx; [by destruct err|].
    pose proof (H1 j x Hj Hx). congruence.
Qed.

Lemma fh_run_inv s (u u' : @updating R) :
  fh_run s u = Some u' -> mutex_ok u -> mutex_ok u' /\ (List.length s + all_left u' <= all_left u)%nat.
Proof.
  revert u. induction s as [|i s IH]; intros u Hr Hok; simplify_eq/=; [split; [done|lia]|].
  destruct (fh_step i u) as [u1|] eqn:Hs; simplify_eq/=. destruct (IH u1 Hr) as [H1 H2]; [by eapply fh_step_mutex|].
  split; [done|]. apply fh_step_left in Hs. lia.
Qed.

Lemma update_begin_mutex files : mutex_ok (@update_begin R _ files).
Proof.
  split; simpl; [|done]. intros i w Hi Hw. rewrite list_lookup_fmap in Hi. destruct (files !! i); by simplify_eq/=.
Qed.

Lemma unfinished_one (u : @updating R) : finished u = false -> exists i w, up_work u !! i = Some w /\ fetched w = false.
Proof.
  unfold finished. induction (up_work u) as [|w work IH]; [done|]. simpl. destruct (fetched w) eqn:Hw; simpl; [|by exists 0%nat, w].
  intros (i & w' & Hi)%IH. by exists (S i), w'.
Qed.

(** Somebody can always go on. *)
Lemma fh_progress (u : @updating R) : mutex_ok u -> finished u = false -> exists i, is_Some (fh_step i u).
Proof.
  intros [H1 H2] Hf. destruct (up_mutex u) as [i|] eqn:Hm.
  - exists i. destruct (H2 i eq_refl) as (w & Hi & Hw). unfold fh_step. rewrite Hi. simpl.
    destruct w; try done; simpl; destruct (ranger_Insert _ _); by eexists.
  - destruct (unfinished_one u Hf) as (i & w & Hi & Hn). exists i. unfold fh_step. rewrite Hi. simpl.
    destruct w as [[c|e]|[|text rest] tl|n rest tl|n rest tl|err rest tl|e|e]; rewrite ?Hm; try done;
      repeat case_match; by eexists.
Qed.

(** Every run can be continued to the end. *)
Lemma fh_completes n (u : @updating R) :
  mutex_ok u -> (all_left u <= n)%nat -> exists more u', fh_run more u = Some u' /\ finished u' = true.
Proof.
  revert u. induction n as [|n IH]; intros u Hok Hn; (destruct (finished u) eqn:Hf; [by exists [], u|]);
    destruct (fh_progress u Hok Hf) as [i [u1 Hs]]; pose proof (fh_step_left _ _ _ Hs); [lia|].
  destruct (IH u1) as (more & u' & Hr & Hf'); [by eapply fh_step_mutex|lia|]. exists (i :: more), u'. simpl. by rewrite Hs.
Qed.

Lemma fh_run_app s t (u u1 : @updating R) : fh_run s u = Some u1 -> fh_run (s ++ t) u = fh_run t u1.
Proof.
  revert u. induction s as [|i s IH]; intros u Hr; simplify_eq/=; [done|]. destruct (fh_step i u); simplify_eq/=. by apply IH.
Qed.

Lemma update_completes files (f : @Firehol R) : exists schedule, is_Some (update schedule files f).
Proof.
  destruct (fh_completes _ (update_begin files) (update_begin_mutex files) (le_n _)) as (s & u & Hr & Hf).
  exists s. unfold update. rewrite Hr. simpl. rewrite Hf. by eexists.
Qed.
End termination.

(** ** A ranger that is a list *)

Definition list_ranger : Ranger (list IPNet) := {|
  NewPCTrieRanger := [];
  ranger_Insert n r := Ok (n :: r);
  ranger_Contains r ip := Ok (existsb (fun n => IPNet_Contains n ip) r);
  ranger_Len r := Z.of_nat (List.length r)
|}.

Definition list_ranger_laws : @RangerLaws (list IPNet) list_ranger.
Proof.
  refine (@Build_RangerLaws _ list_ranger (fun r l => r = l) eq_refl _ _).
  - intros r l n -> _. by exists (n :: l).
  - by intros r l ip -> _.
Defined.

(** ** The allow list of a proxy without one: run_proxy.go, [makeIPAllowlist] *)

Definition AllIPv4 : IPNet := mkIPNet (replicate 4 Byte.x00) (replicate 4 Byte.x00).
Definition AllIPv6 : IPNet := mkIPNet (replicate 16 Byte.x00) (replicate 16 Byte.x00).

Definition everyone : list (res string) := [Ok (NewMem [AllIPv4; AllIPv6])].

Lemma everyone_nets : list_nets everyone = [AllIPv4; AllIPv6].
Proof. vm_compute. reflexivity. Qed.

Lemma and_byte_zero x : and_byte x Byte.x00 = Byte.x00.
Proof. unfold and_byte. change (byte.unsigned Byte.x00) with 0. by rewrite Z.land_0_r. Qed.

Lemma mask_zero ip n : List.length ip = n -> zip_with and_byte ip (replicate n Byte.x00) = replicate n Byte.x00.
Proof. intros <-. induction ip as [|b ip IH]; [done|]. simpl. by rewrite and_byte_zero, IH. Qed.

Lemma To4_length ip : To4 ip = [] \/ List.length (To4 ip) = 4%nat.
Proof.
  unfold To4. repeat case_match; try by left.
  all: right; repeat match goal with H : _ && _ = true |- _ => apply andb_true_iff in H as [H ?] end;
    repeat match goal with H : (_ =? _)%nat = true |- _ => apply Nat.eqb_eq in H end;
    rewrite ?length_drop; lia.
Qed.

Lemma everyone_contains ip :
  List.length ip = 4%nat \/ List.length ip = 16%nat -> existsb (fun n => IPNet_Contains n ip) [AllIPv4; AllIPv6] = true.
Proof.
  intros Hip. simpl. unfold IPNet_Contains.
  change (numberAndMask AllIPv4) with (Some (replicate 4 Byte.x00, replicate 4 Byte.x00)).
  change (numberAndMask AllIPv6) with (Some (replicate 16 Byte.x00, replicate 16 Byte.x00)). cbv iota beta.
  destruct (bool_decide (To4 ip = [])) eqn:E.
  - apply bool_decide_eq_true in E. assert (List.length ip = 16%nat) as Hl.
    { destruct Hip as [Hip|]; [|done]. unfold To4 in E. rewrite Hip in E. simpl in E. by destruct ip. }
    rewrite Hl. rewrite (mask_zero ip 16), (mask_zero _ 16) by done. by rewrite (bool_decide_true (replicate 16 _ = _)).
  - apply bool_decide_eq_false in E. destruct (To4_length ip) as [?|Hl]; [done|].
    rewrite Hl. rewrite (mask_zero (To4 ip) 4), (mask_zero _ 4) by done. by rewrite (bool_decide_true (replicate 4 _ = _)).
Qed.

(** ** Claims *)

(** C37: what a list contains.  Whatever the order in which the goroutines of an
    update run, when the update is over the list contains an address exactly when
    a line that counts names it: the line is in a file that could be opened and
    every line of the file before it is readable, its text (what stands before
    the first number sign, without white space around it) is a network that
    contains the address or is the address itself, IPv4 or IPv6, and no other.
    Nothing of the list before the update remains; a nil address is in every
    list.  The networks must be plain: a network of IPv4-mapped addresses in the
    notation of IPv6 is outside of what the ranger promises. *)
Theorem list_exact {R} `{RangerLaws R} schedule files f f' ip :
  (forall line n, counts files line -> ParseCIDR (line_text line) = Some n -> plain_net n = true) ->
  update schedule files f = Some f' ->
  List.length ip = 4%nat \/ List.length ip = 16%nat ->
  Firehol_Contains f' [] = true /\
  (Firehol_Contains f' ip = true <-> exists line, counts files line /\ names_address (line_text line) ip).
Proof.
  intros Hp%list_nets_plain Hu Hip. split; [done|]. by rewrite (update_contains _ _ _ _ _ Hp Hu Hip), list_nets_contains.
Qed.

(** C39: an update neither hangs on its mutex nor runs for ever.  In every state
    that the goroutines of an update reach, by any schedule and whatever the
    ranger answers: no more calls were made than one for a file that could not be
    opened and three, with four for each line, for one that could; as long as a
    goroutine has not returned, some goroutine can make its next call, so the
    mutex is never left locked, not after a failed insertion either; and the run
    can be continued until [update] returns, with the mutex free.  Opening and
    reading are calls that return: a file that is never delivered holds its
    update until its context ends. *)
Theorem update_terminates {R} `{Ranger R} schedule files (u : @updating R) (f : @Firehol R) :
  fh_run schedule (update_begin files) = Some u ->
  (List.length schedule <=
     sum_list ((fun file => match file with Ok c => 3 + 4 * List.length (file_lines c) | Fail _ => 1 end) <$> files))%nat /\
  (finished u = false -> exists i, is_Some (fh_step i u)) /\
  (finished u = true -> up_mutex u = None) /\
  exists more, is_Some (update (schedule ++ more) files f).
Proof.
  intros Hr. destruct (fh_run_inv _ _ _ Hr (update_begin_mutex files)) as [Hm Hl]. split_and!.
  - etrans; [|etrans; [apply Hl|]]; [lia|]. unfold all_left, update_begin. simpl. rewrite <- list_fmap_compose.
    by apply Nat.eq_le_incl.
  - by apply fh_progress.
  - intros Hf. destruct (up_mutex u) as [i|] eqn:Hi; [|done]. destruct (proj2 Hm i Hi) as (w & Hw & Hh).
    unfold finished in Hf. rewrite forallb_forall in Hf. specialize (Hf w (proj1 (list_elem_of_In _ _) (list_elem_of_lookup_2 _ _ _ Hw))).
    by destruct w.
  - destruct (fh_completes _ u Hm (le_n _)) as (more & u' & Hr' & Hf). exists more. unfold update.
    rewrite (fh_run_app _ _ _ _ Hr), Hr'. simpl. rewrite Hf. by eexists.
Qed.

(** The allow list of a proxy that has none configured admits every address
    once its first update is over, and admits none before. *)
Theorem default_allowlist {R} `{RangerLaws R} ip :
  List.length ip = 4%nat \/ List.length ip = 16%nat ->
  let f := fst (NewFireholFromFiles 1) in
  Firehol_Contains f ip = false /\
  exists schedule f', update schedule everyone f = Some f' /\ Firehol_Contains f' ip = true.
Proof.
  intros Hip f. split.
  - unfold Firehol_Contains. rewrite bool_decide_false by (intros ->; simpl in Hip; lia).
    change (fh_ranger f) with (NewPCTrieRanger (R := R)). by rewrite (holds_contains _ _ _ holds_new).
  - destruct (update_completes everyone f) as (schedule & f' & Hf). exists schedule, f'.
    split; [done|]. rewrite (update_contains schedule everyone f f' ip) by (rewrite ?everyone_nets; try done; repeat constructor).
    rewrite everyone_nets. by apply everyone_contains.
Qed.

(** ** Witnesses *)

Definition demo_files : list (res string) := [Ok ("10.0.0.0/8 # private" ++ String "010" "1.2.3.4")%string; Fail (Errorf "404"); Ok "::1"].

(** The third file is read while the first holds the mutex. *)
Definition demo_schedule : list nat := [0; 1; 0; 2; 0; 2; 0; 0; 2; 2; 0; 2; 0; 0; 0; 2; 0; 2; 0]%nat.

Lemma list_exact_witness :
  exists f', @update _ list_ranger demo_schedule demo_files (@mkFirehol (list IPNet) [] []) = Some f' /\
    @Firehol_Contains _ list_ranger f' (be_split 4 0x01020304) = true.
Proof.
  destruct (@update _ list_ranger demo_schedule demo_files (@mkFirehol (list IPNet) [] [])) as [f'|] eqn:Hu; [|by vm_compute in Hu].
  exists f'. split; [done|].
  destruct (@list_exact _ list_ranger list_ranger_laws demo_schedule demo_files (@mkFirehol (list IPNet) [] []) f' (be_split 4 0x01020304)) as [_ H].
  - intros line n (c & b & a & Hc & Hl & _) Hn.
    assert (line ∈ file_lines c) as Hin by (rewrite Hl; apply elem_of_app; right; by left). clear Hl.
    assert (Forall (fun f => match f with Ok c => Forall (fun l => match ParseCIDR (line_text l) with Some n => plain_net n = true | None => True end) (file_lines c) | Fail _ => True end) demo_files) as Hall.
    { repeat constructor; vm_compute; repeat constructor. }
    rewrite Forall_forall in Hall. specialize (Hall _ Hc). simpl in Hall. rewrite Forall_forall in Hall. specialize (Hall _ Hin).
    by rewrite Hn in Hall.
  - done.
  - by left.
  - apply H. exists "1.2.3.4". split; [|vm_compute; reflexivity].
    eexists _, ["10.0.0.0/8 # private"], []. split; [by left|]. split; [vm_compute; reflexivity|].
    apply Forall_singleton. right. left. vm_compute. by eexists.
Defined.

Lemma update_terminates_witness :
  exists u, @fh_run _ list_ranger (take 6 demo_schedule) (@update_begin _ list_ranger demo_files) = Some u /\
    up_mutex u = Some 0%nat /\ exists i, is_Some (@fh_step _ list_ranger i u).
Proof.
  eexists. split; [vm_compute; reflexivity|]. split; [vm_compute; reflexivity|].
  apply (@update_terminates _ list_ranger (take 6 demo_schedule) demo_files _ (@mkFirehol (list IPNet) [] [])); vm_compute; reflexivity.
Defined.

Lemma default_allowlist_witness :
  @Firehol_Contains _ list_ranger (fst (@NewFireholFromFiles _ list_ranger 1)) (be_split 4 0x01020304) = false.
Proof. apply (@default_allowlist _ list_ranger list_ranger_laws). by left. Defined.
