(* ===== verification/UsageFile.v ===== *)
(** * The usage file: FlushUsage of mtglib/proxy_stats.go as system calls

    [Stats.FlushUsage] is one operation; here it is the system calls of
    [os.WriteFile] and [os.Rename] over files that have names, so that goroutines
    which flush at the same time ([startUsagePersistence] and [Shutdown]) can be
    interleaved and the process can end between any two calls. *)

From S2P Require Import Prelude Stats.

(** ** Files *)

Record disk := mkDisk { d_names : gmap string nat; d_files : gmap nat (list byte) }.

Definition content (d : disk) (name : string) : option (list byte) := i ← d_names d !! name; d_files d !! i.

(** [open] with O_CREATE and O_TRUNC. *)
Definition open_trunc (name : string) (d : disk) : disk * nat :=
  match d_names d !! name with
  | Some i => (mkDisk (d_names d) (<[i := []]> (d_files d)), i)
  | None => let i := fresh (dom (d_files d)) in (mkDisk (<[name := i]> (d_names d)) (<[i := []]> (d_files d)), i)
  end.

(** [write] at an offset; a gap is filled with zeroes. *)
Definition write_at (i off : nat) (chunk : list byte) (d : disk) : disk :=
  let old := default [] (d_files d !! i) in
  let old := old ++ replicate (off - length old) Byte.x00 in
  mkDisk (d_names d) (<[i := take off old ++ chunk ++ drop (off + length chunk) old]> (d_files d)).

Definition rename (from to : string) (d : disk) : option disk :=
  i ← d_names d !! from; Some (mkDisk (<[to := i]> (delete from (d_names d))) (d_files d)).

(** ** Flushing *)

(** A goroutine in [FlushUsage]: about to open the temporary file, writing it at
    an offset, about to rename it, or returned. *)
Inductive flusher :=
  | Marshalled (data : list byte)
  | Writing (data : list byte) (inode off : nat)
  | Renaming (data : list byte)
  | Flushed (err : option goerr).

Definition flushing (f : flusher) : bool := match f with Flushed _ => false | _ => true end.

(** [u_overlap]: a flush began while another was running; [u_renamed]: what the
    flushes have put in place, in order. *)
Record usage := mkUsageDisk { u_disk : disk; u_flushers : gmap nat flusher; u_overlap : bool; u_renamed : list (list byte) }.

Inductive flush_act :=
  | FBegin (g : nat) (s : ProxyStats)        (* the records are read and encoded *)
  | FOpen (g : nat) (err : option goerr)
  | FWrite (g : nat) (n : nat)               (* a piece is written *)
  | FWriteFails (g : nat) (err : goerr)
  | FClose (g : nat)
  | FRename (g : nat) (err : option goerr).

Section flush.
Context (marshal : gmap string usageRecord -> list byte) (path : string).

Definition busy (u : usage) : bool := existsb (fun f => flushing f.2) (map_to_list (u_flushers u)).

Definition flush_do (a : flush_act) (u : usage) : option usage :=
  let tmp := tmpPath path in
  let set g f d := mkUsageDisk d (<[g := f]> (u_flushers u)) (u_overlap u) (u_renamed u) in
  match a with
  | FBegin g s =>
      if flushing (default (Flushed None) (u_flushers u !! g)) then None
      else Some (mkUsageDisk (u_disk u) (<[g := Marshalled (marshal (usageRecords s))]> (u_flushers u)) (u_overlap u || busy u) (u_renamed u))
  | FOpen g err =>
      match u_flushers u !! g, err with
      | Some (Marshalled _), Some e => Some (set g (Flushed (Some (Wrap "cannot write usage state" e))) (u_disk u))
      | Some (Marshalled data), None => let '(d, i) := open_trunc tmp (u_disk u) in Some (set g (Writing data i 0) d)
      | _, _ => None
      end
  | FWrite g n =>
      match u_flushers u !! g with
      | Some (Writing data i off) =>
          if (off <? length data)%nat && (0 <? n)%nat
          then let chunk := take n (drop off data) in Some (set g (Writing data i (off + length chunk)) (write_at i off chunk (u_disk u)))
          else None
      | _ => None
      end
  | FWriteFails g e =>
      match u_flushers u !! g with
      | Some (Writing _ _ _) => Some (set g (Flushed (Some (Wrap "cannot write usage state" e))) (u_disk u))
      | _ => None
      end
  | FClose g =>
      match u_flushers u !! g with
      | Some (Writing data _ off) => if (off =? length data)%nat then Some (set g (Renaming data) (u_disk u)) else None
      | _ => None
      end
  | FRename g err =>
      match u_flushers u !! g, err, rename tmp path (u_disk u) with
      | Some (Renaming _), Some e, _ => Some (set g (Flushed (Some (Wrap "cannot replace usage state" e))) (u_disk u))
      | Some (Renaming _), None, None => Some (set g (Flushed (Some (Wrap "cannot replace usage state" (Errorf "no such file or directory")))) (u_disk u))
      | Some (Renaming data), None, Some d =>
          Some (mkUsageDisk d (<[g := Flushed None]> (u_flushers u)) (u_overlap u) (u_renamed u ++ [data]))
      | _, _, _ => None
      end
  end.

Definition flush_step (u u' : usage) : Prop := exists a, flush_do a u = Some u'.

Fixpoint flush_run (l : list flush_act) (u : usage) : option usage :=
  match l with [] => Some u | a :: l => u' ← flush_do a u; flush_run l u' end.

Definition flush_start (d : disk) : usage := mkUsageDisk d ∅ false [].

(** Every name has a file, and the two names have different ones. *)
Definition disk_wf (d : disk) : Prop :=
  (forall name i, d_names d !! name = Some i -> is_Some (d_files d !! i)) /\
  (forall i, d_names d !! path = Some i -> d_names d !! tmpPath path <> Some i).

(** ** Proofs *)

Lemma busy_spec u : busy u = false <-> forall g f, u_flushers u !! g = Some f -> flushing f = false.
Proof.
  unfold busy. rewrite <-not_true_iff_false, existsb_exists. split.
  - intros H g f Hg. apply not_true_iff_false. intros Hf. apply H. exists (g, f). split; [|done]. by apply list_elem_of_In, elem_of_map_to_list.
  - intros H ([g f] & Hin%list_elem_of_In%elem_of_map_to_list & Hf). simpl in Hf. by rewrite (H g f Hin) in Hf.
Qed.

(** What a running flush has done. *)
Definition progress_ok (d : disk) (f : flusher) : Prop :=
  match f with
  | Writing data i off => d_names d !! tmpPath path = Some i /\ d_files d !! i = Some (take off data) /\ (off <= length data)%nat
  | Renaming data => content d (tmpPath path) = Some data
  | _ => True
  end.

Record usage_ok (d0 : disk) (u : usage) : Prop := {
  uo_wf : disk_wf (u_disk u);
  uo_one : forall g h f f', u_flushers u !! g = Some f -> u_flushers u !! h = Some f' -> flushing f = true -> flushing f' = true -> g = h;
  uo_progress : map_Forall (fun _ => progress_ok (u_disk u)) (u_flushers u);
  uo_content : content (u_disk u) path = match last (u_renamed u) with Some data => Some data | None => content d0 path end
}.

(** Changing one running flush, and the disk only where its progress says. *)
Lemma usage_ok_set d0 u g f f' d :
  usage_ok d0 u -> u_flushers u !! g = Some f -> flushing f = true -> disk_wf d -> progress_ok d f' ->
  content d path = content (u_disk u) path ->
  usage_ok d0 (mkUsageDisk d (<[g := f']> (u_flushers u)) (u_overlap u) (u_renamed u)).
Proof.
  intros [_ Hone Hprog Hcont] Hg Hf Hwf Hp Hc. split; cbn [u_disk u_flushers u_overlap u_renamed]; [done| | |by rewrite Hc].
  - intros g1 h1 f1 f2. rewrite !lookup_insert_Some. intros [[<- <-]|[? H1]] [[<- <-]|[? H2]] Ha Hb; try done.
    + by apply (Hone g h1 f f2).
    + by apply (Hone g1 g f1 f).
    + by apply (Hone g1 h1 f1 f2).
  - intros h f2. rewrite lookup_insert_Some. intros [[_ <-]|[Hne Hh]]; [done|].
    destruct (flushing f2) eqn:E; [|by destruct f2]. by destruct Hne; apply (Hone g h f f2).
Qed.

Lemma take_chunk {A} (l : list A) off n :
  take off l ++ take n (drop off l) = take (off + length (take n (drop off l))) l.
Proof.
  rewrite <-take_take_drop. f_equal. rewrite length_take, length_drop.
  destruct (decide (n <= length l - off)%nat); [by rewrite Nat.min_l|].
  rewrite Nat.min_r, !take_ge by (rewrite ?length_drop; lia). done.
Qed.

Lemma open_trunc_ok d d' i :
  disk_wf d -> open_trunc (tmpPath path) d = (d', i) ->
  disk_wf d' /\ d_names d' !! tmpPath path = Some i /\ d_files d' !! i = Some [] /\ content d' path = content d path.
Proof.
  intros [Hdom Hne] Ho. unfold open_trunc in Ho. pose proof (tmpPath_ne path) as Htp.
  destruct (d_names d !! tmpPath path) as [j|] eqn:Hj; injection Ho as <- <-.
  - split_and!; [split| | |]; simpl; [| |done|apply lookup_insert_eq|].
    + intros name k Hk. rewrite lookup_insert. case_decide; [done|]. by eapply Hdom.
    + intros k Hk. rewrite Hj. by apply Hne.
    + unfold content. simpl. destruct (d_names d !! path) as [k|] eqn:Hk; [|done]. simpl. rewrite lookup_insert_ne; [done|].
      intros ->. by apply (Hne k).
  - set (j := fresh (dom (d_files d))). assert (d_files d !! j = None) as Hfresh by (apply not_elem_of_dom, is_fresh).
    split_and!; [split| | |]; simpl; [| |apply lookup_insert_eq..|].
    + intros name k. rewrite lookup_insert_Some. intros [[_ <-]|[_ Hk]]; [rewrite lookup_insert_eq; done|].
      rewrite lookup_insert. case_decide; [done|]. by eapply Hdom.
    + intros k. rewrite lookup_insert_ne by done. intros Hk. rewrite lookup_insert_eq. intros [= <-].
      destruct (Hdom _ _ Hk) as [? Hx]. congruence.
    + unfold content. simpl. rewrite lookup_insert_ne by done. destruct (d_names d !! path) as [k|] eqn:Hk; [|done]. simpl.
      rewrite lookup_insert_ne; [done|]. intros <-. destruct (Hdom _ _ Hk) as [? Hx]. congruence.
Qed.

Lemma write_at_ok d i off data n :
  disk_wf d -> progress_ok d (Writing data i off) -> let chunk := take n (drop off data) in
  disk_wf (write_at i off chunk d) /\ progress_ok (write_at i off chunk d) (Writing data i (off + length chunk)) /\
  content (write_at i off chunk d) path = content d path.
Proof.
  intros [Hdom Hne] (Hn & Hf & Hle) chunk. unfold write_at. rewrite Hf. cbn [from_option id]. cbv zeta.
  assert (length (take off data) = off) as Hl by (rewrite length_take; lia). rewrite Hl, Nat.sub_diag. cbn [replicate]. rewrite app_nil_r.
  rewrite (take_ge (take off data)), (drop_ge (take off data)) by (rewrite ?length_take; lia). rewrite app_nil_r.
  assert (length chunk <= length data - off)%nat as Hc by (unfold chunk; rewrite length_take, length_drop; lia).
  split_and!; [split| |].
  - intros name k Hk. simpl. rewrite lookup_insert. case_decide; [done|]. by eapply Hdom.
  - exact Hne.
  - simpl. split_and!; [done| |lia]. rewrite lookup_insert_eq. f_equal. by apply take_chunk.
  - unfold content. simpl. destruct (d_names d !! path) as [k|] eqn:Hk; [|done]. simpl. rewrite lookup_insert_ne; [done|].
    intros ->. by apply (Hne k).
Qed.

Lemma rename_ok d d' data :
  disk_wf d -> content d (tmpPath path) = Some data -> rename (tmpPath path) path d = Some d' ->
  disk_wf d' /\ content d' path = Some data.
Proof.
  intros [Hdom Hne] Hc Hr. pose proof (tmpPath_ne path) as Htp. unfold rename, content in *.
  destruct (d_names d !! tmpPath path) as [i|] eqn:Hi; [|done]. simpl in *. injection Hr as <-. simpl.
  rewrite lookup_insert_eq. simpl. split; [split|done]; simpl.
  - intros name k. rewrite lookup_insert_Some, lookup_delete_Some. intros [[_ <-]|[_ [_ Hk]]]; by eapply Hdom.
  - intros k _. by rewrite lookup_insert_ne, lookup_delete_eq by done.
Qed.

Lemma flush_do_ok d0 a u u' :
  (u_overlap u = false -> usage_ok d0 u) -> flush_do a u = Some u' -> u_overlap u' = false -> usage_ok d0 u'.
Proof.
  intros Hok Hdo Ho. assert (u_overlap u = false /\ (forall g s, a = FBegin g s -> busy u = false)) as [Hu Hb].
  { destruct a; simpl in Hdo; repeat (case_match; try done); simplify_eq/=; try done. zbool. split; [done|]. by intros ? ? [= <- <-]. }
  specialize (Hok Hu). destruct a as [g s|g err|g n|g e|g|g err]; cbn [flush_do] in Hdo.
  - destruct (flushing _) eqn:Hg; [done|]. injection Hdo as <-. specialize (Hb g s eq_refl). rewrite busy_spec in Hb.
    destruct Hok as [Hwf _ Hp Hc]. split; cbn [u_disk u_flushers u_renamed]; try done.
    + intros g1 h1 f1 f2. rewrite !lookup_insert_Some. intros [[<- <-]|[? H1]] [[<- <-]|[? H2]] Ha Hb'; try done.
      * by rewrite (Hb _ _ H2) in Hb'.
      * by rewrite (Hb _ _ H1) in Ha.
      * by rewrite (Hb _ _ H1) in Ha.
    + by apply map_Forall_insert_2.
  - destruct (u_flushers u !! g) as [[data| | |]|] eqn:Hg; try done. destruct err as [e|].
    + injection Hdo as <-. eapply usage_ok_set; try done. by destruct Hok.
    + destruct (open_trunc _ _) as [d i] eqn:E. injection Hdo as <-. apply open_trunc_ok in E as (Hwf & Hn & Hf & Hc); [|by destruct Hok].
      eapply usage_ok_set; try done. simpl. split_and!; [done|by rewrite take_0|lia].
  - destruct (u_flushers u !! g) as [[| data i off| |]|] eqn:Hg; try done. destruct (_ && _); [|done]. injection Hdo as <-.
    pose proof (uo_progress _ _ Hok g _ Hg) as Hp. destruct (write_at_ok (u_disk u) i off data n) as (Hwf & Hp' & Hc); [by destruct Hok|done|].
    by eapply usage_ok_set.
  - destruct (u_flushers u !! g) as [[| data i off| |]|] eqn:Hg; try done. injection Hdo as <-. eapply usage_ok_set; try done. by destruct Hok.
  - destruct (u_flushers u !! g) as [[| data i off| |]|] eqn:Hg; try done. destruct (_ =? _)%nat eqn:E; [|done]. injection Hdo as <-. zbool.
    destruct (uo_progress _ _ Hok g _ Hg) as (Hn & Hf & _). eapply usage_ok_set; try done; [by destruct Hok|]. simpl.
    unfold content. rewrite Hn. simpl. by rewrite Hf, E, firstn_all.
  - destruct (u_flushers u !! g) as [[| | data|]|] eqn:Hg; try done. pose proof (uo_progress _ _ Hok g _ Hg) as Hp. simpl in Hp.
    destruct err as [e|]; [injection Hdo as <-; eapply usage_ok_set; try done; by destruct Hok|].
    destruct (rename _ _ _) as [d|] eqn:E; [|injection Hdo as <-; eapply usage_ok_set; try done; by destruct Hok]. injection Hdo as <-.
    destruct (rename_ok _ _ _ (uo_wf _ _ Hok) Hp E) as [Hwf Hc].
    destruct (usage_ok_set d0 u g _ (Flushed None) (u_disk u) Hok Hg eq_refl (uo_wf _ _ Hok) I eq_refl) as [_ Hone Hprog _].
    split; cbn [u_disk u_flushers u_renamed] in *; [done|done| |by rewrite last_snoc].
    intros h f Hh. assert (flushing f = false) as Hff; [|by destruct f].
    rewrite lookup_insert_Some in Hh. destruct Hh as [[_ <-]|[Hne Hh]]; [done|]. apply not_true_iff_false. intros Hf.
    by destruct Hne; apply (uo_one _ _ Hok g h (Renaming data) f).
Qed.

Lemma flush_reach d0 u : disk_wf d0 -> rtc flush_step (flush_start d0) u -> u_overlap u = false -> usage_ok d0 u.
Proof.
  intros Hd Hr. assert (u_overlap (flush_start d0) = false -> usage_ok d0 (flush_start d0)) as H0.
  { intros _. split; try done. }
  revert H0. induction Hr as [|x y z [a Ha] _ IH]; intros H0; [done|]. apply IH. by eapply flush_do_ok.
Qed.

(** What was put in place was encoded from the statistics of some moment. *)
Lemma renamed_records d0 u :
  rtc flush_step (flush_start d0) u ->
  Forall (fun data => exists s, data = marshal (usageRecords s)) (u_renamed u).
Proof.
  intros Hr. enough (Forall (fun data => exists s, data = marshal (usageRecords s)) (u_renamed u) /\
    map_Forall (fun _ f => match f with Marshalled data | Writing data _ _ | Renaming data => exists s, data = marshal (usageRecords s) | _ => True end) (u_flushers u)) by naive_solver.
  remember (flush_start d0) as x eqn:E. assert (Forall (fun data => exists s, data = marshal (usageRecords s)) (u_renamed x) /\
    map_Forall (fun _ f => match f with Marshalled data | Writing data _ _ | Renaming data => exists s, data = marshal (usageRecords s) | _ => True end) (u_flushers x)) as H0 by (by subst).
  clear E. induction Hr as [|x y z [a Ha] _ IH]; [done|]. apply IH. clear IH. destruct H0 as [H1 H2].
  destruct a as [g s|g err|g n|g e|g|g err]; cbn [flush_do] in Ha; repeat (case_match; try done); simplify_eq/=;
    (split; [try done|apply map_Forall_insert_2; [try done; try (by eexists)|done]]);
    try match goal with H : u_flushers x !! _ = Some _ |- _ => exact (H2 _ _ H) end.
  apply Forall_app. split; [done|]. apply Forall_singleton. match goal with H : u_flushers x !! _ = Some _ |- _ => exact (H2 _ _ H) end.
Qed.

Lemma flush_run_steps l u u' : flush_run l u = Some u' -> rtc flush_step u u'.
Proof.
  revert u. induction l as [|a l IH]; intros u; simpl; [by intros [= ->]|].
  destruct (flush_do a u) as [u1|] eqn:E; simpl; [|done]. intros Hr. eapply rtc_l; [by exists a|by apply IH].
Qed.
End flush.

(** The files as [Stats.LoadUsage] sees them. *)
Definition visible (d : disk) : filesystem := omap (fun i => d_files d !! i) (d_names d).

Lemma visible_lookup d name : visible d !! name = content d name.
Proof. unfold visible, content. by rewrite lookup_omap. Qed.

(** Loading what a flush wrote restores its counters. *)
Lemma load_flushed unmarshal (marshal : gmap string usageRecord -> list byte) (s : ProxyStats) (fs : filesystem) path now :
  unmarshal (marshal (usageRecords s)) = Ok (usageRecords s) -> fs !! path = Some (marshal (usageRecords s)) ->
  let '(s', err) := LoadUsage unmarshal None fs path (NewProxyStats now) in
  err = None /\ forall name, quotaUsed (stats_of s' name) = quotaUsed (stats_of s name) /\
                             periodStart (stats_of s' name) = periodStart (stats_of s name).
Proof.
  intros Hj Hp. pose proof (flush_load_roundtrip marshal unmarshal s ∅ path now Hj) as Hr. unfold FlushUsage in Hr.
  unfold LoadUsage in *. rewrite Hp. rewrite lookup_insert_eq in Hr. rewrite Hj in *. by destruct Hr as (_ & _ & ?).
Qed.

(** Two flushes at once can destroy the file.  [Shutdown] does not wait for the
    goroutine of [startUsagePersistence]: a tick that arrives together with the
    end of the context lets both flush.  The second [open] then truncates the
    temporary file that the first is about to rename, and when the process ends
    the usage file is empty, although [Shutdown]'s flush reported no error. *)
Definition race : list flush_act :=
  [FBegin 1 demo_usage; FBegin 0 demo_usage; FOpen 1 None; FWrite 1 8; FClose 1; FOpen 0 None; FRename 1 None].

Lemma shutdown_flush_race :
  exists u, rtc (flush_step demo_marshal "u.json") (flush_start (mkDisk ∅ ∅)) u /\ u_overlap u = true /\
    u_flushers u !! 1%nat = Some (Flushed None) /\ u_renamed u = [demo_marshal (usageRecords demo_usage)] /\
    content (u_disk u) "u.json" = Some [].
Proof.
  destruct (flush_run demo_marshal "u.json" race (flush_start (mkDisk ∅ ∅))) as [u|] eqn:Hr; [|vm_compute in Hr; discriminate Hr].
  exists u. split; [by eapply flush_run_steps|]. vm_compute in Hr. injection Hr as <-. by vm_compute.
Qed.

(** ** Claims *)

(** C13: the usage file survives a crash.  From any disk, with any number of
    goroutines that flush, any errors and partial writes of the system calls, and
    the process ending between any two of them: as long as no flush began while
    another was running, the usage file holds exactly what the last successful
    flush encoded, or what it held at the start; and loading it then restores the
    quota usage and the period of every secret as that flush read them. *)
Theorem usage_file_intact marshal unmarshal path d0 u now :
  (forall s, unmarshal (marshal (usageRecords s)) = Ok (usageRecords s)) ->
  disk_wf path d0 -> rtc (flush_step marshal path) (flush_start d0) u -> u_overlap u = false ->
  match last (u_renamed u) with
  | None => content (u_disk u) path = content d0 path
  | Some data =>
      content (u_disk u) path = Some data /\
      exists s, data = marshal (usageRecords s) /\
        let '(s', err) := LoadUsage unmarshal None (visible (u_disk u)) path (NewProxyStats now) in
        err = None /\ forall name, quotaUsed (stats_of s' name) = quotaUsed (stats_of s name) /\
                                   periodStart (stats_of s' name) = periodStart (stats_of s name)
  end.
Proof.
  intros Hj Hd Hr Ho. pose proof (flush_reach marshal path d0 u Hd Hr Ho) as [_ _ _ Hc].
  pose proof (renamed_records marshal path d0 u Hr) as Hren. destruct (last (u_renamed u)) as [data|] eqn:El; [|done].
  split; [done|]. apply last_Some in El as [l El]. rewrite El, Forall_app, Forall_singleton in Hren. destruct Hren as [_ [s ->]].
  exists s. split; [done|]. apply (load_flushed unmarshal marshal s); [done|]. by rewrite visible_lookup.
Qed.

(** ** Witnesses *)

(** A codec that keeps everything: the number of the records by [encode]. *)
Definition num_marshal (m : gmap string usageRecord) : list byte :=
  let n := encode (map_to_list ((fun r => (ur_QuotaUsed r, ur_PeriodStart r)) <$> m)) in
  LittleEndianList.le_split (Pos.size_nat n) (Zpos n).

Definition num_unmarshal (bs : list byte) : res (gmap string usageRecord) :=
  match decode (Z.to_pos (LittleEndianList.le_combine bs)) : option (list (string * (Z * Z))) with
  | Some l => Ok ((fun r => mkUsage r.1 r.2) <$> list_to_map l)
  | None => Fail (Errorf "cannot parse")
  end.

Lemma pos_size_bound p : Zpos p < 2 ^ Z.of_nat (Pos.size_nat p).
Proof. induction p as [p IH|p IH|]; simpl Pos.size_nat; rewrite ?Nat2Z.inj_succ, ?Z.pow_succ_r by lia; lia. Qed.

Lemma num_codec m : num_unmarshal (num_marshal m) = Ok m.
Proof.
  unfold num_unmarshal, num_marshal. rewrite LittleEndianList.le_combine_split. pose proof (pos_size_bound (encode (map_to_list
    ((fun r => (ur_QuotaUsed r, ur_PeriodStart r)) <$> m)))) as Hb. set (n := encode _) in *.
  rewrite Z.mod_small.
  - simpl Z.to_pos. unfold n. rewrite decode_encode. f_equal.
    rewrite list_to_map_to_list, <-map_fmap_compose. apply map_eq. intros i. rewrite lookup_fmap.
    by destruct (m !! i) as [[]|].
  - split; [lia|]. eapply Z.lt_le_trans; [exact Hb|]. apply Z.pow_le_mono_r; lia.
Qed.

(** One flush succeeds in two pieces, the next one is cut off while it writes. *)
Definition demo_crash : list flush_act :=
  [FBegin 0 demo_usage; FOpen 0 None; FWrite 0 5; FWrite 0 1000; FClose 0; FRename 0 None; FBegin 0 (NewProxyStats 0); FOpen 0 None].

Lemma usage_file_intact_witness :
  exists u, flush_run num_marshal "u" demo_crash (flush_start (mkDisk ∅ ∅)) = Some u /\ content (u_disk u) (tmpPath "u") = Some [] /\
    exists s, num_marshal (usageRecords demo_usage) = num_marshal (usageRecords s) /\
      let '(s', err) := LoadUsage num_unmarshal None (visible (u_disk u)) "u" (NewProxyStats 3) in
      err = None /\ forall name, quotaUsed (stats_of s' name) = quotaUsed (stats_of s name) /\
                                 periodStart (stats_of s' name) = periodStart (stats_of s name).
Proof.
  destruct (flush_run num_marshal "u" demo_crash (flush_start (mkDisk ∅ ∅))) as [u|] eqn:Hr; [|vm_compute in Hr; discriminate Hr].
  exists u. split; [reflexivity|].
  assert (u_overlap u = false /\ last (u_renamed u) = Some (num_marshal (usageRecords demo_usage)) /\ content (u_disk u) (tmpPath "u") = Some [])
    as (Ho & Hl & Ht) by (vm_compute in Hr; injection Hr as <-; vm_compute; repeat split).
  split; [exact Ht|].
  pose proof (usage_file_intact num_marshal num_unmarshal "u" (mkDisk ∅ ∅) u 3 (fun s => num_codec _)) as Hi. rewrite Hl in Hi.
  apply Hi; [|by eapply flush_run_steps|exact Ho]. split; [intros name i Hn|intros i Hn]; simpl in Hn; by rewrite lookup_empty in Hn.
Defined.
