(* ===== verification/Loops.v ===== *)
(** * Background loops: the goroutines that repeat an operation on a ticker

    The updater of the data centres (mtglib/internal/dc/updater.go), the list
    updates ([Firehol.Run] of ipblocklist/firehol.go), the throttle loop
    (mtglib/proxy_stats.go), the refresh of the middle-proxy configuration
    (mtglib/internal/middleproxy/manager.go) and the persistence of usage
    (mtglib/proxy.go).

    Each goroutine is the list of the statements it was written with: calls of
    its operations, a [select] with its cases, a return.  The first part gives
    these statements their meaning beside a ticker, a context and the rest of the
    program; the second translates the five goroutines; the claim is about each
    of the five programs.  An operation takes time and may not end: it is a
    partial function of what its system calls and requests return. *)

From S2P Require Import Prelude GoTime GoStrings GoNet Limits Stats SecretSet Proxy DC MiddleProxy Blocklist Server.

(** ** Statements *)

(** The two channels the goroutines receive from. *)
Inductive channel := CtxDone | TickerC.

#[export] Instance channel_eq_dec : EqDecision channel.
Proof. solve_decision. Defined.

(** A call of the [k]-th operation, or a return. *)
Inductive simple := Do (k : nat) | Return.

Inductive stmt :=
  | Plain (x : simple)
  | Select (cases : list (channel * list simple)).

(** [for { body }] behind some statements, with a ticker. *)
Record looper (W I : Type) := mkLooper {
  lo_period : Z;
  lo_before : list stmt;
  lo_body : list stmt;
  lo_ops : list (I -> W -> option W)
}.
Arguments mkLooper {W I}.
Arguments lo_period {W I}.
Arguments lo_before {W I}.
Arguments lo_body {W I}.
Arguments lo_ops {W I}.

(** ** Execution *)

(** [lp_code] are the statements left of the current pass, [None] after the
    return.  [lp_fired] periods had passed when the ticker last fired; its
    channel holds one tick.  [lp_ticks] counts the ticks received and [lp_trace]
    lists the operations that have ended. *)
Record loop (W : Type) := mkLoop {
  lp_code : option (list stmt);
  lp_cancelled : bool;
  lp_elapsed : Z;
  lp_fired : Z;
  lp_tick : bool;
  lp_ticks : nat;
  lp_trace : list nat;
  lp_world : W
}.
Arguments mkLoop {W}.
Arguments lp_code {W}.
Arguments lp_cancelled {W}.
Arguments lp_elapsed {W}.
Arguments lp_fired {W}.
Arguments lp_tick {W}.
Arguments lp_ticks {W}.
Arguments lp_trace {W}.
Arguments lp_world {W}.

Inductive loop_act (I O : Type) :=
  | ATime (d : Z)          (* time passes *)
  | AFire                  (* the ticker fires *)
  | ACancel                (* the context ends *)
  | ASelect (c : channel)  (* the [select] receives from a channel *)
  | AEnd (i : I)           (* the operation in progress ends *)
  | AOther (o : O).        (* the rest of the program *)
Arguments ATime {I O}.
Arguments AFire {I O}.
Arguments ACancel {I O}.
Arguments ASelect {I O}.
Arguments AEnd {I O}.
Arguments AOther {I O}.

Section machine.
Context {W I O : Type} (lo : looper W I) (other : O -> W -> W).

(** At the end of a pass the body begins again; a return leaves the loop. *)
Definition settle (code : list stmt) : option (list stmt) :=
  match (match code with [] => lo_body lo | _ => code end) with
  | Plain Return :: _ => None
  | code => Some code
  end.

(** [time.NewTicker] panics for a period that is not positive. *)
Definition loop_start (w : W) : option (loop W) :=
  if lo_period lo <=? 0 then None
  else Some (mkLoop (settle (lo_before lo)) false 0 0 false 0 [] w).

Definition case_of (c : channel) (cases : list (channel * list simple)) : option (list simple) :=
  snd <$> List.find (fun x => bool_decide (x.1 = c)) cases.

Definition loop_do (a : loop_act I O) (s : loop W) : option (loop W) :=
  match a with
  | ATime d =>
      if 0 <=? d
      then Some (mkLoop (lp_code s) (lp_cancelled s) (lp_elapsed s + d) (lp_fired s) (lp_tick s) (lp_ticks s) (lp_trace s) (lp_world s))
      else None
  | AFire =>
      let k := lp_elapsed s / lo_period lo in
      if (lp_fired s <? k) && bool_decide (is_Some (lp_code s))
      then Some (mkLoop (lp_code s) (lp_cancelled s) (lp_elapsed s) k true (lp_ticks s) (lp_trace s) (lp_world s))
      else None
  | ACancel => Some (mkLoop (lp_code s) true (lp_elapsed s) (lp_fired s) (lp_tick s) (lp_ticks s) (lp_trace s) (lp_world s))
  | ASelect c =>
      match lp_code s with
      | Some (Select cases :: rest) =>
          body ← case_of c cases;
          let code := settle ((Plain <$> body) ++ rest) in
          match c with
          | CtxDone =>
              if lp_cancelled s
              then Some (mkLoop code true (lp_elapsed s) (lp_fired s) (lp_tick s) (lp_ticks s) (lp_trace s) (lp_world s)) else None
          | TickerC =>
              if lp_tick s
              then Some (mkLoop code (lp_cancelled s) (lp_elapsed s) (lp_fired s) false (S (lp_ticks s)) (lp_trace s) (lp_world s))
              else None
          end
      | _ => None
      end
  | AEnd i =>
      match lp_code s with
      | Some (Plain (Do k) :: rest) =>
          f ← lo_ops lo !! k;
          w ← f i (lp_world s);
          Some (mkLoop (settle rest) (lp_cancelled s) (lp_elapsed s) (lp_fired s) (lp_tick s) (lp_ticks s) (lp_trace s ++ [k]) w)
      | _ => None
      end
  | AOther o =>
      Some (mkLoop (lp_code s) (lp_cancelled s) (lp_elapsed s) (lp_fired s) (lp_tick s) (lp_ticks s) (lp_trace s) (other o (lp_world s)))
  end.

Definition loop_step (s s' : loop W) : Prop := exists a, loop_do a s = Some s'.

Fixpoint loop_run (l : list (loop_act I O)) (s : loop W) : option (loop W) :=
  match l with [] => Some s | a :: l => s' ← loop_do a s; loop_run l s' end.

Lemma loop_run_steps l s s' : loop_run l s = Some s' -> rtc loop_step s s'.
Proof.
  revert s. induction l as [|a l IH]; intros s; simpl; [by intros [= ->]|].
  destruct (loop_do a s) as [s1|] eqn:E; simpl; [|done]. intros Hr. eapply rtc_l; [by exists a|by apply IH].
Qed.

(** After its return nothing of the goroutine happens any more. *)
Lemma loop_over s s' : lp_code s = None -> rtc loop_step s s' -> lp_code s' = None /\ lp_trace s' = lp_trace s.
Proof.
  intros Hc Hr. revert Hc. induction Hr as [|x y z [a Ha] _ IH]; intros Hc; [done|].
  assert (lp_code y = None /\ lp_trace y = lp_trace x) as (Hy & <-).
  { destruct a; simpl in Ha; rewrite ?Hc in Ha; repeat case_match; by simplify_eq/=. }
  by apply IH.
Qed.
End machine.

(** What every step of the operations and of the rest of the program keeps, the
    loop keeps. *)
Lemma loop_invariant {W I O} (lo : looper W I) (other : O -> W -> W) (P : W -> Prop) s s' :
  Forall (fun f => forall i w w', P w -> f i w = Some w' -> P w') (lo_ops lo) -> (forall o w, P w -> P (other o w)) ->
  P (lp_world s) -> rtc (loop_step lo other) s s' -> P (lp_world s').
Proof.
  intros Hb Ho Hs Hr. induction Hr as [|x y z [a Ha] _ IH]; [done|]. apply IH. clear IH.
  destruct a as [d| | |c|i|o]; cbn [loop_do] in Ha.
  - destruct (0 <=? d); by simplify_eq.
  - destruct (_ && _); by simplify_eq.
  - by simplify_eq.
  - destruct (lp_code x) as [[|[|cases] rest]|]; try done. destruct (case_of c cases); simplify_eq/=.
    by destruct c; case_match; simplify_eq.
  - destruct (lp_code x) as [[|[[k|]|] rest]|]; try done. destruct (lo_ops lo !! k) as [f|] eqn:Hk; simplify_eq/=.
    destruct (f i (lp_world x)) as [w|] eqn:Hf; simplify_eq/=. rewrite Forall_forall in Hb.
    eapply (Hb f); [by eapply list_elem_of_lookup_2|done|done].
  - simplify_eq. by apply Ho.
Qed.

(** ** What a loop promises *)

(** The operations that are due after a number of ticks. *)
Definition due (once again : list nat) (ticks : nat) : list nat := once ++ List.concat (replicate ticks again).

(** A goroutine that runs the operations [once] at its start and [again] for
    every tick, until its context ends. *)
Definition ticks_until_done {W I} (lo : looper W I) (period : Z) (once again : list nat) : Prop :=
  forall O (other : O -> W -> W) w,
    (is_Some (loop_start lo w) <-> 0 < period) /\
    forall s0 s, loop_start lo w = Some s0 -> rtc (loop_step lo other) s0 s ->
      let todo := due once again (lp_ticks s) in
      (* no more than a tick for every period *)
      Z.of_nat (lp_ticks s) <= lp_elapsed s / period /\
      (* the operations in their order, one after the other *)
      lp_trace s `prefix_of` todo /\
      (* it goes on when the operation that is due ends *)
      (forall k f i w', is_Some (lp_code s) -> todo !! length (lp_trace s) = Some k -> lo_ops lo !! k = Some f ->
         f i (lp_world s) = Some w' ->
         exists s', loop_do lo other (AEnd i) s = Some s' /\ lp_trace s' = lp_trace s ++ [k] /\ lp_world s' = w') /\
      (* when none is due, it takes a tick, and the end of the context *)
      (is_Some (lp_code s) -> lp_trace s = todo ->
         (lp_tick s = true -> exists s', loop_do lo other (ASelect TickerC) s = Some s' /\ lp_ticks s' = S (lp_ticks s)) /\
         (lp_cancelled s = true -> exists s', loop_do lo other (ASelect CtxDone) s = Some s' /\ lp_code s' = None)) /\
      (* it returns only then, and does nothing afterwards *)
      (lp_code s = None -> lp_cancelled s = true /\ lp_trace s = todo /\
         forall s', rtc (loop_step lo other) s s' -> lp_trace s' = lp_trace s).

(** ** Loops of one shape *)

Definition b2z (b : bool) : Z := if b then 1 else 0.

Definition dos (l : list nat) : list stmt := Plain ∘ Do <$> l.

Section shape.
Context {W I O : Type} (lo : looper W I) (other : O -> W -> W) (b x y : list nat).
Definition the_select : stmt := Select [(CtxDone, [Return]); (TickerC, Do <$> y)].
Hypothesis Hbefore : lo_before lo = dos b.
Hypothesis Hbody : lo_body lo = dos x ++ [the_select].

(** Where the goroutine can be: before some operations, the last pass of which
    leads to the [select]. *)
Inductive place (s : loop W) : Prop :=
  | between r :
      r <> [] -> lp_code s = Some (dos r) -> lp_trace s ++ r ++ x = due (b ++ x) (y ++ x) (lp_ticks s) -> place s
  | within r :
      lp_code s = Some (dos r ++ [the_select]) -> lp_trace s ++ r = due (b ++ x) (y ++ x) (lp_ticks s) -> place s
  | gone :
      lp_code s = None -> lp_cancelled s = true -> lp_trace s = due (b ++ x) (y ++ x) (lp_ticks s) -> place s.

Record loop_ok (s : loop W) : Prop := {
  ok_ticks : Z.of_nat (lp_ticks s) + b2z (lp_tick s) <= lp_fired s;
  ok_fired : 0 <= lp_fired s /\ lp_fired s * lo_period lo <= lp_elapsed s;
  ok_place : place s
}.

Lemma settle_body : settle lo [] = Some (dos x ++ [the_select]).
Proof. unfold settle. rewrite Hbody. by destruct x. Qed.

Lemma settle_dos r : r <> [] -> settle lo (dos r) = Some (dos r).
Proof. by destruct r. Qed.

Lemma settle_rest r : settle lo (dos r ++ [the_select]) = Some (dos r ++ [the_select]).
Proof. by destruct r. Qed.

(** At the end of [dos r] the body follows. *)
Lemma settle_place r s :
  lp_code s = settle lo (dos r) -> lp_trace s ++ r ++ x = due (b ++ x) (y ++ x) (lp_ticks s) -> place s.
Proof.
  intros Hc Ht. destruct (decide (r = [])) as [->|Hr].
  - apply (within s x); [|done]. rewrite Hc. apply settle_body.
  - apply (between s r); [done| |done]. rewrite Hc. by apply settle_dos.
Qed.

Lemma loop_start_ok w s : loop_start lo w = Some s -> loop_ok s /\ 0 < lo_period lo.
Proof.
  unfold loop_start. destruct (lo_period lo <=? 0) eqn:Hp; [done|]. zbool. intros [= <-]. split; [|lia].
  split; simpl; [lia|lia|]. apply (settle_place b); simpl; [by rewrite Hbefore|]. unfold due. simpl. by rewrite app_nil_r.
Qed.

Lemma due_S n : due (b ++ x) (y ++ x) (S n) = due (b ++ x) (y ++ x) n ++ y ++ x.
Proof. unfold due. rewrite replicate_S_end, concat_app. simpl. by rewrite app_nil_r, <- !app_assoc. Qed.

(** The clock, the ticker, the context and the rest of the program do not move
    the goroutine. *)
Lemma place_same s s' :
  place s -> lp_code s' = lp_code s -> lp_trace s' = lp_trace s -> lp_ticks s' = lp_ticks s ->
  (lp_cancelled s = true -> lp_cancelled s' = true) -> place s'.
Proof.
  intros [r Hr Hc Ht|r Hc Ht|Hc Hd Ht] H1 H2 H3 H4; [apply (between _ r)|apply (within _ r)|apply gone]; rewrite ?H1, ?H2, ?H3; auto.
Qed.

Lemma select_place s c s' :
  place s -> loop_do lo other (ASelect c) s = Some s' -> place s' /\ lp_trace s = due (b ++ x) (y ++ x) (lp_ticks s).
Proof.
  intros [r Hr Hc Ht|r Hc Ht|Hc Hd Ht] Hs; simpl in Hs; rewrite Hc in Hs; [by destruct r| |done].
  destruct r as [|k r]; [|done]. rewrite app_nil_r in Ht. simpl in Hs. destruct c; simpl in Hs.
  - destruct (lp_cancelled s); simplify_eq. split; [|done]. by apply gone.
  - destruct (lp_tick s); simplify_eq. split; [|done]. apply (settle_place y); simpl.
    + f_equal. unfold dos. by rewrite app_nil_r, <- list_fmap_compose.
    + by rewrite due_S, Ht.
Qed.

Lemma end_place s i s' : place s -> loop_do lo other (AEnd i) s = Some s' -> place s'.
Proof.
  intros [r Hr Hc Ht|r Hc Ht|Hc Hd Ht] Hs; simpl in Hs; rewrite Hc in Hs; [..|done];
    destruct r as [|k r]; try done; simpl in Hs; destruct (lo_ops lo !! k) as [f|]; simplify_eq/=;
    destruct (f i (lp_world s)) as [w|]; simplify_eq/=.
  - apply (settle_place r); simpl; [done|]. by rewrite <- app_assoc.
  - apply (within _ r); simpl; [apply settle_rest|]. by rewrite <- app_assoc.
Qed.

Lemma loop_do_ok a s s' : 0 < lo_period lo -> loop_ok s -> loop_do lo other a s = Some s' -> loop_ok s'.
Proof.
  intros Hp [Hr [Hf0 Hf] Hpl] Hs. destruct a as [d| | |c|i|o].
  - simpl in Hs. destruct (0 <=? d) eqn:Hd; [|done]. zbool. injection Hs as <-.
    split; simpl; [done|lia|]. by eapply place_same.
  - simpl in Hs. destruct (_ && _) eqn:E; [|done]. zbool. injection Hs as <-. split; simpl.
    + destruct (lp_tick s); simpl in Hr; lia.
    + split; [lia|]. rewrite Z.mul_comm. by apply Z.mul_div_le.
    + by eapply place_same.
  - injection Hs as <-. split; simpl; [done|done|]. by eapply place_same.
  - pose proof (proj1 (select_place _ _ _ Hpl Hs)) as Hpl'. simpl in Hs. destruct (lp_code s) as [[|[|cases] rest]|]; try done.
    destruct (case_of c cases); simplify_eq/=. destruct c.
    + destruct (lp_cancelled s); simplify_eq. by split.
    + destruct (lp_tick s) eqn:Et; [|done]. injection Hs as <-. split; simpl in *; [lia|done|done].
  - pose proof (end_place _ _ _ Hpl Hs) as Hpl'. simpl in Hs. destruct (lp_code s) as [[|[[k|]|] rest]|]; try done.
    destruct (lo_ops lo !! k) as [f|]; simplify_eq/=. destruct (f i (lp_world s)); simplify_eq/=. by split.
  - injection Hs as <-. split; simpl; [done|done|]. by eapply place_same.
Qed.

Lemma loop_reach w s0 s : loop_start lo w = Some s0 -> rtc (loop_step lo other) s0 s -> loop_ok s.
Proof.
  intros H0 Hr. destruct (loop_start_ok _ _ H0) as [Hok Hp]. clear H0. induction Hr as [|s1 s2 s3 [a Ha] _ IH]; [done|].
  apply IH. by eapply loop_do_ok.
Qed.

(** The operation that is due is the one the goroutine is at. *)
Lemma place_at s k :
  place s -> is_Some (lp_code s) -> due (b ++ x) (y ++ x) (lp_ticks s) !! length (lp_trace s) = Some k ->
  exists rest, lp_code s = Some (Plain (Do k) :: rest).
Proof.
  intros [r Hr Hc Ht|r Hc Ht|Hc Hd Ht] Hs; [..|by rewrite Hc in Hs; destruct Hs]; rewrite <- Ht, lookup_app_r, Nat.sub_diag by lia;
    destruct r as [|k' r]; try done; intros [= ->]; rewrite Hc; by eexists.
Qed.

(** When nothing is due the goroutine is at its [select]. *)
Lemma place_select s :
  place s -> is_Some (lp_code s) -> lp_trace s = due (b ++ x) (y ++ x) (lp_ticks s) -> lp_code s = Some [the_select].
Proof.
  intros [r Hr Hc Ht|r Hc Ht|Hc Hd Ht] Hs Heq; [..|by rewrite Hc in Hs; destruct Hs]; rewrite <- Heq in Ht;
    rewrite <- (app_nil_r (lp_trace s)) in Ht at 2; apply app_inv_head in Ht.
  - by destruct r.
  - subst r. done.
Qed.
End shape.

(** A goroutine of this shape keeps the promise. *)
Lemma shape_ticks {W I} (lo : looper W I) period b x y :
  lo_period lo = period -> lo_before lo = dos b -> lo_body lo = dos x ++ [the_select y] ->
  ticks_until_done lo period (b ++ x) (y ++ x).
Proof.
  intros <- Hbe Hbo O other w. split.
  { unfold loop_start. destruct (lo_period lo <=? 0) eqn:E; zbool; [split; [by intros []|lia]|]. split; [lia|by eexists]. }
  intros s0 s H0 Hr todo. pose proof (loop_reach lo other b x y Hbe Hbo w s0 s H0 Hr) as [Hti [Hf0 Hf] Hpl].
  destruct (loop_start_ok lo b x y Hbe Hbo _ _ H0) as [_ Hp]. split_and!.
  - assert (lp_fired s <= lp_elapsed s / lo_period lo) by (apply Z.div_le_lower_bound; lia). destruct (lp_tick s); simpl in Hti; lia.
  - destruct Hpl as [r _ _ Ht|r _ Ht|_ _ Ht]; unfold todo; rewrite <- Ht; [by eexists|by eexists|reflexivity].
  - intros k f i w' Hs Hk Hf' Hw. destruct (place_at b x y s k Hpl Hs Hk) as [rest Hc]. eexists. simpl. rewrite Hc, Hf'. simpl. by rewrite Hw.
  - intros Hs Heq. pose proof (place_select b x y s Hpl Hs Heq) as Hc. split; intros Hx; eexists; simpl; rewrite Hc; simpl; by rewrite Hx.
  - intros Hc. destruct Hpl as [r _ Hc' _|r Hc' _|_ Hd Ht]; [congruence|congruence|]. split_and!; [done|done|].
    intros s' Hs'. by eapply loop_over.
Qed.

(** ** The loops *)

Definition PublicConfigUpdateEach : Z := Hour.
Definition refreshPeriod : Z := Hour.
Definition usageFlushInterval : Z := 30 * Second.

(** [updater.run] with the callback of [PublicConfigUpdater.Run], which is called
    at the head of the loop; its input is the response. *)
Definition updater_run (network : string) : looper Telegram (res (list string * option goerr)) :=
  mkLooper PublicConfigUpdateEach
    []
    [Plain (Do 0); Select [(CtxDone, [Return]); (TickerC, [])]]
    [fun response t => Some (updateConfig t network response).1].

(** [Firehol.Run]: an update before the loop and one for every tick; its input
    is the schedule of the goroutines of [update], which ends only under a
    complete one, and the files as they could be opened. *)
Definition Firehol_Run {R} `{Ranger R} (updateEach : Z) : looper (@Firehol R) (list nat * list (res string)) :=
  mkLooper (run_period updateEach)
    [Plain (Do 0)]
    [Select [(CtxDone, [Return]); (TickerC, [Do 0])]]
    [fun x f => Blocklist.update x.1 x.2 f].

(** [startThrottleLoop]. *)
Definition startThrottleLoop (s : ProxyStats) : looper ProxyStats unit :=
  mkLooper (throttleInterval s)
    []
    [Select [(CtxDone, [Return]); (TickerC, [Do 0])]]
    [fun _ s => recomputeCaps s].

(** The goroutine of [Manager.startRefresh]. *)
Definition refreshLoop : looper Manager fetches :=
  mkLooper refreshPeriod
    []
    [Select [(CtxDone, [Return]); (TickerC, [Do 0])]]
    [fun h m => Some (fetch m h).2].

(** [startUsagePersistence]: the rollover, which reads the time, then the flush
    with the errors of its two system calls. *)
Definition startUsagePersistence (localOffset : Z -> Z) (marshal : gmap string usageRecord -> list byte) (path : string) :
    looper (Proxy * filesystem) (Z * option (nat * goerr) * option goerr) :=
  mkLooper usageFlushInterval
    []
    [Select [(CtxDone, [Return]); (TickerC, [Do 0; Do 1])]]
    [fun x w => Some (rolloverAllQuotas localOffset x.1.1 w.1, w.2);
     fun x w => Some (w.1, (FlushUsage marshal x.1.2 x.2 (p_stats w.1) w.2 path).1)].

(** With periods that are not negative, as the configuration accepts them, every
    loop starts. *)
Lemma loops_start now unmarshal rerr fs opts set updateEach network lo marshal path :
  0 <= po_ThrottleCheckInterval opts -> 0 <= updateEach -> 0 < po_ThrottleMaxConnections opts ->
  0 < lo_period (updater_run network) /\ 0 < run_period updateEach /\
  0 < lo_period (startThrottleLoop (newStats now unmarshal rerr fs opts set)) /\
  0 < lo_period refreshLoop /\ 0 < lo_period (startUsagePersistence lo marshal path).
Proof.
  intros Ht Hu Hm. split_and!; try done; simpl.
  - unfold run_period, DefaultFireholUpdateEach. destruct (updateEach =? 0) eqn:E; zbool; [done|lia].
  - unfold newStats. rewrite (proj2 (Z.ltb_lt _ _)) by done. simpl. unfold getThrottleCheckInterval.
    destruct (_ =? 0) eqn:E; zbool; [done|lia].
Qed.

(** The updates of the data centres never announce an address of a centre other
    than 203, however often they run. *)
Lemma updater_only_203 network s0 s :
  loop_start (updater_run network) (mkTelegram (mkAddrSet None None) (t_preferIP (lp_world s0))) = Some s0 ->
  rtc (loop_step (updater_run network) (fun (_ : Empty_set) w => w)) s0 s ->
  forall dc, dc <> 203 -> known (as_v4 (publicConfigs (lp_world s))) dc = [] /\ known (as_v6 (publicConfigs (lp_world s))) dc = [].
Proof.
  intros H0 Hr. eapply (loop_invariant _ _ (fun t => forall dc, dc <> 203 ->
    known (as_v4 (publicConfigs t)) dc = [] /\ known (as_v6 (publicConfigs t)) dc = [])); [| |..|exact Hr]; [|by intros []|].
  - simpl. apply Forall_singleton. intros response t t1 IH [= <-] dc Hdc. destruct (IH dc Hdc) as [H4 H6].
    pose proof (updateConfig_only_203 t network response) as Hu. destruct (updateConfig t network response) as [t' err]. simpl.
    destruct Hu as (_ & He & Hv4 & Hv6). destruct err as [e|]; [by rewrite He by eauto|].
    destruct (decide (network = "tcp4")) as [Hn|Hn].
    + destruct (Hv4 dc Hdc Hn eq_refl) as [-> ->]. done.
    + destruct (Hv6 dc Hdc Hn eq_refl) as [-> ->]. done.
  - unfold loop_start in H0. simpl in H0. injection H0 as <-. by intros dc Hdc.
Qed.

(** ** Claims *)

(** C38: the five background goroutines.  Each starts exactly with a positive
    period, and then, in every interleaving with the clock, its ticker, the rest
    of the program and the end of its context: it has received at most one tick
    for every period that has passed, ticks it is too slow for being dropped; the
    operations it has run are, in order and one after the other, those due: the
    updates of the data centres and of the lists once at the start and once for
    every tick received, the caps, the refresh of the middle proxies and the
    rollover with its flush once for every tick only; when the operation that is
    due ends, the goroutine goes on; when none is due it takes the next tick and
    can return if its context has ended; it returns only then, never in the
    middle of an operation, and runs nothing afterwards. *)
Theorem background_loops {R} `{Ranger R} network updateEach stats localOffset marshal path :
  ticks_until_done (updater_run network) Hour [0%nat] [0%nat] /\
  ticks_until_done (Firehol_Run updateEach) (if updateEach =? 0 then 6 * Hour else updateEach) [0%nat] [0%nat] /\
  ticks_until_done (startThrottleLoop stats) (throttleInterval stats) [] [0%nat] /\
  ticks_until_done refreshLoop Hour [] [0%nat] /\
  ticks_until_done (startUsagePersistence localOffset marshal path) (30 * Second) [] [0%nat; 1%nat].
Proof.
  split_and!.
  - by apply (shape_ticks _ _ [] [0%nat] []).
  - by apply (shape_ticks _ _ [0%nat] [] [0%nat]).
  - by apply (shape_ticks _ _ [] [] [0%nat]).
  - by apply (shape_ticks _ _ [] [] [0%nat]).
  - by apply (shape_ticks _ _ [] [] [0%nat; 1%nat]).
Qed.

(** ** An execution *)

(** The first update fails; a period passes, the context ends during the second,
    and the goroutine returns after it. *)
Definition demo_telegram : Telegram := mkTelegram (mkAddrSet None None) preferIPOnlyIPv4.

Definition demo_acts : list (loop_act (res (list string * option goerr)) Empty_set) :=
  [AEnd (Fail EOF); ATime (61 * Minute); AFire; ASelect TickerC; ACancel; AEnd (Ok ([], None)); ASelect CtxDone].

Example updater_demo :
  exists s0 s, loop_start (updater_run "tcp4") demo_telegram = Some s0 /\
    loop_run (updater_run "tcp4") (fun (_ : Empty_set) w => w) demo_acts s0 = Some s /\
    lp_trace s = [0%nat; 0%nat] /\ lp_code s = None.
Proof. eexists _, _. split; [reflexivity|]. split; [vm_compute; reflexivity|]. by split. Qed.
