(* ===== verification/Listener.v ===== *)
(** * Listeners: internal/utils/net_listener.go

    [Listener] sets socket options on accepted connections and skips those that
    refuse them; [MultiListener] merges several listeners into one, with a
    goroutine per listener and a buffered channel between them and [Accept]. *)

From S2P Require Import Prelude GoTime GoStrings Secret Limits Stats SecretSet Proxy Pending DC ServeConn Server.

(** ** One listener *)

Definition socketOptionsLogInterval : Z := 10 * Second.

(** What [Accept] of the underlying listener gives: a connection, with the error
    of setting its options and the time then, or an error. *)
Inductive rawAccept :=
  | RawConn (conn : nat) (optErr : option goerr) (at_time : Z)
  | RawErr (e : netError).

(** The numbers of suppressed lines that were logged, the connections that were
    closed. *)
Record listenerState := mkListener { ls_throttle : Throttle; ls_logged : list Z; ls_closed : list nat }.

Definition WrapListener : listenerState := mkListener (Throttle_New socketOptionsLogInterval) [] [].

Definition logSkipped (now : Z) (s : listenerState) : listenerState :=
  let '(t, (ok, suppressed)) := Allow now (ls_throttle s) in
  mkListener t (if ok : bool then ls_logged s ++ [suppressed] else ls_logged s) (ls_closed s).

Definition close_skipped (conn : nat) (s : listenerState) : listenerState :=
  mkListener (ls_throttle s) (ls_logged s) (ls_closed s ++ [conn]).

(** [Accept]: [None] while it waits for the underlying listener. *)
Fixpoint Listener_Accept (script : list rawAccept) (s : listenerState) : option (nat + netError) * list rawAccept * listenerState :=
  match script with
  | [] => (None, [], s)
  | RawErr e :: script => (Some (inr e), script, s)
  | RawConn conn None _ :: script => (Some (inl conn), script, s)
  | RawConn conn (Some _) now :: script => Listener_Accept script (close_skipped conn (logSkipped now s))
  end.

(** ** Several listeners *)

Notation loopResult := (nat + netError)%type.

(** A goroutine of [acceptLoop]: what its listener will still give, the result it
    is about to send, and whether it has returned. *)
Record acceptLoop := mkLoop { al_pending : list loopResult; al_held : option loopResult; al_stopped : bool }.

(** The channel holds results with the number of the listener they come from,
    [ml_out] is what [Accept] has returned. *)
Record MultiListener := mkMulti {
  ml_loops : list acceptLoop;
  ml_chan : list (nat * loopResult);
  ml_out : list (nat * loopResult)
}.

Definition NewMultiListener (scripts : list (list loopResult)) : MultiListener :=
  mkMulti ((fun s => mkLoop s None false) <$> scripts) [] [].

Definition isClosed (r : loopResult) : bool := match r with inl _ => false | inr e => net_is e NetErrClosed end.

Inductive ml_act :=
  | MAccept (i : nat)   (* the listener's [Accept] returns *)
  | MSend (i : nat)     (* the channel takes the result *)
  | MReceive.           (* [MultiListener.Accept] *)

Definition ml_do (a : ml_act) (m : MultiListener) : option MultiListener :=
  match a with
  | MAccept i =>
      match ml_loops m !! i with
      | Some (mkLoop (r :: p) None false) => Some (mkMulti (<[i := mkLoop p (Some r) false]> (ml_loops m)) (ml_chan m) (ml_out m))
      | _ => None
      end
  | MSend i =>
      match ml_loops m !! i with
      | Some (mkLoop p (Some r) false) =>
          if (length (ml_chan m) <? length (ml_loops m))%nat
          then Some (mkMulti (<[i := mkLoop p None (isClosed r)]> (ml_loops m)) (ml_chan m ++ [(i, r)]) (ml_out m))
          else None
      | _ => None
      end
  | MReceive =>
      match ml_chan m with
      | x :: c => Some (mkMulti (ml_loops m) c (ml_out m ++ [x]))
      | [] => None
      end
  end.

Definition ml_step (m m' : MultiListener) : Prop := exists a, ml_do a m = Some m'.

Fixpoint ml_run (l : list ml_act) (m : MultiListener) : option MultiListener :=
  match l with [] => Some m | a :: l => m' ← ml_do a m; ml_run l m' end.

(** [Close]: every listener is closed; the first error is returned. *)
Definition MultiListener_Close (errs : list (option goerr)) : option goerr := head (omap id errs).

(** ** Proofs *)

(** The results of the [i]-th listener in a sequence. *)
Definition from (i : nat) (l : list (nat * loopResult)) : list loopResult := snd <$> filter (fun x => x.1 = i) l.

Lemma from_app i l k : from i (l ++ k) = from i l ++ from i k.
Proof. unfold from. by rewrite filter_app, fmap_app. Qed.

Lemma from_one i j r : from i [(j, r)] = if decide (j = i) then [r] else [].
Proof. unfold from. rewrite filter_cons. simpl. by case_decide. Qed.

(** For every listener, what was returned, what is in the channel, what its
    goroutine holds and what is to come are its script, in order. *)
Definition loop_ok (m : MultiListener) (i : nat) (script : list loopResult) (al : acceptLoop) : Prop :=
  from i (ml_out m ++ ml_chan m) ++ option_list (al_held al) ++ al_pending al = script /\
  (al_stopped al = true -> al_held al = None /\ exists r, last (from i (ml_out m ++ ml_chan m)) = Some r /\ isClosed r = true).

Definition ml_ok (scripts : list (list loopResult)) (m : MultiListener) : Prop :=
  length (ml_loops m) = length scripts /\ (length (ml_chan m) <= length scripts)%nat /\
  Forall (fun x => x.1 < length scripts)%nat (ml_chan m) /\
  (forall i script al, scripts !! i = Some script -> ml_loops m !! i = Some al -> loop_ok m i script al).

Lemma ml_init_ok scripts : ml_ok scripts (NewMultiListener scripts).
Proof.
  split_and!; simpl; [by rewrite length_fmap|lia|constructor|].
  intros i script al Hs Hl. rewrite list_lookup_fmap, Hs in Hl. injection Hl as <-. done.
Qed.

Lemma ml_do_ok scripts a m m' : ml_ok scripts m -> ml_do a m = Some m' -> ml_ok scripts m'.
Proof.
  intros (Hlen & Hc & Hf & Hok) Hdo. destruct a as [i|i|]; simpl in Hdo.
  - destruct (ml_loops m !! i) as [[[|r p] [|] []]|] eqn:Hi; try done. injection Hdo as <-.
    split_and!; simpl; [by rewrite length_insert|done|done|]. intros j script al Hs.
    intros [(<- & <- & _)|[Hne Hl]]%list_lookup_insert_Some; [|by apply Hok].
    destruct (Hok _ _ _ Hs Hi) as [H1 H2]. by split.
  - destruct (ml_loops m !! i) as [[p [r|] []]|] eqn:Hi; try done. case_match eqn:Hlt; [|done]. injection Hdo as <-.
    apply Nat.ltb_lt in Hlt. pose proof (lookup_lt_Some _ _ _ Hi) as Hil.
    split_and!; simpl; [by rewrite length_insert|rewrite length_app; simpl; lia| |].
    { apply Forall_app. split; [done|]. apply Forall_singleton. simpl. lia. }
    intros j script al Hs [(<- & <- & _)|[Hne Hl]]%list_lookup_insert_Some.
    + destruct (Hok _ _ _ Hs Hi) as [H1 H2]. unfold loop_ok. simpl in *.
      rewrite (assoc_L (++) (ml_out m)), from_app, from_one, decide_True by done. split; [by rewrite <-(assoc_L (++))|].
      intros Hcl. split; [done|]. exists r. split; [by rewrite last_snoc|done].
    + destruct (Hok _ _ _ Hs Hl) as [H1 H2]. unfold loop_ok. simpl in *.
      by rewrite (assoc_L (++) (ml_out m)), from_app, from_one, decide_False, app_nil_r by done.
  - destruct (ml_chan m) as [|x c] eqn:Hch; [done|]. injection Hdo as <-. apply Forall_cons in Hf as [_ Hf].
    split_and!; simpl in *; [done|lia|done|]. intros j script al Hs Hl. destruct (Hok _ _ _ Hs Hl) as [H1 H2].
    unfold loop_ok in *. simpl. rewrite Hch in *. by rewrite <-(assoc_L (++)).
Qed.

Lemma ml_reach_ok scripts m : rtc ml_step (NewMultiListener scripts) m -> ml_ok scripts m.
Proof.
  intros Hr. pose proof (ml_init_ok scripts) as Hi. induction Hr as [|m0 m1 m2 [a Ha] _ IH]; [done|].
  apply IH. by eapply ml_do_ok.
Qed.

Lemma ml_run_steps l m m' : ml_run l m = Some m' -> rtc ml_step m m'.
Proof.
  revert m. induction l as [|a l IH]; intros m Hr; simplify_eq/=; [apply rtc_refl|].
  destruct (ml_do a m) as [m1|] eqn:Hdo; simplify_eq/=. eapply rtc_l; [by exists a|]. by apply IH.
Qed.

(** Skipped connections are closed, and nothing else is. *)
Definition skipped (l : list rawAccept) : list nat :=
  omap (fun x => match x with RawConn c (Some _) _ => Some c | _ => None end) l.

Lemma Listener_Accept_spec script s r rest s' :
  Listener_Accept script s = (r, rest, s') ->
  exists before, ls_closed s' = ls_closed s ++ skipped before /\
    Forall (fun x => exists c e t, x = RawConn c (Some e) t) before /\
    match r with
    | None => script = before /\ rest = []
    | Some (inl c) => exists t, script = before ++ RawConn c None t :: rest
    | Some (inr e) => script = before ++ RawErr e :: rest
    end.
Proof.
  revert s. induction script as [|x script IH]; intros s Ha; simpl in Ha.
  - injection Ha as <- <- <-. exists []. by rewrite app_nil_r.
  - destruct x as [c [e|] t|e].
    + apply IH in Ha as (before & Hc & Hf & Hr). exists (RawConn c (Some e) t :: before). split_and!.
      * rewrite Hc. simpl. unfold logSkipped. destruct (Allow _ _) as [th [ok n]]. simpl. by rewrite <-(assoc_L (++)).
      * constructor; [by exists c, e, t|done].
      * destruct r as [[c'|e']|]; [destruct Hr as [t' ->]; by exists t'|by rewrite Hr|]. destruct Hr as [-> ->]. done.
    + injection Ha as <- <- <-. exists []. rewrite app_nil_r. split_and!; [done|constructor|by exists t].
    + injection Ha as <- <- <-. exists []. rewrite app_nil_r. split_and!; [done|constructor|done].
Qed.

(** ** Claims *)

(** C40: the merged listener loses nothing.  In every interleaving of the accept
    goroutines with the consumer, what each listener gave has been returned, is in
    the channel or is held by its goroutine, each exactly once and in the order
    of that listener; no more results wait in the channel, taken together, than
    there are listeners; a goroutine that has returned did so after handing over
    the error of a closed listener; and while something is waiting, either the consumer or the goroutine
    that holds it can go on. *)
Theorem multi_listener_fifo scripts m :
  rtc ml_step (NewMultiListener scripts) m ->
  (forall i script al, scripts !! i = Some script -> ml_loops m !! i = Some al ->
     from i (ml_out m) ++ from i (ml_chan m) ++ option_list (al_held al) ++ al_pending al = script /\
     (al_stopped al = true -> exists r, r ∈ from i (ml_out m ++ ml_chan m) /\ isClosed r = true) /\
     (is_Some (al_held al) -> is_Some (ml_do MReceive m) \/ is_Some (ml_do (MSend i) m))) /\
  (length (ml_chan m) <= length scripts)%nat.
Proof.
  intros (Hlen & Hc & Hf & Hok)%ml_reach_ok. split; [|done]. intros i script al Hs Hl.
  destruct (Hok _ _ _ Hs Hl) as [H1 H2]. rewrite from_app, <-(assoc_L (++)) in H1. split_and!; [done| |].
  - intros Hst. destruct (H2 Hst) as (_ & r & Hr & Hcl). exists r. split; [|done]. by apply last_Some_elem_of.
  - intros [r Hr]. simpl. destruct (ml_chan m) as [|x c] eqn:Hch; [|left; by eexists]. right.
    destruct al as [p h st]. simpl in *. subst h. destruct st; [by destruct (H2 eq_refl)|].
    rewrite Hl, Hlen. apply lookup_lt_Some in Hs. destruct (length scripts) eqn:E; [lia|]. simpl. by eexists.
Qed.

(** ** Witnesses *)

Definition demo_scripts : list (list loopResult) := [[inl 1%nat; inr NetErrClosed]; [inl 2%nat]].

Definition demo_merge : list ml_act := [MAccept 0; MAccept 1; MSend 1; MSend 0; MAccept 0; MReceive; MSend 0].

Lemma multi_listener_fifo_witness :
  exists m, ml_run demo_merge (NewMultiListener demo_scripts) = Some m /\
    from 0 (ml_out m) ++ from 0 (ml_chan m) = [inl 1%nat; inr NetErrClosed].
Proof.
  destruct (ml_run demo_merge (NewMultiListener demo_scripts)) as [m|] eqn:Hm; [|by vm_compute in Hm].
  exists m. split; [done|]. assert (rtc ml_step (NewMultiListener demo_scripts) m) as Hr by (by eapply ml_run_steps).
  vm_compute in Hm. injection Hm as <-.
  destruct (multi_listener_fifo _ _ Hr) as [H _]. destruct (H 0%nat _ _ eq_refl eq_refl) as (Heq & _). simpl in Heq.
  by rewrite app_nil_r in Heq || exact Heq.
Defined.
