(* ===== verification/Logger.v ===== *)
(** * Loggers: logger/zerolog.go, logger/noop.go, makeLogger of internal/cli/run_proxy.go

    A logger is a chain of contexts, each with the name so far and at most one
    bound parameter; [Named] and [Bind...] put a new context in front and leave
    the chain below as it is.  The events of the third-party package are the
    fields they are told, in order. *)

From S2P Require Import Prelude Config.

(** ** Events of zerolog *)

Inductive Level := DebugLevel | InfoLevel | WarnLevel.

#[export] Instance Level_eq_dec : EqDecision Level.
Proof. solve_decision. Defined.

Definition level_number (l : Level) : Z := match l with DebugLevel => 0 | InfoLevel => 1 | WarnLevel => 2 end.

Inductive fieldValue := VStr (s : string) | VInt (z : Z) | VRawJSON (s : string).

#[export] Instance fieldValue_eq_dec : EqDecision fieldValue.
Proof. solve_decision. Defined.

Record logEvent := mkEvent { ev_level : Level; ev_fields : list (string * fieldValue); ev_err : option goerr; ev_msg : string }.

(** ** The interface: Logger of mtglib/init.go *)

Class Logger (L : Type) := {
  Named : string -> L -> L;
  BindInt : string -> Z -> L -> L;
  BindStr : string -> string -> L -> L;
  BindJSON : string -> string -> L -> L;
  InfoError : L -> string -> option goerr -> option logEvent;
  WarningError : L -> string -> option goerr -> option logEvent;
  DebugError : L -> string -> option goerr -> option logEvent
}.

Section derived.
Context {L} `{Logger L}.

Definition Info (l : L) (msg : string) : option logEvent := InfoError l msg None.
Definition Warning (l : L) (msg : string) : option logEvent := WarningError l msg None.
Definition Debug_ (l : L) (msg : string) : option logEvent := DebugError l msg None.

(** [Printf]: the text is already formatted. *)
Definition Printf (l : L) (msg : string) : option logEvent := Debug_ l msg.
End derived.

(** ** zerolog *)

Definition loggerFieldName : string := "logger".

Inductive ctxVar := CtxUnknown | CtxStr (name value : string) | CtxInt (name : string) (value : Z) | CtxJSON (name value : string).

(** A context: [zl_level] is the global level of the package, [zl_parents] are
    the contexts above, the nearest first. *)
Record zeroLogContext := mkCtx { zl_name : string; zl_var : ctxVar }.

Record zerolog := mkZero { zl_level : Level; zl_self : zeroLogContext; zl_parents : list zeroLogContext }.

Definition NewZeroLogger (level : Level) : zerolog := mkZero level (mkCtx "" CtxUnknown) [].

Definition push (c : zeroLogContext) (z : zerolog) : zerolog := mkZero (zl_level z) c (zl_self z :: zl_parents z).

Definition zero_Named (name : string) (z : zerolog) : zerolog :=
  let loggerName := zl_name (zl_self z) in
  push (mkCtx (if bool_decide (loggerName = "") then name else (loggerName ++ "." ++ name)%string) CtxUnknown) z.

Definition zero_BindInt (name : string) (value : Z) (z : zerolog) : zerolog := push (mkCtx (zl_name (zl_self z)) (CtxInt name value)) z.
Definition zero_BindStr (name value : string) (z : zerolog) : zerolog := push (mkCtx (zl_name (zl_self z)) (CtxStr name value)) z.
Definition zero_BindJSON (name value : string) (z : zerolog) : zerolog := push (mkCtx (zl_name (zl_self z)) (CtxJSON name value)) z.

Definition attachCtx (c : zeroLogContext) (fields : list (string * fieldValue)) : list (string * fieldValue) :=
  match zl_var c with
  | CtxUnknown => fields
  | CtxStr n v => fields ++ [(n, VStr v)]
  | CtxInt n v => fields ++ [(n, VInt v)]
  | CtxJSON n v => fields ++ [(n, VRawJSON v)]
  end.

(** [emitLog] with the event of a level, which zerolog drops below the global
    one. *)
Definition emitLog (level : Level) (z : zerolog) (msg : string) (err : option goerr) : option logEvent :=
  if level_number level <? level_number (zl_level z) then None else
  let fields := attachCtx (zl_self z) [] in
  let fields := foldl (fun fs c => attachCtx c fs) fields (zl_parents z) in
  Some (mkEvent level (fields ++ [(loggerFieldName, VStr (zl_name (zl_self z)))]) err msg).

#[export] Instance zerolog_logger : Logger zerolog := {
  Named := zero_Named; BindInt := zero_BindInt; BindStr := zero_BindStr; BindJSON := zero_BindJSON;
  InfoError := emitLog InfoLevel; WarningError := emitLog WarnLevel; DebugError := emitLog DebugLevel }.

(** ** noop *)

Inductive noopLogger := NewNoopLogger.

#[export] Instance noop_logger : Logger noopLogger := {
  Named _ n := n; BindInt _ _ n := n; BindStr _ _ n := n; BindJSON _ _ n := n;
  InfoError _ _ _ := None; WarningError _ _ _ := None; DebugError _ _ _ := None }.

(** ** makeLogger *)

Definition makeLogger (conf : Config) : zerolog := NewZeroLogger (if c_Debug conf then DebugLevel else WarnLevel).

(** ** Specification *)

(** The calls that derive a logger, first to last. *)
Inductive log_op := ONamed (n : string) | OInt (n : string) (v : Z) | OStr (n v : string) | OJSON (n v : string).

Definition log_apply {L} `{Logger L} (l : L) (o : log_op) : L :=
  match o with ONamed n => Named n l | OInt n v => BindInt n v l | OStr n v => BindStr n v l | OJSON n v => BindJSON n v l end.

Definition bound (o : log_op) : list (string * fieldValue) :=
  match o with ONamed _ => [] | OInt n v => [(n, VInt v)] | OStr n v => [(n, VStr v)] | OJSON n v => [(n, VRawJSON v)] end.

Definition names_of (ops : list log_op) : list string := omap (fun o => match o with ONamed n => Some n | _ => None end) ops.

(** ** Proofs *)

Definition var_fields (c : zeroLogContext) : list (string * fieldValue) := attachCtx c [].

Lemma attachCtx_app c fs : attachCtx c fs = fs ++ var_fields c.
Proof. unfold var_fields, attachCtx. destruct (zl_var c); simpl; by rewrite ?app_nil_r. Qed.

Lemma attach_all l fs : foldl (fun fs c => attachCtx c fs) fs l = fs ++ concat (map var_fields l).
Proof. revert fs. induction l as [|c l IH]; intros fs; simpl; [by rewrite app_nil_r|]. by rewrite IH, attachCtx_app, app_assoc. Qed.

(** The chain that a sequence of calls leaves. *)
Lemma log_chain ops z :
  let z' := foldl log_apply z ops in
  concat (map var_fields (zl_self z' :: zl_parents z')) =
    concat (map bound (rev ops)) ++ concat (map var_fields (zl_self z :: zl_parents z)) /\
  zl_level z' = zl_level z.
Proof.
  revert z. induction ops as [|o ops IH]; intros z; [done|]. cbn [foldl]. destruct (IH (log_apply z o)) as [H1 H2].
  split; [|by rewrite H2; destruct o]. rewrite H1. simpl rev. rewrite map_app, concat_app. simpl. rewrite app_nil_r, <-app_assoc. f_equal.
  by destruct o.
Qed.

(** The names, joined by dots. *)
Lemma log_name ops z :
  zl_name (zl_self z) <> "" ->
  zl_name (zl_self (foldl log_apply z ops)) = foldl (fun s n => (s ++ "." ++ n)%string) (zl_name (zl_self z)) (names_of ops).
Proof.
  revert z. induction ops as [|o ops IH]; intros z Hz; [done|]. cbn [foldl].
  destruct o as [n|n v|n v|n v]; cbn [log_apply names_of omap list_omap]; (rewrite IH; [|simpl; try done]); cbn [Named BindInt BindStr BindJSON zerolog_logger]; try done.
  - unfold zero_Named. by rewrite bool_decide_false.
  - rewrite bool_decide_false by done. by destruct (zl_name (zl_self z)).
Qed.

Lemma log_name_start ops level :
  match names_of ops with
  | [] => zl_name (zl_self (foldl log_apply (NewZeroLogger level) ops)) = ""
  | n :: ns => n <> "" -> zl_name (zl_self (foldl log_apply (NewZeroLogger level) ops)) = foldl (fun s n => (s ++ "." ++ n)%string) n ns
  end.
Proof.
  assert (forall z, zl_name (zl_self z) = "" -> match names_of ops with
    | [] => zl_name (zl_self (foldl log_apply z ops)) = ""
    | n :: ns => n <> "" -> zl_name (zl_self (foldl log_apply z ops)) = foldl (fun s n => (s ++ "." ++ n)%string) n ns end) as H; [|by apply H].
  induction ops as [|[n|n v|n v|n v] ops IH]; intros z Hz; [done|..]; cbn [names_of omap list_omap foldl log_apply]; try (by apply IH).
  intros Hn. rewrite log_name; cbn [Named zerolog_logger]; unfold zero_Named; rewrite Hz, bool_decide_true by done; done.
Qed.

(** What a logger writes.  Whatever was called to derive it: a message below the
    configured level is dropped (without debugging, all but warnings); any other
    is one event with every bound parameter exactly once per binding, the latest
    first, and then the name, which is the names joined by dots.  The other
    logger writes nothing. *)
Theorem log_event conf ops (level : Level) msg err :
  let z := foldl log_apply (makeLogger conf) ops in
  emitLog level z msg err =
    (if negb (c_Debug conf) && bool_decide (level <> WarnLevel) then None
     else Some (mkEvent level (concat (map bound (rev ops)) ++ [(loggerFieldName, VStr (zl_name (zl_self z)))]) err msg)) /\
  (forall n ns, names_of ops = n :: ns -> n <> "" -> zl_name (zl_self z) = foldl (fun s n => (s ++ "." ++ n)%string) n ns) /\
  (forall l : noopLogger, InfoError (foldl log_apply l ops) msg err = None /\ WarningError (foldl log_apply l ops) msg err = None /\
                          DebugError (foldl log_apply l ops) msg err = None).
Proof.
  intros z. destruct (log_chain ops (makeLogger conf)) as [Hc Hl]. fold z in Hc, Hl. split_and!; [| |done].
  - unfold emitLog. rewrite attach_all, Hl. rewrite app_nil_r in Hc.
    change (attachCtx (zl_self z) []) with (var_fields (zl_self z)). cbn [map concat] in Hc. rewrite Hc.
    unfold makeLogger. destruct (c_Debug conf), level; simpl; done.
  - intros n ns Hn Hne. pose proof (log_name_start ops (zl_level (makeLogger conf))) as H. rewrite Hn in H. by apply H.
Qed.
