(* ===== verification/RunProxy.v ===== *)
(** * Running the proxy: internal/cli/run_proxy.go, run.go, simple_run.go

    From a configuration to a running process: the network, the caches and lists
    and the event stream are built from the configuration, [runProxy] fills the
    options of [NewProxy] with the configuration's getters, opens the listeners,
    serves, and stops on a signal or when the accept loop fails.

    The theorems compose the models of the parts: a configuration that
    [Validate] accepts is a proxy that [NewProxy] accepts, serving exactly the
    configured secrets with their tags and limits. *)

From S2P Require Import Prelude Events Metrics.
From S2P Require Import Encoding Secret GoTime Limits GoStrings GoNet GoDuration HostPort Network Blocklist ConfigTypes Config.
From S2P Require Import Stats SecretSet Proxy Pending DC ServeConn Server.

(** ** The parts *)

Section parts.
Context `{ConfigEnv}.

(** The network that is used: directly, through one proxy, through several. *)
Inductive network :=
  | Direct (base : v2network)
  | ViaProxy (base : v2network) (proxy : URL)
  | ViaProxies (base : v2network) (proxies : list URL).

(** The arguments of [network.New]. *)
Definition base_network (r : resolver) (tcp : Z) (conf : Config) : v2network :=
  v2_New (Some r) "" tcp
    (TypeDuration_Get (c_Timeout_HTTP conf) 0)
    (TypeDuration_Get (c_Timeout_Idle conf) 0)
    (mkKeepAlive (negb (TypeBool_Get (c_KeepAlive_Disabled conf) false))
       (TypeDuration_Get (c_KeepAlive_Idle conf) 0)
       (TypeDuration_Get (c_KeepAlive_Interval conf) 0)
       (TypeConcurrency_Get (c_KeepAlive_Count conf) 0))
    (int_of_uint (TypeBytes_Get (c_TCPNotSentLowat conf) DefaultTCPNotSentLowat)).

(** [NewResolver] and [proxy_FromURL] are constructors of third-party packages:
    the resolvers of go-dns and [proxy.FromURL] of golang.org/x/net. *)
Definition makeNetwork (NewResolver : resolver -> res ()) (proxy_FromURL : URL -> res ()) (conf : Config) : res network :=
  r ← wrap_err "cannot create DNS resolver" (GetDNS NewResolver (Config_GetDNS conf));
  let base := base_network r (TypeDuration_Get (c_Timeout_TCP conf) 0) conf in
  proxies ← foldr (fun u l => _ ← wrap_err "cannot use proxy url" (wrap_err "cannot build proxy dialer" (proxy_FromURL u));
                              l ← l; Ok (u :: l)) (Ok []) (c_Proxies conf);
  Ok (match proxies with
      | [] => Direct base
      | [u] => ViaProxy base u
      | _ => ViaProxies base proxies
      end).

(** The bits and the error rate of the filter, or nothing. *)
Definition makeAntiReplayCache (conf : Config) : option (Z * float64) :=
  if negb (TypeBool_Get (c_AntiReplay_Enabled conf) false) then None
  else Some (NewStableBloomFilter (TypeBytes_Get (c_AntiReplay_MaxSize conf) DefaultStableBloomFilterMaxSize)
               (TypeErrorRate_Get (c_AntiReplay_ErrorRate conf) DefaultStableBloomFilterErrorRate)).

(** The files of a list and the period of its updates; nothing for the list that
    contains no address. *)
Definition makeIPBlocklist (conf : ListConfig) : res (option (list string * Z)) :=
  if negb (TypeBool_Get (lc_Enabled conf) false) then Ok None else
  let remoteURLs := List.filter IsRemote (lc_URLs conf) in
  let localFiles := List.filter (fun v => negb (IsRemote v)) (lc_URLs conf) in
  files ← wrap_err "incorrect parameters for firehol" (NewFirehol os_Stat url_Parse remoteURLs localFiles);
  Ok (Some (files, run_period (TypeDuration_Get (lc_UpdateEach conf) DefaultFireholUpdateEach))).

Inductive allowlist := AllowEveryone (period : Z) | AllowListed (files : list string) (period : Z) | AllowNobody.

(** Without a list, everyone is admitted from memory. *)
Definition makeIPAllowlist (conf : ListConfig) : res allowlist :=
  if negb (TypeBool_Get (lc_Enabled conf) false)
  then Ok (AllowEveryone (run_period (TypeDuration_Get (lc_UpdateEach conf) DefaultFireholUpdateEach)))
  else l ← wrap_err "cannot build allowlist" (makeIPBlocklist conf);
       Ok (match l with Some (files, period) => AllowListed files period | None => AllowNobody end).

(** The exporters, in the order of their factories; none for the stream that
    drops events.  [dial] and [listen] are the network's answers for the statsd
    address and the Prometheus address. *)
Inductive exporter := StatsdExporter (address prefix tagFormat : string) | PrometheusExporter (prefix path : string).

Definition makeEventStream (dial listen : string -> res ()) (conf : Config) : res (list exporter) :=
  statsd ← (if TypeBool_Get (c_StatsD_Enabled conf) false then
              let address := TypeHostPort_Get (c_StatsD_Address conf) "" in
              _ ← wrap_err "cannot build statsd observer" (dial address);
              Ok [StatsdExporter address (TypeMetricPrefix_Get (c_StatsD_MetricPrefix conf) DefaultStatsdMetricPrefix)
                    (TypeStatsdTagFormat_Get (c_StatsD_TagFormat conf) DefaultStatsdTagFormat)]
            else Ok []);
  prometheus ← (if TypeBool_Get (c_Prometheus_Enabled conf) false then
                  _ ← wrap_err "cannot start a listener for prometheus" (listen (TypeHostPort_Get (c_Prometheus_BindTo conf) ""));
                  Ok [PrometheusExporter (TypeMetricPrefix_Get (c_Prometheus_MetricPrefix conf) DefaultMetricPrefix)
                        (TypeHTTPPath_Get (c_Prometheus_HTTPPath conf) "/")]
                else Ok []);
  Ok (statsd ++ prometheus).
End parts.

(** ** Warnings *)

Definition warnIgnoredOfficialEnvs (LookupEnv : string -> option string) : list string :=
  (if LookupEnv "WORKERS" then ["WORKERS environment variable is ignored"] else []) ++
  (if LookupEnv "SECRET_COUNT" then ["SECRET_COUNT environment variable is ignored"] else []).

Definition warnDeprecatedDomainFronting (conf : Config) : list string :=
  (match c_DomainFrontingIP conf with [] => [] | _ => ["domain-fronting-ip is deprecated and ignored"] end) ++
  (match c_DomainFronting_IP conf with [] => [] | _ => ["ip in [domain-fronting] is deprecated and ignored"] end).

(** ** Secrets *)

(** What the reloader gives for a configuration. *)
Definition secretConfig (conf : Config) : SecretConfig :=
  mkConfig (GetSecrets conf) (GetSecretAdTags conf) (GetAdTag conf) (GetSecretLimits conf).

(** [read] is [ReadConfig] at the time of the reload. *)
Definition makeSecretsReloader (configPath : string) (read : res Config) : option (res SecretConfig) :=
  if bool_decide (configPath = "") then None
  else Some (conf ← read; Ok (secretConfig conf)).

(** ** The options *)

Definition DoppelGangerPerRaid : Z := 10.
Definition DoppelGangerEach : Z := 6 * Hour.

Section run.
Context `{ConfigEnv}.

Definition runProxy_opts (conf : Config) (configPath : string) (read : res Config) : ProxyOpts := {|
  po_Secret := zeroSecret;
  po_Secrets := GetSecrets conf;
  po_Network := true;
  po_AntiReplayCache := true;
  po_IPBlocklist := true;
  po_IPAllowlist := true;
  po_EventStream := true;
  po_Logger := true;
  po_BufferSize := 0;
  po_Concurrency := GetConcurrency conf DefaultConcurrency;
  po_IdleTimeout := TypeDuration_Get (c_Timeout_Idle conf) DefaultIdleTimeout;
  po_HandshakeTimeout := TypeDuration_Get (c_Timeout_Handshake conf) DefaultHandshakeTimeout;
  po_TolerateTimeSkewness := c_TolerateTimeSkewness conf;
  po_PreferIP := TypePreferIP_Get (c_PreferIP conf) DefaultPreferIP;
  po_AutoUpdate := TypeBool_Get (c_AutoUpdate conf) false;
  po_DomainFrontingPort := GetDomainFrontingPort conf DefaultDomainFrontingPort;
  po_DomainFrontingHost := GetDomainFrontingHost conf;
  po_DomainFrontingIP := "";
  po_DomainFrontingProxyProtocol := GetDomainFrontingProxyProtocol conf false;
  po_AllowFallbackOnUnknownDC := TypeBool_Get (c_AllowFallbackOnUnknownDC conf) false;
  po_UseTestDCs := false;
  po_DCOverrides := ∅;
  po_DoppelGangerURLs := url_String <$> c_Doppelganger_URLs conf;
  po_DoppelGangerPerRaid := TypeConcurrency_Get (c_Doppelganger_Repeats conf) DoppelGangerPerRaid;
  po_DoppelGangerEach := TypeDuration_Get (c_Doppelganger_UpdateEach conf) DoppelGangerEach;
  po_DoppelGangerDRS := TypeBool_Get (c_Doppelganger_DRS conf) false;
  po_APIBindTo := TypeHostPort_Get (c_APIBindTo conf) "";
  po_ThrottleMaxConnections := TypeConcurrency_Get (c_Throttle_MaxConnections conf) 0;
  po_ThrottleCheckInterval := TypeDuration_Get (c_Throttle_CheckInterval conf) (5 * Second);
  po_SecretsReloader := makeSecretsReloader configPath read;
  po_GlobalAdTag := GetAdTag conf;
  po_SecretAdTags := GetSecretAdTags conf;
  po_SecretLimits := GetSecretLimits conf;
  po_UsageStateFile := c_UsageStateFile conf;
  po_EmitTraffic := TypeBool_Get (c_StatsD_Enabled conf) false || TypeBool_Get (c_Prometheus_Enabled conf) false;
  po_PublicIPv4 := TypeIP_Get (c_PublicIPv4 conf) [];
  po_PublicIPv6 := TypeIP_Get (c_PublicIPv6 conf) [];
  po_AdvertisedPort := int_of_uint (GetFirstBindPort conf);
  po_APIToken := GetAPIToken conf;
  po_PendingHandshakesPerIP := TypeConcurrency_Get (c_PendingHandshakes_MaxPerIP conf) 0;
  po_PendingHandshakesDryRun := TypeBool_Get (c_PendingHandshakes_DryRun conf) false
|}.
End run.

(** ** Listeners *)

(** The loop over the addresses: the listeners that are open, in order, or an
    error with those that were closed.  [listen] gives a listener or an error. *)
Fixpoint listenAll {L} (listen : string -> res L) (addrs : list string) (listeners : list L) : res (list L) * list L :=
  match addrs with
  | [] => (Ok listeners, [])
  | addr :: addrs =>
      match listen addr with
      | Fail e => (Fail (Wrap "cannot start proxy" e), listeners)
      | Ok l => listenAll listen addrs (listeners ++ [l])
      end
  end.

(** ** The start *)

(** What [runProxy] has built when it begins to serve; [rn_merged] tells whether
    the listeners are merged into one, [rn_proxyProtocol] whether the adapter of
    the PROXY protocol is in front of them. *)
Record running_proxy (L : Type) := mkRunning {
  rn_exporters : list exporter;
  rn_network : network;
  rn_blocklist : option (list string * Z);
  rn_allowlist : allowlist;
  rn_antiReplay : option (Z * float64);
  rn_fixed : fixedSettings;
  rn_world : world;
  rn_listeners : list L;
  rn_merged : bool;
  rn_proxyProtocol : bool
}.
Arguments mkRunning {L}.
Arguments rn_fixed {L}.
Arguments rn_world {L}.
Arguments rn_listeners {L}.
Arguments rn_merged {L}.

Section start.
Context `{ConfigEnv} {L : Type}.
(** The clock and the files as for [NewProxy]; the answers of the system to the
    statsd dial, the Prometheus listener and the proxy's own listeners; the
    constructors of third-party packages. *)
Context (now : Z) (shuffle : list Addr -> list Addr) (localOffset : Z -> Z).
Context (unmarshal : list byte -> res (gmap string usageRecord)) (read_err : option goerr) (fs : filesystem).
Context (dial_statsd listen_prometheus : string -> res ()) (listen : string -> res L).
Context (NewResolver : resolver -> res ()) (proxy_FromURL : URL -> res ()).

(** [runProxy] up to [Serve]; the warnings it logs do not change the outcome. *)
Definition runProxy (conf : Config) (configPath : string) (read : res Config) : res (running_proxy L) :=
  exporters ← wrap_err "cannot build event stream" (makeEventStream dial_statsd listen_prometheus conf);
  ntw ← wrap_err "cannot build network" (makeNetwork NewResolver proxy_FromURL conf);
  blocklist ← wrap_err "cannot build ip blocklist" (makeIPBlocklist (c_Blocklist conf));
  allowlist ← wrap_err "cannot build ip allowlist" (makeIPAllowlist (c_Allowlist conf));
  proxy ← wrap_err "cannot create a proxy" (NewProxy now shuffle localOffset unmarshal read_err fs (runProxy_opts conf configPath read));
  listeners ← (listenAll listen (GetBindAddrs conf) []).1;
  Ok (mkRunning exporters ntw blocklist allowlist (makeAntiReplayCache conf) proxy.1 proxy.2 listeners
        (negb (length listeners =? 1)%nat) (TypeBool_Get (c_ProxyProtocolListener conf) false)).
End start.

(** ** Waiting and stopping

    The goroutine that serves puts the result of [Serve] into a channel of one
    place and then cancels the context; a signal cancels it too.  The main
    goroutine waits for the context, looks into the channel once without waiting,
    stops the proxy, and returns. *)

Inductive mainPhase := MainWaiting | MainLooked (failure : option goerr) | MainStopped (failure : option goerr) | MainReturned (err : option goerr).

#[export] Instance mainPhase_eq_dec : EqDecision mainPhase.
Proof. solve_decision. Defined.

(** [sv_result] is what [Serve] returned; it is put into the channel in the same
    step, the channel having room. *)
Record process := mkProcess {
  sv_result : option (option goerr);
  serveErr : option (option goerr);
  ctx_done : bool;
  signalled : bool;
  main_phase : mainPhase
}.

Inductive proc_act :=
  | PServeReturns (err : option goerr)
  | PServeCancels
  | PSignal
  | PLook           (* the [select] after [ctx.Done()] *)
  | PStop           (* [stop()] *)
  | PReturn.

Definition proc_do (a : proc_act) (p : process) : option process :=
  match a with
  | PServeReturns err =>
      match sv_result p with
      | None => Some (mkProcess (Some err) (Some err) (ctx_done p) (signalled p) (main_phase p))
      | Some _ => None
      end
  | PServeCancels =>
      match sv_result p with
      | Some _ => Some (mkProcess (sv_result p) (serveErr p) true (signalled p) (main_phase p))
      | None => None
      end
  | PSignal => Some (mkProcess (sv_result p) (serveErr p) true true (main_phase p))
  | PLook =>
      match main_phase p with
      | MainWaiting =>
          if ctx_done p then
            match serveErr p with
            | Some err => Some (mkProcess (sv_result p) None true (signalled p) (MainLooked err))
            | None => Some (mkProcess (sv_result p) None true (signalled p) (MainLooked None))
            end
          else None
      | _ => None
      end
  | PStop =>
      match main_phase p with
      | MainLooked f => Some (mkProcess (sv_result p) (serveErr p) (ctx_done p) (signalled p) (MainStopped f))
      | _ => None
      end
  | PReturn =>
      match main_phase p with
      | MainStopped f =>
          Some (mkProcess (sv_result p) (serveErr p) (ctx_done p) (signalled p)
                  (MainReturned (match f with Some e => Some (Wrap "proxy stopped accepting connections" e) | None => None end)))
      | _ => None
      end
  end.

Definition proc_start : process := mkProcess None None false false MainWaiting.

Definition proc_step (p p' : process) : Prop := exists a, proc_do a p = Some p'.

Fixpoint proc_run (l : list proc_act) (p : process) : option process :=
  match l with [] => Some p | a :: l => p' ← proc_do a p; proc_run l p' end.

(** ** Proofs *)

Lemma default_size {A} (m : gmap string A) : (0 <? size m)%nat = negb (size m =? 0)%nat.
Proof. by destruct (size m). Qed.

Lemma GetSecrets_nonempty conf : (size (GetSecrets conf) =? 0)%nat = false.
Proof.
  unfold GetSecrets. rewrite default_size. destruct (size (c_Secrets conf) =? 0)%nat eqn:E; simpl; [by rewrite map_size_singleton|done].
Qed.

Lemma runProxy_getSecrets `{ConfigEnv} conf path read : getSecrets (runProxy_opts conf path read) = GetSecrets conf.
Proof. unfold getSecrets. simpl. by rewrite default_size, GetSecrets_nonempty. Qed.

Lemma runProxy_opts_valid `{ConfigEnv} conf path read :
  Validate conf = None -> opts_valid (runProxy_opts conf path read) = None.
Proof.
  intros (Hs & _)%Validate_ok. unfold opts_valid. rewrite runProxy_getSecrets, GetSecrets_nonempty. simpl.
  assert (forallb (fun kv => Valid kv.2) (map_to_list (GetSecrets conf)) = true) as ->; [|done].
  apply (forallb_map_to_list (fun _ s => Valid s)). intros k s Hk. by apply (Hs k).
Qed.

(** What the options of a preference that the configuration accepts give. *)
Lemma runProxy_preference `{ConfigEnv} conf path read s :
  c_PreferIP conf = "" \/ TypePreferIP_Set s = Ok (c_PreferIP conf) ->
  is_ok (Telegram_New (getPreferIP (runProxy_opts conf path read))) = true.
Proof.
  intros Hp. unfold getPreferIP. cbn [runProxy_opts po_PreferIP]. unfold TypePreferIP_Get, get_nonempty.
  destruct Hp as [->|Hp]; [vm_compute; reflexivity|]. unfold TypePreferIP_Set in Hp. case_bool_decide as Hin; [|done].
  injection Hp as <-. repeat (apply elem_of_cons in Hin as [->|Hin]; [vm_compute; reflexivity|]). by apply elem_of_nil in Hin.
Qed.

Lemma configured_names conf :
  Validate conf = None ->
  dom (GetSecretAdTags conf) ⊆ dom (GetSecrets conf) /\ dom (GetSecretLimits conf) ⊆ dom (GetSecrets conf).
Proof.
  intros (_ & _ & _ & _ & Ht & Hl)%Validate_ok. split.
  - intros n [t Hn]%elem_of_dom. unfold GetSecretAdTags in Hn. rewrite lookup_omap in Hn. apply Ht, elem_of_dom.
    destruct (c_SecretAdTags conf !! n); [by eexists|done].
  - intros n [t Hn]%elem_of_dom. unfold GetSecretLimits in Hn. rewrite lookup_omap in Hn. apply Hl, elem_of_dom.
    destruct (c_SecretLimits conf !! n); [by eexists|done].
Qed.

(** *** Listeners *)

Lemma listenAll_spec {L} (listen : string -> res L) addrs acc :
  match listenAll listen addrs acc with
  | (Ok ls, closed) => closed = [] /\ exists new, ls = acc ++ new /\ Forall2 (fun a l => listen a = Ok l) addrs new
  | (Fail _, closed) => exists new n, closed = acc ++ new /\ Forall2 (fun a l => listen a = Ok l) (take n addrs) new /\
      exists a e, addrs !! n = Some a /\ listen a = Fail e
  end.
Proof.
  revert acc. induction addrs as [|a addrs IH]; intros acc; simpl.
  - split; [done|]. exists []. by rewrite app_nil_r.
  - destruct (listen a) as [l|e] eqn:Hl.
    + specialize (IH (acc ++ [l])). destruct (listenAll listen addrs (acc ++ [l])) as [[ls|e'] closed].
      * destruct IH as (-> & new & -> & Hn). split; [done|]. exists (l :: new). split; [by rewrite <-(assoc_L (++))|by constructor].
      * destruct IH as (new & n & -> & Hn & Hf). exists (l :: new), (S n). split; [by rewrite <-(assoc_L (++))|]. split; [by constructor|done].
    + exists [], 0%nat. rewrite app_nil_r. split; [done|]. split; [constructor|]. by exists a, e.
Qed.

(** *** The process *)

Definition reported (f : option goerr) : option goerr :=
  match f with Some e => Some (Wrap "proxy stopped accepting connections" e) | None => None end.

(** The failure the main goroutine has seen. *)
Definition saw (p : process) (f : option goerr) : Prop :=
  main_phase p = MainLooked f \/ main_phase p = MainStopped f \/ main_phase p = MainReturned (reported f).

(** The channel holds the result of [Serve] until the main goroutine looks;
    without a signal, the context is done only after the result was put there. *)
Record proc_ok (p : process) : Prop := mkProcOk {
  pok_chan : main_phase p = MainWaiting -> serveErr p = sv_result p;
  pok_done : signalled p = false -> ctx_done p = true -> is_Some (sv_result p);
  pok_saw : main_phase p <> MainWaiting ->
    exists f, saw p f /\ (signalled p = false -> sv_result p = Some f) /\ (f <> None -> sv_result p = Some f)
}.

Lemma proc_do_ok a p p' : proc_ok p -> proc_do a p = Some p' -> proc_ok p'.
Proof.
  intros [H1 H2 H3] Hdo. unfold saw in *. destruct p as [sv ch done sig ph]. simpl in *.
  destruct a; simpl in Hdo; repeat case_match; simplify_eq/=; split; unfold saw; simpl in *; try done; try naive_solver.
Qed.

Lemma proc_reach_ok p : rtc proc_step proc_start p -> proc_ok p.
Proof.
  intros Hr. assert (proc_ok proc_start) as Hi by (by split).
  induction Hr as [|p0 p1 p2 [a Ha] _ IH]; [done|]. apply IH. by eapply proc_do_ok.
Qed.

Lemma proc_run_steps l p p' : proc_run l p = Some p' -> rtc proc_step p p'.
Proof.
  revert p. induction l as [|a l IH]; intros p Hr; simplify_eq/=; [apply rtc_refl|].
  destruct (proc_do a p) as [p1|] eqn:Hdo; simplify_eq/=. eapply rtc_l; [by exists a|]. by apply IH.
Qed.

(** An ordinary stop: the error of the closed listener is not a failure. *)
Example ordinary_stop :
  main_phase <$> proc_run [PSignal; PLook; PStop; PServeReturns (Some (Errorf "closed")); PReturn] proc_start = Some (MainReturned None).
Proof. reflexivity. Qed.

(** ** Claims *)

(** C32: a validated configuration is served.  From a configuration that
    [Validate] accepts (with an IP preference that is absent or was accepted when
    it was read), [runProxy] makes options that [NewProxy] accepts, and the proxy
    serves exactly the configured secrets: at each position of its snapshot are
    the configured secret of that name, its advertising tag and its limits; no
    configured tag or limit is left without a secret; and a reload of the
    unchanged file gives the same snapshot again. *)
Theorem run_serves_config `{ConfigEnv} conf configPath read now shuffle localOffset unmarshal read_err fs :
  Validate conf = None -> (c_PreferIP conf = "" \/ exists s, TypePreferIP_Set s = Ok (c_PreferIP conf)) ->
  exists fx w, NewProxy now shuffle localOffset unmarshal read_err fs (runProxy_opts conf configPath read) = Ok (fx, w) /\
    let set := p_secrets (w_proxy w) in
    (forall n, n ∈ names set <-> is_Some (GetSecrets conf !! n)) /\
    (forall i n, names set !! i = Some n ->
       exists s, GetSecrets conf !! n = Some s /\
         entry_at set i = Some (mkEntry s (GetSecretAdTags conf !! n) (default noLimits (GetSecretLimits conf !! n)))) /\
    (dom (GetSecretAdTags conf) ∪ dom (GetSecretLimits conf) ⊆ dom (GetSecrets conf)) /\
    (configPath <> "" -> read = Ok conf -> exists c, fx_reloader fx = Some (Ok c) /\ buildConfig c = set).
Proof.
  intros Hv Hp. assert (is_ok (Telegram_New (getPreferIP (runProxy_opts conf configPath read))) = true) as Htg.
  { destruct Hp as [Hp|[s Hp]]; [by apply (runProxy_preference _ _ _ ""); left|by apply (runProxy_preference _ _ _ s); right]. }
  unfold NewProxy. rewrite runProxy_opts_valid by done. destruct (Telegram_New _) as [tg|]; [|done]. cbn [wrap_err mbind res_bind].
  eexists _, _. split; [reflexivity|]. cbn [w_proxy p_secrets fx_reloader]. rewrite runProxy_getSecrets.
  cbn [runProxy_opts po_SecretAdTags po_GlobalAdTag po_SecretLimits po_SecretsReloader]. split_and!.
  - intros n. apply names_elem.
  - intros i n Hi. rewrite (build_entry_at _ _ _ _ _ _ Hi).
    assert (is_Some (GetSecrets conf !! n)) as [s Hs] by (eapply names_elem, list_elem_of_lookup_2, Hi).
    exists s. split; [done|]. unfold entry_of. simpl. by rewrite Hs.
  - destruct (configured_names conf Hv). set_solver.
  - intros Hc Hr. unfold makeSecretsReloader. rewrite bool_decide_false by done. rewrite Hr. by eexists.
Qed.

(** All listeners or none.  If every address can be listened on, the proxy
    has one listener per address, in order, and none was closed; if one cannot,
    the start fails and the listeners that were opened before it, all of them,
    have been closed. *)
Theorem listeners_all_or_none {L} (listen : string -> res L) conf :
  match listenAll listen (GetBindAddrs conf) [] with
  | (Ok ls, closed) => closed = [] /\ Forall2 (fun a l => listen a = Ok l) (GetBindAddrs conf) ls
  | (Fail _, closed) => exists n a e, GetBindAddrs conf !! n = Some a /\ listen a = Fail e /\
      Forall2 (fun a l => listen a = Ok l) (take n (GetBindAddrs conf)) closed
  end.
Proof.
  pose proof (listenAll_spec listen (GetBindAddrs conf) []) as Hs.
  destruct (listenAll listen (GetBindAddrs conf) []) as [[ls|e] closed].
  - by destruct Hs as (-> & new & -> & Hn).
  - destruct Hs as (new & n & -> & Hn & a & e' & Ha & He). by exists n, a, e'.
Qed.

(** A start succeeds exactly when each part does: with a validated
    configuration, [runProxy] serves if and only if the exporters, the network,
    both lists and all listeners can be made, and then on one listener for every
    configured address, merged unless there is only one. *)
Theorem runProxy_starts `{ConfigEnv} {L} now shuffle lo unm rerr fs dial lprom (listen : string -> res L) nr pf conf configPath read :
  Validate conf = None -> (c_PreferIP conf = "" \/ exists s, TypePreferIP_Set s = Ok (c_PreferIP conf)) ->
  let r := runProxy now shuffle lo unm rerr fs dial lprom listen nr pf conf configPath read in
  is_ok r = is_ok (makeEventStream dial lprom conf) && is_ok (makeNetwork nr pf conf) && is_ok (makeIPBlocklist (c_Blocklist conf)) &&
            is_ok (makeIPAllowlist (c_Allowlist conf)) && forallb (fun a => is_ok (listen a)) (GetBindAddrs conf) /\
  (forall x, r = Ok x -> Forall2 (fun a l => listen a = Ok l) (GetBindAddrs conf) (rn_listeners x) /\
     rn_merged x = negb (length (GetBindAddrs conf) =? 1)%nat /\
     NewProxy now shuffle lo unm rerr fs (runProxy_opts conf configPath read) = Ok (rn_fixed x, rn_world x)).
Proof.
  intros Hv Hp. assert (is_ok (NewProxy now shuffle lo unm rerr fs (runProxy_opts conf configPath read)) = true) as Hn.
  { unfold NewProxy. rewrite runProxy_opts_valid by done.
    assert (is_ok (Telegram_New (getPreferIP (runProxy_opts conf configPath read))) = true) as Htg
      by (destruct Hp as [Hp|[s Hp]]; [by apply (runProxy_preference _ _ _ ""); left|by apply (runProxy_preference _ _ _ s); right]).
    by destruct (Telegram_New _). }
  unfold runProxy. destruct (makeEventStream dial lprom conf) as [ex|]; [|done]. destruct (makeNetwork nr pf conf) as [ntw|]; [|done].
  destruct (makeIPBlocklist (c_Blocklist conf)) as [bl|]; [|done]. destruct (makeIPAllowlist (c_Allowlist conf)) as [al|]; [|done].
  destruct (NewProxy now shuffle lo unm rerr fs (runProxy_opts conf configPath read)) as [[fx w]|]; [|done].
  cbn [wrap_err mbind res_bind is_ok andb fst snd].
  pose proof (listenAll_spec listen (GetBindAddrs conf) []) as Hl. destruct (listenAll listen (GetBindAddrs conf) []) as [[ls|e] closed].
  - destruct Hl as (_ & new & -> & Hf). cbn [fst res_bind is_ok app]. split.
    + symmetry. clear -Hf. induction Hf as [|a l addrs ls Ha _ IH]; simpl; [done|]. by rewrite Ha, IH.
    + intros x [= <-]. cbn. split_and!; [done| |done]. by rewrite (Forall2_length _ _ _ Hf).
  - destruct Hl as (new & n & _ & _ & a & e' & Ha & He). cbn [fst res_bind is_ok]. split; [|done].
    symmetry. apply not_true_iff_false. rewrite forallb_forall. intros Hall.
    specialize (Hall a (proj1 (list_elem_of_In _ _) (list_elem_of_lookup_2 _ _ _ Ha))). by rewrite He in Hall.
Qed.

(** C33: the exit status tells the truth.  In every interleaving of the serving
    goroutine, signals and the main goroutine: without a signal the process
    returns what [Serve] returned, so an accept loop that fails is always
    reported; and an error is returned only if [Serve] itself failed. *)
Theorem exit_status p r :
  rtc proc_step proc_start p -> main_phase p = MainReturned r ->
  (signalled p = false -> exists e, sv_result p = Some e /\ r = reported e) /\
  (r <> None -> exists e, sv_result p = Some (Some e) /\ r = reported (Some e)).
Proof.
  intros [_ _ Hs]%proc_reach_ok Hr. destruct Hs as (f & Hf & H1 & H2); [by rewrite Hr|].
  destruct Hf as [Hf|[Hf|Hf]]; rewrite Hr in Hf; [done..|]. injection Hf as ->. split.
  - intros Hsig. exists f. split; [by apply H1|done].
  - intros Hne. destruct f as [e|]; [|done]. exists e. split; [by apply H2|done].
Qed.

(** ** Witnesses *)

Definition demo_config_env : ConfigEnv := {|
  url_Parse _ := Fail (Errorf "no url");
  url_String := url_text;
  os_Stat _ := None;
  filepath_Abs s := Ok s;
  filepath_IsAbs s := HasPrefix s "/";
  ParseBase2Bytes _ := Fail (Errorf "no unit");
  Base2Bytes_String := Itoa
|}.

Lemma run_serves_config_witness :
  exists fx w, NewProxy 0 (fun l => l) (fun _ => 0) (fun _ => Ok ∅) None ∅ (@runProxy_opts demo_config_env demo_conf "config.toml" (Ok demo_conf)) = Ok (fx, w) /\
    names (p_secrets (w_proxy w)) = ["bob"].
Proof.
  destruct (@run_serves_config demo_config_env demo_conf "config.toml" (Ok demo_conf) 0 (fun l => l) (fun _ => 0) (fun _ => Ok ∅) None ∅)
    as (fx & w & Hn & _); [vm_compute; reflexivity|by left|].
  exists fx, w. split; [done|]. revert Hn. unfold NewProxy. rewrite runProxy_opts_valid by (vm_compute; reflexivity).
  destruct (Telegram_New _); [|done]. intros [= <- <-]. vm_compute. reflexivity.
Defined.

Lemma exit_status_witness :
  exists p, proc_run [PServeReturns (Some (Errorf "accept")); PServeCancels; PLook; PStop; PReturn] proc_start = Some p /\
    main_phase p = MainReturned (Some (Wrap "proxy stopped accepting connections" (Errorf "accept"))).
Proof.
  destruct (proc_run _ proc_start) as [p|] eqn:Hp; [|by vm_compute in Hp]. exists p. split; [done|].
  assert (rtc proc_step proc_start p) as Hr by (by eapply proc_run_steps).
  vm_compute in Hp. injection Hp as <-.
  destruct (exit_status _ _ Hr eq_refl) as [H _]. destruct (H eq_refl) as (e & He & Hw). injection He as <-. by rewrite Hw.
Defined.
