(* ===== verification/HTTPClient.v ===== *)
(** * HTTP clients of a network: network/network.go, network/v2/network.go,
    proxy_network.go, multi_network.go, http.go, [makeClient] of
    mtglib/internal/doppel/scout.go

    A network makes the HTTP clients with which the proxy fetches lists and
    Telegram's configuration, and lends the native dialer that skips upstream
    proxies.  Networks are layered: a SOCKS network embeds its base, a joined
    network holds several.  Which layer's dialer, timeouts and user agent a
    client ends up with is what is modelled and proved here.  The HTTP protocol
    itself is net/http: a transport is its settings and its dial function. *)

From S2P Require Import Prelude GoTime GoStrings GoNet HostPort Network ConfigTypes Config RunProxy.
From Stdlib Require Import String.
Open Scope string_scope.
Open Scope list_scope.
Open Scope Z_scope.

(** ** Clients *)

Section clients.
Context {E : Type} `{NetEnv E}.
Notation Dialer := (@Network.Dialer E).

(** [http.Client] with the transport inside [networkHTTPTransport]. *)
Record httpClient := mkClient {
  hc_Timeout : Z;
  hc_IdleConnTimeout : Z;
  hc_userAgent : string;
  hc_DialContext : Dialer
}.

(** [RoundTrip] changes the header and passes the request on to [next]. *)
Definition RoundTrip {A} (c : httpClient) (next : gmap string (list string) -> A) (header : gmap string (list string)) : A :=
  next (<["User-Agent" := [hc_userAgent c]]> header).

(** *** network/network.go *)

Definition DNSTimeout : Z := 5 * Second.

Definition makeHTTPClient (userAgent : string) (timeout : Z) (dialFunc : Dialer) : httpClient :=
  mkClient timeout 0 userAgent dialFunc.

Record v1network := mkV1 { v1_dialer : Dialer; v1_httpTimeout : Z; v1_userAgent : string; v1_dns : string * httpClient }.

(** [NewNetwork] as a whole: the resolver gets a client of its own. *)
Definition v1_New (dialer : Dialer) (userAgent dohHostname : string) (timeout : Z) : res v1network :=
  '(timeout, host) ← NewNetwork dohHostname timeout;
  Ok (mkV1 dialer timeout userAgent (host, makeHTTPClient userAgent DNSTimeout dialer)).

Definition v1_MakeHTTPClient (dialFunc : option Dialer) (n : v1network) : httpClient :=
  makeHTTPClient (v1_userAgent n) (v1_httpTimeout n) (default (network_DialContext (v1_dns n).1 (v1_dialer n)) dialFunc).

(** *** The layers of network/v2 *)

(** [client] is the dialer of the SOCKS package. *)
Inductive Ntw :=
  | NBase (n : v2network)
  | NProxy (base : Ntw) (client : Dialer)
  | NMulti (networks : list Ntw).

(** [DialContext] of each layer; [Dial] is the same with a background context. *)
Fixpoint DialContext (n : Ntw) : Dialer :=
  match n with
  | NBase n => v2_DialContext n
  | NProxy _ client => proxyNetwork_DialContext client
  | NMulti l => multi_DialContext (map DialContext l)
  end.

(** [NativeDialer]: its timeout, fallback delay and resolver; an empty joined
    network has no first element: [None]. *)
Fixpoint NativeDialer (n : Ntw) : option (Z * Z * option resolver) :=
  match n with
  | NBase n => Some (dialer_Timeout n, FallbackDelay n, dialer_Resolver n)
  | NProxy base _ => NativeDialer base
  | NMulti [] => None
  | NMulti (n :: _) => NativeDialer n
  end.

Definition v2_MakeHTTPClient (dialFunc : option Dialer) (b : v2network) : httpClient :=
  mkClient (httpTimeout b) (idleTimeout b) (userAgent b) (default (v2_DialContext b) dialFunc).

(** A network above another one: without a dial function, the one below gets its
    own [DialContext]. *)
Definition layered_MakeHTTPClient (self : Dialer) (below : option Dialer -> option httpClient) (dialFunc : option Dialer) : option httpClient :=
  below (Some (default self dialFunc)).

Fixpoint MakeHTTPClient (dialFunc : option Dialer) (n : Ntw) : option httpClient :=
  match n with
  | NBase b => Some (v2_MakeHTTPClient dialFunc b)
  | NProxy base _ => layered_MakeHTTPClient (DialContext n) (fun d => MakeHTTPClient d base) dialFunc
  | NMulti [] => None
  | NMulti (first :: _) => layered_MakeHTTPClient (DialContext n) (fun d => MakeHTTPClient d first) dialFunc
  end.

(** [DialContext] of a [net.Dialer]: no socket options of the program's own. *)
Definition native_DialContext : Dialer := fun network address w =>
  match net_DialContext network address w with
  | (w, inl fd) => (w, (Some fd, None))
  | (w, inr err) => (w, (None, Some err))
  end.

(** [makeClient] of the scout: connections are native ones inside [ScoutConn]. *)
Definition scout_makeClient (n : Ntw) : option httpClient :=
  match NativeDialer n with
  | None => None
  | Some _ => MakeHTTPClient (Some native_DialContext) n
  end.

(** The client of [getIP]: the family of the dial is the one that is asked for,
    not the transport's. *)
Definition getIP_client (protocol : string) (n : Ntw) : option httpClient :=
  match NativeDialer n with
  | None => None
  | Some _ => MakeHTTPClient (Some (fun _ address => native_DialContext protocol address)) n
  end.

(** [NewProxyNetwork]: [FromURL] of the SOCKS package gets the dialer of
    [proxyServerDialer]; [None] is the panic of [NativeDialer]. *)
Definition NewProxyNetwork (FromURL : URL -> Z * Z * option resolver -> res Dialer) (base : Ntw) (u : URL) : option (res Ntw) :=
  match NativeDialer base with
  | None => None
  | Some (timeout, delay, _) => Some (client ← wrap_err "cannot build proxy dialer" (FromURL u (timeout, delay, None)); Ok (NProxy base client))
  end.

(** The network that [makeNetwork] describes, with the dialers of its proxies. *)
Definition layers (client : v2network -> URL -> Dialer) (n : RunProxy.network) : Ntw :=
  match n with
  | RunProxy.Direct base => NBase base
  | ViaProxy base u => NProxy (NBase base) (client base u)
  | ViaProxies base l => NMulti (map (fun u => NProxy (NBase base) (client base u)) l)
  end.

(** ** Proofs *)

(** The settings of a client are those of the first base network below. *)
Fixpoint first_base (n : Ntw) : option v2network :=
  match n with
  | NBase n => Some n
  | NProxy base _ => first_base base
  | NMulti [] => None
  | NMulti (n :: _) => first_base n
  end.

Definition client_of (b : v2network) (d : Dialer) : httpClient := mkClient (httpTimeout b) (idleTimeout b) (userAgent b) d.

Lemma MakeHTTPClient_some n : forall d, MakeHTTPClient (Some d) n = (fun b => client_of b d) <$> first_base n.
Proof.
  revert n. fix IH 1. intros [b|base c|[|n l]] d; cbn [MakeHTTPClient first_base]; unfold layered_MakeHTTPClient; cbn [default]; [done|apply IH|done|].
  exact (IH n d).
Qed.

(** The promise of the interface: a client dials with the function it is given,
    or else with the network's own [DialContext], whatever the layer. *)
Lemma MakeHTTPClient_spec n d : MakeHTTPClient d n = (fun b => client_of b (default (DialContext n) d)) <$> first_base n.
Proof.
  destruct d as [d|]; [apply MakeHTTPClient_some|].
  destruct n as [b|base c|[|n l]]; cbn [MakeHTTPClient]; unfold layered_MakeHTTPClient; cbn [default]; [done|by rewrite MakeHTTPClient_some..|done|].
  by rewrite MakeHTTPClient_some.
Qed.

Lemma NativeDialer_spec n : NativeDialer n = (fun b => (dialer_Timeout b, FallbackDelay b, dialer_Resolver b)) <$> first_base n.
Proof. revert n. fix IH 1. intros [b|base c|[|n l]]; cbn [NativeDialer first_base]; [done|apply IH|done|exact (IH n)]. Qed.

(** A network whose every dial goes through the dialer of a SOCKS package. *)
Fixpoint proxied (n : Ntw) : bool :=
  match n with
  | NBase _ => false
  | NProxy _ _ => true
  | NMulti l => forallb proxied l
  end.

(** A dialer that cannot reach its proxy: an error, and no socket. *)
Definition down (d : Dialer) : Prop := forall network address w,
  (d network address w).2.1 = None /\ is_Some (d network address w).2.2 /\
  opened (d network address w).1 = opened w /\ nextFd (d network address w).1 = nextFd w.

Fixpoint all_down (n : Ntw) : Prop :=
  match n with
  | NBase _ => True
  | NProxy _ client => down client
  | NMulti l => foldr and True (map all_down l)
  end.

Lemma dial_networks_down (l : list Dialer) network address errs w :
  Forall down l ->
  let r := dial_networks l network address errs w in
  r.2.1 = None /\ is_Some r.2.2 /\ opened r.1 = opened w /\ nextFd r.1 = nextFd w.
Proof.
  intros Hl. revert errs w. induction Hl as [|d l Hd Hl IH]; intros errs w; cbn zeta.
  - split_and!; [done|by eexists|done..].
  - destruct (Hd network address w) as (H1 & H2 & H3 & H4).
    assert (dial_networks (d :: l) network address errs w =
      match d network address w with
      | (w1, (conn, None)) => (w1, (conn, None))
      | (w1, (_, Some err)) => dial_networks l network address (errs ++ [err]) w1
      end) as ->.
    { cbn [dial_networks]. unfold mbind, M_bind, mret, M_ret. by destruct (d network address w) as [w1 [conn [err|]]]. }
    destruct (d network address w) as [w1 [conn [err|]]]; cbn [fst snd] in *; [|by destruct H2].
    specialize (IH (errs ++ [err]) w1). cbn zeta in IH. rewrite H3, H4 in IH. done.
Qed.

Lemma multi_down (l : list Dialer) : Forall down l -> down (multi_DialContext l).
Proof.
  intros Hl network address w. unfold multi_DialContext. destruct (1 <? List.length l)%nat.
  - unfold mbind, M_bind. pose proof (Shuffle_perm l w) as Hp. destruct (quiet (m := Shuffle l) w) as (H1 & H2 & _).
    destruct (Shuffle l w) as [w1 l']. cbn [fst snd] in *. rewrite <-H1, <-H2. apply dial_networks_down. by rewrite Hp.
  - by apply dial_networks_down.
Qed.

Lemma proxied_down n : proxied n = true -> all_down n -> down (DialContext n).
Proof.
  revert n. fix IH 1. intros [b|base client|l]; cbn [proxied all_down DialContext]; [done| |].
  - intros _ Hd network address w. destruct (Hd network address w) as (H1 & H2 & H3 & H4).
    unfold proxyNetwork_DialContext, mbind, M_bind, mret, M_ret.
    destruct (client network address w) as [w1 [conn [err|]]]; cbn [fst snd] in *; [by split_and!; eauto|by destruct H2].
  - intros Hp Hd. apply multi_down. revert l Hp Hd. fix IHl 1. intros [|n l]; cbn [forallb map foldr]; [constructor|].
    intros [H1 H2]%andb_true_iff [H3 H4]. constructor; [by apply IH|by apply IHl].
Qed.

(** The clients of the network that a configuration describes. *)
Lemma layers_base client (n : RunProxy.network) :
  match n with ViaProxies _ [] => False | _ => True end ->
  first_base (layers client n) = Some (match n with RunProxy.Direct b | ViaProxy b _ | ViaProxies b _ => b end).
Proof. destruct n as [b|b u|b [|u l]]; done. Qed.
End clients.

(** What [makeNetwork] builds: the configured proxies over the base network. *)
Lemma makeNetwork_shape `{ConfigEnv} NewResolver FromURL conf n :
  makeNetwork NewResolver FromURL conf = Ok n ->
  exists r, let b := base_network r (TypeDuration_Get (c_Timeout_TCP conf) 0) conf in
  n = match c_Proxies conf with [] => RunProxy.Direct b | [u] => ViaProxy b u | l => ViaProxies b l end.
Proof.
  assert (forall us l, foldr (fun u l => _ ← wrap_err "cannot use proxy url" (wrap_err "cannot build proxy dialer" (FromURL u));
     l ← l; Ok (u :: l)) (Ok []) us = Ok l -> l = us) as Hps.
  { induction us as [|u us IH]; intros l; cbn [foldr]; [intros E1; by injection E1|].
    destruct (FromURL u) as [[]|e]; [|done]. cbn. destruct (foldr _ _ us) as [l'|e]; [|done].
    intros E1. injection E1 as <-. f_equal. by apply IH. }
  unfold makeNetwork. destruct (wrap_err _ (GetDNS _ _)) as [r|e]; [|done]. cbn [mbind res_bind].
  specialize (Hps (c_Proxies conf)). destruct (foldr _ _ _) as [l|e]; [|done]. cbn.
  rewrite (Hps l eq_refl). intros E1. injection E1 as <-. exists r. by destruct (c_Proxies conf) as [|? [|]].
Qed.

(** The network that is built from a configuration.  All HTTP clients have the
    timeouts and the user agent of the base network; the ones that fetch lists
    and Telegram's configuration dial with the network's own [DialContext], so
    that they use the configured proxies, and with proxies that cannot be
    reached they open no connection at all; scouting a web server and asking for
    the own address use the native dialer in any case. *)
Theorem http_clients {E} `{NetEnv E} `{ConfigEnv} NewResolver FromURL (client : v2network -> URL -> @Network.Dialer E) conf n :
  makeNetwork NewResolver FromURL conf = Ok n ->
  exists r, let b := base_network r (TypeDuration_Get (c_Timeout_TCP conf) 0) conf in
  let net := layers client n in
  NativeDialer net = Some (dialer_Timeout b, FallbackDelay b, dialer_Resolver b) /\
  MakeHTTPClient None net = Some (client_of b (DialContext net)) /\
  scout_makeClient net = Some (client_of b native_DialContext) /\
  (forall protocol, exists d, getIP_client protocol net = Some (client_of b d) /\
     forall network address, d network address = native_DialContext protocol address) /\
  (c_Proxies conf = [] -> DialContext net = v2_DialContext b) /\
  (c_Proxies conf <> [] -> (forall u, u ∈ c_Proxies conf -> down (client b u)) -> down (DialContext net)).
Proof.
  intros Hn. destruct (makeNetwork_shape _ _ _ _ Hn) as [r ->]. exists r. set (b := base_network _ _ _). cbn zeta.
  set (net := layers _ _). assert (first_base net = Some b) as Hb by (unfold net; by destruct (c_Proxies conf) as [|? [|]]).
  unfold scout_makeClient, getIP_client. rewrite !NativeDialer_spec, !MakeHTTPClient_spec, Hb. cbn [fmap option_fmap option_map default].
  split_and!; [done..| | |].
  - intros protocol. eexists. rewrite MakeHTTPClient_spec, Hb. split; [done|]. done.
  - unfold net. by intros ->.
  - intros Hne Hd. apply proxied_down; unfold net; destruct (c_Proxies conf) as [|u [|v l]]; try done; cbn [layers proxied all_down].
    + apply forallb_forall. by intros ? (? & <- & _)%in_map_iff.
    + apply Hd. set_solver.
    + revert Hd. generalize (u :: v :: l). intros us Hd. induction us as [|x us IH]; cbn [map foldr]; [done|].
      split; [apply Hd; set_solver|]. apply IH. intros y Hy. apply Hd. set_solver.
Qed.

(** The DNS-over-HTTPS client of the first package dials the resolver with the
    dialer below the network, so that resolving a name never needs a name to be
    resolved. *)
Theorem doh_client_below {E} `{NetEnv E} (d : Dialer) agent host timeout (n : v1network) :
  v1_New d agent host timeout = Ok n ->
  ParseIP host <> None /\ hc_DialContext (v1_dns n).2 = d /\ hc_Timeout (v1_dns n).2 = 5 * Second /\ 0 < v1_httpTimeout n /\
  hc_DialContext (v1_MakeHTTPClient None n) = network_DialContext (newDNSResolver_host host) d.
Proof.
  unfold v1_New, NewNetwork. destruct (timeout <? 0) eqn:E1; [done|]. case_bool_decide as Hp; [done|].
  cbn. intros E2. injection E2 as <-. cbn. split_and!; try done.
  destruct (timeout =? 0) eqn:E2; zbool; [done|lia].
Qed.

(** ** Examples *)

Definition dead : @Dialer () := fun _ _ w => (w, (None, Some (NErr "proxy is down"))).

Definition joined0 : Ntw := NMulti [NProxy (NBase network0) dead; NProxy (NBase network0) dead].

(** With both proxies down, a list is not fetched and the scout still dials. *)
Example proxies_down :
  let dial c := size (opened (hc_DialContext c "tcp" "10.0.0.1:443" world0).1) in
  (dial <$> @MakeHTTPClient () no_linger None joined0, dial <$> @scout_makeClient () no_linger joined0) = (Some 0%nat, Some 1%nat).
Proof. vm_compute. reflexivity. Qed.

Example user_agent_replaced :
  (fun c => RoundTrip c id {[ "User-Agent" := ["Go-http-client/1.1"]; "Accept" := ["*/*"] ]}) <$> @MakeHTTPClient () no_linger None joined0 =
  Some {[ "User-Agent" := ["curl/8.5.0"]; "Accept" := ["*/*"] ]}.
Proof. vm_compute. reflexivity. Qed.
