(* ===== verification/DCProbe.v ===== *)
(** * The data-centre probe: mtglib/dcprobe/probe.go

    A probe sends req_pq_multi over a fresh obfuscated2 connection and checks
    that the peer answers with a resPQ that echoes its nonce.  The peer's side is
    the bytes it sends; they are decrypted by the connection's receive cipher as
    [Obfuscation] shows. *)

From S2P Require Import Prelude GoTime GoIO Obfuscation.

Definition ctorReqPQMulti : Z := 0xbe7e8ef1.
Definition ctorResPQ : Z := 0x05162463.
Definition minResPQFrame : Z := 20 + 4 + 16.
Definition maxResPQFrame : Z := 256.

Definition ErrNotTelegram : goerr := Errorf "peer did not respond with a matching resPQ".

(** [generateMessageID] at a time in nanoseconds since the epoch: unsigned 64-bit
    arithmetic. *)
Definition generateMessageID (nano : Z) : Z :=
  let nano := uwrap 64 nano in
  let sec := nano / 1000000000 in
  let nsInSec := nano mod 1000000000 in
  let subsec := uwrap 64 (Z.shiftl nsInSec 32) / 1000000000 in
  let id := Z.lor (uwrap 64 (Z.shiftl sec 32)) subsec in
  Z.ldiff id 3.

(** The request: a length, the envelope of an unencrypted message, the
    constructor and the nonce. *)
Definition tlBody (nonce : list byte) : list byte := le_split 4 ctorReqPQMulti ++ nonce.

Definition probe_msg (id : Z) (nonce : list byte) : list byte :=
  replicate 8 Byte.x00 ++ le_split 8 id ++ le_split 4 (Z.of_nat (length (tlBody nonce))) ++ tlBody nonce.

Definition probe_frame (id : Z) (nonce : list byte) : list byte :=
  le_split 4 (Z.of_nat (length (probe_msg id nonce))) ++ probe_msg id nonce.

(** The checks of steps 5 to 7 on the decrypted stream. *)
Definition checkReply (nonce : list byte) (s : source) : res () :=
  match read_full 4 s with
  | (Fail e, _) => Fail (Wrap "read frame length" e)
  | (Ok lenBuf, s) =>
      let respLen := le_combine lenBuf in
      if respLen <? minResPQFrame then Fail (Wrap "resPQ frame too short" ErrNotTelegram)
      else if maxResPQFrame <? respLen then Fail (Wrap "resPQ frame too large" ErrNotTelegram)
      else match read_full (Z.to_nat respLen) s with
           | (Fail e, _) => Fail (Wrap "read resPQ frame" e)
           | (Ok resp, _) =>
               let tlResp := drop 20 resp in
               if negb (le_combine (take 4 tlResp) =? ctorResPQ) then Fail (Wrap "got constructor" ErrNotTelegram)
               else if negb (bool_decide (slice 4 20 tlResp = nonce)) then Fail (Wrap "nonce echo mismatch" ErrNotTelegram)
               else Ok ()
           end
  end.

Section probe.
Context `{Crypto}.

(** [Probe]: what is sent and the result.  [hs] is the handshake frame that was
    generated, [werr1] and [werr2] the errors of the two writes, [wire] what the
    peer sends. *)
Definition Probe (hs : list byte) (werr1 werr2 : option goerr) (nonce : list byte) (nano : Z) (wire : source) : list byte * res () :=
  let '(sent, r) := SendHandshake None hs werr1 in
  match r with
  | Fail e => (sent, Fail (Wrap "obfuscated2 handshake" e))
  | Ok c =>
      let '(req, c) := obf_Write c (probe_frame (generateMessageID nano) nonce) in
      (sent ++ req,
       match werr2 with
       | Some e => Fail (Wrap "write req_pq_multi" e)
       | None => checkReply nonce (mkSource (XORKeyStream (recvCipher c) (avail wire)).1 (fin wire))
       end)
  end.
End probe.

(** ** Proofs *)

Lemma generateMessageID_low nano : generateMessageID nano mod 4 = 0.
Proof. unfold generateMessageID. change 3 with (Z.ones 2). rewrite Z.ldiff_ones_r, Z.shiftl_mul_pow2 by lia. apply Z.mod_mul. lia. Qed.

Lemma land_low a b n : 0 <= n -> 0 <= b < 2 ^ n -> Z.land (a * 2 ^ n) b = 0.
Proof.
  intros Hn Hb. apply Z.bits_inj'. intros i Hi. rewrite Z.land_spec, Z.bits_0. destruct (Z.ltb_spec i n).
  - by rewrite Z.mul_pow2_bits_low.
  - assert (Z.testbit b i = false) as ->; [|by rewrite andb_false_r].
    destruct (decide (b = 0)) as [->|]; [apply Z.bits_0|]. apply Z.bits_above_log2; [lia|]. apply Z.log2_lt_pow2; [lia|].
    eapply Z.lt_le_trans; [apply Hb|]. apply Z.pow_le_mono_r; lia.
Qed.

Lemma lor_add a b n : 0 <= n -> 0 <= b < 2 ^ n -> Z.lor (a * 2 ^ n) b = a * 2 ^ n + b.
Proof.
  intros Hn Hb. rewrite <-Z.lxor_lor by (by apply land_low). symmetry. by apply Z.add_nocarry_lxor, land_low.
Qed.

(** Until the seconds leave 32 bits, they are the upper half of the message
    identifier. *)
Lemma generateMessageID_seconds nano :
  0 <= nano < 2 ^ 32 * 1000000000 -> generateMessageID nano / 2 ^ 32 = nano / 1000000000.
Proof.
  intros Hn. unfold generateMessageID. rewrite (uwrap_small 64 nano) by lia.
  assert (0 <= nano / 1000000000 < 2 ^ 32) as Hs by (split; [apply Z.div_pos; lia|apply Z.div_lt_upper_bound; lia]).
  pose proof (Z.mod_pos_bound nano 1000000000 ltac:(lia)) as Hm. rewrite !Z.shiftl_mul_pow2 by lia.
  rewrite !uwrap_small by lia.
  assert (0 <= nano mod 1000000000 * 2 ^ 32 / 1000000000 < 2 ^ 32) as Hb by (split; [apply Z.div_pos; lia|apply Z.div_lt_upper_bound; lia]).
  rewrite lor_add by lia. change 3 with (Z.ones 2). rewrite Z.ldiff_ones_r, Z.shiftl_mul_pow2, Z.shiftr_div_pow2 by lia.
  set (s := nano / 1000000000) in *. set (b := _ / 1000000000) in *. clearbody s b.
  Z.div_mod_to_equations. lia.
Qed.

(** What a reply must be. *)
Definition resPQ (nonce body : list byte) : Prop :=
  minResPQFrame <= Z.of_nat (length body) <= maxResPQFrame /\
  slice 20 24 body = le_split 4 ctorResPQ /\ slice 24 40 body = nonce.

Lemma le_combine_inj l k : length l = length k -> le_combine l = le_combine k -> l = k.
Proof. intros Hl Hc. rewrite <-(split_le_combine l), <-(split_le_combine k), Hc. by rewrite Hl. Qed.

Lemma checkReply_spec nonce s :
  length nonce = 16%nat ->
  checkReply nonce s = Ok () <->
  exists body rest, avail s = le_split 4 (Z.of_nat (length body)) ++ body ++ rest /\ resPQ nonce body.
Proof.
  intros Hnonce. unfold checkReply, resPQ. split.
  - destruct (read_full 4 s) as [[lenBuf|] s1] eqn:H1; [|done]. apply read_full_ok in H1 as (Ha & Hl & _).
    destruct (_ <? minResPQFrame) eqn:Hmin; [done|]. destruct (maxResPQFrame <? _) eqn:Hmax; [done|].
    destruct (read_full _ s1) as [[resp|] s2] eqn:H2; [|done]. apply read_full_ok in H2 as (Hb & Hr & _).
    destruct (le_combine (take 4 (drop 20 resp)) =? ctorResPQ) eqn:Hc; [|done]. simpl.
    case_bool_decide as Hn; [|done]. intros _. zbool.
    assert (Z.of_nat (length resp) = le_combine lenBuf) as Hlen by (rewrite Hr, Z2Nat.id; [done|unfold minResPQFrame in *; lia]).
    exists resp, (avail s2). split_and!; [|lia|lia| |].
    + assert (le_split 4 (le_combine lenBuf) = lenBuf) as Hs by (rewrite <-Hl; apply split_le_combine).
      rewrite Ha, Hb, Hlen. transitivity (le_split 4 (le_combine lenBuf) ++ resp ++ avail s2); [by rewrite Hs|done].
    + unfold slice. simpl. apply le_combine_inj; [rewrite length_take, length_drop, length_le_split; unfold minResPQFrame in *; lia|].
      rewrite Hc. reflexivity.
    + rewrite <-Hn. unfold slice. by rewrite drop_drop.
  - intros (body & rest & Ha & Hlen & Hc & Hn).
    destruct s as [a e]. cbn [avail] in Ha. subst a. rewrite read_full_app by apply length_le_split.
    rewrite le_combine_split_small by (unfold maxResPQFrame, minResPQFrame in *; lia).
    rewrite !(proj2 (Z.ltb_ge _ _)) by lia. rewrite Nat2Z.id, read_full_app by done.
    unfold slice in *. cbn [Nat.sub] in Hc. rewrite Hc. change (le_combine (le_split 4 ctorResPQ) =? ctorResPQ) with true. simpl.
    rewrite drop_drop. cbn [Nat.sub Nat.add] in *. by rewrite bool_decide_true.
Qed.

Section probe_proofs.
Context `{Crypto}.

Lemma SendHandshake_err secret hs werr :
  (exists c, (SendHandshake secret hs werr).2 = Ok c) <-> werr = None.
Proof. unfold SendHandshake. destruct (XORKeyStream _ _), werr; naive_solver. Qed.

(** The plain bytes of what the peer sends. *)
Definition decrypted (hs : list byte) (wire : list byte) : list byte := (XORKeyStream (getCipher None (revert hs)) wire).1.

Lemma Probe_result hs werr1 werr2 nonce nano wire :
  (Probe hs werr1 werr2 nonce nano wire).2 = Ok () <->
  werr1 = None /\ werr2 = None /\ checkReply nonce (mkSource (decrypted hs (avail wire)) (fin wire)) = Ok ().
Proof.
  unfold Probe, SendHandshake, decrypted, obf_Write. destruct (XORKeyStream (getCipher None hs) (revert hs)) as [f c].
  destruct werr1; simpl; [naive_solver|]. destruct werr2; simpl; naive_solver.
Qed.
End probe_proofs.

(** ** Claims *)

(** The probe recognises exactly a resPQ with its nonce.  It succeeds if and
    only if both writes did and the peer's decrypted bytes begin with a frame of
    40 to 256 bytes, complete, that carries the constructor of resPQ after the
    message envelope and echoes the nonce; anything else, a frame of another
    size or cut short included, is an error. *)
Theorem probe_exact `{Crypto} hs werr1 werr2 nonce nano wire :
  length nonce = 16%nat ->
  (Probe hs werr1 werr2 nonce nano wire).2 = Ok () <->
  werr1 = None /\ werr2 = None /\
  exists body rest, decrypted hs (avail wire) = le_split 4 (Z.of_nat (length body)) ++ body ++ rest /\ resPQ nonce body.
Proof. intros Hn. by rewrite Probe_result, checkReply_spec. Qed.

(** A data centre is recognised.  A peer that reads the probe's handshake as
    the proxy's own obfuscated2 server does gets the data centre number and, in
    the bytes that follow, exactly the request; and if it then sends any resPQ
    with the nonce through its side of the connection, the probe succeeds. *)
Theorem probe_accepts_dc `{Crypto} rnd dc hs nonce nano body e :
  Forall (fun f => length f = hfLen) rnd -> generateHandshake rnd dc = Some hs -> -32768 <= dc < 32768 ->
  length nonce = 16%nat -> resPQ nonce body ->
  exists wire rest srv,
    ReadHandshake None (mkSource (Probe hs None None nonce nano (mkSource [] e)).1 e) = (Ok (if dc =? 0 then defaultDC else dc, srv), mkSource rest e) /\
    (read_all srv [rest]).1 = probe_frame (generateMessageID nano) nonce /\
    wire = (write_all srv [le_split 4 (Z.of_nat (length body)); body]).1 /\
    (Probe hs None None nonce nano (mkSource wire e)).2 = Ok ().
Proof.
  intros Hr Hg Hdc Hn Hb. destruct (generateHandshake_parts _ _ _ Hr Hg) as (n & k & v & r & P).
  set (c := mkObf (XORKeyStream (getCipher None hs) (revert hs)).2 (getCipher None (revert hs))).
  set (srv := mkObf (getCipher None (revert hs)) (XORKeyStream (getCipher None hs) (revert hs)).2).
  set (frame := probe_frame (generateMessageID nano) nonce).
  assert (Probe_sent : (Probe hs None None nonce nano (mkSource [] e)).1 = (SendHandshake None hs None).1 ++ (obf_Write c frame).1).
  { unfold Probe, SendHandshake, obf_Write, c. destruct (XORKeyStream (getCipher None hs) (revert hs)) as [f x]. simpl.
    by destruct (XORKeyStream x frame). }
  exists (write_all srv [le_split 4 (Z.of_nat (length body)); body]).1, (obf_Write c frame).1, srv.
  rewrite Probe_sent. split_and!.
  - by eapply ReadHandshake_parts.
  - rewrite (streams_agree c srv [frame]); [by simpl; rewrite app_nil_r|done|]. unfold write_all. destruct (obf_Write c frame). simpl.
    by rewrite !app_nil_r.
  - done.
  - apply Probe_result. split_and!; [done|done|]. apply checkReply_spec; [done|]. exists body, []. split; [|done].
    pose proof (streams_agree srv c [le_split 4 (Z.of_nat (length body)); body] [(write_all srv [le_split 4 (Z.of_nat (length body)); body]).1]) as Hs.
    cbn [avail]. unfold decrypted. rewrite read_all_spec in Hs. cbn [fst recvCipher c concat] in Hs. rewrite !app_nil_r in *. by apply Hs.
Qed.

(** ** Witnesses *)

Definition demo_nonce : list byte := replicate 16 Byte.x2a.

Definition demo_reply : list byte := replicate 20 Byte.x00 ++ le_split 4 ctorResPQ ++ demo_nonce ++ replicate 4 Byte.x07.

Lemma probe_exact_witness :
  let H := demo_crypto in
  (Probe demo_frame None None demo_nonce 0 (mkSource [] EOF)).2 <> Ok ().
Proof.
  intros H Hp. apply probe_exact in Hp as (_ & _ & body & rest & Hd & _); [|reflexivity].
  apply (f_equal length) in Hd. rewrite !length_app, length_le_split in Hd. vm_compute in Hd. discriminate Hd.
Defined.

Lemma probe_accepts_dc_witness :
  let H := demo_crypto in
  exists hs wire, generateHandshake [demo_frame] 2 = Some hs /\ (Probe hs None None demo_nonce 0 (mkSource wire EOF)).2 = Ok ().
Proof.
  intros H. destruct (generateHandshake [demo_frame] 2) as [hs|] eqn:Hg; [|by vm_compute in Hg].
  destruct (probe_accepts_dc [demo_frame] 2 hs demo_nonce 0 demo_reply EOF) as (wire & rest & srv & _ & _ & _ & Hp).
  - apply Forall_singleton. reflexivity.
  - exact Hg.
  - lia.
  - reflexivity.
  - unfold resPQ. split_and!; vm_compute; congruence.
  - by exists hs, wire.
Defined.
