(* ===== verification/GetIP.v ===== *)
(** * The public address: internal/cli/get_ip.go

    [getIP] asks several services at once.  A goroutine per service sends what it
    found over one of two channels, another collects; the first address ends the
    search, as do the failure of all services and the deadline.  The goroutines
    are interleaved at their channel operations. *)

From S2P Require Import Prelude GoStrings GoNet Limits.

(** The body of a service's reply; [status] is the HTTP status. *)
Definition getIPAddressPlain (reply : res (Z * string)) : res (list byte) :=
  '(status, data) ← reply;
  if negb (status =? 200) then Fail (Errorf "unexpected status code") else
  match ParseIP (TrimSpace data) with
  | Some ip => Ok ip
  | None => Fail (Errorf "cannot parse as IP address")
  end.

Definition getIPServicesPlain : list string :=
  ["https://ifconfig.co"; "https://ifconfig.me"; "https://api.ipify.org"; "https://ipecho.net/plain"].

(** ** The goroutines *)

(** A service: its request is on its way, or it offers an address or an error, or
    it has returned. *)
Inductive service := Asking | GotIP (ip : list byte) | GotErr (e : goerr) | Finished.

#[export] Instance service_eq_dec : EqDecision service.
Proof. solve_decision. Defined.

(** Why the context has ended: [context.Cause]. *)
Inductive cause := DeadlineExceeded | AllFailed (errs : list (nat * goerr)) | Canceled.

(** The errors are kept with the number of their service; [gi_answers] notes what
    the services found. *)
Record search := mkSearch {
  gi_services : list service;
  gi_collecting : bool;
  gi_ip : option (list byte);
  gi_errs : list (nat * goerr);
  gi_cause : option cause;
  gi_answers : list (nat * res (list byte))
}.

Definition search_start : search := mkSearch (replicate (length getIPServicesPlain) Asking) true None [] None [].

Inductive search_act :=
  | IAnswer (i : nat) (r : res (list byte))
  | ISend (i : nat)          (* the collector receives from service [i] *)
  | IGiveUp (i : nat)        (* service [i] sees the end of the context *)
  | IStop                    (* the collector sees it *)
  | ITimeout.

Definition or_cause (old : option cause) (new : cause) : option cause := match old with Some c => Some c | None => Some new end.

Definition search_do (a : search_act) (s : search) : option search :=
  let finish i := <[i := Finished]> (gi_services s) in
  match a with
  | IAnswer i r =>
      match gi_services s !! i with
      | Some Asking =>
          Some (mkSearch (<[i := match r with Ok ip => GotIP ip | Fail e => GotErr e end]> (gi_services s))
                  (gi_collecting s) (gi_ip s) (gi_errs s) (gi_cause s) (gi_answers s ++ [(i, r)]))
      | _ => None
      end
  | ISend i =>
      match gi_collecting s, gi_services s !! i with
      | true, Some (GotIP ip) => Some (mkSearch (finish i) false (Some ip) (gi_errs s) (or_cause (gi_cause s) Canceled) (gi_answers s))
      | true, Some (GotErr e) =>
          let errs := gi_errs s ++ [(i, Wrap (default "" (getIPServicesPlain !! i)) e)] in
          Some (mkSearch (finish i) true (gi_ip s) errs
                  (if (length errs =? length getIPServicesPlain)%nat then or_cause (gi_cause s) (AllFailed errs) else gi_cause s) (gi_answers s))
      | _, _ => None
      end
  | IGiveUp i =>
      match gi_cause s, gi_services s !! i with
      | Some _, Some (GotIP _ | GotErr _) => Some (mkSearch (finish i) (gi_collecting s) (gi_ip s) (gi_errs s) (gi_cause s) (gi_answers s))
      | _, _ => None
      end
  | IStop =>
      match gi_cause s, gi_collecting s with
      | Some _, true => Some (mkSearch (gi_services s) false (gi_ip s) (gi_errs s) (gi_cause s) (gi_answers s))
      | _, _ => None
      end
  | ITimeout =>
      match gi_cause s with
      | None => Some (mkSearch (gi_services s) (gi_collecting s) (gi_ip s) (gi_errs s) (Some DeadlineExceeded) (gi_answers s))
      | Some _ => None
      end
  end.

(** [wg.Wait] has returned. *)
Definition waited (s : search) : bool :=
  negb (gi_collecting s) && forallb (fun x => match x with Finished => true | _ => false end) (gi_services s).

(** What [getIP] returns. *)
Definition getIP (s : search) : option (list byte + option cause) :=
  if waited s then Some (match gi_ip s with Some ip => inl ip | None => inr (gi_cause s) end) else None.

Definition search_step (s s' : search) : Prop := exists a, search_do a s = Some s'.

Fixpoint search_run (l : list search_act) (s : search) : option search :=
  match l with [] => Some s | a :: l => s' ← search_do a s; search_run l s' end.

(** ** Proofs *)

(** What a service has to do with the answers. *)
Definition service_ok (answers : list (nat * res (list byte))) (i : nat) (x : service) : Prop :=
  match x with
  | Asking => forall r, (i, r) ∉ answers
  | GotIP ip => (i, Ok ip) ∈ answers
  | GotErr e => (i, Fail e) ∈ answers
  | Finished => True
  end.

Record search_ok (s : search) : Prop := {
  so_length : length (gi_services s) = length getIPServicesPlain;
  so_services : forall i x, gi_services s !! i = Some x -> service_ok (gi_answers s) i x;
  so_once : NoDup (gi_answers s).*1;
  so_ip : forall ip, gi_ip s = Some ip -> exists i, (i, Ok ip) ∈ gi_answers s;
  so_errs : NoDup (gi_errs s).*1 /\ forall i e, (i, e) ∈ gi_errs s -> gi_services s !! i = Some Finished /\ exists e', (i, Fail e') ∈ gi_answers s;
  so_failed : forall l, gi_cause s = Some (AllFailed l) -> length (gi_errs s) = length getIPServicesPlain;
  so_ended : gi_collecting s = false -> is_Some (gi_cause s);
  so_found : gi_cause s = Some Canceled -> is_Some (gi_ip s);
  so_open : gi_cause s = None -> (length (gi_errs s) < length getIPServicesPlain)%nat /\
              forall i, gi_services s !! i = Some Finished -> i ∈ (gi_errs s).*1
}.

Lemma search_start_ok : search_ok search_start.
Proof.
  split; simpl; try done.
  - intros i x Hi. destruct i as [|[|[|[|i]]]]; simplify_eq/=; intros r Hr; by apply not_elem_of_nil in Hr.
  - constructor.
  - split; [constructor|]. intros i e Hi. by apply not_elem_of_nil in Hi.
  - intros _. split; [lia|]. intros i Hi. by destruct i as [|[|[|[|i]]]].
Qed.

(** A service that moves on: the others are as before. *)
Lemma services_insert answers answers' (services : list service) i x y :
  (forall j z, services !! j = Some z -> service_ok answers j z) -> services !! i = Some x -> service_ok answers' i y ->
  (forall j z, j <> i -> service_ok answers j z -> service_ok answers' j z) ->
  forall j z, <[i := y]> services !! j = Some z -> service_ok answers' j z.
Proof.
  intros Hs Hi Hy Hm j z. destruct (decide (j = i)) as [->|Hne].
  - rewrite list_lookup_insert_eq by (by eapply lookup_lt_Some). by intros [= <-].
  - rewrite list_lookup_insert_ne by done. intros Hj. apply Hm; [done|]. by apply Hs.
Qed.

Lemma finished_insert (services : list service) i j x : services !! j = Some Finished -> services !! i = Some x -> <[i := Finished]> services !! j = Some Finished.
Proof.
  intros Hj Hi. destruct (decide (j = i)) as [->|]; [apply list_lookup_insert_eq; by eapply lookup_lt_Some|by rewrite list_lookup_insert_ne].
Qed.

Lemma answered (answers : list (nat * res (list byte))) i r : (i, r) ∈ answers -> i ∈ answers.*1.
Proof. intros Hr. apply list_elem_of_fmap. by exists (i, r). Qed.

(** Distinct services are at most as many as there are. *)
Lemma services_count (services : list service) l :
  NoDup l -> (forall i, i ∈ l -> is_Some (services !! i)) -> (length l <= length services)%nat.
Proof.
  intros Hnd Hin. rewrite <-(length_seq (length services) 0). apply submseteq_length, NoDup_submseteq; [done|].
  intros i Hi. destruct (Hin i Hi) as [x Hx]. apply elem_of_seq. apply lookup_lt_Some in Hx. lia.
Qed.

Lemma search_do_ok a s s' : search_ok s -> search_do a s = Some s' -> search_ok s'.
Proof.
  intros [Hlen Hsv Honce Hip [Hnd Herr] Hfail Hend Hfound Hopen] Hdo. destruct a as [i r|i|i| |]; cbn [search_do] in Hdo.
  - destruct (gi_services s !! i) as [[]|] eqn:Hi; simplify_eq. pose proof (Hsv _ _ Hi) as Hno. simpl in Hno.
    split; simpl; [by rewrite length_insert| | | | |done..|].
    + eapply services_insert; [exact Hsv|exact Hi| |].
      * destruct r; simpl; apply elem_of_app; right; by left.
      * intros j z Hne Hz. destruct z; simpl in *; [|apply elem_of_app; by left..|done]. intros r' Hr'. apply elem_of_app in Hr' as [Hr'|Hr'].
        -- by apply (Hz r').
        -- apply list_elem_of_singleton in Hr'. by simplify_eq.
    + rewrite fmap_app. apply NoDup_app. split_and!; [done| |apply NoDup_singleton]. intros x Hx Hx2. simpl in Hx2.
      apply list_elem_of_singleton in Hx2 as ->. apply list_elem_of_fmap in Hx as ([j r'] & -> & Hx). simpl in Hno. by apply (Hno r').
    + intros ip Hx. destruct (Hip ip Hx) as [j Hj]. exists j. apply elem_of_app. by left.
    + split; [done|]. intros j e Hj. destruct (Herr j e Hj) as [Hf [e' He']]. split; [|exists e'; apply elem_of_app; by left].
      destruct (decide (j = i)) as [->|]; [congruence|by rewrite list_lookup_insert_ne].
    + intros Hc. destruct (Hopen Hc) as [? Hfin]. split; [done|]. intros j. destruct (decide (j = i)) as [->|].
      * rewrite list_lookup_insert_eq by (by eapply lookup_lt_Some). by destruct r.
      * rewrite list_lookup_insert_ne by done. apply Hfin.
  - destruct (gi_collecting s) eqn:Hc; [|done]. destruct (gi_services s !! i) as [[|ip|e|]|] eqn:Hi; simplify_eq; pose proof (Hsv _ _ Hi) as Hok; simpl in Hok.
    + split; simpl; [by rewrite length_insert|by eapply services_insert|done| | | | | |].
      * intros ip' [= <-]. by exists i.
      * split; [done|]. intros j e Hj. destruct (Herr j e Hj) as [Hf He']. split; [by eapply finished_insert|done].
      * intros l. destruct (gi_cause s) as [c|] eqn:E; simpl; [|done]. intros [= ->]. by eapply Hfail.
      * intros _. by destruct (gi_cause s).
      * done.
      * by destruct (gi_cause s).
    + assert (i ∉ (gi_errs s).*1) as Hni.
      { intros Hin. apply list_elem_of_fmap in Hin as ([j e'] & -> & Hin). destruct (Herr _ _ Hin) as [Hf _]. simpl in Hi. congruence. }
      assert (length (gi_errs s ++ [(i, Wrap (default "" (getIPServicesPlain !! i)) e)]) = S (length (gi_errs s))) as Hl by (rewrite length_app; simpl; lia).
      split; cbn [gi_services gi_collecting gi_ip gi_errs gi_cause gi_answers]; [by rewrite length_insert|by eapply services_insert|done|done| | |done| |].
      * rewrite fmap_app. split.
        -- apply NoDup_app. split_and!; [done| |apply NoDup_singleton]. intros x Hx Hx2. simpl in Hx2. by apply list_elem_of_singleton in Hx2 as ->.
        -- intros j e' Hj. apply elem_of_app in Hj as [Hj|Hj].
           ++ destruct (Herr j e' Hj) as [Hf He']. split; [by eapply finished_insert|done].
           ++ apply list_elem_of_singleton in Hj. injection Hj as -> ->. split; [apply list_lookup_insert_eq; by eapply lookup_lt_Some|by eexists].
      * intros l. rewrite Hl. destruct (S (length (gi_errs s)) =? length getIPServicesPlain)%nat eqn:E; zbool; [done|].
        intros Hcl. specialize (Hfail l Hcl). exfalso. apply E. rewrite <-Hlen.
        assert (S (length (gi_errs s)) <= length (gi_services s))%nat; [|lia].
        rewrite <-(length_fmap fst (gi_errs s)). apply (services_count _ (i :: (gi_errs s).*1)); [by constructor|].
        intros j [->|Hj]%elem_of_cons; [by eexists|]. apply list_elem_of_fmap in Hj as ([j' e'] & -> & Hj). destruct (Herr _ _ Hj). by eexists.
      * destruct (_ =? _)%nat; [|done]. destruct (gi_cause s); simpl; [done|]. done.
      * rewrite Hl. destruct (S (length (gi_errs s)) =? length getIPServicesPlain)%nat eqn:E; zbool; [by destruct (gi_cause s)|].
        intros Hc'. destruct (Hopen Hc') as [? Hfin]. split; [lia|]. intros j. rewrite fmap_app. rewrite elem_of_app.
        destruct (decide (j = i)) as [->|]; [intros _; right; by left|]. rewrite list_lookup_insert_ne by done. left. by apply Hfin.
  - destruct (gi_cause s) as [c|] eqn:Hcause; [|done]. destruct (gi_services s !! i) as [x|] eqn:Hi; [|done].
    assert (s' = mkSearch (<[i := Finished]> (gi_services s)) (gi_collecting s) (gi_ip s) (gi_errs s) (gi_cause s) (gi_answers s)) as ->
      by (destruct x; simplify_eq; by rewrite Hcause).
    split; simpl; rewrite ?Hcause; [by rewrite length_insert|by eapply services_insert|done|done| |done..].
    split; [done|]. intros j e Hj. destruct (Herr j e Hj) as [Hf He']. split; [by eapply finished_insert|done].
  - destruct (gi_cause s) as [c|] eqn:Hcause; [|done]. destruct (gi_collecting s); simplify_eq. by split; simpl; rewrite ?Hcause.
  - destruct (gi_cause s) eqn:Hcause; simplify_eq. by split.
Qed.

Lemma search_reach s : rtc search_step search_start s -> search_ok s.
Proof.
  intros Hr. pose proof search_start_ok as H0. revert H0. generalize search_start Hr. clear Hr.
  intros s0 Hr. induction Hr as [|x y z [a Ha] _ IH]; [done|]. intros Hx. apply IH. by eapply search_do_ok.
Qed.

(** Every step brings the search closer to its end. *)
Definition service_rank (x : service) : nat := match x with Asking => 2 | GotIP _ | GotErr _ => 1 | Finished => 0 end.

Definition search_rank (s : search) : nat :=
  (sum_list (service_rank <$> gi_services s) + (if gi_collecting s then 1 else 0) + match gi_cause s with None => 1 | Some _ => 0 end)%nat.

Lemma rank_insert (l : list service) i x y :
  l !! i = Some x -> (sum_list (service_rank <$> <[i := y]> l) + service_rank x = sum_list (service_rank <$> l) + service_rank y)%nat.
Proof.
  revert i. induction l as [|z l IH]; intros [|i] Hi; simplify_eq/=; [lia|]. specialize (IH i Hi). lia.
Qed.

Lemma search_do_rank a s s' : search_do a s = Some s' -> (search_rank s' < search_rank s)%nat.
Proof.
  unfold search_rank. destruct a as [i r|i|i| |]; cbn [search_do]; intros Hdo.
  - destruct (gi_services s !! i) as [x|] eqn:Hi; [|done]. pose proof (rank_insert _ i _ (match r with Ok ip => GotIP ip | Fail e => GotErr e end) Hi) as Hr.
    destruct x; simplify_eq. cbn [gi_services gi_collecting gi_cause]. destruct r; simpl in *; lia.
  - destruct (gi_collecting s) eqn:Hc; [|done]. destruct (gi_services s !! i) as [x|] eqn:Hi; [|done]. pose proof (rank_insert _ i _ Finished Hi) as Hr.
    destruct x; simplify_eq; cbn [gi_services gi_collecting gi_cause]; simpl in Hr.
    + destruct (gi_cause s); simpl; lia.
    + destruct (_ =? _)%nat, (gi_cause s); simpl; lia.
  - destruct (gi_cause s); [|done]. destruct (gi_services s !! i) as [x|] eqn:Hi; [|done]. pose proof (rank_insert _ i _ Finished Hi) as Hr.
    destruct x; simplify_eq; simpl in *; lia.
  - destruct (gi_cause s) eqn:E; [|done]. destruct (gi_collecting s); simplify_eq. simpl. lia.
  - destruct (gi_cause s); simplify_eq. simpl. lia.
Qed.

Lemma search_run_rank l s s' : search_run l s = Some s' -> (length l + search_rank s' <= search_rank s)%nat.
Proof.
  revert s. induction l as [|a l IH]; intros s; simpl; [by intros [= ->]|].
  destruct (search_do a s) as [s1|] eqn:E; simpl; [|done]. intros Hr. apply search_do_rank in E. specialize (IH _ Hr). lia.
Qed.

Lemma search_run_steps l s s' : search_run l s = Some s' -> rtc search_step s s'.
Proof.
  revert s. induction l as [|a l IH]; intros s; simpl; [by intros [= ->]|].
  destruct (search_do a s) as [s1|] eqn:E; simpl; [|done]. intros Hr. eapply rtc_l; [by exists a|by apply IH].
Qed.

(** Nobody waits for ever: when no request is on its way and [getIP] has not
    returned, a goroutine can go on. *)
Lemma search_progress s :
  search_ok s -> waited s = false -> (forall i, gi_services s !! i <> Some Asking) ->
  exists a s', a <> ITimeout /\ search_do a s = Some s'.
Proof.
  intros [Hlen Hsv _ _ [Hnd Herr] _ Hend _ Hopen] Hw Hask. unfold waited in Hw.
  destruct (gi_collecting s) eqn:Hc.
  - destruct (decide (Exists (fun x => x <> Finished) (gi_services s))) as [Hex|Hall].
    + apply list.Exists_exists in Hex as (x & Hx & Hne). apply list_elem_of_lookup in Hx as [i Hi]. exists (ISend i). cbn [search_do]. rewrite Hc, Hi.
      destruct x; [by destruct (Hask i)|by eexists|by eexists|done].
    + destruct (gi_cause s) as [c|] eqn:Hcause; [exists IStop; eexists; split; [done|]; cbn [search_do]; by rewrite Hcause, Hc|].
      exfalso. destruct (Hopen eq_refl) as [Hlt Hfin].
      assert (length (seq 0 (length (gi_services s))) <= length (gi_errs s).*1)%nat as Hle; [|rewrite length_seq, length_fmap in Hle; lia].
      apply submseteq_length, NoDup_submseteq; [apply NoDup_seq|]. intros i [_ Hi]%elem_of_seq. apply Hfin.
      destruct (lookup_lt_is_Some_2 _ _ Hi) as [x Hx]. rewrite Hx. f_equal. destruct (decide (x = Finished)) as [|Hne]; [done|].
      destruct Hall. apply list.Exists_exists. exists x. split; [by eapply list_elem_of_lookup_2|done].
  - destruct (gi_cause s) as [c|] eqn:Hcause; [|by destruct (Hend eq_refl)]. simpl in Hw.
    assert (exists i x, gi_services s !! i = Some x /\ x <> Finished) as (i & x & Hi & Hx).
    { clear -Hw. induction (gi_services s) as [|x l IH]; [done|]. simpl in Hw. destruct x; [by exists 0%nat; eexists..|].
      destruct (IH Hw) as (i & y & Hi & Hy). by exists (S i), y. }
    exists (IGiveUp i). eexists. split; [done|]. cbn [search_do]. rewrite Hcause, Hi. destruct x; [by destruct (Hask i)|done|done|done].
Qed.

Lemma answers_known s i r : rtc search_step search_start s -> (i, r) ∈ gi_answers s -> (i < length getIPServicesPlain)%nat.
Proof.
  intros Hr. enough (length (gi_services s) = length getIPServicesPlain /\ Forall (fun x => (x.1 < length getIPServicesPlain)%nat) (gi_answers s)) as [_ Hf].
  { intros Hin. rewrite Forall_forall in Hf. by apply (Hf (i, r)). }
  assert (length (gi_services search_start) = length getIPServicesPlain /\
    Forall (fun x => (x.1 < length getIPServicesPlain)%nat) (gi_answers search_start)) as H0 by (split; [done|constructor]).
  revert H0. generalize dependent search_start. intros s0 Hr. induction Hr as [|x y z [a Ha] _ IH]; [done|]. intros [Hl Hf]. apply IH. clear IH.
  destruct a; cbn [search_do] in Ha; repeat (case_match; try done); simplify_eq/=; rewrite ?length_insert; (split; [done|]); try done.
  all: apply Forall_app; split; [done|]; apply Forall_singleton; simpl; rewrite <-Hl; by eapply lookup_lt_Some.
Qed.

(** The search for the public address.  In every interleaving of the services,
    the collector and the deadline: it makes at most ten steps, and while it has
    not returned and every request was answered, some goroutine can go on.  An
    address it returns was found by one of the services; without one it returns
    the reason of the context, which is always there: the deadline, or the errors
    of all services, each of which has failed; so if no deadline passed and a
    service found an address, an address is returned. *)
Theorem getIP_outcome l s :
  search_run l search_start = Some s ->
  (length l <= 10)%nat /\
  (waited s = false -> (forall i, gi_services s !! i <> Some Asking) -> exists a s', a <> ITimeout /\ search_do a s = Some s') /\
  (forall r, getIP s = Some r ->
     match r with
     | inl ip => exists i, (i, Ok ip) ∈ gi_answers s
     | inr None => False
     | inr (Some DeadlineExceeded) => True
     | inr (Some (AllFailed _)) => forall i, (i < length getIPServicesPlain)%nat -> exists e, (i, Fail e) ∈ gi_answers s
     | inr (Some Canceled) => False
     end) /\
  (gi_cause s <> Some DeadlineExceeded -> (exists i ip, (i, Ok ip) ∈ gi_answers s) -> forall r, getIP s = Some r -> exists ip, r = inl ip).
Proof.
  intros Hr. pose proof (search_run_rank _ _ _ Hr) as Hrank. change (search_rank search_start) with 10%nat in Hrank.
  pose proof (search_reach _ (search_run_steps _ _ _ Hr)) as Hok. pose proof Hok as [Hlen _ Honce Hip [Hnd Herr] Hfail Hend Hfound _].
  assert (forall l, gi_cause s = Some (AllFailed l) -> forall i, (i < length getIPServicesPlain)%nat -> exists e, (i, Fail e) ∈ gi_answers s) as Hall.
  { intros es Hc i Hi. specialize (Hfail es Hc). assert (i ∈ (gi_errs s).*1) as Hin.
    { destruct (decide (i ∈ (gi_errs s).*1)) as [|Hni]; [done|]. exfalso.
      assert (length (i :: (gi_errs s).*1) <= length (gi_services s))%nat as Hle; [|simpl in Hle; rewrite length_fmap in Hle; lia].
      apply services_count; [by constructor|]. intros j [->|Hj]%elem_of_cons; [apply lookup_lt_is_Some_2; lia|].
      apply list_elem_of_fmap in Hj as ([j' e'] & -> & Hj). destruct (Herr _ _ Hj). by eexists. }
    apply list_elem_of_fmap in Hin as ([j e] & -> & Hin). by destruct (Herr _ _ Hin). }
  split_and!; [lia|by apply search_progress| |].
  - intros r Hg. unfold getIP, waited in Hg. destruct (gi_collecting s) eqn:Hc; [done|]. simpl in Hg. destruct (forallb _ _); simplify_eq.
    destruct (gi_ip s) as [ip|] eqn:E; [by apply Hip|]. destruct (Hend eq_refl) as [c Hcause]. rewrite Hcause in *.
    destruct c; [done|by eapply Hall|]. by destruct (Hfound eq_refl).
  - intros Hnd' (i & ip & Hin) r Hg. unfold getIP, waited in Hg. destruct (gi_collecting s) eqn:Hc; [done|]. simpl in Hg. destruct (forallb _ _); simplify_eq.
    destruct (gi_ip s) as [ip'|] eqn:E; [by eexists|]. destruct (Hend eq_refl) as [c Hcause]. rewrite Hcause in *.
    destruct c as [|es|]; [done| |by destruct (Hfound eq_refl)]. exfalso.
    destruct (decide (i < length getIPServicesPlain)%nat) as [Hi|Hi].
    + destruct (Hall es eq_refl i Hi) as [e He].
      assert ((i, Ok ip) = (i, Fail e)) as [=]. clear -Honce Hin He. induction (gi_answers s) as [|x l0 IH]; [by apply not_elem_of_nil in Hin|].
      rewrite fmap_cons, NoDup_cons in Honce. destruct Honce as [Hx Honce].
      apply elem_of_cons in Hin as [<-|Hin], He as [<-|He]; [done| | |by apply IH]; by destruct Hx; eapply answered.
    + apply Hi. by eapply (answers_known s); [eapply search_run_steps|].
Qed.

(** One service fails, another finds the address, the rest give up. *)
Example search_ex :
  (getIP <$> search_run [IAnswer 2 (Fail EOF); ISend 2; IAnswer 0 (Ok [Byte.x01]); ISend 0; IAnswer 1 (Fail EOF); IGiveUp 1;
                         IAnswer 3 (Ok [Byte.x02]); IGiveUp 3] search_start) = Some (Some (inl [Byte.x01])).
Proof. reflexivity. Qed.
