(* ===== verification/BuildInfo.v ===== *)
(** * The version string: buildinfo.go

    [getVersion] prints the version with the compiler, the commit and a checksum
    of the modules the binary was built from.  SHA-256 and the printing of a date
    are parameters. *)

From S2P Require Import Prelude Encoding Secret GoTime GoStrings Limits LimitsParse SecretSet.

(** ** The data: runtime/debug *)

Record Module := mkModule { mod_Path : string; mod_Version : string; mod_Sum : string }.

Record BuildInfo := mkBuild {
  bi_GoVersion : string;
  bi_Path : string;
  bi_Main : Module;
  bi_Deps : list Module;
  bi_Settings : list (string * string)
}.

(** ** getVersion *)

Definition buildInfoModuleStart : byte := Byte.x00.
Definition buildInfoModuleFinish : byte := Byte.x01.
Definition buildInfoModuleDelimeter : byte := Byte.x02.

(** What [checksumModule] writes to the hash. *)
Definition checksumModule (m : Module) : list byte :=
  buildInfoModuleStart :: bytes_of_string (mod_Path m) ++ [buildInfoModuleDelimeter] ++
  bytes_of_string (mod_Version m) ++ [buildInfoModuleDelimeter] ++ bytes_of_string (mod_Sum m) ++ [buildInfoModuleFinish].

(** [sort.Slice] by descending path. *)
Definition path_ge (m n : Module) : Prop := str_le (mod_Path n) (mod_Path m).

#[export] Instance path_ge_dec : RelDecision path_ge.
Proof. intros m n. unfold path_ge. apply _. Defined.

Definition sort_Deps (l : list Module) : list Module := merge_sort path_ge l.

(** Everything that is written to the hash. *)
Definition hashed (b : BuildInfo) : list byte :=
  bytes_of_string (bi_Path b) ++ LittleEndianList.le_split 8 (uwrap 64 (1 + Z.of_nat (length (bi_Deps b)))) ++
  checksumModule (bi_Main b) ++ concat (map checksumModule (sort_Deps (bi_Deps b))).

(** The loop over the settings: date, commit and suffix; a date that cannot be
    parsed is the zero time. *)
Definition setting (acc : Z * string * string) (kv : string * string) : Z * string * string :=
  let '(date, commit, dirty) := acc in
  if bool_decide (kv.1 = "vcs.time") then (default zeroTime (parseRFC3339 kv.2), commit, dirty)
  else if bool_decide (kv.1 = "vcs.revision") then (date, kv.2, dirty)
  else if bool_decide (kv.1 = "vcs.modified") then (date, commit, if default false (ParseBool kv.2) then " [dirty]" else dirty)
  else acc.

(** [base64.StdEncoding]: the other alphabet, with padding. *)
Definition std_char (b : byte) : byte := if bool_decide (b = Byte.x2d) then Byte.x2b else if bool_decide (b = Byte.x5f) then Byte.x2f else b.

Definition StdEncoding (l : list byte) : list byte :=
  map std_char (b64_encode l) ++ replicate (Nat.modulo (3 - Nat.modulo (length l) 3) 3) Byte.x3d.

Definition getVersion (sha256 : list byte -> list byte) (formatRFC3339 : Z -> string) (version : string) (now : Z) (info : option BuildInfo) : string :=
  match info with
  | None => version
  | Some b =>
      let '(date, commit, dirty) := foldl setting (now, "", "") (bi_Settings b) in
      (version ++ " (" ++ bi_GoVersion b ++ ": " ++ formatRFC3339 date ++ " on " ++ commit ++ dirty ++ ", modules checksum " ++
       string_of_bytes (StdEncoding (sha256 (hashed b))) ++ ")")%string
  end.

Example StdEncoding_ex : map StdEncoding (map bytes_of_string ["M"; "Ma"; "Man"; "???"]) = map bytes_of_string ["TQ=="; "TWE="; "TWFu"; "Pz8/"].
Proof. vm_compute. reflexivity. Qed.

(** ** Proofs *)

(** A text without the three bytes that mark the parts of a module. *)
Definition plain (s : string) : Prop :=
  Forall (fun b => b <> buildInfoModuleStart /\ b <> buildInfoModuleFinish /\ b <> buildInfoModuleDelimeter) (bytes_of_string s).

Definition plain_module (m : Module) : Prop := plain (mod_Path m) /\ plain (mod_Version m) /\ plain (mod_Sum m).

(** The part before a separator that it does not contain. *)
Lemma split_at_sep (d : byte) l l' r r' : d ∉ l -> d ∉ l' -> l ++ d :: r = l' ++ d :: r' -> l = l' /\ r = r'.
Proof.
  revert l'. induction l as [|x l IH]; intros [|y l'] Hl Hl' He; simplify_eq/=; [done|set_solver|set_solver|].
  destruct (IH l') as [-> ->]; [set_solver..|done|done].
Qed.

Lemma bytes_inj s t : bytes_of_string s = bytes_of_string t -> s = t.
Proof. intros He. by rewrite <-(string_of_bytes_of_string s), He, string_of_bytes_of_string. Qed.

Lemma plain_not s b : plain s -> b ∈ [buildInfoModuleStart; buildInfoModuleFinish; buildInfoModuleDelimeter] -> b ∉ rev (bytes_of_string s).
Proof.
  intros Hp Hb Hin. apply list_elem_of_In, in_rev, list_elem_of_In in Hin. unfold plain in Hp. rewrite Forall_forall in Hp. specialize (Hp b Hin). set_solver.
Qed.

(** The module at the end of the hashed bytes can be read off from the right. *)
Lemma rev_checksum a m :
  rev (a ++ checksumModule m) = buildInfoModuleFinish :: rev (bytes_of_string (mod_Sum m)) ++ buildInfoModuleDelimeter ::
    rev (bytes_of_string (mod_Version m)) ++ buildInfoModuleDelimeter :: rev (bytes_of_string (mod_Path m)) ++ buildInfoModuleStart :: rev a.
Proof.
  unfold checksumModule. rewrite rev_app_distr. cbn [rev app]. repeat (rewrite rev_app_distr || rewrite <-app_assoc || cbn [rev app]). done.
Qed.

Lemma checksum_last a a' m m' : plain_module m -> plain_module m' -> a ++ checksumModule m = a' ++ checksumModule m' -> a = a' /\ m = m'.
Proof.
  intros (Hp & Hv & Hs) (Hp' & Hv' & Hs') He. apply (f_equal (@rev _)) in He. rewrite !rev_checksum in He. injection He as He.
  apply split_at_sep in He as [Es He]; [|apply plain_not; set_solver..]. apply split_at_sep in He as [Ev He]; [|apply plain_not; set_solver..].
  apply split_at_sep in He as [Ep He]; [|apply plain_not; set_solver..].
  apply (f_equal (@rev _)) in Es, Ev, Ep, He. rewrite !rev_involutive in *. apply bytes_inj in Es, Ev, Ep. split; [done|]. destruct m, m'; simpl in *. by subst.
Qed.

(** Modules after a text that does not end as one. *)
Lemma checksum_list a a' l l' :
  Forall plain_module l -> Forall plain_module l' -> last a <> Some buildInfoModuleFinish -> last a' <> Some buildInfoModuleFinish ->
  a ++ concat (map checksumModule l) = a' ++ concat (map checksumModule l') -> a = a' /\ l = l'.
Proof.
  intros Hl Hl' Ha Ha'. revert l' Hl'. induction l as [|m l IH] using rev_ind; intros l'; induction l' as [|m' l' _] using rev_ind; intros Hl' He.
  - simpl in He. by rewrite !app_nil_r in He.
  - simpl in He. rewrite app_nil_r, map_app, concat_app in He. simpl in He. rewrite app_nil_r, app_assoc in He. destruct Ha. rewrite He.
    unfold checksumModule. rewrite !app_comm_cons, !app_assoc. apply last_snoc.
  - simpl in He. rewrite app_nil_r, map_app, concat_app in He. simpl in He. rewrite app_nil_r, app_assoc in He. destruct Ha'. rewrite <-He.
    unfold checksumModule. rewrite !app_comm_cons, !app_assoc. apply last_snoc.
  - apply Forall_app in Hl as [Hl Hm], Hl' as [Hl' Hm']. rewrite Forall_singleton in Hm, Hm'.
    rewrite !map_app, !concat_app in He. simpl in He. rewrite !app_nil_r, !app_assoc in He.
    apply checksum_last in He as [He ->]; [|done..]. destruct (IH Hl l' Hl' He) as [-> ->]. done.
Qed.

#[export] Instance path_ge_trans : Transitive path_ge.
Proof. intros x y z. unfold path_ge. intros. by etrans. Qed.

#[export] Instance path_ge_total : Total path_ge.
Proof. intros x y. unfold path_ge. apply (total str_le). Qed.

Lemma sort_Deps_perm l : sort_Deps l ≡ₚ l.
Proof. apply merge_sort_Permutation. Qed.

(** The number of modules ends with a zero byte. *)
Lemma count_last n : Z.of_nat n < 2 ^ 56 - 1 -> last (LittleEndianList.le_split 8 (uwrap 64 (1 + Z.of_nat n))) = Some Byte.x00.
Proof.
  intros Hn. rewrite uwrap_small by lia. generalize (1 + Z.of_nat n) (ltac:(lia) : 0 <= 1 + Z.of_nat n < 2 ^ 56). intros z Hz.
  unfold LittleEndianList.le_split. cbn [last]. rewrite !Z.shiftr_shiftr by lia. f_equal.
  rewrite Z.shiftr_div_pow2 by lia. rewrite Z.div_small; [done|]. simpl. lia.
Qed.

Lemma NoDup_paths l x y : NoDup (map mod_Path l) -> x ∈ l -> y ∈ l -> mod_Path x = mod_Path y -> x = y.
Proof.
  induction l as [|z l IH]; intros Hnd Hx Hy He; [by apply not_elem_of_nil in Hx|]. simpl in Hnd. apply NoDup_cons in Hnd as [Hz Hnd].
  assert (forall w, w ∈ l -> mod_Path w <> mod_Path z) as Hw.
  { intros w Hw E. apply Hz. rewrite <-E. apply list_elem_of_In, in_map. by apply list_elem_of_In. }
  apply elem_of_cons in Hx as [->|Hx], Hy as [->|Hy]; [done| | |by apply IH]; by destruct (Hw _ ltac:(eassumption)).
Qed.

(** The checksum stands for the modules.  Two builds whose texts have none of the
    three marking bytes, with fewer than [2^56] dependencies each: the same bytes
    are hashed exactly if the path, the main module and the dependencies, in any
    order, are the same (paths of dependencies being distinct). *)
Theorem checksum_faithful b b' :
  plain_module (bi_Main b) -> plain_module (bi_Main b') -> Forall plain_module (bi_Deps b) -> Forall plain_module (bi_Deps b') ->
  Z.of_nat (length (bi_Deps b)) < 2 ^ 56 - 1 -> Z.of_nat (length (bi_Deps b')) < 2 ^ 56 - 1 ->
  NoDup (map mod_Path (bi_Deps b)) ->
  hashed b = hashed b' <-> bi_Path b = bi_Path b' /\ bi_Main b = bi_Main b' /\ bi_Deps b ≡ₚ bi_Deps b'.
Proof.
  intros Hm Hm' Hd Hd' Hn Hn' Hnd. unfold hashed. split.
  - intros He. rewrite !app_assoc in He. rewrite <-!app_assoc in He. rewrite 2!(app_assoc (bytes_of_string _)) in He.
    assert (forall m l, checksumModule m ++ concat (map checksumModule l) = concat (map checksumModule (m :: l))) as Hc by done.
    rewrite !Hc in He. apply checksum_list in He as [He Hl].
    + injection Hl as -> Hl. split_and!; [|done|by rewrite <-(sort_Deps_perm (bi_Deps b)), Hl, sort_Deps_perm].
      apply app_inj_2 in He as [He _]; [by apply bytes_inj|]. by rewrite !LittleEndianList.length_le_split.
    + constructor; [done|]. by rewrite sort_Deps_perm.
    + constructor; [done|]. by rewrite sort_Deps_perm.
    + rewrite last_app, count_last by done. done.
    + rewrite last_app, count_last by done. done.
  - intros (-> & -> & Hp). rewrite (Permutation_length Hp). do 5 f_equal.
    apply (StronglySorted_unique_strong path_ge); [|apply StronglySorted_merge_sort; apply _..|by rewrite !sort_Deps_perm].
    intros x y Hx Hy Hxy Hyx. apply (NoDup_paths (bi_Deps b)); [done|by rewrite <-(sort_Deps_perm (bi_Deps b))| |by apply (anti_symm str_le)].
    by rewrite Hp, <-(sort_Deps_perm (bi_Deps b')).
Qed.
