(* ===== verification/Cli.v ===== *)
(** * Commands: internal/cli/sni_check.go, doctor.go, access.go, simple_run.go,
    generate_secret.go, get_ip.go, internal/utils/make_qr_code_url.go

    The decisions of the commands; their output is a list of lines, and what the
    network answers is an argument.  The theorems relate the doctor to the proxy
    it examines. *)

From S2P Require Import Prelude Encoding Secret GoTime Limits GoStrings GoNet GoDuration HostPort Network Blocklist ConfigTypes Config.
From S2P Require Import Stats SecretSet Proxy Pending DC ServeConn Server RunProxy.
From Stdlib Require Import Ascii.

(** ** The first secret *)

(** [slices.Min]; the empty slice panics, the callers exclude it. *)
Definition slices_Min (l : list string) : option string :=
  match l with
  | [] => None
  | x :: l => Some (foldl (fun m y => if String.leb m y then m else y) x l)
  end.

(** The names of a map in the order of its iteration, which is not determined:
    what follows does not depend on it. *)
Definition map_names {A} (m : gmap string A) : list string := elements (dom m).

Definition getFirstSecretHost (conf : Config) : string :=
  let secrets := GetSecrets conf in
  match slices_Min (map_names secrets) with
  | None => ""
  | Some name => Host (default zeroSecret (secrets !! name))
  end.

(** access.go sorts the names and takes the first. *)
Definition firstSecret (conf : Config) : Secret :=
  let secrets := GetSecrets conf in
  match sort_Strings (map_names secrets) with
  | [] => zeroSecret
  | name :: _ => default zeroSecret (secrets !! name)
  end.

(** ** sni_check.go *)

Record sniCheckResult := mkSNI { ResolvedIP4 : list string; ResolvedIP6 : list string; OurIP4 : string; OurIP6 : string }.

(** [addrs] is the answer of the resolver; [getIP] finds the public address of a
    family, the empty one when it cannot. *)
Definition runSNICheck (conf : Config) (addrs : res (list (list byte))) (getIP : string -> list byte) : res sniCheckResult :=
  addrs ← wrap_err "cannot resolve addresses" addrs;
  match addrs with
  | [] => Fail (Errorf "no known addresses")
  | _ =>
      let is4 ip := negb (bool_decide (To4 ip = [])) in
      let r4 := (fun ip => IP_String (To4 ip)) <$> List.filter is4 addrs in
      let r6 := (fun ip => IP_String (To16 ip)) <$> List.filter (fun ip => negb (is4 ip)) addrs in
      let our (resolved : list string) public network to :=
        match resolved with
        | [] => ""
        | _ => let ip := match TypeIP_Get public [] with [] => getIP network | ip => ip end in
               match ip with [] => "" | _ => IP_String (to ip) end
        end in
      Ok (mkSNI r4 r6 (our r4 (c_PublicIPv4 conf) "tcp4" To4) (our r6 (c_PublicIPv6 conf) "tcp6" To16))
  end.

(** The warnings at the start of the proxy, for the host of the unnamed secret. *)
Definition warnSNIMismatch (conf : Config) (resolve : string -> res (list (list byte))) (getIP : string -> list byte) : list string :=
  let host := Host (c_Secret conf) in
  if bool_decide (host = "") then [] else
  match runSNICheck conf (resolve host) getIP with
  | Fail _ => ["SNI-DNS check: cannot resolve secret hostname"]
  | Ok r =>
      if bool_decide (OurIP4 r = "") && bool_decide (OurIP6 r = "") then ["SNI-DNS check: cannot detect public IP address"] else
      (if negb (bool_decide (ResolvedIP4 r = [])) && negb (bool_decide (OurIP4 r ∈ ResolvedIP4 r)) then ["SNI-DNS check: address mismatch"] else []) ++
      (if negb (bool_decide (ResolvedIP6 r = [])) && negb (bool_decide (OurIP6 r ∈ ResolvedIP6 r)) then ["SNI-DNS check: address mismatch"] else [])
  end.

(** ** doctor.go *)

(** The deprecated options that are set. *)
Definition deprecatedOptions (conf : Config) : list string :=
  (match c_DomainFrontingIP conf with [] => [] | _ => ["domain-fronting-ip"] end) ++
  (match c_DomainFronting_IP conf with [] => [] | _ => ["ip"] end) ++
  (if c_DomainFrontingPort conf =? 0 then [] else ["domain-fronting-port"]) ++
  (if c_DomainFrontingProxyProtocol conf then ["domain-fronting-proxy-protocol"] else []) ++
  (match c_DOHIP conf with [] => [] | _ => ["doh-ip"] end).

Definition checkDeprecatedConfig (conf : Config) : bool := bool_decide (deprecatedOptions conf = []).

(** The drift as a share of what is tolerated, in floating point. *)
Inductive skewVerdict := SkewFine | SkewWarning | SkewBad.

#[export] Instance skewVerdict_eq_dec : EqDecision skewVerdict.
Proof. solve_decision. Defined.

Definition skew_verdict (clockOffset confValue : Z) : skewVerdict :=
  let diff := fdiv (float_of (DurationAbs clockOffset)) (float_of confValue) in
  if SpecFloat.SFltb diff (fdiv (float_of 3) (float_of 10)) then SkewFine
  else if SpecFloat.SFltb diff (fdiv (float_of 7) (float_of 10)) then SkewWarning
  else SkewBad.

(** [offset] is the answer of the NTP server. *)
Definition checkTimeSkewness (conf : Config) (offset : res Z) : bool :=
  match offset with
  | Fail _ => false
  | Ok offset => bool_decide (skew_verdict offset (TypeDuration_Get (c_TolerateTimeSkewness conf) DefaultTolerateTimeSkewness) = SkewFine)
  end.

(** The addresses of a data centre that are tried; [None] is the panic for an
    address that cannot be split. *)
Definition checkAddresses (preferIP : string) (addresses : list string) : option (list string) :=
  let keep (v4 : bool) :=
    hosts ← mapM (fun addr => match SplitHostPort addr with Ok (host, _) => Some (addr, host) | Fail _ => None end) addresses;
    Some (fst <$> List.filter (fun '(_, host) => match ParseIP host with
                                                  | Some ip => Bool.eqb v4 (negb (bool_decide (To4 ip = [])))
                                                  | None => false
                                                  end) hosts) in
  if bool_decide (preferIP = "only-ipv4") then keep true
  else if bool_decide (preferIP = "only-ipv6") then keep false
  else Some addresses.

(** The loop over the addresses: the first that answers the probe; [dial] and
    [probe] are the network and the data centre. *)
Fixpoint probe_addresses (dial : string -> res nat) (probe : nat -> res Z) (addrs : list string) (lastErr : goerr) : res Z :=
  match addrs with
  | [] => Fail lastErr
  | addr :: addrs =>
      match dial addr with
      | Fail e => probe_addresses dial probe addrs (Wrap "tcp connect" e)
      | Ok conn =>
          match probe conn with
          | Fail e => probe_addresses dial probe addrs (Wrap "rpc handshake" e)
          | Ok rtt => Ok rtt
          end
      end
  end.

Definition checkNetworkAddresses (conf : Config) (dial : string -> res nat) (probe : nat -> res Z) (addresses : list string) : option (res Z) :=
  l ← checkAddresses (TypePreferIP_Get (c_PreferIP conf) "prefer-ip4") addresses;
  Some (match l with
        | [] => Fail (Errorf "no suitable addresses after IP version filtering")
        | _ => probe_addresses dial probe l (Errorf "nil")
        end).

(** A panic of a goroutine is turned into an error. *)
Definition checkNetwork (conf : Config) (dial : string -> res nat) (probe : nat -> res Z) : bool :=
  forallb (fun kv => match checkNetworkAddresses conf dial probe kv.2 with Some (Ok _) => true | _ => false end)
    (map_to_list TelegramCoreAddresses).

Definition frontingAddress (conf : Config) : string :=
  let sniHost := getFirstSecretHost conf in
  let override := GetDomainFrontingHost conf in
  let dialHost := if bool_decide (override = "") then sniHost else override in
  JoinHostPort dialHost (Itoa (GetDomainFrontingPort conf DefaultDomainFrontingPort)).

(** [dial] and [handshake] (with the name that is sent) are the fronting host's
    answers. *)
Definition checkFrontingDomain (conf : Config) (dial : string -> bool) (handshake : string -> string -> bool) : bool :=
  let address := frontingAddress conf in
  if negb (dial address) then false
  else if GetDomainFrontingProxyProtocol conf false then true
  else handshake address (getFirstSecretHost conf).

Definition checkSecretHost (conf : Config) (resolve : string -> res (list (list byte))) (getIP : string -> list byte) : bool :=
  match runSNICheck conf (resolve (getFirstSecretHost conf)) getIP with
  | Fail _ => false
  | Ok r =>
      if bool_decide (OurIP4 r = "") && bool_decide (OurIP6 r = "") then false else
      (bool_decide (ResolvedIP4 r = []) || bool_decide (OurIP4 r ∈ ResolvedIP4 r)) &&
      (bool_decide (ResolvedIP6 r = []) || bool_decide (OurIP6 r ∈ ResolvedIP6 r))
  end.

(** [Doctor.Run]: an error, or whether everything was fine; the process exits
    with status 1 when it was not.  [dial] and [probe] are what the data centres
    answer over a network, directly or through a proxy. *)
Section doctor.
Context `{ConfigEnv}.
Variables (NewResolver : resolver -> res ()) (proxy_FromURL : URL -> res ()).
Variables (dial : v2network -> option URL -> string -> res nat) (probe : nat -> res Z).
Variables (fronting_dial : string -> bool) (handshake : string -> string -> bool).
Variables (resolve : string -> res (list (list byte))) (getIP : string -> list byte).

Fixpoint checkProxies (conf : Config) (base : v2network) (proxies : list URL) (everythingOK : bool) : res bool :=
  match proxies with
  | [] => Ok everythingOK
  | u :: proxies =>
      _ ← wrap_err "cannot build proxy dialer" (proxy_FromURL u);
      checkProxies conf base proxies (checkNetwork conf (dial base (Some u)) probe && everythingOK)
  end.

Definition Doctor_Run (read : res Config) (skipNativeCheck : bool) (offset : res Z) : res bool :=
  conf ← wrap_err "cannot init config" read;
  let ok := checkDeprecatedConfig conf in
  let ok := checkTimeSkewness conf offset && ok in
  r ← wrap_err "cannot create DNS resolver" (GetDNS NewResolver (Config_GetDNS conf));
  let base := base_network r (TypeDuration_Get (c_Timeout_TCP conf) (10 * Second)) conf in
  let ok := if skipNativeCheck then ok else checkNetwork conf (dial base None) probe && ok in
  ok ← checkProxies conf base (c_Proxies conf) ok;
  let ok := checkFrontingDomain conf fronting_dial handshake && ok in
  Ok (checkSecretHost conf resolve getIP && ok).
End doctor.

(** ** access.go *)

(** [url.QueryEscape]. *)
Definition unreserved (c : Ascii.ascii) : bool :=
  let n := ord c in
  ((97 <=? n) && (n <=? 122)) || ((65 <=? n) && (n <=? 90)) || ((48 <=? n) && (n <=? 57)) ||
  bool_decide (n ∈ [45; 95; 46; 126]).

Definition hex_upper (n : Z) : Ascii.ascii := if n <? 10 then chr (48 + n) else chr (55 + n).

Fixpoint QueryEscape (s : string) : string :=
  match s with
  | EmptyString => ""
  | String c s =>
      if unreserved c then String c (QueryEscape s)
      else if ord c =? 32 then String "+"%char (QueryEscape s)
      else String "%"%char (String (hex_upper (ord c / 16)) (String (hex_upper (ord c mod 16)) (QueryEscape s)))
  end.

(** [Values.Encode] of single values, in the order of the keys. *)
Definition encode_values (l : list (string * string)) : string :=
  String.concat "&" ((fun '(k, v) => (QueryEscape k ++ "=" ++ QueryEscape v)%string) <$> l).

Definition MakeQRCodeURL (data : string) : string :=
  ("https://api.qrserver.com/v1/create-qr-code?" ++ encode_values [("data", data); ("format", "svg"); ("qzone", "4")])%string.

Record accessResponseURLs := mkURLs { ar_IP : list byte; ar_Port : Z; TgURL : string; TgQrCode : string; TmeURL : string; TmeQrCode : string }.

(** [port] and [hex] are flags of the command. *)
Definition makeURLs (conf : Config) (port : Z) (hex : bool) (ip : list byte) : option accessResponseURLs :=
  match ip with
  | [] => None
  | _ =>
      let portNo := if port =? 0 then GetFirstBindPort conf else port in
      let secret := firstSecret conf in
      let query := encode_values [("port", Itoa portNo); ("secret", if hex then Hex secret else Base64 secret); ("server", IP_String ip)] in
      let tg := ("tg://proxy?" ++ query)%string in
      let tme := ("https://t.me/proxy?" ++ query)%string in
      Some (mkURLs ip portNo tg (MakeQRCodeURL tg) tme (MakeQRCodeURL tme))
  end.

Record accessResponse := mkAccess {
  ar_IPv4 : option accessResponseURLs;
  ar_IPv6 : option accessResponseURLs;
  ar_Secret : string * string;             (* hex, base64 *)
  ar_Secrets : gmap string (string * string)
}.

(** [Access.Run] up to the printing: [ip4] and [ip6] are flags, [getIP] as
    above.  [network] is the error of [makeNetwork], whose result is only used by
    [getIP]. *)
Definition Access_Run (read : res Config) (network : res ()) (ip4 ip6 : list byte) (port : Z) (hex : bool)
    (getIP : string -> list byte) : res accessResponse :=
  conf ← wrap_err "cannot init config" read;
  let secrets := GetSecrets conf in
  let both s := (Hex s, Base64 s) in
  let first := match sort_Strings (map_names secrets) with
               | [] => ("", "")
               | name :: _ => both (default zeroSecret (secrets !! name))
               end in
  _ ← wrap_err "cannot init network" network;
  let address flag configured protocol (to : list byte -> list byte) :=
    let ip := match flag with [] => match TypeIP_Get configured [] with [] => getIP protocol | ip => ip end | _ => flag end in
    match ip with [] => None | _ => makeURLs conf port hex (to ip) end in
  Ok (mkAccess (address ip4 (c_PublicIPv4 conf) "tcp4" To4) (address ip6 (c_PublicIPv6 conf) "tcp6" To16) first
        (if (1 <? size secrets)%nat then both <$> secrets else ∅)).

(** generate_secret.go *)
Definition GenerateSecret_Run (rnd : list byte) (hostname : string) (hex : bool) : string :=
  let secret := GenerateSecret rnd hostname in if hex then Hex secret else Base64 secret.

(** ** simple_run.go *)

Record SimpleRun := mkSimple {
  sr_BindTo : string; sr_Secret : string; sr_Debug : bool; sr_Concurrency : Z; sr_PreferIP : string;
  sr_DomainFrontingPort : Z; sr_DomainFrontingHost : string; sr_DomainFrontingIP : string; sr_DOHIP : list byte;
  sr_Timeout : Z; sr_Socks5Proxies : list string; sr_AntiReplayCacheSize : string; sr_ProxyProtocolListener : bool
}.

(** The configuration that is run, without a file and without the environment. *)
Definition SimpleRun_Run `{ConfigEnv} (s : SimpleRun) : res Config :=
  bind ← wrap_err "incorrect bind-to parameter" (TypeHostPort_Set (sr_BindTo s));
  secret ← (match Secret_Set zeroSecret (sr_Secret s) with (x, None) => Ok x | (_, Some e) => Fail (Wrap "incorrect secret" e) end);
  concurrency ← wrap_err "incorrect concurrency" (TypeConcurrency_Set (Itoa (sr_Concurrency s)));
  preferIP ← wrap_err "incorrect prefer-ip" (TypePreferIP_Set (sr_PreferIP s));
  frontingPort ← wrap_err "incorrect domain-fronting-port" (TypePort_Set (Itoa (sr_DomainFrontingPort s)));
  frontingHost ← (if bool_decide (sr_DomainFrontingHost s = "") then Ok ""
                  else wrap_err "incorrect domain-fronting-host" (TypeHost_Set (sr_DomainFrontingHost s)));
  frontingIP ← (if bool_decide (sr_DomainFrontingIP s = "") then Ok []
                else wrap_err "incorrect domain-fronting-ip" (TypeIP_Set (sr_DomainFrontingIP s)));
  dohIP ← wrap_err "incorrect doh-ip" (TypeIP_Set (IP_String (sr_DOHIP s)));
  tcp ← wrap_err "incorrect timeout" (TypeDuration_Set (Duration_String (sr_Timeout s)));
  http ← wrap_err "incorrect timeout" (TypeDuration_Set (Duration_String (sr_Timeout s)));
  idle ← wrap_err "incorrect timeout" (TypeDuration_Set (Duration_String (sr_Timeout s)));
  maxSize ← wrap_err "incorrect antireplay-cache-size" (TypeBytes_Set (sr_AntiReplayCacheSize s));
  proxies ← wrap_err "incorrect socks5 proxy URL" (json_list TypeProxyURL_Set (sr_Socks5Proxies s));
  let conf := mkConf (sr_Debug s) true secret ∅ [] ∅ ∅ "" "" [bind] (sr_ProxyProtocolListener s) preferIP false frontingPort
      frontingIP false 0 concurrency [] [] frontingHost [] 0 false 0 false true maxSize (float_of 0) zeroList zeroList [] 0 0
      false tcp http idle 0 false 0 0 0 dohIP None proxies 0 zeroHostPort 0 0 false zeroHostPort "" "" false zeroHostPort ""
      "" in
  match Validate conf with
  | Some e => Fail (Wrap "invalid result configuration" e)
  | None => Ok conf
  end.

(** ** Proofs *)

Lemma str_le_refl s : str_le s s.
Proof. by destruct (total str_le s s). Qed.

Lemma slices_Min_spec l m : slices_Min l = Some m -> m ∈ l /\ Forall (str_le m) l.
Proof.
  destruct l as [|x l]; [done|]. simpl. intros [= <-]. revert x.
  induction l as [|y l IH]; intros x; simpl; [split; [by left|by constructor; [apply str_le_refl|]]|].
  destruct (String.leb x y) eqn:E.
  - destruct (IH x) as [Hin Hall]. apply Forall_cons in Hall as [Hx Hall]. split.
    + apply elem_of_cons in Hin as [->|Hin]; [by left|]. right. by right.
    + constructor; [done|]. constructor; [|done]. by trans x.
  - destruct (IH y) as [Hin Hall]. split; [by right|]. constructor; [|done]. apply Forall_cons in Hall as [Hy _].
    trans y; [done|]. destruct (String.leb_total x y) as [H|H]; [congruence|exact H].
Qed.

(** The smallest name is the first of the sorted names. *)
Lemma Min_is_first l : slices_Min l = head (sort_Strings l).
Proof.
  destruct (slices_Min l) as [m|] eqn:Hm.
  - destruct (slices_Min_spec _ _ Hm) as [Hin Hall]. pose proof (sort_Strings_perm l) as Hp. pose proof (sort_Strings_sorted l) as Hs.
    destruct (sort_Strings l) as [|x k]; [apply Permutation_nil_l in Hp; subst; by apply elem_of_nil in Hin|]. simpl. f_equal.
    apply (anti_symm str_le).
    + rewrite Forall_forall in Hall. apply Hall. rewrite <-Hp. by left.
    + rewrite <-Hp in Hin. apply elem_of_cons in Hin as [->|Hin]; [apply str_le_refl|].
      apply Sorted_StronglySorted in Hs; [|apply _]. inversion Hs as [|? ? _ Hf]. subst. rewrite Forall_forall in Hf. by apply Hf.
  - destruct l; [done|]. by simpl in Hm.
Qed.

Lemma first_host conf : getFirstSecretHost conf = Host (firstSecret conf).
Proof. unfold getFirstSecretHost, firstSecret. rewrite Min_is_first. by destruct (sort_Strings _). Qed.

Lemma first_host_single conf : c_Secrets conf = ∅ -> getFirstSecretHost conf = Host (c_Secret conf).
Proof.
  intros He. unfold getFirstSecretHost, GetSecrets. rewrite He, map_size_empty. simpl. unfold map_names.
  rewrite dom_singleton_L, elements_singleton. simpl. by rewrite lookup_singleton_eq.
Qed.

(** Every address of the list splits, and each family has one in every data
    centre: the doctor's filter neither panics nor comes up empty. *)
Lemma core_addresses_ok dc addrs preferIP :
  TelegramCoreAddresses !! dc = Some addrs -> exists l, checkAddresses preferIP addrs = Some l /\ l <> [].
Proof.
  intros Hd. assert (forallb (fun kv => forallb (fun p => match checkAddresses p kv.2 with Some (_ :: _) => true | _ => false end)
    ["only-ipv4"; "only-ipv6"; "other"]) (map_to_list TelegramCoreAddresses) = true) as Hall by (vm_compute; reflexivity).
  rewrite forallb_forall in Hall. specialize (Hall (dc, addrs)). rewrite <-list_elem_of_In, elem_of_map_to_list in Hall. specialize (Hall Hd).
  simpl in Hall. rewrite !andb_true_iff in Hall. destruct Hall as (H4 & H6 & Ho & _).
  assert (forall p, (match checkAddresses p addrs with Some (_ :: _) => true | _ => false end) = true ->
    exists l, checkAddresses p addrs = Some l /\ l <> []) as Hx.
  { intros p. destruct (checkAddresses p addrs) as [[|x l]|]; [done| |done]. intros _. by exists (x :: l). }
  destruct (decide (preferIP = "only-ipv4")) as [->|]; [by apply Hx|]. destruct (decide (preferIP = "only-ipv6")) as [->|]; [by apply Hx|].
  unfold checkAddresses. rewrite !bool_decide_false by done. exists addrs. split; [done|]. intros ->. by vm_compute in Ho.
Qed.

(** A simple run serves the one secret of its command line, with the port and
    the concurrency it was given. *)
Lemma SimpleRun_config `{ConfigEnv} s conf :
  0 <= sr_Concurrency s < 2 ^ 64 -> SimpleRun_Run s = Ok conf ->
  Validate conf = None /\ (exists x, Secret_Set zeroSecret (sr_Secret s) = (x, None) /\ GetSecrets conf = {["default" := x]}) /\
  GetConcurrency conf DefaultConcurrency = sr_Concurrency s /\ 1 <= GetFirstBindPort conf <= 65535.
Proof.
  intros Hc Hs. unfold SimpleRun_Run in Hs. res_inv Hs. destruct (Secret_Set zeroSecret (sr_Secret s)) as [x [e|]] eqn:Hx; [done|].
  destruct (Validate _) eqn:Hv; [done|]. injection Hs as <-. simplify_eq. apply (set_legal (Lawful := _)) in Ha as (port & Hsp & _ & Hn & Hz & _).
  assert (a1 = sr_Concurrency s /\ a1 <> 0) as [-> Hne].
  { unfold TypeConcurrency_Set in Ha1. destruct (ParseUint (Itoa (sr_Concurrency s)) 16) as [n|] eqn:Hp; [|done].
    destruct (n =? 0) eqn:E; [done|]. injection Ha1 as <-. zbool. split; [|done].
    pose proof (digits_Itoa (sr_Concurrency s) ltac:(lia)) as [Hd Hne]. unfold ParseUint in Hp. rewrite bool_decide_false, Hd in Hp by done.
    simpl in Hp. destruct (_ <? _); [|done]. by injection Hp. }
  split_and!; [done|exists a0; done| |simpl|simpl].
  - unfold GetConcurrency, TypeConcurrency_Get, get_nonzero. cbn [c_Concurrency]. by rewrite !(proj2 (Z.eqb_neq (sr_Concurrency s) 0) Hne).
  - apply ParseUint_range in Hn. unfold GetFirstBindPort; cbn [c_BindTo]. lia.
  - apply ParseUint_range in Hn. change (2 ^ 16) with 65536 in Hn. unfold GetFirstBindPort; cbn [c_BindTo]. lia.
Qed.

(** The doctor is satisfied exactly when every check is, over every proxy that is
    configured. *)
Lemma checkProxies_spec pf dial probe conf base l b ok :
  checkProxies pf dial probe conf base l b = Ok ok ->
  Forall (fun u => is_ok (pf u) = true) l /\ (ok = true <-> b = true /\ Forall (fun u => checkNetwork conf (dial base (Some u)) probe = true) l).
Proof.
  revert b. induction l as [|u l IH]; simpl; intros b Hc.
  - injection Hc as <-. split; [constructor|]. rewrite Forall_nil. tauto.
  - destruct (pf u) as [[]|e] eqn:Hu; [|done]. simpl in Hc. apply IH in Hc as [Hl Hok]. split; [constructor; [by rewrite Hu|done]|].
    rewrite Hok, andb_true_iff, Forall_cons. tauto.
Qed.

Lemma Doctor_Run_ok `{ConfigEnv} nr pf dial probe fd hs rs gi conf skip offset ok :
  Doctor_Run nr pf dial probe fd hs rs gi (Ok conf) skip offset = Ok ok ->
  exists r, GetDNS nr (Config_GetDNS conf) = Ok r /\
    let base := base_network r (TypeDuration_Get (c_Timeout_TCP conf) (10 * Second)) conf in
    (ok = true) <-> (checkDeprecatedConfig conf = true /\ checkTimeSkewness conf offset = true /\
       (skip = true \/ checkNetwork conf (dial base None) probe = true) /\
       Forall (fun u => checkNetwork conf (dial base (Some u)) probe = true) (c_Proxies conf) /\
       checkFrontingDomain conf fd hs = true /\ checkSecretHost conf rs gi = true).
Proof.
  unfold Doctor_Run. simpl. destruct (GetDNS _ _) as [r|] eqn:Hr; [|done]. simpl.
  destruct (checkProxies _ _ _ _ _ _ _) as [ok'|] eqn:Hp; [|done]. simpl. intros [= <-]. exists r. split; [done|].
  apply checkProxies_spec in Hp as [_ Hok]. rewrite !andb_true_iff, Hok. destruct skip; rewrite ?andb_true_iff; naive_solver.
Qed.

(** ** Claims *)

(** The doctor and the start-up check agree.  For a configuration with one
    unnamed secret that has a host, whatever the resolver and the services that
    tell the public address answer (the same for both), [runProxy] warns about
    the secret's host if and only if the doctor rejects it. *)
Theorem sni_checks_agree conf resolve getIP :
  c_Secrets conf = ∅ -> Host (c_Secret conf) <> "" ->
  warnSNIMismatch conf resolve getIP = [] <-> checkSecretHost conf resolve getIP = true.
Proof.
  intros He Hh. unfold warnSNIMismatch, checkSecretHost. rewrite first_host_single, bool_decide_false by done.
  destruct (runSNICheck _ _ _) as [r|]; [|done]. destruct (bool_decide (OurIP4 r = "") && _); [done|].
  destruct (bool_decide (ResolvedIP4 r = [])), (bool_decide (OurIP4 r ∈ ResolvedIP4 r)), (bool_decide (ResolvedIP6 r = [])),
    (bool_decide (OurIP6 r ∈ ResolvedIP6 r)); simpl; done.
Qed.

(** The doctor examines the address the proxy will use.  The address of the
    fronting host that the doctor dials is the one to which the proxy built from
    the same configuration sends a connection that it does not serve, when that
    connection names the host of the first secret. *)
Theorem doctor_fronting_address `{ConfigEnv} conf configPath read now shuffle localOffset unmarshal read_err fs fx w :
  0 <= c_DomainFronting_Port conf <= 65535 -> 0 <= c_DomainFrontingPort conf <= 65535 ->
  NewProxy now shuffle localOffset unmarshal read_err fs (runProxy_opts conf configPath read) = Ok (fx, w) ->
  frontingAddress conf = domainFrontingAddressForHost fx (getFirstSecretHost conf).
Proof.
  intros H1 H2. unfold NewProxy. destruct (opts_valid _); [done|]. destruct (Telegram_New _); [|done]. intros [= <- _].
  unfold frontingAddress, domainFrontingAddressForHost. cbn [fx_domainFrontingHost fx_domainFrontingPort].
  cbn [runProxy_opts po_DomainFrontingHost]. do 2 f_equal.
  unfold getDomainFrontingPort. cbn [runProxy_opts po_DomainFrontingPort].
  unfold GetDomainFrontingPort, TypePort_Get, get_nonzero, DefaultDomainFrontingPort, int_of_uint.
  repeat case_match; zbool; try lia; rewrite ?swrap_small by lia; lia.
Qed.

(** ** Witnesses *)

Definition demo_single : Config := Config.set_secrets demo_secret ∅ ∅ ∅ demo_conf.

Lemma sni_checks_agree_witness :
  checkSecretHost demo_single (fun _ => Ok [be_split 4 0x01020304]) (fun _ => be_split 4 0x01020304) = true /\
  checkSecretHost demo_single (fun _ => Ok [be_split 4 0x01020304]) (fun _ => be_split 4 0x05060708) = false.
Proof.
  split.
  - apply sni_checks_agree; [done|done|]. vm_compute. reflexivity.
  - apply not_true_is_false. intros Hc. apply sni_checks_agree in Hc; [|done|done]. vm_compute in Hc. discriminate Hc.
Defined.

Lemma doctor_fronting_address_witness :
  exists fx w, NewProxy 0 (fun l => l) (fun _ => 0) (fun _ => Ok ∅) None ∅ (@runProxy_opts demo_config_env demo_single "" (Fail EOF)) = Ok (fx, w) /\
    domainFrontingAddressForHost fx "example.com" = "example.com:443".
Proof.
  destruct (NewProxy 0 (fun l => l) (fun _ => 0) (fun _ => Ok ∅) None ∅ (@runProxy_opts demo_config_env demo_single "" (Fail EOF))) as [[fx w]|e] eqn:Hn.
  - exists fx, w. split; [reflexivity|].
    apply (@doctor_fronting_address demo_config_env demo_single "" (Fail EOF) 0 (fun l => l) (fun _ => 0) (fun _ => Ok ∅) None ∅ fx w) in Hn.
    + assert (getFirstSecretHost demo_single = "example.com") as Hf by (vm_compute; reflexivity). rewrite Hf in Hn. rewrite <-Hn.
      vm_compute. reflexivity.
    + vm_compute. split; congruence.
    + vm_compute. split; congruence.
  - exfalso. revert Hn. unfold NewProxy. rewrite (@runProxy_opts_valid demo_config_env) by (vm_compute; reflexivity). by vm_compute.
Defined.
