(* ===== verification/DoctorReport.v ===== *)
(** * The report of the doctor: internal/cli/doctor.go

    [Cli] models what the doctor decides; here is what it prints.  A line is one
    of the templates of the source with its data, [render] is the text; the
    checks are modelled again with their lines, and the theorem ties the lines
    to the decision and to the exit status.  The text of an error is a
    parameter. *)

From S2P Require Import Prelude Secret GoTime GoStrings GoNet GoDuration HostPort Network ConfigTypes Config DC Server RunProxy Cli.
From Stdlib Require Import Ascii.
Open Scope string_scope.
Open Scope list_scope.
Open Scope Z_scope.

(** ** Lines *)

(** The templates, by the name of their variable without its prefix, and the
    lines that are printed directly. *)
Inductive line :=
  | Heading (s : string)
  | AllGood
  | SkippedNative
  | ProxyHeading (u : URL)
  | TError (description : string) (e : goerr)
  | WDeprecatedConfig (when old old_section new new_section : string)
  | OTimeSkewness (drift value : Z)
  | WTimeSkewness (drift value : Z)
  | ETimeSkewness (drift value : Z)
  | ODCConnect (dc : Z) (rtt : Z)
  | EDCConnect (dc : Z) (e : goerr)
  | ODNSSNIMatch (ip hostname : string)
  | EDNSSNIMatch (hostname : string) (resolved : list string) (ip : string)
  | OFrontingDomain (address : string)
  | EFrontingDomain (address : string) (e : goerr)
  | OFrontingTLS (host : string)
  | EFrontingTLS (host : string) (e : goerr)
  | SFrontingTLS.

(** The lines that begin with a cross, a warning sign or exclamation marks. *)
Definition complaint (l : line) : bool :=
  match l with
  | TError _ _ | WDeprecatedConfig _ _ _ _ _ | WTimeSkewness _ _ | ETimeSkewness _ _ | EDCConnect _ _
  | EDNSSNIMatch _ _ _ | EFrontingDomain _ _ | EFrontingTLS _ _ => true
  | _ => false
  end.

(** [%q] of the names of options, which need no escapes. *)
Definition quote (s : string) : string := (String "034" s ++ String "034" "")%string.

Definition nl : string := String "010" "".

Section render.
Context (error_text : goerr -> string) (url_text : URL -> string).

Definition render (l : line) : string :=
  (match l with
   | Heading s => s
   | AllGood => "  ✅ All good"
   | SkippedNative => "  ⏭ Skipped (--skip-native-check)"
   | ProxyHeading u => "Validate network connectivity with proxy " ++ url_text u
   | TError description e => "  ‼️ " ++ description ++ ": " ++ error_text e
   | WDeprecatedConfig when old old_section new new_section =>
       "  ⚠️ Option " ++ quote old ++
       (if bool_decide (old_section = "") then "" else " from section [" ++ old_section ++ "]") ++
       " is deprecated and will be removed in v" ++ when ++ ". Please use " ++ quote new ++
       (if bool_decide (new_section = "") then "" else " in [" ++ new_section ++ "] section") ++ " instead."
   | OTimeSkewness drift value =>
       "  ✅ Time drift is " ++ Duration_String drift ++ ", but tolerate-time-skewness is " ++ Duration_String value
   | WTimeSkewness drift value =>
       "  ⚠️ Time drift is " ++ Duration_String drift ++ ", but tolerate-time-skewness is " ++ Duration_String value ++ ". Please check ntp."
   | ETimeSkewness drift value =>
       "  ❌ Time drift is " ++ Duration_String drift ++ ", but tolerate-time-skewness is " ++ Duration_String value ++
       ". You will get many rejected connections!"
   | ODCConnect dc rtt => "  ✅ DC " ++ Itoa dc ++ " (rpc " ++ Duration_String rtt ++ ")"
   | EDCConnect dc e => "  ❌ DC " ++ Itoa dc ++ ": " ++ error_text e
   | ODNSSNIMatch ip hostname => "  ✅ IP address " ++ ip ++ " matches secret hostname " ++ hostname
   | EDNSSNIMatch hostname resolved ip =>
       "  ❌ Hostname " ++ hostname ++ " resolves to " ++ String.concat ", " resolved ++ " but public IP is " ++ ip
   | OFrontingDomain address => "  ✅ " ++ address ++ " is reachable"
   | EFrontingDomain address e => "  ❌ " ++ address ++ ": " ++ error_text e
   | OFrontingTLS host => "  ✅ TLS certificate for " ++ host ++ " is valid"
   | EFrontingTLS host e => "  ❌ TLS certificate for " ++ host ++ " is invalid: " ++ error_text e
   | SFrontingTLS =>
       "  ⏭ TLS certificate check skipped: proxy-protocol is enabled (the listener expects a PROXY header that mtg doctor does not send yet)"
   end ++ nl)%string.
End render.

(** ** The checks, with what they print *)

Definition report : Type := list line * bool.

(** A line for each deprecated option that is set. *)
Definition report_deprecated (conf : Config) : report :=
  let lines :=
    (match c_DomainFrontingIP conf with [] => [] | _ => [WDeprecatedConfig "2.3.0" "domain-fronting-ip" "" "host" "domain-fronting"] end) ++
    (match c_DomainFronting_IP conf with [] => [] | _ => [WDeprecatedConfig "2.4.0" "ip" "domain-fronting" "host" "domain-fronting"] end) ++
    (if c_DomainFrontingPort conf =? 0 then [] else [WDeprecatedConfig "2.3.0" "domain-fronting-port" "" "port" "domain-fronting"]) ++
    (if c_DomainFrontingProxyProtocol conf
     then [WDeprecatedConfig "2.3.0" "domain-fronting-proxy-protocol" "" "proxy-protocol" "domain-fronting"] else []) ++
    (match c_DOHIP conf with [] => [] | _ => [WDeprecatedConfig "2.3.0" "doh-ip" "network" "dns" "network"] end) in
  match lines with [] => ([AllGood], true) | _ => (lines, false) end.

Definition report_skewness (conf : Config) (offset : res Z) : report :=
  match offset with
  | Fail e => ([TError "cannot access ntp pool" e], false)
  | Ok offset =>
      let confValue := TypeDuration_Get (c_TolerateTimeSkewness conf) DefaultTolerateTimeSkewness in
      match skew_verdict offset confValue with
      | SkewFine => ([OTimeSkewness offset confValue], true)
      | SkewWarning => ([WTimeSkewness offset confValue], false)
      | SkewBad => ([ETimeSkewness offset confValue], false)
      end
  end.

(** [Duration.Round]: halves away from zero. *)
Definition Duration_Round (d m : Z) : Z :=
  let r := Z.rem d m in
  if d <? 0 then (if - r + - r <? m then d - r else d - r - m)
  else if r + r <? m then d - r else d - r + m.

(** The data centres in the order of their numbers. *)
Definition dc_le (x y : Z * list string) : Prop := x.1 <= y.1.

#[export] Instance dc_le_dec : RelDecision dc_le.
Proof. intros x y. unfold dc_le. apply _. Defined.

Definition sorted_dcs : list (Z * list string) := merge_sort dc_le (map_to_list TelegramCoreAddresses).

(** [panic] is the error into which a panic is turned. *)
Definition report_network (conf : Config) (dial : string -> res nat) (probe : nat -> res Z) (panic : goerr) : report :=
  let result kv := match checkNetworkAddresses conf dial probe kv.2 with Some r => r | None => Fail panic end in
  (map (fun kv => match result kv with
                  | Ok rtt => ODCConnect kv.1 (Duration_Round rtt Microsecond)
                  | Fail e => EDCConnect kv.1 e
                  end) sorted_dcs,
   forallb (fun kv => is_ok (result kv)) sorted_dcs).

(** [probeFrontingTLS]: a second dial, then the handshake with the secret's host
    as the server name. *)
Definition probeFrontingTLS (dial : string -> option goerr) (handshake : string -> option goerr) (address sniHost : string) : option goerr :=
  match dial address with
  | Some e => Some (Wrap "cannot dial" e)
  | None => handshake sniHost
  end.

(** [dial1] and [dial2] are the outcomes of the first and of the second dial. *)
Definition report_fronting (conf : Config) (dial1 dial2 : string -> option goerr) (handshake : string -> option goerr) : report :=
  let sniHost := getFirstSecretHost conf in
  let address := frontingAddress conf in
  match dial1 address with
  | Some e => ([EFrontingDomain address e], false)
  | None =>
      if GetDomainFrontingProxyProtocol conf false then ([OFrontingDomain address; SFrontingTLS], true) else
      match probeFrontingTLS dial2 handshake address sniHost with
      | Some e => ([OFrontingDomain address; EFrontingTLS sniHost e], false)
      | None => ([OFrontingDomain address; OFrontingTLS sniHost], true)
      end
  end.

(** One family of the addresses. *)
Definition report_family (host : string) (resolved : list string) (our : string) : report :=
  match resolved with
  | [] => ([], true)
  | _ => if bool_decide (our ∈ resolved) then ([ODNSSNIMatch our host], true) else ([EDNSSNIMatch host resolved our], false)
  end.

Definition report_host (conf : Config) (resolve : string -> res (list (list byte))) (getIP : string -> list byte) : report :=
  let host := getFirstSecretHost conf in
  match runSNICheck conf (resolve host) getIP with
  | Fail e => ([TError ("cannot resolve DNS name of " ++ host)%string e], false)
  | Ok r =>
      if bool_decide (OurIP4 r = "") && bool_decide (OurIP6 r = "") then
        ([TError "cannot detect public IP address" (Errorf "cannot detect automatically and public-ipv4/public-ipv6 are not set in config")], false)
      else
        let '(l4, ok4) := report_family host (ResolvedIP4 r) (OurIP4 r) in
        let '(l6, ok6) := report_family host (ResolvedIP6 r) (OurIP6 r) in
        (l4 ++ l6, ok4 && ok6)
  end.

(** ** The command *)

Section run.
Context `{ConfigEnv}.
Variables (NewResolver : resolver -> res ()) (proxy_FromURL : URL -> res ()).
Variables (dial : v2network -> option URL -> string -> res nat) (probe : nat -> res Z) (panic : goerr).
Variables (dial1 dial2 : string -> option goerr) (handshake : string -> option goerr).
Variables (resolve : string -> res (list (list byte))) (getIP : string -> list byte).

(** The loop over the proxies: the lines so far and whether all is well, or the
    error that ends the command. *)
Fixpoint report_proxies (conf : Config) (base : v2network) (proxies : list URL) (acc : report) : list line * res bool :=
  match proxies with
  | [] => (acc.1, Ok acc.2)
  | u :: proxies =>
      match wrap_err "cannot build proxy dialer" (proxy_FromURL u) with
      | Fail e => (acc.1, Fail e)
      | Ok _ =>
          let '(l, ok) := report_network conf (dial base (Some u)) probe panic in
          report_proxies conf base proxies (acc.1 ++ ProxyHeading u :: l, ok && acc.2)
      end
  end.

(** [Doctor.Run]: what is printed, and the error or whether everything is well,
    in which case the status is 0 and otherwise 1. *)
Definition Doctor_report (read : res Config) (skipNativeCheck : bool) (offset : res Z) : list line * res bool :=
  match wrap_err "cannot init config" read with
  | Fail e => ([], Fail e)
  | Ok conf =>
      let '(l1, ok1) := report_deprecated conf in
      let '(l2, ok2) := report_skewness conf offset in
      let printed := Heading "Deprecated options" :: l1 ++ Heading "Time skewness" :: l2 in
      match wrap_err "cannot create DNS resolver" (GetDNS NewResolver (Config_GetDNS conf)) with
      | Fail e => (printed, Fail e)
      | Ok r =>
          let base := base_network r (TypeDuration_Get (c_Timeout_TCP conf) (10 * Second)) conf in
          let '(l3, ok3) := if skipNativeCheck then ([SkippedNative], true) else report_network conf (dial base None) probe panic in
          match report_proxies conf base (c_Proxies conf)
                  (printed ++ Heading "Validate native network connectivity" :: l3, ok3 && (ok2 && ok1)) with
          | (printed, Fail e) => (printed, Fail e)
          | (printed, Ok ok4) =>
              let '(l5, ok5) := report_fronting conf dial1 dial2 handshake in
              let '(l6, ok6) := report_host conf resolve getIP in
              (printed ++ Heading "Validate fronting domain connectivity" :: l5 ++ Heading "Validate SNI-DNS match" :: l6,
               Ok (ok6 && (ok5 && ok4)))
          end
      end
  end.
End run.

(** ** Proofs *)

(** A report is honest if its verdict says whether there is a complaint. *)
Definition honest (r : report) : Prop := r.2 = negb (existsb complaint r.1).

Lemma honest_app l1 ok1 l2 ok2 : honest (l1, ok1) -> honest (l2, ok2) -> honest (l1 ++ l2, ok2 && ok1).
Proof. unfold honest. cbn [fst snd]. intros -> ->. rewrite existsb_app, negb_orb. apply andb_comm. Qed.

Lemma honest_heading s l ok : honest (l, ok) -> honest (Heading s :: l, ok).
Proof. done. Qed.

Lemma report_deprecated_spec conf : honest (report_deprecated conf) /\ (report_deprecated conf).2 = checkDeprecatedConfig conf.
Proof.
  unfold report_deprecated, checkDeprecatedConfig, deprecatedOptions, honest.
  destruct (c_DomainFrontingIP conf), (c_DomainFronting_IP conf), (c_DomainFrontingPort conf =? 0), (c_DomainFrontingProxyProtocol conf), (c_DOHIP conf);
    split; reflexivity.
Qed.

Lemma report_skewness_spec conf offset : honest (report_skewness conf offset) /\ (report_skewness conf offset).2 = checkTimeSkewness conf offset.
Proof.
  unfold report_skewness, checkTimeSkewness, honest. destruct offset as [offset|e]; [|done]. cbn zeta.
  by destruct (skew_verdict offset _).
Qed.

Lemma forallb_perm {A} (f : A -> bool) l l' : l ≡ₚ l' -> forallb f l = forallb f l'.
Proof. induction 1; cbn; [done|congruence| |congruence]. by rewrite !andb_assoc, (andb_comm (f _)). Qed.

Lemma forallb_ext' {A} (f g : A -> bool) l : (forall x, f x = g x) -> forallb f l = forallb g l.
Proof. intros H. induction l; cbn; congruence. Qed.

Lemma sorted_dcs_perm : sorted_dcs ≡ₚ map_to_list TelegramCoreAddresses.
Proof. apply merge_sort_Permutation. Qed.

Lemma report_network_spec conf dial probe panic :
  honest (report_network conf dial probe panic) /\ (report_network conf dial probe panic).2 = checkNetwork conf dial probe.
Proof.
  unfold report_network, checkNetwork, honest. cbn [fst snd]. split.
  - induction sorted_dcs as [|kv l IH]; [done|]. cbn [forallb map existsb]. rewrite IH, negb_orb.
    by destruct (checkNetworkAddresses conf dial probe kv.2) as [[rtt|e]|].
  - rewrite (forallb_perm _ _ _ sorted_dcs_perm). apply forallb_ext'. intros kv.
    by destruct (checkNetworkAddresses conf dial probe kv.2) as [[rtt|e]|].
Qed.

Lemma report_fronting_spec conf dial1 dial2 handshake :
  let r := report_fronting conf dial1 dial2 handshake in
  honest r /\ r.2 = checkFrontingDomain conf (fun a => bool_decide (dial1 a = None)) (fun a h => bool_decide (probeFrontingTLS dial2 handshake a h = None)).
Proof.
  unfold report_fronting, checkFrontingDomain, honest. destruct (dial1 _); [done|]. cbn [negb]. rewrite bool_decide_true by done. cbn [negb].
  destruct (GetDomainFrontingProxyProtocol conf false); [done|]. by destruct (probeFrontingTLS _ _ _ _).
Qed.

Lemma report_family_spec host resolved our :
  honest (report_family host resolved our) /\
  (report_family host resolved our).2 = bool_decide (resolved = []) || bool_decide (our ∈ resolved).
Proof.
  unfold report_family, honest. destruct resolved as [|x l]; [done|]. rewrite (bool_decide_false (x :: l = [])) by done.
  by destruct (bool_decide (our ∈ x :: l)).
Qed.

Lemma report_host_spec conf resolve getIP : honest (report_host conf resolve getIP) /\ (report_host conf resolve getIP).2 = checkSecretHost conf resolve getIP.
Proof.
  unfold report_host, checkSecretHost. destruct (runSNICheck _ _ _) as [r|]; [|done]. destruct (_ && _); [done|].
  destruct (report_family_spec (getFirstSecretHost conf) (ResolvedIP4 r) (OurIP4 r)) as [H4 E4].
  destruct (report_family_spec (getFirstSecretHost conf) (ResolvedIP6 r) (OurIP6 r)) as [H6 E6].
  destruct (report_family _ (ResolvedIP4 r) _) as [l4 ok4], (report_family _ (ResolvedIP6 r) _) as [l6 ok6]. cbn [snd] in *.
  subst ok4 ok6. split; [|done]. rewrite andb_comm. by apply honest_app.
Qed.

Lemma report_proxies_spec pf dial probe panic conf base l acc :
  honest acc ->
  let r := report_proxies pf dial probe panic conf base l acc in
  r.2 = checkProxies pf dial probe conf base l acc.2 /\ match r.2 with Ok ok => honest (r.1, ok) | Fail _ => True end.
Proof.
  revert acc. induction l as [|u l IH]; intros [la oka] Ha; cbn [report_proxies checkProxies fst snd]; [done|].
  destruct (wrap_err _ (pf u)) as [[]|e]; [|done]. cbn [mbind res_bind].
  destruct (report_network_spec conf (dial base (Some u)) probe panic) as [Hn En].
  destruct (report_network _ _ _ _) as [ln okn]. cbn [snd] in En. subst okn. apply (IH (la ++ ProxyHeading u :: ln, _)). by apply honest_app.
Qed.

(** The report and the exit status agree.  Whatever the configuration, the
    network, the clock and the name servers answer, the command ends with an
    error exactly as in [Doctor_Run], and otherwise it exits with status 0 if and
    only if no line of its report is a complaint. *)
Theorem doctor_report `{ConfigEnv} nr pf dial probe panic dial1 dial2 handshake resolve getIP read skip offset :
  let r := Doctor_report nr pf dial probe panic dial1 dial2 handshake resolve getIP read skip offset in
  r.2 = Doctor_Run nr pf dial probe (fun a => bool_decide (dial1 a = None)) (fun a h => bool_decide (probeFrontingTLS dial2 handshake a h = None))
          resolve getIP read skip offset /\
  forall ok, r.2 = Ok ok -> ok = negb (existsb complaint r.1).
Proof.
  unfold Doctor_report, Doctor_Run. destruct (wrap_err _ read) as [conf|e]; [|done]. cbn [mbind res_bind].
  destruct (report_deprecated_spec conf) as [H1 E1]. destruct (report_deprecated conf) as [l1 ok1].
  destruct (report_skewness_spec conf offset) as [H2 E2]. destruct (report_skewness conf offset) as [l2 ok2]. cbn [snd] in E1, E2.
  destruct (wrap_err _ (GetDNS _ _)) as [rs|e]; [|done]. cbn [mbind res_bind].
  set (base := base_network _ _ _). set (x := if skip then _ else _).
  assert (honest x /\ x.2 = if skip then true else checkNetwork conf (dial base None) probe) as [H3 E3].
  { unfold x. destruct skip; [done|]. apply report_network_spec. }
  destruct x as [l3 ok3]. cbn [snd] in E3. set (printed := Heading "Deprecated options" :: _).
  assert (honest (printed ++ Heading "Validate native network connectivity" :: l3, ok3 && (ok2 && ok1))) as Hp.
  { apply honest_app; [|done]. apply (honest_heading "Deprecated options"), honest_app; done. }
  destruct (report_proxies_spec pf dial probe panic conf base (c_Proxies conf) _ Hp) as [E4 H4]. cbn [snd] in E4.
  destruct (report_proxies _ _ _ _ _ _ _ _) as [l4 res4]. cbn [fst snd] in *.
  assert ((if skip then checkTimeSkewness conf offset && checkDeprecatedConfig conf
           else checkNetwork conf (dial base None) probe && (checkTimeSkewness conf offset && checkDeprecatedConfig conf)) = ok3 && (ok2 && ok1)) as ->
    by (subst; by destruct skip).
  rewrite <-E4. destruct res4 as [ok4|e]; [|done]. cbn [mbind res_bind].
  destruct (report_fronting_spec conf dial1 dial2 handshake) as [H5 E5]. destruct (report_fronting _ _ _ _) as [l5 ok5].
  destruct (report_host_spec conf resolve getIP) as [H6 E6]. destruct (report_host _ _ _) as [l6 ok6]. cbn [fst snd] in *. subst ok5 ok6.
  split; [done|]. intros ok Hok. injection Hok as <-. rewrite andb_assoc.
  apply (honest_app l4 ok4 (_ :: l5 ++ _ :: l6) _ H4), honest_heading, (honest_app l5 _ (_ :: l6) _ H5), honest_heading, H6.
Qed.

(** ** Examples *)

Example dcs_order : map fst sorted_dcs = [1; 2; 3; 4; 5; 203].
Proof. vm_compute. reflexivity. Qed.

Example rounding : (Duration_Round 1500 Microsecond, Duration_Round 1499 Microsecond, Duration_Round (-1500) Microsecond) = (2000, 1000, -2000).
Proof. vm_compute. reflexivity. Qed.

Example deprecated_line :
  render (fun _ => "") (fun _ => "") (WDeprecatedConfig "2.3.0" "doh-ip" "network" "dns" "network") =
  ("  ⚠️ Option " ++ quote "doh-ip" ++ " from section [network] is deprecated and will be removed in v2.3.0. Please use " ++ quote "dns" ++
   " in [network] section instead." ++ nl)%string.
Proof. vm_compute. reflexivity. Qed.

Example dc_line : render (fun _ => "") (fun _ => "") (ODCConnect 2 (Duration_Round 41234567 Microsecond)) = ("  ✅ DC 2 (rpc 41.235ms)" ++ nl)%string.
Proof. vm_compute. reflexivity. Qed.
